(** * stb_json: a shallow embedding of the single-header JSON library

    The development follows [src/stb_json.h]: the value tree, the accessors,
    the number parser and printer, the recursive-descent parser, the
    serializer, the minifier, the comparators, the patch and merge-patch
    engines, and the linked child list with its circular [prev] pointer. *)

From Stdlib Require Import ZArith List Ascii String Bool Lia.
From Stdlib Require Import Floats.SpecFloat.
From stdpp Require Import base option list gmap.
Import ListNotations.
Local Open Scope Z_scope.

(** ** Bytes and C strings *)

(** A C string is the list of its bytes before the terminating NUL. *)
Definition code (c : ascii) : Z := Z.of_N (N_of_ascii c).

Definition lit (s : String.string) : list ascii := list_ascii_of_string s.

Definition is_digit (c : ascii) : bool := (48 <=? code c) && (code c <=? 57).

(** [tolower] of <ctype.h> in the C locale. *)
Definition tolower (c : ascii) : Z :=
  if (65 <=? code c) && (code c <=? 90) then code c + 32 else code c.

(** [strcmp]: the difference of the first pair of differing bytes. *)
Fixpoint strcmp (s1 s2 : list ascii) : Z :=
  match s1, s2 with
  | [], [] => 0
  | [], c2 :: _ => 0 - code c2
  | c1 :: _, [] => code c1
  | c1 :: t1, c2 :: t2 =>
      if code c1 =? code c2 then strcmp t1 t2 else code c1 - code c2
  end.

Fixpoint case_insensitive_loop (s1 s2 : list ascii) : Z :=
  match s1, s2 with
  | [], [] => 0
  | [], c2 :: _ => 0 - tolower c2
  | c1 :: _, [] => tolower c1
  | c1 :: t1, c2 :: t2 =>
      if tolower c1 =? tolower c2 then case_insensitive_loop t1 t2
      else tolower c1 - tolower c2
  end.

(** NULL arguments compare as different. *)
Definition case_insensitive_strcmp (s1 s2 : option (list ascii)) : Z :=
  match s1, s2 with
  | Some x, Some y => case_insensitive_loop x y
  | _, _ => 1
  end.

(** ** Doubles: IEEE-754 binary64 *)

Definition double := spec_float.

Definition d_add : double -> double -> double := SFadd 53 1024.
Definition d_sub : double -> double -> double := SFsub 53 1024.
Definition d_mul : double -> double -> double := SFmul 53 1024.
Definition d_div : double -> double -> double := SFdiv 53 1024.
Definition fabs : double -> double := SFabs.
Definition d_eqb : double -> double -> bool := SFeqb.
Definition d_ltb : double -> double -> bool := SFltb.
Definition d_leb : double -> double -> bool := SFleb.

Definition isnan (d : double) : bool :=
  match d with S754_nan => true | _ => false end.
Definition isinf (d : double) : bool :=
  match d with S754_infinity _ => true | _ => false end.

Definition NAN : double := S754_nan.

(** [DBL_EPSILON] is 2^-52. *)
Definition DBL_EPSILON : double := S754_finite false 4503599627370496 (-104).

Definition INT_MAX : Z := 2147483647.
Definition INT_MIN : Z := -2147483648.

(** The conversion [(double)n] of an integer; exact below 2^53. *)
Definition double_of_int (n : Z) : double := binary_normalize 53 1024 n 0 false.

(** The conversion [(int)d]: truncation toward zero.  The source only
    reaches it with [INT_MIN < d < INT_MAX] or with a NaN; C leaves the
    latter undefined and the embedding returns [INT_MIN] there, the value
    the x86 conversion instruction produces. *)
Definition int_of_double (d : double) : Z :=
  match d with
  | S754_zero _ => 0
  | S754_finite s m e =>
      let v := if 0 <=? e then Z.pos m * 2 ^ e else Z.pos m / 2 ^ (- e) in
      if s then - v else v
  | _ => INT_MIN
  end.

(** The saturating integer projection shared by [parse_number],
    [stb_json_setnumberhelper] and [stb_json_createnumber]. *)
Definition saturate (number : double) : Z :=
  if d_leb (double_of_int INT_MAX) number then INT_MAX
  else if d_leb number (double_of_int INT_MIN) then INT_MIN
  else int_of_double number.

(** Wrap-around of a value stored in a 32-bit [int]. *)
Definition wrap_int (z : Z) : Z := (z + 2147483648) mod 4294967296 - 2147483648.

(** ** The value tree *)

Definition STB_JSON_INVALID : Z := 0.
Definition STB_JSON_FALSE : Z := 1.
Definition STB_JSON_TRUE : Z := 2.
Definition STB_JSON_NULL : Z := 4.
Definition STB_JSON_NUMBER : Z := 8.
Definition STB_JSON_STRING : Z := 16.
Definition STB_JSON_ARRAY : Z := 32.
Definition STB_JSON_OBJECT : Z := 64.
Definition STB_JSON_RAW : Z := 128.
Definition STB_JSON_IS_REFERENCE : Z := 256.
Definition STB_JSON_STRING_IS_CONST : Z := 512.

(** [struct stb_json].  The sibling links [next] and [prev] are the
    positions in the parent's child list: [child] holds the nodes
    [child, child->next, child->next->next, ...] in order.  The links
    themselves are modelled in module [Mem] below. *)
Unset Elimination Schemes.
Inductive stb_json : Type := mk_json {
  child : list stb_json;
  type : Z;
  valuestring : option (list ascii);
  valueint : Z;
  valuedouble : double;
  string : option (list ascii) }.
Set Elimination Schemes.

(** The node [stb_json_new_item] returns: all fields zero. *)
Definition stb_json_new_item : stb_json :=
  mk_json [] 0 None 0 (S754_zero false) None.

Definition set_child (i : stb_json) (c : list stb_json) : stb_json :=
  mk_json c (type i) (valuestring i) (valueint i) (valuedouble i) (string i).
Definition set_type (i : stb_json) (t : Z) : stb_json :=
  mk_json (child i) t (valuestring i) (valueint i) (valuedouble i) (string i).
Definition set_valuestring (i : stb_json) (s : option (list ascii)) : stb_json :=
  mk_json (child i) (type i) s (valueint i) (valuedouble i) (string i).
Definition set_valueint (i : stb_json) (n : Z) : stb_json :=
  mk_json (child i) (type i) (valuestring i) n (valuedouble i) (string i).
Definition set_valuedouble (i : stb_json) (d : double) : stb_json :=
  mk_json (child i) (type i) (valuestring i) (valueint i) d (string i).
Definition set_string (i : stb_json) (s : option (list ascii)) : stb_json :=
  mk_json (child i) (type i) (valuestring i) (valueint i) (valuedouble i) s.

(** [item->type & 0xFF] *)
Definition kind (i : stb_json) : Z := Z.land (type i) 255.

(** ** Type predicates and accessors; a pointer argument is an [option],
    with [None] for NULL *)

Definition stb_json_isinvalid (item : option stb_json) : bool :=
  match item with None => false | Some i => kind i =? STB_JSON_INVALID end.
Definition stb_json_isfalse (item : option stb_json) : bool :=
  match item with None => false | Some i => kind i =? STB_JSON_FALSE end.
Definition stb_json_istrue (item : option stb_json) : bool :=
  match item with None => false | Some i => kind i =? STB_JSON_TRUE end.
Definition stb_json_isbool (item : option stb_json) : bool :=
  match item with
  | None => false
  | Some i => negb (Z.land (type i) (Z.lor STB_JSON_FALSE STB_JSON_TRUE) =? 0)
  end.
Definition stb_json_isnull (item : option stb_json) : bool :=
  match item with None => false | Some i => kind i =? STB_JSON_NULL end.
Definition stb_json_isnumber (item : option stb_json) : bool :=
  match item with None => false | Some i => kind i =? STB_JSON_NUMBER end.
Definition stb_json_isstring (item : option stb_json) : bool :=
  match item with None => false | Some i => kind i =? STB_JSON_STRING end.
Definition stb_json_isarray (item : option stb_json) : bool :=
  match item with None => false | Some i => kind i =? STB_JSON_ARRAY end.
Definition stb_json_isobject (item : option stb_json) : bool :=
  match item with None => false | Some i => kind i =? STB_JSON_OBJECT end.
Definition stb_json_israw (item : option stb_json) : bool :=
  match item with None => false | Some i => kind i =? STB_JSON_RAW end.

Definition stb_json_getstringvalue (item : option stb_json) : option (list ascii) :=
  if negb (stb_json_isstring item) then None
  else match item with Some i => valuestring i | None => None end.

Definition stb_json_getnumbervalue (item : option stb_json) : double :=
  if negb (stb_json_isnumber item) then NAN
  else match item with Some i => valuedouble i | None => NAN end.

Definition stb_json_getnumberint (item : option stb_json) : Z :=
  if negb (stb_json_isnumber item) then 0
  else match item with Some i => valueint i | None => 0 end.

Definition stb_json_getnumberdouble (item : option stb_json) : double :=
  if negb (stb_json_isnumber item) then NAN
  else match item with Some i => valuedouble i | None => NAN end.

(** The loop counts the children in a [size_t]; the result is cast to [int]. *)
Definition stb_json_getarraysize (array : option stb_json) : Z :=
  match array with
  | None => 0
  | Some a => wrap_int (Z.of_nat (length (child a)))
  end.

Definition get_array_item (array : option stb_json) (index : nat) : option stb_json :=
  match array with
  | None => None
  | Some a => nth_error (child a) index
  end.

Definition stb_json_getarrayitem (array : option stb_json) (index : Z) : option stb_json :=
  if index <? 0 then None else get_array_item array (Z.to_nat index).

(** ** Constructors *)

Definition stb_json_createnull : stb_json := set_type stb_json_new_item STB_JSON_NULL.
Definition stb_json_createtrue : stb_json := set_type stb_json_new_item STB_JSON_TRUE.
Definition stb_json_createfalse : stb_json := set_type stb_json_new_item STB_JSON_FALSE.
Definition stb_json_createbool (b : bool) : stb_json :=
  set_type stb_json_new_item (if b then STB_JSON_TRUE else STB_JSON_FALSE).
Definition stb_json_createnumber (num : double) : stb_json :=
  set_valueint (set_valuedouble (set_type stb_json_new_item STB_JSON_NUMBER) num)
    (saturate num).
Definition stb_json_createstring (s : list ascii) : stb_json :=
  set_valuestring (set_type stb_json_new_item STB_JSON_STRING) (Some s).
Definition stb_json_createraw (s : list ascii) : stb_json :=
  set_valuestring (set_type stb_json_new_item STB_JSON_RAW) (Some s).
Definition stb_json_createarray : stb_json := set_type stb_json_new_item STB_JSON_ARRAY.
Definition stb_json_createobject : stb_json := set_type stb_json_new_item STB_JSON_OBJECT.

(** ** Comparison of doubles *)

Definition compare_double (a b : double) : bool :=
  let maxVal := if d_ltb (fabs b) (fabs a) then fabs a else fabs b in
  d_leb (fabs (d_sub a b)) (d_mul maxVal DBL_EPSILON).

(** ** The stand-alone comparator *)

(** The loops of [stb_json_compare] over the children of two arrays and of
    two objects, with the recursive call as a parameter.  The result is
    [None] where the C code dereferences a NULL key in [strcmp]; otherwise
    it is the returned boolean. *)
Section CompareChildren.
Variable compare : stb_json -> stb_json -> option bool.
Variable case_sensitive : bool.

Fixpoint compare_elements (la lb : list stb_json) {struct la} : option bool :=
  match la, lb with
  | a_element :: la', b_element :: lb' =>
      match compare a_element b_element with
      | Some true => compare_elements la' lb'
      | r => r
      end
  | [], [] => Some true
  | _, _ => Some false
  end.

Fixpoint compare_members (la lb : list stb_json) {struct la} : option bool :=
  match la, lb with
  | a_element :: la', b_element :: lb' =>
      let keys :=
        if case_sensitive then
          match string a_element, string b_element with
          | Some x, Some y => Some (strcmp x y)
          | _, _ => None
          end
        else Some (case_insensitive_strcmp (string a_element) (string b_element)) in
      match keys with
      | None => None
      | Some k =>
          if negb (k =? 0) then Some false
          else
            match compare a_element b_element with
            | Some true => compare_members la' lb'
            | r => r
            end
      end
  | [], [] => Some true
  | _, _ => Some false
  end.
End CompareChildren.

Section Compare.
(** [same_node a b] stands for the pointer test [a == b]: it holds exactly
    when the two arguments are one and the same node in memory. *)
Variable same_node : stb_json -> stb_json -> bool.

Fixpoint compare_nodes (a b : stb_json) (case_sensitive : bool) {struct a}
  : option bool :=
  if negb (kind a =? kind b) then Some false
  else if same_node a b then Some true
  else if (kind a =? STB_JSON_FALSE) || (kind a =? STB_JSON_TRUE)
          || (kind a =? STB_JSON_NULL) then Some true
  else if kind a =? STB_JSON_NUMBER then
    Some (compare_double (valuedouble a) (valuedouble b))
  else if (kind a =? STB_JSON_STRING) || (kind a =? STB_JSON_RAW) then
    match valuestring a, valuestring b with
    | Some x, Some y => Some (strcmp x y =? 0)
    | _, _ => Some false
    end
  else if kind a =? STB_JSON_ARRAY then
    compare_elements (fun x y => compare_nodes x y case_sensitive) (child a) (child b)
  else if kind a =? STB_JSON_OBJECT then
    compare_members (fun x y => compare_nodes x y case_sensitive) case_sensitive
      (child a) (child b)
  else Some false.

Definition stb_json_compare (a b : option stb_json) (case_sensitive : bool)
  : option bool :=
  match a, b with
  | Some x, Some y => compare_nodes x y case_sensitive
  | _, _ => Some false
  end.
End Compare.

(** ** Results of fallible operations *)

(** [Done] carries the result of a call that returned true (or non-NULL),
    [Failed] stands for a call that returned false (or NULL), and [Timeout]
    is the embedding's own outcome for a recursion that ran out of fuel. *)
Inductive outcome (A : Type) : Type :=
  | Done (a : A)
  | Failed
  | Timeout.
Arguments Done {A} a.
Arguments Failed {A}.
Arguments Timeout {A}.

Definition bind {A B : Type} (c : outcome A) (k : A -> outcome B) : outcome B :=
  match c with
  | Done a => k a
  | Failed => Failed
  | Timeout => Timeout
  end.

(** ** The parse buffer *)

(** [length] of the C structure is the length of [content]: the buffer is
    exactly the bytes handed to the parser (for [stb_json_parse] the text
    and its terminating NUL).  The allocator hooks are not modelled:
    allocation succeeds. *)
Record parse_buffer : Type := mk_parse_buffer {
  content : list ascii;
  offset : nat;
  depth : nat }.

Definition set_offset (b : parse_buffer) (o : nat) : parse_buffer :=
  mk_parse_buffer (content b) o (depth b).
Definition set_depth (b : parse_buffer) (d : nat) : parse_buffer :=
  mk_parse_buffer (content b) (offset b) d.

Definition can_read (b : parse_buffer) (size : nat) : bool :=
  Nat.leb (offset b + size) (length (content b)).
Definition can_access_at_index (b : parse_buffer) (index : nat) : bool :=
  Nat.ltb (offset b + index) (length (content b)).
Definition cannot_access_at_index (b : parse_buffer) (index : nat) : bool :=
  negb (can_access_at_index b index).

(** [buffer_at_offset(b)[index]], [None] outside the buffer. *)
Definition buffer_at_offset (b : parse_buffer) (index : nat) : option ascii :=
  nth_error (content b) (offset b + index).

(** [can_access_at_index(b, index) && buffer_at_offset(b)[index] == c] *)
Definition at_is (b : parse_buffer) (index : nat) (c : ascii) : bool :=
  can_access_at_index b index &&
  match buffer_at_offset b index with
  | Some x => Ascii.eqb x c
  | None => false
  end.

(** [strncmp(buffer_at_offset(b), s, strlen(s)) == 0] for a literal [s]
    without NUL, guarded by [can_read]. *)
Fixpoint prefix_eqb (s l : list ascii) : bool :=
  match s, l with
  | [], _ => true
  | c :: s', x :: l' => Ascii.eqb c x && prefix_eqb s' l'
  | _ :: _, [] => false
  end.

Definition starts_with (b : parse_buffer) (s : list ascii) : bool :=
  can_read b (length s) && prefix_eqb s (skipn (offset b) (content b)).

(** ** The number parser *)

Section Numbers.
(** [pow10 n] stands for [pow(10.0, n)] of <math.h>. *)
Variable pow10 : Z -> double.

Definition ten : double := double_of_int 10.

Fixpoint strtod_integer (value : double) (p : list ascii) : double * list ascii :=
  match p with
  | c :: p' =>
      if is_digit c
      then strtod_integer (d_add (d_mul value ten) (double_of_int (code c - 48))) p'
      else (value, p)
  | [] => (value, p)
  end.

Fixpoint strtod_fraction (fraction frac_divisor : double) (p : list ascii)
  : double * double * list ascii :=
  match p with
  | c :: p' =>
      if is_digit c
      then strtod_fraction (d_add (d_mul fraction ten) (double_of_int (code c - 48)))
                           (d_mul frac_divisor ten) p'
      else (fraction, frac_divisor, p)
  | [] => (fraction, frac_divisor, p)
  end.

(** [exponent] is an [int]; its overflow is written as wrap-around. *)
Fixpoint strtod_exponent (exponent : Z) (p : list ascii) : Z * list ascii :=
  match p with
  | c :: p' =>
      if is_digit c
      then strtod_exponent (wrap_int (exponent * 10 + (code c - 48))) p'
      else (exponent, p)
  | [] => (exponent, p)
  end.

(** [stb_json_strtod nptr] returns the value and [endptr - nptr]. *)
Definition stb_json_strtod (nptr : list ascii) : double * nat :=
  let '(sign, p) :=
    match nptr with
    | c :: p' =>
        if Ascii.eqb c "-" then (double_of_int (-1), p')
        else if Ascii.eqb c "+" then (double_of_int 1, p')
        else (double_of_int 1, nptr)
    | [] => (double_of_int 1, nptr)
    end in
  let '(value, p) := strtod_integer (S754_zero false) p in
  let '(fraction, frac_divisor, p) :=
    match p with
    | c :: p' =>
        if Ascii.eqb c "." then strtod_fraction (S754_zero false) (double_of_int 1) p'
        else (S754_zero false, double_of_int 1, p)
    | [] => (S754_zero false, double_of_int 1, p)
    end in
  let '(exponent, exp_sign, p) :=
    match p with
    | c :: p' =>
        if Ascii.eqb c "e" || Ascii.eqb c "E" then
          let '(exp_sign, p'') :=
            match p' with
            | s :: q =>
                if Ascii.eqb s "-" then (-1, q)
                else if Ascii.eqb s "+" then (1, q)
                else (1, p')
            | [] => (1, p')
            end in
          let '(exponent, p3) := strtod_exponent 0 p'' in
          (exponent, exp_sign, p3)
        else (0, 1, p)
    | [] => (0, 1, p)
    end in
  let value := d_add value (d_div fraction frac_divisor) in
  let value := if exponent =? 0 then value
               else d_mul value (pow10 (exp_sign * exponent)) in
  (d_mul sign value, (length nptr - length p)%nat).

(** The bytes [parse_number] copies: the longest run of [-+0-9.eE]. *)
Definition is_number_char (c : ascii) : bool :=
  is_digit c || Ascii.eqb c "+" || Ascii.eqb c "-" || Ascii.eqb c "e"
  || Ascii.eqb c "E" || Ascii.eqb c ".".

Fixpoint number_c_string (l : list ascii) : list ascii :=
  match l with
  | c :: l' => if is_number_char c then c :: number_c_string l' else []
  | [] => []
  end.

Definition parse_number (item : stb_json) (input_buffer : parse_buffer)
  : outcome (stb_json * parse_buffer) :=
  let number_c_string := number_c_string (skipn (offset input_buffer) (content input_buffer)) in
  if Nat.eqb (length number_c_string) 0 then Failed
  else
    let '(number, after_end) := stb_json_strtod number_c_string in
    if Nat.eqb after_end 0 then Failed
    else
      let item := set_valuedouble item number in
      let item := set_valueint item (saturate number) in
      let item := set_type item STB_JSON_NUMBER in
      Done (item, set_offset input_buffer (offset input_buffer + after_end)).
End Numbers.

(** ** Whitespace and byte-order mark *)

Fixpoint whitespace_run (l : list ascii) : nat :=
  match l with
  | c :: l' => if code c <=? 32 then S (whitespace_run l') else O
  | [] => O
  end.

Definition buffer_skip_whitespace (b : parse_buffer) : parse_buffer :=
  let o := (offset b + whitespace_run (skipn (offset b) (content b)))%nat in
  if Nat.eqb o (length (content b)) then set_offset b (o - 1) else set_offset b o.

Definition utf8_bom : list ascii := [ascii_of_nat 239; ascii_of_nat 187; ascii_of_nat 191].

Definition skip_utf8_bom (b : parse_buffer) : option parse_buffer :=
  if negb (Nat.eqb (offset b) 0) then None
  else if can_access_at_index b 4 && prefix_eqb utf8_bom (skipn (offset b) (content b))
       then Some (set_offset b (offset b + 3))
       else Some b.

(** ** UTF-16 escapes *)

(** The double quote, byte 34. *)
Definition dquote : ascii := ascii_of_nat 34.

Definition hex_digit (c : ascii) : option Z :=
  if (48 <=? code c) && (code c <=? 57) then Some (code c - 48)
  else if (65 <=? code c) && (code c <=? 70) then Some (10 + code c - 65)
  else if (97 <=? code c) && (code c <=? 102) then Some (10 + code c - 97)
  else None.

(** [parse_hex4]: the value of four hexadecimal digits, 0 when one of the
    four bytes is not a digit (or is missing). *)
Definition parse_hex4 (input : list ascii) : Z :=
  match input with
  | c0 :: c1 :: c2 :: c3 :: _ =>
      match hex_digit c0, hex_digit c1, hex_digit c2, hex_digit c3 with
      | Some h0, Some h1, Some h2, Some h3 =>
          Z.shiftl (Z.shiftl (Z.shiftl h0 4 + h1) 4 + h2) 4 + h3
      | _, _, _, _ => 0
      end
  | _ => 0
  end.

Definition uchar (z : Z) : ascii := ascii_of_N (Z.to_N (z mod 256)).

(** [utf16_to_utf8 input]: [input] runs from the backslash of the escape to
    the end of the buffer; the result is the number of bytes consumed and
    the bytes written, [None] for the return value 0. *)
Definition utf16_to_utf8 (input : list ascii) : option (nat * list ascii) :=
  if Nat.ltb (length input) 6 then None
  else
    let first_code := parse_hex4 (skipn 2 input) in
    if first_code =? 0 then None
    else if (55296 <=? first_code) && (first_code <=? 56319) then
      if Nat.ltb (length input) 12 then None
      else
        match nth_error input 6, nth_error input 7 with
        | Some b6, Some b7 =>
            if negb (Ascii.eqb b6 "\") || negb (Ascii.eqb b7 "u") then None
            else
              let second_code := parse_hex4 (skipn 8 input) in
              if (second_code <? 56320) || (57343 <? second_code) then None
              else
                let codepoint :=
                  65536 + Z.lor (Z.shiftl (Z.land first_code 1023) 10)
                                (Z.land second_code 1023) in
                Some (12%nat,
                      [uchar (Z.lor 240 (Z.shiftr codepoint 18));
                       uchar (Z.lor 128 (Z.land (Z.shiftr codepoint 12) 63));
                       uchar (Z.lor 128 (Z.land (Z.shiftr codepoint 6) 63));
                       uchar (Z.lor 128 (Z.land codepoint 63))])
        | _, _ => None
        end
    else if first_code <? 128 then Some (6%nat, [uchar first_code])
    else if first_code <? 2048 then
      Some (6%nat, [uchar (Z.lor 192 (Z.shiftr first_code 6));
                    uchar (Z.lor 128 (Z.land first_code 63))])
    else
      Some (6%nat, [uchar (Z.lor 224 (Z.shiftr first_code 12));
                    uchar (Z.lor 128 (Z.land (Z.shiftr first_code 6) 63));
                    uchar (Z.lor 128 (Z.land first_code 63))]).

(** ** The string parser *)

(** Modelled from the spec: [parse_string], which [parse_value] and
    [parse_object] call and the header does not define.  Section 4.1: a
    string is delimited by double quotes; a backslash followed by a double
    quote, a backslash, a slash or one of b, f, n, r, t maps to the ASCII
    value it names; a backslash followed by u and four digits is decoded
    by [utf16_to_utf8], whose failure fails the parse; every other byte is
    copied verbatim.  An unknown escape and a missing closing quote fail.
    [string_body fuel l] decodes up to the closing quote and returns the
    decoded bytes with the number of input bytes consumed. *)
Fixpoint string_body (fuel : nat) (l : list ascii) : option (list ascii * nat) :=
  match fuel with
  | O => None
  | S fuel' =>
      match l with
      | [] => None
      | c :: l' =>
          if Ascii.eqb c dquote then Some ([], 1%nat)
          else if Ascii.eqb c "\" then
            match l' with
            | [] => None
            | e :: l'' =>
                let simple (x : ascii) :=
                  match string_body fuel' l'' with
                  | Some (s, n) => Some (x :: s, (2 + n)%nat)
                  | None => None
                  end in
                if Ascii.eqb e "b" then simple (ascii_of_nat 8)
                else if Ascii.eqb e "f" then simple (ascii_of_nat 12)
                else if Ascii.eqb e "n" then simple (ascii_of_nat 10)
                else if Ascii.eqb e "r" then simple (ascii_of_nat 13)
                else if Ascii.eqb e "t" then simple (ascii_of_nat 9)
                else if Ascii.eqb e dquote || Ascii.eqb e "\" || Ascii.eqb e "/"
                then simple e
                else if Ascii.eqb e "u" then
                  match utf16_to_utf8 l with
                  | Some (used, bytes) =>
                      match string_body fuel' (skipn used l) with
                      | Some (s, n) => Some (bytes ++ s, (used + n)%nat)
                      | None => None
                      end
                  | None => None
                  end
                else None
            end
          else
            match string_body fuel' l' with
            | Some (s, n) => Some (c :: s, S n)
            | None => None
            end
      end
  end.

(** Modelled from the spec: the entry point of the string parser.  It
    expects the opening quote at the cursor, stores the decoded bytes in
    [valuestring], sets the type to string and leaves the cursor after the
    closing quote. *)
Definition parse_string (item : stb_json) (input_buffer : parse_buffer)
  : outcome (stb_json * parse_buffer) :=
  if negb (at_is input_buffer 0 dquote) then Failed
  else
    let body := skipn (S (offset input_buffer)) (content input_buffer) in
    match string_body (S (length body)) body with
    | Some (s, n) =>
        Done (set_valuestring (set_type item STB_JSON_STRING) (Some s),
              set_offset input_buffer (offset input_buffer + 1 + n))
    | None => Failed
    end.

(** ** The recursive-descent parser *)

Section Parser.
Variable pow10 : Z -> double.
(** [STB_JSON_NESTING_LIMIT], a compile-time knob of the header. *)
Variable STB_JSON_NESTING_LIMIT : nat.
(** The string parser the three functions below call. *)
Variable parse_string : stb_json -> parse_buffer -> outcome (stb_json * parse_buffer).

(** The exit of [parse_array] and [parse_object] through [success:]. *)
Definition parse_success (item : stb_json) (t : Z) (head : list stb_json)
    (b : parse_buffer) : outcome (stb_json * parse_buffer) :=
  let b := set_depth b (depth b - 1) in
  let item := set_type item t in
  let item := set_child item head in
  Done (item, set_offset b (offset b + 1)).

(** [parse_array] around its do-while loop [loop], which returns the
    children parsed and the buffer after the last of them. *)
Definition parse_array
    (loop : parse_buffer -> outcome (list stb_json * parse_buffer))
    (item : stb_json) (input_buffer : parse_buffer)
  : outcome (stb_json * parse_buffer) :=
  if Nat.leb STB_JSON_NESTING_LIMIT (depth input_buffer) then Failed
  else
    let b := set_depth input_buffer (S (depth input_buffer)) in
    match buffer_at_offset b 0 with
    | None => Failed
    | Some c =>
        if negb (Ascii.eqb c "[") then Failed
        else
          let b := set_offset b (offset b + 1) in
          let b := buffer_skip_whitespace b in
          if at_is b 0 "]" then parse_success item STB_JSON_ARRAY [] b
          else if cannot_access_at_index b 0 then Failed
          else
            let b := set_offset b (offset b - 1) in
            bind (loop b) (fun r =>
              let '(head, b) := r in
              if cannot_access_at_index b 0 || negb (at_is b 0 "]") then Failed
              else parse_success item STB_JSON_ARRAY head b)
    end.

Definition parse_object
    (loop : parse_buffer -> outcome (list stb_json * parse_buffer))
    (item : stb_json) (input_buffer : parse_buffer)
  : outcome (stb_json * parse_buffer) :=
  if Nat.leb STB_JSON_NESTING_LIMIT (depth input_buffer) then Failed
  else
    let b := set_depth input_buffer (S (depth input_buffer)) in
    if cannot_access_at_index b 0 || negb (at_is b 0 "{") then Failed
    else
      let b := set_offset b (offset b + 1) in
      let b := buffer_skip_whitespace b in
      if at_is b 0 "}" then parse_success item STB_JSON_OBJECT [] b
      else if cannot_access_at_index b 0 then Failed
      else
        let b := set_offset b (offset b - 1) in
        bind (loop b) (fun r =>
          let '(head, b) := r in
          if cannot_access_at_index b 0 || negb (at_is b 0 "}") then Failed
          else parse_success item STB_JSON_OBJECT head b).

(** [parse_value] and the two loops, by recursion on the fuel. *)
Fixpoint parse_value (fuel : nat) (item : stb_json) (input_buffer : parse_buffer)
    {struct fuel} : outcome (stb_json * parse_buffer) :=
  match fuel with
  | O => Timeout
  | S fuel' =>
      if starts_with input_buffer (lit "null") then
        Done (set_type item STB_JSON_NULL,
              set_offset input_buffer (offset input_buffer + 4))
      else if starts_with input_buffer (lit "false") then
        Done (set_type item STB_JSON_FALSE,
              set_offset input_buffer (offset input_buffer + 5))
      else if starts_with input_buffer (lit "true") then
        Done (set_valueint (set_type item STB_JSON_TRUE) 1,
              set_offset input_buffer (offset input_buffer + 4))
      else if at_is input_buffer 0 dquote then parse_string item input_buffer
      else if can_access_at_index input_buffer 0 &&
              match buffer_at_offset input_buffer 0 with
              | Some c => Ascii.eqb c "-" || is_digit c
              | None => false
              end
      then parse_number pow10 item input_buffer
      else if at_is input_buffer 0 "[" then
        parse_array (parse_array_loop fuel') item input_buffer
      else if at_is input_buffer 0 "{" then
        parse_object (parse_object_loop fuel') item input_buffer
      else Failed
  end

with parse_array_loop (fuel : nat) (input_buffer : parse_buffer) {struct fuel}
    : outcome (list stb_json * parse_buffer) :=
  match fuel with
  | O => Timeout
  | S fuel' =>
      let new_item := stb_json_new_item in
      let b := set_offset input_buffer (offset input_buffer + 1) in
      let b := buffer_skip_whitespace b in
      bind (parse_value fuel' new_item b) (fun r =>
        let '(current_item, b) := r in
        let b := buffer_skip_whitespace b in
        if at_is b 0 "," then
          bind (parse_array_loop fuel' b) (fun r' =>
            let '(rest, b') := r' in Done (current_item :: rest, b'))
        else Done ([current_item], b))
  end

with parse_object_loop (fuel : nat) (input_buffer : parse_buffer) {struct fuel}
    : outcome (list stb_json * parse_buffer) :=
  match fuel with
  | O => Timeout
  | S fuel' =>
      let new_item := stb_json_new_item in
      if cannot_access_at_index input_buffer 1 then Failed
      else
        let b := set_offset input_buffer (offset input_buffer + 1) in
        let b := buffer_skip_whitespace b in
        bind (parse_string new_item b) (fun r =>
          let '(current_item, b) := r in
          let b := buffer_skip_whitespace b in
          let current_item := set_string current_item (valuestring current_item) in
          let current_item := set_valuestring current_item None in
          if cannot_access_at_index b 0 || negb (at_is b 0 ":") then Failed
          else
            let b := set_offset b (offset b + 1) in
            let b := buffer_skip_whitespace b in
            bind (parse_value fuel' current_item b) (fun r1 =>
              let '(current_item, b) := r1 in
              let b := buffer_skip_whitespace b in
              if at_is b 0 "," then
                bind (parse_object_loop fuel' b) (fun r' =>
                  let '(rest, b') := r' in Done (current_item :: rest, b'))
              else Done ([current_item], b)))
  end.

(** [stb_json_parse_withlengthopts]: [value] holds the [buffer_length]
    bytes of the buffer.  The error cursor and [return_parse_end] are not
    modelled. *)
Definition stb_json_parse_withlengthopts (value : option (list ascii))
    (require_null_terminated : bool) : outcome stb_json :=
  match value with
  | None => Failed
  | Some bytes =>
      if Nat.eqb (length bytes) 0 then Failed
      else
        let buffer := mk_parse_buffer bytes 0 0 in
        let item := stb_json_new_item in
        match skip_utf8_bom buffer with
        | None => Failed
        | Some buffer =>
            bind (parse_value (S (2 * length bytes)) item (buffer_skip_whitespace buffer))
              (fun r =>
                 let '(item, buffer) := r in
                 if require_null_terminated then
                   let buffer := buffer_skip_whitespace buffer in
                   if Nat.leb (length (content buffer)) (offset buffer)
                      || negb (at_is buffer 0 (ascii_of_nat 0))
                   then Failed else Done item
                 else Done item)
        end
  end.

(** [stb_json_parse_withopts] measures the buffer with [strlen] and
    includes the terminating NUL. *)
Definition stb_json_parse_withopts (value : option (list ascii))
    (require_null_terminated : bool) : outcome stb_json :=
  stb_json_parse_withlengthopts
    (match value with Some s => Some (s ++ [ascii_of_nat 0]) | None => None end)
    require_null_terminated.

Definition stb_json_parse (value : option (list ascii)) : outcome stb_json :=
  stb_json_parse_withopts value false.
End Parser.

(** ** The serializer *)

(** The growable [printbuffer] is abstracted to the text written so far:
    allocation succeeds and the text stays below [INT_MAX] bytes, so that
    [ensure] never fails.  Each printing function returns the bytes it
    appends, [None] when the C function returns false. *)

Definition digit_char (n : Z) : ascii := ascii_of_N (Z.to_N (48 + n)).

Fixpoint decimal_digits (fuel : nat) (n : Z) : list ascii :=
  match fuel with
  | O => []
  | S fuel' =>
      if n <? 10 then [digit_char n]
      else decimal_digits fuel' (n / 10) ++ [digit_char (n mod 10)]
  end.

(** [sprintf("%d", n)] for an [int]. *)
Definition sprintf_d (n : Z) : list ascii :=
  if n <? 0 then "-"%char :: decimal_digits 10 (- n) else decimal_digits 10 n.

Definition hex_char (n : Z) : ascii :=
  if n <? 10 then ascii_of_N (Z.to_N (48 + n)) else ascii_of_N (Z.to_N (87 + n)).

(** [sprintf("u%04x", c)] for a byte. *)
Definition sprintf_u04x (c : ascii) : list ascii :=
  ["u"%char; "0"%char; "0"%char; hex_char (code c / 16); hex_char (code c mod 16)].

(** One step of the copying loop of [print_string_ptr]. *)
Definition escape_char (c : ascii) : list ascii :=
  if (31 <? code c) && negb (Ascii.eqb c dquote) && negb (Ascii.eqb c "\") then [c]
  else
    "\"%char ::
    (if Ascii.eqb c "\" then ["\"%char]
     else if Ascii.eqb c dquote then [dquote]
     else if code c =? 8 then ["b"%char]
     else if code c =? 12 then ["f"%char]
     else if code c =? 10 then ["n"%char]
     else if code c =? 13 then ["r"%char]
     else if code c =? 9 then ["t"%char]
     else sprintf_u04x c).

(** [print_string_ptr]: a NULL input prints as the empty string literal.
    The first pass of the C function only measures the output; when it
    finds nothing to escape the bytes are copied with [memcpy], which is
    what the loop below produces for such an input. *)
Definition print_string_ptr (input : option (list ascii)) : list ascii :=
  match input with
  | None => [dquote; dquote]
  | Some s => dquote :: flat_map escape_char s ++ [dquote]
  end.

Definition print_string (item : stb_json) : list ascii :=
  print_string_ptr (valuestring item).

Definition tabs (n : nat) : list ascii := repeat (ascii_of_nat 9) n.

(** The loops of [print_array] and [print_object] over the children, with
    the call of [print_value] on a child as a parameter; [depth] is
    [output_buffer->depth] inside the container. *)
Section PrintChildren.
Variable print_child : stb_json -> option (list ascii).
Variable format : bool.

Fixpoint print_array_elements (l : list stb_json) {struct l} : option (list ascii) :=
  match l with
  | [] => Some []
  | current_element :: next =>
      match print_child current_element with
      | None => None
      | Some text =>
          let separator :=
            match next with
            | [] => []
            | _ :: _ => ","%char :: (if format then [" "%char] else [])
            end in
          match print_array_elements next with
          | None => None
          | Some more => Some (text ++ separator ++ more)
          end
      end
  end.

Fixpoint print_object_members (depth : nat) (l : list stb_json) {struct l}
  : option (list ascii) :=
  match l with
  | [] => Some []
  | current_item :: next =>
      match print_child current_item with
      | None => None
      | Some text =>
          let line :=
            (if format then tabs depth else [])
            ++ print_string_ptr (string current_item)
            ++ ":"%char :: (if format then [ascii_of_nat 9] else [])
            ++ text
            ++ (match next with [] => [] | _ :: _ => [","%char] end)
            ++ (if format then [ascii_of_nat 10] else []) in
          match print_object_members depth next with
          | None => None
          | Some more => Some (line ++ more)
          end
      end
  end.

(** [print_array] and [print_object]; [depth] is [output_buffer->depth]
    on entry, and [print_child] prints a child one level deeper. *)
Definition print_array (item : stb_json) : option (list ascii) :=
  match print_array_elements (child item) with
  | None => None
  | Some body => Some ("["%char :: body ++ ["]"%char])
  end.

Definition print_object (depth : nat) (item : stb_json) : option (list ascii) :=
  match print_object_members (S depth) (child item) with
  | None => None
  | Some body =>
      Some ("{"%char :: (if format then [ascii_of_nat 10] else [])
            ++ body
            ++ (if format then tabs depth else [])
            ++ ["}"%char])
  end.
End PrintChildren.

Section Printer.
(** [sprintf_g p d] stands for [sprintf(buf, "%1.<p>g", d)] of <stdio.h>
    and [sscanf_lg s] for [sscanf(s, "%lg", &test)], [None] when it does
    not return 1. *)
Variable sprintf_g : nat -> double -> list ascii.
Variable sscanf_lg : list ascii -> option double.

(** The text [print_number] leaves in [number_buffer]. *)
Definition number_text (item : stb_json) : list ascii :=
  let d := valuedouble item in
  if isnan d || isinf d then lit "null"
  else if d_eqb d (double_of_int (valueint item)) then sprintf_d (valueint item)
  else
    let text := sprintf_g 15 d in
    match sscanf_lg text with
    | Some test => if compare_double test d then text else sprintf_g 17 d
    | None => sprintf_g 17 d
    end.

(** The decimal point of the locale is the dot itself
    ([get_decimal_point]), so the copy into the output is the identity. *)
Definition print_number (item : stb_json) : option (list ascii) :=
  let text := number_text item in
  if Nat.ltb 25 (length text) then None else Some text.

(** [print_value]; [depth] is [output_buffer->depth] on entry. *)
Fixpoint print_value (item : stb_json) (format : bool) (depth : nat) {struct item}
  : option (list ascii) :=
  if kind item =? STB_JSON_NULL then Some (lit "null")
  else if kind item =? STB_JSON_FALSE then Some (lit "false")
  else if kind item =? STB_JSON_TRUE then Some (lit "true")
  else if kind item =? STB_JSON_NUMBER then print_number item
  else if kind item =? STB_JSON_RAW then valuestring item
  else if kind item =? STB_JSON_STRING then Some (print_string item)
  else if kind item =? STB_JSON_ARRAY then
    print_array (fun c => print_value c format (S depth)) format item
  else if kind item =? STB_JSON_OBJECT then
    print_object (fun c => print_value c format (S depth)) format depth item
  else None.

Definition print (item : option stb_json) (format : bool) : option (list ascii) :=
  match item with
  | None => None
  | Some i => print_value i format 0
  end.

Definition stb_json_print (item : option stb_json) : option (list ascii) :=
  print item true.
Definition stb_json_print_unformatted (item : option stb_json) : option (list ascii) :=
  print item false.
End Printer.

(** ** The minifier *)

(** [stb_json_minify] rewrites its buffer in place with a read cursor and a
    write cursor.  The buffer is the list of its bytes, terminating NUL
    included; a cursor is an index.  A read or write outside the buffer is
    undefined behaviour in C and [None] here. *)

Definition NUL : ascii := ascii_of_nat 0.

Definition load (m : list ascii) (p : nat) : option ascii := nth_error m p.

Definition store (m : list ascii) (p : nat) (c : ascii) : option (list ascii) :=
  if Nat.ltb p (length m) then Some (<[p := c]> m) else None.

(** The bytes of the C string that starts at index 0. *)
Fixpoint cstring (m : list ascii) : list ascii :=
  match m with
  | [] => []
  | c :: m' => if Ascii.eqb c NUL then [] else c :: cstring m'
  end.

(** The loop of [skip_oneline_comment], after [*input += 2]. *)
Fixpoint skip_oneline_loop (fuel : nat) (m : list ascii) (input : nat) : option nat :=
  match fuel with
  | O => None
  | S fuel' =>
      match load m input with
      | None => None
      | Some c =>
          if Ascii.eqb c NUL then Some input
          else if code c =? 10 then Some (S input)
          else skip_oneline_loop fuel' m (S input)
      end
  end.

Definition skip_oneline_comment (m : list ascii) (input : nat) : option nat :=
  skip_oneline_loop (S (length m)) m (input + 2).

Fixpoint skip_multiline_loop (fuel : nat) (m : list ascii) (input : nat) : option nat :=
  match fuel with
  | O => None
  | S fuel' =>
      match load m input with
      | None => None
      | Some c =>
          if Ascii.eqb c NUL then Some input
          else if Ascii.eqb c "*" then
            match load m (S input) with
            | None => None
            | Some c1 =>
                if Ascii.eqb c1 "/" then Some (input + 2)%nat
                else skip_multiline_loop fuel' m (S input)
            end
          else skip_multiline_loop fuel' m (S input)
      end
  end.

Definition skip_multiline_comment (m : list ascii) (input : nat) : option nat :=
  skip_multiline_loop (S (length m)) m (input + 2).

(** The [for] loop of [minify_string] and the copy of the closing quote
    after it; the result is the buffer with both cursors. *)
Fixpoint minify_string_loop (fuel : nat) (m : list ascii) (input output : nat)
  : option (list ascii * nat * nat) :=
  match fuel with
  | O => None
  | S fuel' =>
      match load m input with
      | None => None
      | Some c =>
          if Ascii.eqb c NUL then Some (m, input, output)
          else if Ascii.eqb c dquote then
            match store m output c with
            | None => None
            | Some m => Some (m, S input, S output)
            end
          else if Ascii.eqb c "\" then
            match store m output c with
            | None => None
            | Some m =>
                let input := S input in
                let output := S output in
                match load m input with
                | None => None
                | Some c1 =>
                    if Ascii.eqb c1 NUL then
                      minify_string_loop fuel' m (S input) (S output)
                    else
                      match store m output c1 with
                      | None => None
                      | Some m =>
                          let input := if Ascii.eqb c1 dquote then S input else input in
                          minify_string_loop fuel' m (S input) (S output)
                      end
                end
            end
          else
            match store m output c with
            | None => None
            | Some m => minify_string_loop fuel' m (S input) (S output)
            end
      end
  end.

Definition minify_string (m : list ascii) (input output : nat)
  : option (list ascii * nat * nat) :=
  match load m input with
  | None => None
  | Some c =>
      match store m output c with
      | None => None
      | Some m => minify_string_loop (S (length m)) m (S input) (S output)
      end
  end.

(** The [while] loop of [stb_json_minify] and the final [*into = 0]. *)
Fixpoint minify_loop (fuel : nat) (m : list ascii) (json into : nat)
  : option (list ascii) :=
  match fuel with
  | O => None
  | S fuel' =>
      match load m json with
      | None => None
      | Some c =>
          if Ascii.eqb c NUL then store m into NUL
          else if Ascii.eqb c " " || (code c =? 9) || (code c =? 13) || (code c =? 10)
          then minify_loop fuel' m (S json) into
          else if Ascii.eqb c "/" then
            match load m (S json) with
            | None => None
            | Some c1 =>
                if Ascii.eqb c1 "/" then
                  match skip_oneline_comment m json with
                  | None => None
                  | Some json => minify_loop fuel' m json into
                  end
                else if Ascii.eqb c1 "*" then
                  match skip_multiline_comment m json with
                  | None => None
                  | Some json => minify_loop fuel' m json into
                  end
                else minify_loop fuel' m (S json) into
            end
          else if Ascii.eqb c dquote then
            match minify_string m json into with
            | None => None
            | Some (m, json, into) => minify_loop fuel' m json into
            end
          else
            match store m into c with
            | None => None
            | Some m => minify_loop fuel' m (S json) (S into)
            end
      end
  end.

(** [stb_json_minify] on the NUL-terminated buffer holding [json]; the
    result is the C string the buffer holds afterwards. *)
Definition stb_json_minify (json : list ascii) : option (list ascii) :=
  let m := json ++ [NUL] in
  match minify_loop (S (length m)) m 0 0 with
  | None => None
  | Some m => Some (cstring m)
  end.

(** ** Sorting the members of an object *)

Definition compare_strings (s1 s2 : option (list ascii)) (case_sensitive : bool) : Z :=
  match s1, s2 with
  | Some x, Some y =>
      if case_sensitive then strcmp x y else case_insensitive_strcmp s1 s2
  | _, _ => 1
  end.

(** The walk of [sort_list] to the middle: [current] advances by two
    nodes while [second] advances by one. *)
Fixpoint sort_list_middle (second current : list stb_json) : list stb_json :=
  match current with
  | _ :: _ :: current' => sort_list_middle (tl second) current'
  | _ => second
  end.

(** The merge loop of [sort_list] with the two tails attached after it. *)
Fixpoint sort_list_merge (case_sensitive : bool) (first : list stb_json)
    : list stb_json -> list stb_json :=
  fix merge_second (second : list stb_json) : list stb_json :=
    match first, second with
    | f :: first', s :: second' =>
        if compare_strings (string f) (string s) case_sensitive <? 0
        then f :: sort_list_merge case_sensitive first' second
        else s :: merge_second second'
    | [], _ => second
    | _, [] => first
    end.

Fixpoint sort_list_fuel (fuel : nat) (lst : list stb_json) (case_sensitive : bool)
    : list stb_json :=
  match fuel with
  | O => lst
  | S fuel' =>
      match lst with
      | [] | [_] => lst
      | _ :: _ :: _ =>
          let second := sort_list_middle lst lst in
          let first := firstn (length lst - length second) lst in
          sort_list_merge case_sensitive
            (sort_list_fuel fuel' first case_sensitive)
            (sort_list_fuel fuel' second case_sensitive)
      end
  end.

(** The recursion of [sort_list] halves the list, so the length of the
    list is fuel enough. *)
Definition sort_list (lst : list stb_json) (case_sensitive : bool) : list stb_json :=
  sort_list_fuel (length lst) lst case_sensitive.

Definition sort_object (object : stb_json) (case_sensitive : bool) : stb_json :=
  set_child object (sort_list (child object) case_sensitive).

(** ** The comparator of the patch engine *)

(** [compare_json] sorts the members of the objects it compares, so it
    returns its verdict together with the two nodes as it leaves them.
    The two arguments are nodes of different trees.  [None] is the
    embedding's outcome for exhausted fuel. *)
Section CompareJson.
Variable compare : stb_json -> stb_json -> option (bool * stb_json * stb_json).
Variable case_sensitive : bool.

(** The pairwise walk over two child lists; with [keyed] the keys are
    compared first, as in the object case. *)
Fixpoint compare_children (keyed : bool) (la lb : list stb_json)
    : option (bool * list stb_json * list stb_json) :=
  match la, lb with
  | a_child :: la', b_child :: lb' =>
      if keyed && negb (compare_strings (string a_child) (string b_child) case_sensitive =? 0)
      then Some (false, la, lb)
      else
        match compare a_child b_child with
        | None => None
        | Some (false, a', b') => Some (false, a' :: la', b' :: lb')
        | Some (true, a', b') =>
            match compare_children keyed la' lb' with
            | None => None
            | Some (r, la'', lb'') => Some (r, a' :: la'', b' :: lb'')
            end
        end
  | [], [] => Some (true, [], [])
  | _, _ => Some (false, la, lb)
  end.
End CompareJson.

Fixpoint compare_json_nodes (fuel : nat) (case_sensitive : bool) (a b : stb_json)
    {struct fuel} : option (bool * stb_json * stb_json) :=
  match fuel with
  | O => None
  | S fuel' =>
      if negb (kind a =? kind b) then Some (false, a, b)
      else if kind a =? STB_JSON_NUMBER then
        Some ((valueint a =? valueint b) && compare_double (valuedouble a) (valuedouble b), a, b)
      else if (kind a =? STB_JSON_STRING) || (kind a =? STB_JSON_RAW) then
        Some (match valuestring a, valuestring b with
              | Some x, Some y => strcmp x y =? 0
              | _, _ => false
              end, a, b)
      else if kind a =? STB_JSON_ARRAY then
        match compare_children (compare_json_nodes fuel' case_sensitive) case_sensitive
                false (child a) (child b) with
        | None => None
        | Some (r, la, lb) => Some (r, set_child a la, set_child b lb)
        end
      else if kind a =? STB_JSON_OBJECT then
        let a := sort_object a case_sensitive in
        let b := sort_object b case_sensitive in
        match compare_children (compare_json_nodes fuel' case_sensitive) case_sensitive
                true (child a) (child b) with
        | None => None
        | Some (r, la, lb) => Some (r, set_child a la, set_child b lb)
        end
      else Some (true, a, b)
  end.

(** The number of nested levels of a tree; a leaf has height 1. *)
Fixpoint height (t : stb_json) : nat :=
  S ((fix children (l : list stb_json) : nat :=
        match l with
        | [] => O
        | c :: l' => Nat.max (height c) (children l')
        end) (child t)).

(** [compare_json] on two pointers; the recursion follows the first
    argument, whose height is fuel enough. *)
Definition compare_json (a b : option stb_json) (case_sensitive : bool)
    : option (bool * option stb_json * option stb_json) :=
  match a, b with
  | Some x, Some y =>
      match compare_json_nodes (height x) case_sensitive x y with
      | None => None
      | Some (r, x', y') => Some (r, Some x', Some y')
      end
  | _, _ => Some (false, a, b)
  end.

(** ** Object members and JSON pointers *)

(** A pointer to a node inside a tree is the list of child indices that
    leads to it from the root. *)
Fixpoint node_at (t : stb_json) (path : list nat) : option stb_json :=
  match path with
  | [] => Some t
  | i :: path' =>
      match nth_error (child t) i with
      | None => None
      | Some c => node_at c path'
      end
  end.

(** The tree after the node at [path] has been overwritten with [new]. *)
Fixpoint update_at (t : stb_json) (path : list nat) (new : stb_json) : stb_json :=
  match path with
  | [] => new
  | i :: path' =>
      match nth_error (child t) i with
      | None => t
      | Some c => set_child t (<[i := update_at c path' new]> (child t))
      end
  end.

(** [get_object_item]: the index of the first child whose key matches; the
    walk stops at a child without key. *)
Fixpoint get_object_item_index (children : list stb_json) (name : list ascii)
    (case_sensitive : bool) : option nat :=
  match children with
  | [] => None
  | current_element :: next =>
      match string current_element with
      | None => None
      | Some k =>
          if (if case_sensitive then strcmp name k
              else case_insensitive_strcmp (Some name) (Some k)) =? 0
          then Some O
          else option_map S (get_object_item_index next name case_sensitive)
      end
  end.

Definition get_object_item (object : option stb_json) (name : option (list ascii))
    (case_sensitive : bool) : option nat :=
  match object, name with
  | Some o, Some n => get_object_item_index (child o) n case_sensitive
  | _, _ => None
  end.

Definition child_at (object : option stb_json) (i : option nat) : option stb_json :=
  match object, i with
  | Some o, Some n => nth_error (child o) n
  | _, _ => None
  end.

Definition stb_json_getobjectitem (object : option stb_json) (name : option (list ascii))
    : option stb_json :=
  child_at object (get_object_item object name false).
Definition stb_json_getobjectitemcasesensitive (object : option stb_json)
    (name : option (list ascii)) : option stb_json :=
  child_at object (get_object_item object name true).

(** [compare_pointers name pointer]: [name] is a key, [pointer] the rest
    of a JSON pointer whose first token is compared with it. *)
Fixpoint compare_pointers (name pointer : list ascii) (case_sensitive : bool) : bool :=
  match name, pointer with
  | n :: name', p :: pointer' =>
      if Ascii.eqb p "/" then false
      else if Ascii.eqb p "~" then
        match pointer' with
        | p1 :: pointer'' =>
            if (negb (Ascii.eqb p1 "0") || negb (Ascii.eqb n "~"))
               && (negb (Ascii.eqb p1 "1") || negb (Ascii.eqb n "/"))
            then false
            else compare_pointers name' pointer'' case_sensitive
        | [] => false
        end
      else if (case_sensitive && negb (Ascii.eqb n p))
              || (negb case_sensitive && negb (tolower n =? tolower p))
      then false
      else compare_pointers name' pointer' case_sensitive
  | [], [] => true
  | [], p :: _ => Ascii.eqb p "/"
  | _ :: _, [] => false
  end.

(** The digits loop of [decode_array_index_from_pointer]; the index is a
    [size_t] and wraps at 2^64. *)
Fixpoint decode_index_digits (parsed_index : Z) (position : nat) (pointer : list ascii)
    : Z * nat * list ascii :=
  match pointer with
  | c :: pointer' =>
      if is_digit c
      then decode_index_digits ((10 * parsed_index + (code c - 48)) mod 2 ^ 64)
                               (S position) pointer'
      else (parsed_index, position, pointer)
  | [] => (parsed_index, position, pointer)
  end.

Definition decode_array_index_from_pointer (pointer : list ascii) : option nat :=
  let leading_zero :=
    match pointer with
    | c0 :: c1 :: _ => Ascii.eqb c0 "0" && negb (Ascii.eqb c1 "/")
    | _ => false
    end in
  if leading_zero then None
  else
    let '(parsed_index, position, rest) := decode_index_digits 0 0 pointer in
    let stopped_inside :=
      match rest with
      | c :: _ => negb (Ascii.eqb c "/")
      | [] => false
      end in
    if stopped_inside || Nat.eqb position 0 then None
    else Some (Z.to_nat parsed_index).

(** The rest of the pointer from its next slash on: the loop that skips
    the token just used. *)
Fixpoint skip_token (pointer : list ascii) : list ascii :=
  match pointer with
  | c :: pointer' => if Ascii.eqb c "/" then pointer else skip_token pointer'
  | [] => []
  end.

Fixpoint find_member (children : list stb_json) (pointer : list ascii)
    (case_sensitive : bool) : option nat :=
  match children with
  | [] => None
  | current_element :: next =>
      if match string current_element with
         | Some name => compare_pointers name pointer case_sensitive
         | None => false
         end
      then Some O
      else option_map S (find_member next pointer case_sensitive)
  end.

(** [get_item_from_pointer]: the path of the node the pointer designates,
    [None] for NULL.  Each round of the loop consumes a slash, so the
    length of the pointer is fuel enough. *)
Fixpoint get_item_from_pointer_loop (fuel : nat) (current_element : stb_json)
    (pointer : list ascii) (case_sensitive : bool) : option (list nat) :=
  match fuel with
  | O => None
  | S fuel' =>
      match pointer with
      | c :: pointer' =>
          if Ascii.eqb c "/" then
            let next :=
              if kind current_element =? STB_JSON_ARRAY then
                match decode_array_index_from_pointer pointer' with
                | None => None
                | Some index => Some index
                end
              else if kind current_element =? STB_JSON_OBJECT then
                find_member (child current_element) pointer' case_sensitive
              else None in
            match next with
            | None => None
            | Some i =>
                match nth_error (child current_element) i with
                | None => None
                | Some c' =>
                    option_map (cons i)
                      (get_item_from_pointer_loop fuel' c' (skip_token pointer') case_sensitive)
                end
            end
          else Some []
      | [] => Some []
      end
  end.

Definition get_item_from_pointer (object : option stb_json) (pointer : option (list ascii))
    (case_sensitive : bool) : option (list nat) :=
  match object, pointer with
  | Some o, Some p => get_item_from_pointer_loop (S (length p)) o p case_sensitive
  | _, _ => None
  end.

(** ** The test operation of the patch engine *)

Inductive patch_operation : Type := INVALID | ADD | REMOVE | REPLACE | MOVE | COPY | TEST.

(** [None] where the C code hands a NULL [valuestring] to [strcmp]. *)
Definition decode_patch_operation (patch : option stb_json) (case_sensitive : bool)
    : option patch_operation :=
  let operation := child_at patch (get_object_item patch (Some (lit "op")) case_sensitive) in
  if negb (stb_json_isstring operation) then Some INVALID
  else
    match operation with
    | Some o =>
        match valuestring o with
        | None => None
        | Some op =>
            if strcmp op (lit "add") =? 0 then Some ADD
            else if strcmp op (lit "remove") =? 0 then Some REMOVE
            else if strcmp op (lit "replace") =? 0 then Some REPLACE
            else if strcmp op (lit "move") =? 0 then Some MOVE
            else if strcmp op (lit "copy") =? 0 then Some COPY
            else if strcmp op (lit "test") =? 0 then Some TEST
            else Some INVALID
        end
    | None => Some INVALID
    end.

Definition write_back (t : option stb_json) (path : option (list nat))
    (new : option stb_json) : option stb_json :=
  match t, path, new with
  | Some o, Some p, Some n => Some (update_at o p n)
  | _, _, _ => t
  end.

(** [apply_patch] up to the return of the test operation.  The result is
    the status with the document and the patch operation as the call
    leaves them; it is [None] for the operations that are not embedded
    (add, remove, replace, move, copy) and where [decode_patch_operation]
    is undefined. *)
Definition apply_patch (object : option stb_json) (patch : option stb_json)
    (case_sensitive : bool) : option (Z * option stb_json * option stb_json) :=
  let path := child_at patch (get_object_item patch (Some (lit "path")) case_sensitive) in
  if negb (stb_json_isstring path) then Some (2, object, patch)
  else
    match decode_patch_operation patch case_sensitive with
    | None => None
    | Some INVALID => Some (3, object, patch)
    | Some TEST =>
        let pointer := match path with Some p => valuestring p | None => None end in
        let target := get_item_from_pointer object pointer case_sensitive in
        let target_node :=
          match object, target with
          | Some o, Some p => node_at o p
          | _, _ => None
          end in
        let value := get_object_item patch (Some (lit "value")) case_sensitive in
        match compare_json target_node (child_at patch value) case_sensitive with
        | None => None
        | Some (r, a', b') =>
            Some (if r then 0 else 1,
                  write_back object target a',
                  write_back patch (option_map (fun i => [i]) value) b')
        end
    | Some _ => None
    end.

(** ** Duplication *)

Definition STB_JSON_CIRCULAR_LIMIT : nat := Nat.mul 100 100.

(** The loop of [stb_json_duplicate_rec] over the children, with the
    recursive call as a parameter; it stops at the first child whose copy
    fails. *)
Section DuplicateChildren.
Variable duplicate : stb_json -> option stb_json.

Fixpoint duplicate_children (l : list stb_json) : option (list stb_json) :=
  match l with
  | [] => Some []
  | c :: l' =>
      match duplicate c with
      | None => None
      | Some newchild =>
          match duplicate_children l' with
          | None => None
          | Some rest => Some (newchild :: rest)
          end
      end
  end.

End DuplicateChildren.

Fixpoint stb_json_duplicate_rec (item : stb_json) (depth : nat) (recurse : bool)
    {struct item} : option stb_json :=
  let newitem := mk_json [] (type item) None (valueint item) (valuedouble item) None in
  let newitem :=
    match string item with
    | Some s =>
        if Z.land (type item) STB_JSON_STRING_IS_CONST =? 0
        then set_string newitem (Some s) else newitem
    | None => newitem
    end in
  let newitem := set_valuestring newitem (valuestring item) in
  if negb recurse then Some newitem
  else if Nat.leb STB_JSON_CIRCULAR_LIMIT depth then None
  else
    match
      duplicate_children (fun c => stb_json_duplicate_rec c (S depth) true) (child item)
    with
    | None => None
    | Some cs => Some (set_child newitem cs)
    end.

Definition stb_json_duplicate (item : option stb_json) (recurse : bool) : option stb_json :=
  match item with
  | None => None
  | Some i => stb_json_duplicate_rec i 0 recurse
  end.

(** ** Editing the members of an object *)

(** The child list operations below are the list views of the pointer
    operations of module [Mem]: on a child list that satisfies the
    invariant of the circular [prev] pointer, [add_item_to_array] appends
    and [stb_json_detachitemviapointer] removes one node. *)

Definition add_item_to_array (array : stb_json) (item : stb_json) : stb_json :=
  set_child array (child array ++ [item]).

(** [add_item_to_object] with [constant_key] false; the boolean is the
    value returned. *)
Definition stb_json_additemtoobject (object : option stb_json) (name : option (list ascii))
    (item : option stb_json) : bool * option stb_json :=
  match object, name, item with
  | Some o, Some s, Some i =>
      let new_type := Z.land (type i) (Z.lnot STB_JSON_STRING_IS_CONST) in
      let i := set_type (set_string i (Some s)) new_type in
      (true, Some (add_item_to_array o i))
  | _, _, _ => (false, object)
  end.

(** The child list without its element at [index]. *)
Definition remove_nth (index : nat) (l : list stb_json) : list stb_json :=
  firstn index l ++ skipn (S index) l.

(** [stb_json_detachitemviapointer] for the child at [index]: the detached
    node and the parent without it. *)
Definition stb_json_detachitemviapointer (parent : option stb_json) (index : option nat)
    : option stb_json * option stb_json :=
  match parent, index with
  | Some p, Some i =>
      match nth_error (child p) i with
      | Some item => (Some item, Some (set_child p (remove_nth i (child p))))
      | None => (None, parent)
      end
  | _, _ => (None, parent)
  end.

Definition stb_json_detachitemfromobject (object : option stb_json)
    (name : option (list ascii)) : option stb_json * option stb_json :=
  stb_json_detachitemviapointer object (get_object_item object name false).

Definition stb_json_detachitemfromobjectcasesensitive (object : option stb_json)
    (name : option (list ascii)) : option stb_json * option stb_json :=
  stb_json_detachitemviapointer object (get_object_item object name true).

(** The deleted node is freed; the object is what remains. *)
Definition stb_json_deleteitemfromobject (object : option stb_json)
    (name : option (list ascii)) : option stb_json :=
  snd (stb_json_detachitemfromobject object name).

Definition stb_json_deleteitemfromobjectcasesensitive (object : option stb_json)
    (name : option (list ascii)) : option stb_json :=
  snd (stb_json_detachitemfromobjectcasesensitive object name).

(** ** Merge patch *)

(** The loop of [merge_patch] over the members of the patch, with the
    recursive call as a parameter. *)
Section MergePatchMembers.
Variable merge : option stb_json -> stb_json -> option stb_json.
Variable case_sensitive : bool.

Fixpoint merge_patch_members (l : list stb_json) (target : option stb_json) {struct l}
    : option stb_json :=
  match l with
  | [] => target
  | patch_child :: next =>
      if stb_json_isnull (Some patch_child) then
        merge_patch_members next
          (if case_sensitive
           then stb_json_deleteitemfromobjectcasesensitive target (string patch_child)
           else stb_json_deleteitemfromobject target (string patch_child))
      else
        let '(replace_me, target) :=
          if case_sensitive
          then stb_json_detachitemfromobjectcasesensitive target (string patch_child)
          else stb_json_detachitemfromobject target (string patch_child) in
        match merge replace_me patch_child with
        | None => None
        | Some replacement =>
            merge_patch_members next
              (snd (stb_json_additemtoobject target (string patch_child) (Some replacement)))
        end
  end.

End MergePatchMembers.

(** The target an object patch is merged into: the target itself when it
    is an object, a new empty object otherwise. *)
Definition merge_patch_target (target : option stb_json) : option stb_json :=
  if negb (stb_json_isobject target) then Some stb_json_createobject else target.

Fixpoint merge_patch_node (target : option stb_json) (patch : stb_json)
    (case_sensitive : bool) {struct patch} : option stb_json :=
  if negb (stb_json_isobject (Some patch)) then stb_json_duplicate (Some patch) true
  else
    merge_patch_members
      (fun replace_me patch_child => merge_patch_node replace_me patch_child case_sensitive)
      case_sensitive (child patch) (merge_patch_target target).

(** [merge_patch]: a NULL patch is not an object, and its duplicate is NULL. *)
Definition merge_patch (target patch : option stb_json) (case_sensitive : bool)
    : option stb_json :=
  match patch with
  | None => None
  | Some p => merge_patch_node target p case_sensitive
  end.

Definition stb_json_utils_mergepatch (target patch : option stb_json) : option stb_json :=
  merge_patch target patch false.
Definition stb_json_utils_mergepatchcasesensitive (target patch : option stb_json)
    : option stb_json :=
  merge_patch target patch true.

(** ** Reference models of the C library functions the header calls *)

(** The header leaves [pow], [sprintf] and [sscanf] to the C library.  The
    functions above take them as parameters; the definitions below are
    correctly rounded reference versions on exact integer arithmetic,
    used to run the embedding on concrete inputs. *)

(** The double nearest to [n / d] for positive [n] and [d]. *)
Definition nearest_quotient (s : bool) (n d : Z) : double :=
  let '(q, e, l) := SFdiv_core_binary 53 1024 n 0 d 0 in
  binary_round_aux 53 1024 s q e l.

(** The double nearest to [(-1)^s * n * 10^k]. *)
Definition nearest_decimal (s : bool) (n k : Z) : double :=
  if n =? 0 then S754_zero s
  else if 400 <? k then S754_infinity s
  else if k <? -400 then S754_zero s
  else if 0 <=? k then binary_normalize 53 1024 (if s then - (n * 10 ^ k) else n * 10 ^ k) 0 s
  else nearest_quotient s n (10 ^ (- k)).

(** [pow(10.0, n)] *)
Definition pow10_ref (n : Z) : double := nearest_decimal false 1 n.

(** The value of a run of decimal digits. *)
Fixpoint digits_value (acc : Z) (l : list ascii) : Z * list ascii :=
  match l with
  | c :: l' => if is_digit c then digits_value (acc * 10 + (code c - 48)) l' else (acc, l)
  | [] => (acc, l)
  end.

(** [sscanf(s, "%lg", &test)] on a decimal literal: sign, digits, optional
    fraction, optional exponent. *)
Definition sscanf_lg_ref (s : list ascii) : option double :=
  let '(sign, p) :=
    match s with
    | c :: p' => if Ascii.eqb c "-" then (true, p')
                 else if Ascii.eqb c "+" then (false, p') else (false, s)
    | [] => (false, s)
    end in
  let '(ip, p1) := digits_value 0 p in
  let nint := (length p - length p1)%nat in
  let '(n, nfrac, p2) :=
    match p1 with
    | c :: p' =>
        if Ascii.eqb c "." then
          let '(v, q) := digits_value ip p' in (v, (length p' - length q)%nat, q)
        else (ip, O, p1)
    | [] => (ip, O, p1)
    end in
  if Nat.eqb (nint + nfrac) 0 then None
  else
    let '(ex, p3) :=
      match p2 with
      | c :: p' =>
          if Ascii.eqb c "e" || Ascii.eqb c "E" then
            let '(neg, q) :=
              match p' with
              | x :: q' => if Ascii.eqb x "-" then (true, q')
                           else if Ascii.eqb x "+" then (false, q') else (false, p')
              | [] => (false, p')
              end in
            let '(v, r) := digits_value 0 q in
            if Nat.eqb (length q - length r) 0 then (0, p2)
            else (if neg then - v else v, r)
          else (0, p2)
      | [] => (0, p2)
      end in
    Some (nearest_decimal sign n (ex - Z.of_nat nfrac)).

(** Rounding of [n / d] to the nearest integer, ties to even. *)
Definition round_half_even (n d : Z) : Z :=
  let q := n / d in
  let r := n mod d in
  if 2 * r <? d then q
  else if d <? 2 * r then q + 1
  else if Z.even q then q else q + 1.

(** The decimal exponent of [n / d]: the [x] with [10^x <= n/d < 10^(x+1)]. *)
Fixpoint decimal_exponent_up (fuel : nat) (n d x : Z) : Z :=
  match fuel with
  | O => x
  | S fuel' => if n <? 10 * d then x else decimal_exponent_up fuel' n (10 * d) (x + 1)
  end.
Fixpoint decimal_exponent_down (fuel : nat) (n d x : Z) : Z :=
  match fuel with
  | O => x
  | S fuel' => if d <=? n then x else decimal_exponent_down fuel' (10 * n) d (x - 1)
  end.
Definition decimal_exponent (n d : Z) : Z :=
  if d <=? n then decimal_exponent_up 400 n d 0 else decimal_exponent_down 400 n d 0.

Fixpoint strip_zeros_rev (l : list ascii) : list ascii :=
  match l with
  | c :: l' => if Ascii.eqb c "0" then strip_zeros_rev l' else l
  | [] => []
  end.
Definition strip_trailing_zeros (l : list ascii) : list ascii :=
  rev (strip_zeros_rev (rev l)).

Fixpoint fixed_digits (fuel : nat) (n : Z) : list ascii :=
  match fuel with
  | O => []
  | S fuel' => fixed_digits fuel' (n / 10) ++ [digit_char (n mod 10)]
  end.

(** [sprintf(buf, "%1.<p>g", d)] for a finite [d]. *)
Definition sprintf_g_ref (p : nat) (d : double) : list ascii :=
  match d with
  | S754_nan => lit "nan"
  | S754_infinity s => if s then lit "-inf" else lit "inf"
  | S754_zero s => if s then lit "-0" else lit "0"
  | S754_finite s m e =>
      let n := if 0 <=? e then Z.pos m * 2 ^ e else Z.pos m in
      let dn := if 0 <=? e then 1 else 2 ^ (- e) in
      let x := decimal_exponent n dn in
      let scale := Z.of_nat p - 1 - x in
      let digits0 :=
        if 0 <=? scale then round_half_even (n * 10 ^ scale) dn
        else round_half_even n (dn * 10 ^ (- scale)) in
      let '(digits, x) :=
        if 10 ^ Z.of_nat p <=? digits0 then (digits0 / 10, x + 1) else (digits0, x) in
      let ds := fixed_digits p digits in
      let body :=
        if (x <? -4) || (Z.of_nat p <=? x) then
          let frac := strip_trailing_zeros (skipn 1 ds) in
          firstn 1 ds ++ (match frac with [] => [] | _ => "."%char :: frac end)
          ++ "e"%char :: (if x <? 0 then "-"%char else "+"%char)
          :: (if Z.abs x <? 10 then ["0"%char] else []) ++ decimal_digits 4 (Z.abs x)
        else if x <? 0 then
          lit "0." ++ repeat "0"%char (Z.to_nat (- x - 1)) ++ strip_trailing_zeros ds
        else
          let int_part := firstn (Z.to_nat (x + 1)) ds in
          let frac := strip_trailing_zeros (skipn (Z.to_nat (x + 1)) ds) in
          int_part ++ (match frac with [] => [] | _ => "."%char :: frac end) in
      if s then "-"%char :: body else body
  end.

(** ** The linked child list in memory *)

(** [Mem] embeds the nodes as C lays them out: a heap maps an address to a
    node whose [next], [prev] and [child] fields are pointers, with [None]
    for NULL.  An operation returns [None] where the C code dereferences a
    pointer that is NULL or not allocated. *)
Module Mem.

Definition ptr : Type := option nat.

Record node : Type := mk_node {
  next : ptr;
  prev : ptr;
  child : ptr;
  type : Z;
  valuestring : option (list ascii);
  valueint : Z;
  valuedouble : double;
  string : option (list ascii) }.

Definition set_next (n : node) (p : ptr) : node :=
  mk_node p (prev n) (child n) (type n) (valuestring n) (valueint n) (valuedouble n) (string n).
Definition set_prev (n : node) (p : ptr) : node :=
  mk_node (next n) p (child n) (type n) (valuestring n) (valueint n) (valuedouble n) (string n).
Definition set_child (n : node) (p : ptr) : node :=
  mk_node (next n) (prev n) p (type n) (valuestring n) (valueint n) (valuedouble n) (string n).

Abbreviation heap := (gmap nat node).

(** [a->field = v] *)
Definition write (h : heap) (a : nat) (f : node -> node) : option heap :=
  match h !! a with
  | Some n => Some (<[a := f n]> h)
  | None => None
  end.

Definition ptr_eqb (p q : ptr) : bool :=
  match p, q with
  | Some a, Some b => Nat.eqb a b
  | None, None => true
  | _, _ => false
  end.

Definition suffix_object (h : heap) (prev item : nat) : option heap :=
  match write h prev (fun n => set_next n (Some item)) with
  | Some h => write h item (fun n => set_prev n (Some prev))
  | None => None
  end.

Definition add_item_to_array (h : heap) (array item : ptr) : option (bool * heap) :=
  match item, array with
  | Some item, Some array =>
      if Nat.eqb array item then Some (false, h)
      else
        match h !! array with
        | None => None
        | Some a =>
            match child a with
            | None =>
                match write h array (fun n => set_child n (Some item)) with
                | Some h =>
                    match write h item (fun n => set_prev n (Some item)) with
                    | Some h => Some (true, h)
                    | None => None
                    end
                | None => None
                end
            | Some child =>
                match h !! child with
                | None => None
                | Some c =>
                    match prev c with
                    | Some tail =>
                        match suffix_object h tail item with
                        | Some h =>
                            (* array->child->prev = item *)
                            match h !! array with
                            | Some a' =>
                                match Mem.child a' with
                                | Some head =>
                                    match write h head (fun n => set_prev n (Some item)) with
                                    | Some h => Some (true, h)
                                    | None => None
                                    end
                                | None => None
                                end
                            | None => None
                            end
                        | None => None
                        end
                    | None => Some (true, h)
                    end
                end
            end
        end
  | _, _ => Some (false, h)
  end.

(** [while (child && which > 0) { child = child->next; which--; }] *)
Fixpoint walk (h : heap) (child : ptr) (which : nat) : option ptr :=
  match child, which with
  | Some c, S which' =>
      match h !! c with
      | Some n => walk h (next n) which'
      | None => None
      end
  | _, _ => Some child
  end.

Definition insert_item_in_array (h : heap) (array : nat) (which : nat) (newitem : nat)
    : option (bool * heap) :=
  match h !! array with
  | None => None
  | Some a =>
      match walk h (child a) which with
      | None => None
      | Some None => add_item_to_array h (Some array) (Some newitem)
      | Some (Some child) =>
          match h !! child with
          | None => None
          | Some c =>
              match write h newitem (fun n => set_prev (set_next n (Some child)) (prev c)) with
              | None => None
              | Some h =>
                  match write h child (fun n => set_prev n (Some newitem)) with
                  | None => None
                  | Some h =>
                      match h !! array with
                      | None => None
                      | Some a =>
                          if ptr_eqb (Some child) (Mem.child a) then
                            match write h array (fun n => set_child n (Some newitem)) with
                            | Some h => Some (true, h)
                            | None => None
                            end
                          else
                            (* newitem->prev->next = newitem *)
                            match h !! newitem with
                            | None => None
                            | Some n =>
                                match prev n with
                                | None => None
                                | Some p =>
                                    match write h p (fun n => set_next n (Some newitem)) with
                                    | Some h => Some (true, h)
                                    | None => None
                                    end
                                end
                            end
                      end
                  end
              end
          end
      end
  end.

(** The result is the pointer returned with the heap left behind. *)
Definition stb_json_detachitemviapointer (h : heap) (parent item : ptr)
    : option (ptr * heap) :=
  match parent, item with
  | Some parent, Some item =>
      match h !! parent, h !! item with
      | Some p, Some i =>
          if negb (ptr_eqb (Some item) (child p)) && ptr_eqb (prev i) None
          then Some (None, h)
          else
            (* if (item != parent->child) item->prev->next = item->next; *)
            let step1 :=
              if negb (ptr_eqb (Some item) (child p)) then
                match prev i with
                | Some q => write h q (fun n => set_next n (next i))
                | None => None
                end
              else Some h in
            match step1 with
            | None => None
            | Some h =>
                (* if (item->next) item->next->prev = item->prev; *)
                match h !! item with
                | None => None
                | Some i =>
                    let step2 :=
                      match next i with
                      | Some nx => write h nx (fun n => set_prev n (prev i))
                      | None => Some h
                      end in
                    match step2 with
                    | None => None
                    | Some h =>
                        match h !! parent, h !! item with
                        | Some p, Some i =>
                            let step3 :=
                              if ptr_eqb (Some item) (child p) then
                                write h parent (fun n => set_child n (next i))
                              else if ptr_eqb (next i) None then
                                match child p with
                                | Some head => write h head (fun n => set_prev n (prev i))
                                | None => None
                                end
                              else Some h in
                            match step3 with
                            | None => None
                            | Some h =>
                                match write h item (fun n => set_next (set_prev n None) None) with
                                | Some h => Some (Some item, h)
                                | None => None
                                end
                            end
                        | _, _ => None
                        end
                    end
                end
            end
      | _, _ => None
      end
  | _, _ => Some (None, h)
  end.

(** The child list of [parent] holds the nodes at the addresses [l], in
    this order: [parent->child] is the first, [next] leads from each to
    the following one and is NULL at the last, [prev] leads back from
    each but the first, and the [prev] of the first is the last. *)
Definition child_list (h : heap) (parent : nat) (l : list nat) : Prop :=
  NoDup l /\ (parent ∉ l) /\
  (exists p, h !! parent = Some p /\ child p = (l !! 0%nat)) /\
  (forall (i : nat) (a : nat), l !! i = Some a ->
     exists n, h !! a = Some n /\ next n = l !! (S i) /\
               prev n = match i with O => last l | S j => l !! j end).

(** The invariant as the specification words it: in a non-empty child
    list the [prev] of the head is the tail and the [next] of the tail
    is NULL. *)
Definition circular_prev (h : heap) (l : list nat) : Prop :=
  match l with
  | [] => True
  | head :: _ =>
      exists tail nh nt, last l = Some tail /\
        h !! head = Some nh /\ prev nh = Some tail /\
        h !! tail = Some nt /\ next nt = None
  end.

(** The [next] and [prev] links of the node at address [a]. *)
Definition links (h : heap) (a : nat) (nx pv : ptr) : Prop :=
  exists n, h !! a = Some n /\ next n = nx /\ prev n = pv.

(** The node before position [i] of a child list: the last node for the
    head. *)
Definition before (l : list nat) (i : nat) : ptr :=
  match i with O => last l | S j => l !! j end.

(** The list [l] with [x] put before position [k], and [l] without its
    element at position [k]. *)
Definition inserted (k : nat) (x : nat) (l : list nat) : list nat :=
  take k l ++ x :: drop k l.
Definition removed (k : nat) (l : list nat) : list nat :=
  take k l ++ drop (S k) l.

End Mem.

(** ** Trees that differ in the order of object members only *)

(** [reordered a b]: [b] is [a] with the members of some of its objects
    permuted; every field but [child] is the same, and the children of a
    node that is not an object keep their order. *)
Unset Elimination Schemes.
Inductive reordered : stb_json -> stb_json -> Prop :=
  | reordered_node (a b : stb_json) (l : list stb_json) :
      type a = type b ->
      valuestring a = valuestring b ->
      valueint a = valueint b ->
      valuedouble a = valuedouble b ->
      string a = string b ->
      Permutation (child a) l ->
      (kind a <> STB_JSON_OBJECT -> l = child a) ->
      Forall2 reordered l (child b) ->
      reordered a b.
Set Elimination Schemes.

(** ** Sample values *)

(** The double just below one, 1 - 2^-53. *)
Definition below_one : double := S754_finite false 9007199254740991 (-53).

(** The six bytes of the JSON string literal with the contents a, escaped
    quote, b: quote, a, backslash, quote, b, quote. *)
Definition escaped_quote_text : list ascii :=
  [dquote; "a"%char; "\"%char; dquote; "b"%char; dquote].

(** A node with a key, for building objects by hand. *)
Definition keyed (name : String.string) (item : stb_json) : stb_json :=
  set_string item (Some (lit name)).

(** An array or object with the given children. *)
Definition array_of (l : list stb_json) : stb_json := set_child stb_json_createarray l.
Definition object_of (l : list stb_json) : stb_json := set_child stb_json_createobject l.

(** A parent at address 0 with the two children 1 and 2, and a detached
    node at address 3. *)
Definition blank : Mem.node :=
  Mem.mk_node None None None 0 None 0 (S754_zero false) None.
Definition sample_heap : gmap nat Mem.node :=
  <[0%nat := Mem.set_child blank (Some 1%nat)]>
    (<[1%nat := Mem.set_prev (Mem.set_next blank (Some 2%nat)) (Some 2%nat)]>
       (<[2%nat := Mem.set_prev blank (Some 1%nat)]> (<[3%nat := blank]> ∅))).

(** The document with the members b and a, in this order, and the test
    operation that compares the whole document with a copy of itself. *)
Definition sample_document : stb_json :=
  object_of [keyed "b" (stb_json_createnumber (double_of_int 1));
             keyed "a" (stb_json_createnumber (double_of_int 2))].
Definition sample_test : stb_json :=
  object_of [keyed "op" (stb_json_createstring (lit "test"));
             keyed "path" (stb_json_createstring []);
             keyed "value" sample_document].

(** ** The nesting depth of a tree *)

(** The number of arrays and objects nested in one another along the
    deepest path of the tree; a scalar has nesting 0. *)
Fixpoint nesting (t : stb_json) : nat :=
  let m := (fix children (l : list stb_json) : nat :=
              match l with
              | [] => O
              | c :: l' => Nat.max (nesting c) (children l')
              end) (child t) in
  if (kind t =? STB_JSON_ARRAY) || (kind t =? STB_JSON_OBJECT) then S m else O.

Definition max_nesting (l : list stb_json) : nat :=
  foldr (fun c n => Nat.max (nesting c) n) O l.

(** The default of [STB_JSON_NESTING_LIMIT]. *)
Definition default_nesting_limit : nat := 1000.

(** [deep_array n] is an empty array inside [n] further arrays, and
    [deep_text n] its text: [n + 1] opening and [n + 1] closing brackets. *)
Fixpoint deep_array (n : nat) : stb_json :=
  match n with
  | O => stb_json_createarray
  | S n' => array_of [deep_array n']
  end.

Definition deep_text (n : nat) : list ascii :=
  repeat "["%char (S n) ++ repeat "]"%char (S n).

(** The outcome of a parsing function with the depth counter of the
    buffer it returns replaced. *)
Definition with_depth {A : Type} (o : outcome (A * parse_buffer)) (d : nat)
    : outcome (A * parse_buffer) :=
  match o with
  | Done (x, b) => Done (x, set_depth b d)
  | Failed => Failed
  | Timeout => Timeout
  end.

(** The part that [parse_array] and [parse_object] share after the opening
    bracket: [b1] is the buffer after the bracket and the whitespace that
    follows it, [d] the depth counter before the call, [close] the closing
    bracket and [t] the type of the node. *)
Definition container_rest (t : Z) (close : ascii)
    (loop : parse_buffer -> outcome (list stb_json * parse_buffer))
    (item : stb_json) (b1 : parse_buffer) (d : nat)
    : outcome (stb_json * parse_buffer) :=
  if at_is b1 0 close then parse_success item t [] (set_depth b1 (S d))
  else if cannot_access_at_index b1 0 then Failed
  else
    bind (loop (set_depth (set_offset b1 (offset b1 - 1)) (S d))) (fun r =>
      let '(head, b) := r in
      if cannot_access_at_index b 0 || negb (at_is b 0 close) then Failed
      else parse_success item t head b).

(** The statement about one call of [parse_value]: with the limit [L']
    it returned [r]; with any limit [L] and any depth counter [d] below
    it, the same call returns [r] when [r] fits under the limit and
    fails otherwise. *)
Definition value_budget (pow10 : Z -> double) (fuel : nat) : Prop :=
  forall (L' : nat) (item : stb_json) (b : parse_buffer) (r : stb_json) (b' : parse_buffer),
    (depth b <= L')%nat ->
    parse_value pow10 L' parse_string fuel item b = Done (r, b') ->
    depth b' = depth b /\ (depth b + nesting r <= L')%nat /\
    forall (L d : nat), (d <= L)%nat ->
      parse_value pow10 L parse_string fuel item (set_depth b d)
      = if Nat.leb (d + nesting r) L then Done (r, set_depth b' d) else Failed.

Definition loop_budget
    (loop : nat -> nat -> parse_buffer -> outcome (list stb_json * parse_buffer))
    (fuel : nat) : Prop :=
  forall (L' : nat) (b : parse_buffer) (rs : list stb_json) (b' : parse_buffer),
    (depth b <= L')%nat ->
    loop L' fuel b = Done (rs, b') ->
    depth b' = depth b /\ (depth b + max_nesting rs <= L')%nat /\
    forall (L d : nat), (d <= L)%nat ->
      loop L fuel (set_depth b d)
      = if Nat.leb (d + max_nesting rs) L then Done (rs, set_depth b' d) else Failed.

(** ** Objects with well-formed keys *)

(** A C string holds no NUL byte. *)
Definition c_string (s : list ascii) : bool :=
  forallb (fun c => negb (code c =? 0)) s.

(** What the key comparison sees of a key: its bytes, or its bytes in
    lower case. *)
Definition key_text (case_sensitive : bool) (k : list ascii) : list Z :=
  if case_sensitive then map code k else map tolower k.

Definition member_key (case_sensitive : bool) (m : stb_json) : option (list Z) :=
  option_map (key_text case_sensitive) (string m).

(** Every member has a key, and the key is a C string. *)
Definition keyed_members (l : list stb_json) : bool :=
  forallb (fun m => match string m with Some k => c_string k | None => false end) l.

(** The members of an object as JSON has them: each with a key, no two
    with the same key under the comparison in use. *)
Definition well_keyed (case_sensitive : bool) (l : list stb_json) : Prop :=
  keyed_members l = true /\ NoDup (map (member_key case_sensitive) l).

(** [stb_json_getobjectitemcasesensitive] or [stb_json_getobjectitem]. *)
Definition object_item (case_sensitive : bool) (object : option stb_json)
    (name : option (list ascii)) : option stb_json :=
  if case_sensitive then stb_json_getobjectitemcasesensitive object name
  else stb_json_getobjectitem object name.

(** The member [add_item_to_object] makes of [item] under the key [name]. *)
Definition member_added (name : option (list ascii)) (item : stb_json) : stb_json :=
  set_type (set_string item name) (Z.land (type item) (Z.lnot STB_JSON_STRING_IS_CONST)).

(** The base, the patch and the result of the merge patch example:
    a is 1 and b is 2; a is null and c is 3; b is 2 and c is 3. *)
Definition merge_base : stb_json :=
  object_of [keyed "a" (stb_json_createnumber (double_of_int 1));
             keyed "b" (stb_json_createnumber (double_of_int 2))].
Definition merge_patch_sample : stb_json :=
  object_of [keyed "a" stb_json_createnull;
             keyed "c" (stb_json_createnumber (double_of_int 3))].
Definition merge_result : stb_json :=
  object_of [keyed "b" (stb_json_createnumber (double_of_int 2));
             keyed "c" (stb_json_createnumber (double_of_int 3))].
Definition merge_result_text : list ascii :=
  lit "{" ++ [dquote] ++ lit "b" ++ [dquote] ++ lit ":2," ++ [dquote] ++ lit "c"
    ++ [dquote] ++ lit ":3}".

(** The member of a child list that [get_object_item] finds for a key. *)
Definition item_of (case_sensitive : bool) (l : list stb_json) (name : list ascii)
    : option stb_json :=
  match get_object_item_index l name case_sensitive with
  | Some i => nth_error l i
  | None => None
  end.

(** ** Sample numbers *)

(** The double nearest to three tenths, and the next double above it, which
    is the sum of the doubles nearest to one tenth and to two tenths. *)
Definition three_tenths : double := S754_finite false 5404319552844595 (-54).
Definition sum_of_tenths : double := S754_finite false 5404319552844596 (-54).

(** A parse buffer at the start of a text, with the terminating NUL the
    parser appends. *)
Definition buffer_of (text : list ascii) : parse_buffer :=
  {| content := text ++ [ascii_of_nat 0]; offset := 0; depth := 0 |}.

(** ** Values that are printed and parsed back *)

(** The smallest positive double, 2^-1074. *)
Definition smallest_double : double := S754_finite false 1 (-1074).

(** What follows a number in a text does not continue it. *)
Definition number_end (s : list ascii) : bool :=
  match s with
  | [] => true
  | x :: _ => negb (is_number_char x)
  end.

(** The bytes [buffer_skip_whitespace] skips. *)
Definition whitespace (w : list ascii) : bool := forallb (fun c => code c <=? 32) w.

Section ReadsBack.
Variable pow10 : Z -> double.
Variable sprintf_g : nat -> double -> list ascii.
Variable sscanf_lg : list ascii -> option double.

(** A number node whose printed text is a number token that
    [stb_json_strtod] reads to its end, as a double that [compare_double]
    accepts for the double of the node. *)
Definition number_reads_back (v : stb_json) : bool :=
  match print_number sprintf_g sscanf_lg v with
  | Some (c :: text) =>
      (Ascii.eqb c "-" || is_digit c) && forallb is_number_char (c :: text) &&
      (let '(number, after_end) := stb_json_strtod pow10 (c :: text) in
       Nat.eqb after_end (length (c :: text)) && compare_double number (valuedouble v))
  | _ => false
  end.

(** The trees of the data model without raw nodes: every node has one of
    the seven kinds, a string node has a C string, a member of an object
    has a C string as key, and a number node reads back. *)
Fixpoint json_value (v : stb_json) : bool :=
  if (kind v =? STB_JSON_NULL) || (kind v =? STB_JSON_FALSE) || (kind v =? STB_JSON_TRUE)
  then true
  else if kind v =? STB_JSON_NUMBER then number_reads_back v
  else if kind v =? STB_JSON_STRING then
    match valuestring v with Some s => c_string s | None => false end
  else if kind v =? STB_JSON_ARRAY then forallb json_value (child v)
  else if kind v =? STB_JSON_OBJECT then
    forallb (fun m => match string m with Some k => c_string k | None => false end
                      && json_value m) (child v)
  else false.
End ReadsBack.

(** [reads_as v r]: the tree [r] is what the parser builds from the text
    of [v]; the same kinds, strings, keys and children in the same order,
    and for a number a double that [compare_double] accepts. *)
Unset Elimination Schemes.
Inductive reads_as : stb_json -> stb_json -> Prop :=
  | reads_as_node (v r : stb_json) :
      type r = kind v ->
      (kind v = STB_JSON_NUMBER ->
       compare_double (valuedouble r) (valuedouble v) = true) ->
      (kind v = STB_JSON_STRING ->
       exists s, valuestring v = Some s /\ valuestring r = Some s) ->
      (kind v = STB_JSON_ARRAY \/ kind v = STB_JSON_OBJECT ->
       Forall2 reads_as (child v) (child r)) ->
      (kind v = STB_JSON_OBJECT ->
       Forall2 (fun m rm => exists k, string m = Some k /\ string rm = Some k)
         (child v) (child r)) ->
      reads_as v r.
Set Elimination Schemes.

(** [parses_back v]: wherever the printed text of [v] stands in a buffer,
    followed by something that does not continue a number, [parse_value]
    with fuel for the length of the text and room for the nesting of [v]
    under the limit consumes exactly that text and builds a tree that
    reads as [v], under the key the item had. *)
Definition parses_back (pow10 : Z -> double) (sprintf_g : nat -> double -> list ascii)
    (sscanf_lg : list ascii -> option double) (limit : nat) (format : bool)
    (v : stb_json) : Prop :=
  forall (print_depth : nat) (t : list ascii),
    print_value sprintf_g sscanf_lg v format print_depth = Some t ->
    forall (fuel : nat) (item : stb_json) (c : list ascii) (o d : nat) (s : list ascii),
      (length t <= fuel)%nat ->
      skipn o c = t ++ s ->
      number_end s = true ->
      (d + nesting v <= limit)%nat ->
      exists r : stb_json,
        parse_value pow10 limit parse_string fuel item (mk_parse_buffer c o d)
        = Done (r, mk_parse_buffer c (o + length t) d) /\
        reads_as v r /\ string r = string item.

(** ** UTF-8 validation *)

(** [is_valid_utf8] on the bytes of a C string: the loop stops at a NUL
    byte, and a byte that is missing after the end of the string reads as
    the terminating NUL, which is no continuation byte. *)
Fixpoint is_valid_utf8 (s : list ascii) : bool :=
  let continuation (c : ascii) : bool := Z.land (code c) 192 =? 128 in
  match s with
  | [] => true
  | c :: s1 =>
      if code c =? 0 then true
      else if code c <? 128 then is_valid_utf8 s1
      else if Z.land (code c) 224 =? 192 then
        match s1 with
        | c1 :: s2 => if negb (continuation c1) then false else is_valid_utf8 s2
        | [] => false
        end
      else if Z.land (code c) 240 =? 224 then
        match s1 with
        | c1 :: s2 =>
            if negb (continuation c1) then false
            else
              match s2 with
              | c2 :: s3 => if negb (continuation c2) then false else is_valid_utf8 s3
              | [] => false
              end
        | [] => false
        end
      else if Z.land (code c) 248 =? 240 then
        match s1 with
        | c1 :: s2 =>
            if negb (continuation c1) then false
            else
              match s2 with
              | c2 :: s3 =>
                  if negb (continuation c2) then false
                  else
                    match s3 with
                    | c3 :: s4 => if negb (continuation c3) then false else is_valid_utf8 s4
                    | [] => false
                    end
              | [] => false
              end
        | [] => false
        end
      else false
  end.

(** ** Keys in JSON pointers *)

Fixpoint pointer_encoded_length (s : list ascii) : nat :=
  match s with
  | [] => O
  | c :: s' =>
      if Ascii.eqb c "~" || Ascii.eqb c "/"
      then S (S (pointer_encoded_length s'))
      else S (pointer_encoded_length s')
  end.

(** [encode_string_as_pointer]: the bytes written to [dest]. *)
Fixpoint encode_string_as_pointer (src : list ascii) : list ascii :=
  match src with
  | [] => []
  | c :: src' =>
      if Ascii.eqb c "/" then "~"%char :: "1"%char :: encode_string_as_pointer src'
      else if Ascii.eqb c "~" then "~"%char :: "0"%char :: encode_string_as_pointer src'
      else c :: encode_string_as_pointer src'
  end.

(** The loop of [decode_pointer_inplace]: [original] is the string as it
    was, [decoded] the bytes written so far at its start and [s] what is
    left to read.  At a tilde followed by neither 0 nor 1 the function
    returns at once, and the buffer holds the bytes written followed by
    the bytes of the original behind them. *)
Fixpoint decode_pointer_loop (original decoded s : list ascii) : list ascii :=
  match s with
  | [] => decoded
  | c :: s' =>
      if Ascii.eqb c "~" then
        match s' with
        | c1 :: s'' =>
            if Ascii.eqb c1 "0" then decode_pointer_loop original (decoded ++ ["~"%char]) s''
            else if Ascii.eqb c1 "1" then decode_pointer_loop original (decoded ++ ["/"%char]) s''
            else decoded ++ skipn (length decoded) original
        | [] => decoded ++ skipn (length decoded) original
        end
      else decode_pointer_loop original (decoded ++ [c]) s'
  end.

Definition decode_pointer_inplace (s : list ascii) : list ascii :=
  decode_pointer_loop s [] s.

Definition stb_json_hasobjectitem (object : option stb_json) (name : option (list ascii))
    : bool :=
  match stb_json_getobjectitem object name with
  | Some _ => true
  | None => false
  end.

(** ** The measuring pass of [print_string_ptr] *)

(** The test [(b & 0xC0) == 0x80] of a continuation byte. *)
Definition continuation_byte (c : ascii) : bool := Z.land (code c) 192 =? 128.

(** The length [bytes] that the first loop of [print_string_ptr] gives to
    the sequence starting at a byte [c] of 128 or more; [following] holds
    the bytes of the string behind [c], and the byte behind the last of
    them is the terminating NUL, which is no continuation byte. *)
Definition sequence_bytes (c : ascii) (following : list ascii) : nat :=
  let bytes :=
    if Z.land (code c) 224 =? 192 then 2%nat
    else if Z.land (code c) 240 =? 224 then 3%nat
    else if Z.land (code c) 248 =? 240 then 4%nat
    else 1%nat in
  if forallb (fun b => Z.land (code b) 192 =? 128) (firstn (bytes - 1) following)
     && Nat.leb (bytes - 1) (length following)
  then bytes else 1%nat.

(** The first loop of [print_string_ptr]: the result is the distance
    [input_pointer - input] at the end of the loop and the count
    [escape_characters]. *)
Fixpoint measure_string (fuel : nat) (input : list ascii) : nat * nat :=
  match fuel with
  | O => (O, O)
  | S fuel' =>
      match input with
      | [] => (O, O)
      | c :: following =>
          if code c =? 0 then (O, O)
          else if code c <? 128 then
            let escape :=
              if Ascii.eqb c dquote || Ascii.eqb c "\" || (code c =? 8) || (code c =? 12)
                 || (code c =? 10) || (code c =? 13) || (code c =? 9)
              then 1%nat
              else if code c <? 32 then 5%nat else O in
            let (n, e) := measure_string fuel' following in
            (S n, (escape + e)%nat)
          else
            let bytes := sequence_bytes c following in
            let (n, e) := measure_string fuel' (skipn (bytes - 1) following) in
            ((bytes + n)%nat, e)
      end
  end.

(** [output_length] with [escape_characters], as [print_string_ptr]
    computes them for its input. *)
Definition output_length (input : list ascii) : nat * nat :=
  let (n, e) := measure_string (S (length input)) input in ((n + e)%nat, e).

(** ** Trees that can be copied and compared *)

(** A node whose key was given by [stb_json_additemtoobjectcs]: the key is
    present and [STB_JSON_STRING_IS_CONST] is set in the type. *)
Definition has_constant_key (t : stb_json) : bool :=
  match string t with
  | Some _ => negb (Z.land (type t) STB_JSON_STRING_IS_CONST =? 0)
  | None => false
  end.

Fixpoint no_constant_keys (t : stb_json) : bool :=
  negb (has_constant_key t) && forallb no_constant_keys (child t).

(** The trees on which [stb_json_compare] has something to compare: a
    node of one of the eight kinds, a number that is neither NaN nor
    infinite, a string or raw node with a text, and in an object members
    that have keys. *)
Fixpoint comparable (v : stb_json) : bool :=
  if (kind v =? STB_JSON_FALSE) || (kind v =? STB_JSON_TRUE) || (kind v =? STB_JSON_NULL)
  then true
  else if kind v =? STB_JSON_NUMBER then negb (isnan (valuedouble v) || isinf (valuedouble v))
  else if (kind v =? STB_JSON_STRING) || (kind v =? STB_JSON_RAW) then
    match valuestring v with Some _ => true | None => false end
  else if kind v =? STB_JSON_ARRAY then forallb comparable (child v)
  else if kind v =? STB_JSON_OBJECT then
    forallb (fun m => match string m with Some _ => true | None => false end && comparable m)
      (child v)
  else false.

(** The pointer test [a == b] between nodes of two different trees. *)
Definition distinct_nodes (a b : stb_json) : bool := false.

(** ** The order of keys *)

(** The comparison of two keys as [strcmp] and [case_insensitive_strcmp]
    make it, on the texts that [key_text] gives. *)
Fixpoint key_order (a b : list Z) : Z :=
  match a, b with
  | [], [] => 0
  | [], y :: _ => 0 - y
  | x :: _, [] => x
  | x :: a', y :: b' => if x =? y then key_order a' b' else x - y
  end.

(** A member with a key that is a C string. *)
Definition keyed_member (m : stb_json) : Prop :=
  exists k, string m = Some k /\ c_string k = true.

(** The order [sort_list] sorts by. *)
Definition key_le (case_sensitive : bool) (x y : stb_json) : Prop :=
  compare_strings (string x) (string y) case_sensitive <= 0.

(** The members of a list are in ascending order of their keys: every
    member is [key_le] every member behind it. *)
Fixpoint keys_ascending (case_sensitive : bool) (l : list stb_json) : Prop :=
  match l with
  | [] => True
  | x :: l' => Forall (key_le case_sensitive x) l' /\ keys_ascending case_sensitive l'
  end.

(** ** From a node to its JSON pointer *)

(** [sprintf("%zu", n)] for a [size_t]; a number below 10^20 has at most
    twenty digits. *)
Definition sprintf_zu (n : nat) : list ascii := decimal_digits 20 (Z.of_nat n).

(** [stb_json_utils_findpointerfromobjectto]: the target is a node of the
    tree under [object], given by the path that leads to it.  The search
    of the C function visits the children in order, comes back with NULL
    from every child that does not hold the target and builds the pointer
    on the way back from the child that holds it.  The result is [None]
    for NULL, and also where the C code reads the key of a member that
    has none. *)
Fixpoint stb_json_utils_findpointerfromobjectto (object : stb_json) (target : list nat)
    : option (list ascii) :=
  match target with
  | [] => Some []
  | child_index :: target' =>
      match nth_error (child object) child_index with
      | None => None
      | Some current_child =>
          match stb_json_utils_findpointerfromobjectto current_child target' with
          | None => None
          | Some target_pointer =>
              if kind object =? STB_JSON_ARRAY then
                Some ("/"%char :: sprintf_zu child_index ++ target_pointer)
              else if kind object =? STB_JSON_OBJECT then
                match string current_child with
                | Some key =>
                    Some ("/"%char :: encode_string_as_pointer key ++ target_pointer)
                | None => None
                end
              else None
          end
      end
  end.

(** The nodes a JSON pointer can name: on the way from the root every
    node is an array, with the index of the next node fitting a [size_t],
    or an object in which the next node is the first member with its
    key. *)
Fixpoint addressable (case_sensitive : bool) (object : stb_json) (target : list nat)
    : Prop :=
  match target with
  | [] => True
  | i :: target' =>
      match nth_error (child object) i with
      | None => False
      | Some c =>
          ((kind object = STB_JSON_ARRAY /\ Z.of_nat i < 2 ^ 64) \/
           (kind object = STB_JSON_OBJECT /\
            exists k, string c = Some k /\ c_string k = true /\
              (Some (key_text case_sensitive k)
               ∉ map (member_key case_sensitive) (firstn i (child object))))) /\
          addressable case_sensitive c target'
      end
  end.

(** ** Text without strings and comments *)

(** The bytes that [stb_json_minify] drops outside strings and comments:
    space, tab, carriage return and line feed. *)
Definition minify_blank (c : ascii) : bool :=
  Ascii.eqb c " " || (code c =? 9) || (code c =? 13) || (code c =? 10).

(** A text in which no string and no comment begins: a C string without
    double quote and without slash. *)
Definition plain_text (json : list ascii) : bool :=
  forallb (fun c => negb (Ascii.eqb c NUL) && negb (Ascii.eqb c dquote)
                    && negb (Ascii.eqb c "/")) json.

(** ** The cursor of the parser *)

(** The buffer [b'] is the buffer [b] with the cursor moved forward, at
    most to the end of the content, and the nesting depth as it was. *)
Definition cursor_advanced (b b' : parse_buffer) : Prop :=
  (offset b < offset b' <= length (content b'))%nat /\
  content b' = content b /\ depth b' = depth b.

(** What a loop over the children leaves: the cursor not before the
    start of the first child. *)
Definition loop_cursor
    (loop : parse_buffer -> outcome (list stb_json * parse_buffer)) : Prop :=
  forall b rs b', loop b = Done (rs, b') ->
    (offset (buffer_skip_whitespace (set_offset b (offset b + 1))) <= offset b')%nat /\
    content b' = content b /\ depth b' = depth b.

(** The buffer [stb_json_parse_withlengthopts] hands to [parse_value]:
    the bytes with the cursor behind a byte order mark and the whitespace
    that follows it. *)
Definition parse_start (bytes : list ascii) : parse_buffer :=
  buffer_skip_whitespace
    (match skip_utf8_bom (mk_parse_buffer bytes 0 0) with
     | Some b => b
     | None => mk_parse_buffer bytes 0 0
     end).

(** ** Replacing a node of a child list in memory *)

Module MemEdit.
Import Mem.

(** [get_array_item]: [walk] from the first child; a NULL array has no
    items. *)
Definition get_array_item (h : heap) (array : ptr) (index : nat) : option ptr :=
  match array with
  | None => Some None
  | Some a =>
      match h !! a with
      | Some n => walk h (child n) index
      | None => None
      end
  end.

(** The loop of [stb_json_getarraysize] from [child] on; the fuel bounds
    the walk, and [None] also stands for a list that does not end within
    it. *)
Fixpoint count_items (fuel : nat) (h : heap) (child : ptr) : option nat :=
  match child with
  | None => Some O
  | Some c =>
      match fuel with
      | O => None
      | S fuel' =>
          match h !! c with
          | Some n => option_map S (count_items fuel' h (next n))
          | None => None
          end
      end
  end.

(** [stb_json_replaceitemviapointer] up to its last statement, the call
    [stb_json_delete(item)] that frees the replaced node, which is then
    detached, with its subtree.  The result is the boolean returned and
    the heap with the links as the function leaves them. *)
Definition stb_json_replaceitemviapointer (h : heap) (parent item replacement : ptr)
    : option (bool * heap) :=
  match parent with
  | None => Some (false, h)
  | Some parent =>
      match h !! parent with
      | None => None
      | Some p =>
          match child p, replacement, item with
          | Some _, Some replacement, Some item =>
              if Nat.eqb replacement item then Some (true, h)
              else
                match h !! item with
                | None => None
                | Some i =>
                    (* replacement->next = item->next; replacement->prev = item->prev; *)
                    match write h replacement
                            (fun n => set_prev (set_next n (next i)) (prev i)) with
                    | None => None
                    | Some h =>
                        (* if (replacement->next) replacement->next->prev = replacement; *)
                        let step1 :=
                          match next i with
                          | Some nx => write h nx (fun n => set_prev n (Some replacement))
                          | None => Some h
                          end in
                        match step1 with
                        | None => None
                        | Some h =>
                            match h !! parent, h !! replacement with
                            | Some p, Some r =>
                                let step2 :=
                                  if ptr_eqb (Some item) (child p) then
                                    (* if (parent->child->prev == parent->child)
                                         replacement->prev = replacement;
                                       parent->child = replacement; *)
                                    match h !! item with
                                    | None => None
                                    | Some hd =>
                                        let step :=
                                          if ptr_eqb (prev hd) (child p)
                                          then write h replacement
                                                 (fun n => set_prev n (Some replacement))
                                          else Some h in
                                        match step with
                                        | None => None
                                        | Some h =>
                                            write h parent
                                              (fun n => set_child n (Some replacement))
                                        end
                                    end
                                  else
                                    (* if (replacement->prev) replacement->prev->next = replacement;
                                       if (!replacement->next) parent->child->prev = replacement; *)
                                    let step :=
                                      match prev r with
                                      | Some q => write h q (fun n => set_next n (Some replacement))
                                      | None => Some h
                                      end in
                                    match step with
                                    | None => None
                                    | Some h =>
                                        match h !! parent, h !! replacement with
                                        | Some p, Some r =>
                                            match next r with
                                            | Some _ => Some h
                                            | None =>
                                                match child p with
                                                | Some head =>
                                                    write h head
                                                      (fun n => set_prev n (Some replacement))
                                                | None => None
                                                end
                                            end
                                        | _, _ => None
                                        end
                                    end in
                                match step2 with
                                | None => None
                                | Some h =>
                                    (* item->next = item->prev = NULL; *)
                                    match write h item
                                            (fun n => set_next (set_prev n None) None) with
                                    | Some h => Some (true, h)
                                    | None => None
                                    end
                                end
                            | _, _ => None
                            end
                        end
                    end
                end
          | _, _, _ => Some (false, h)
          end
      end
  end.

(** [stb_json_getarraysize]: a list in a heap of [size h] nodes that
    does not end within [size h] steps is cyclic, and the C loop does
    not return on it. *)
Definition stb_json_getarraysize (h : heap) (array : ptr) : option Z :=
  match array with
  | None => Some 0
  | Some a =>
      match h !! a with
      | Some n =>
          option_map (fun size => wrap_int (Z.of_nat size))
            (count_items (S (size h)) h (child n))
      | None => None
      end
  end.

Definition stb_json_getarrayitem (h : heap) (array : ptr) (index : Z) : option ptr :=
  if index <? 0 then Some None else get_array_item h array (Z.to_nat index).

Definition stb_json_replaceiteminarray (h : heap) (array : ptr) (which : Z)
    (newitem : ptr) : option (bool * heap) :=
  if which <? 0 then Some (false, h)
  else
    match get_array_item h array (Z.to_nat which) with
    | Some item => stb_json_replaceitemviapointer h array item newitem
    | None => None
    end.

End MemEdit.

(** ** Generating a merge patch *)

(** The loop of [generate_merge_patch] over the sorted members of [from]
    and [to], with the recursive call as a parameter.  [compare_json]
    sorts the objects it visits, so the loop returns the patch together
    with the two child lists as it leaves them.  Each round consumes a
    member of one of the lists, so the sum of their lengths bounds the
    fuel; [None] is the outcome for exhausted fuel. *)
Section GenerateMembers.
Variable generate : stb_json -> stb_json -> option (option stb_json * stb_json * stb_json).
Variable case_sensitive : bool.

Fixpoint generate_members (fuel : nat) (from_children to_children : list stb_json)
    (patch : option stb_json) : option (option stb_json * list stb_json * list stb_json) :=
  match fuel with
  | O => None
  | S fuel' =>
      let removed (from_child : stb_json) (from_next : list stb_json) :=
        (* diff < 0 *)
        let patch :=
          snd (stb_json_additemtoobject patch (string from_child) (Some stb_json_createnull)) in
        match generate_members fuel' from_next to_children patch with
        | None => None
        | Some (p, fl, tl) => Some (p, from_child :: fl, tl)
        end in
      let added (to_child : stb_json) (to_next : list stb_json) :=
        (* diff > 0 *)
        let patch :=
          snd (stb_json_additemtoobject patch (string to_child)
                 (stb_json_duplicate (Some to_child) true)) in
        match generate_members fuel' from_children to_next patch with
        | None => None
        | Some (p, fl, tl) => Some (p, fl, to_child :: tl)
        end in
      match from_children, to_children with
      | [], [] => Some (patch, [], [])
      | [], to_child :: to_next => added to_child to_next
      | from_child :: from_next, [] => removed from_child from_next
      | from_child :: from_next, to_child :: to_next =>
          let diff := compare_strings (string from_child) (string to_child) case_sensitive in
          if diff <? 0 then removed from_child from_next
          else if 0 <? diff then added to_child to_next
          else
            match compare_json (Some from_child) (Some to_child) case_sensitive with
            | Some (r, Some from_child, Some to_child) =>
                let step :=
                  if r then Some (patch, from_child, to_child)
                  else
                    match generate from_child to_child with
                    | None => None
                    | Some (child_patch, from_child, to_child) =>
                        Some (snd (stb_json_additemtoobject patch (string to_child) child_patch),
                              from_child, to_child)
                    end in
                match step with
                | None => None
                | Some (patch, from_child, to_child) =>
                    match generate_members fuel' from_next to_next patch with
                    | None => None
                    | Some (p, fl, tl) => Some (p, from_child :: fl, to_child :: tl)
                    end
                end
            | _ => None
            end
      end
  end.

End GenerateMembers.

(** [generate_merge_patch] on two nodes: the patch, NULL when it would be
    an object without members, and the two nodes as the call leaves them.
    The members of two objects that compare equal by their keys are
    handed to [stb_json_utils_generatemergepatch], which compares keys
    without regard to case whatever [case_sensitive] is. *)
Fixpoint generate_merge_patch_nodes (fuel : nat) (from to : stb_json)
    (case_sensitive : bool) {struct fuel}
    : option (option stb_json * stb_json * stb_json) :=
  match fuel with
  | O => None
  | S fuel' =>
      if negb (stb_json_isobject (Some to)) || negb (stb_json_isobject (Some from))
      then Some (stb_json_duplicate (Some to) true, from, to)
      else
        let from := sort_object from case_sensitive in
        let to := sort_object to case_sensitive in
        match
          generate_members (fun a b => generate_merge_patch_nodes fuel' a b false)
            case_sensitive (S (length (child from) + length (child to)))
            (child from) (child to) (Some stb_json_createobject)
        with
        | None => None
        | Some (patch, fl, tl) =>
            Some (match patch with
                  | Some p => match child p with [] => None | _ :: _ => Some p end
                  | None => None
                  end,
                  set_child from fl, set_child to tl)
        end
  end.

(** [generate_merge_patch] on two pointers; the recursion descends into
    the members of [from], whose height is fuel enough. *)
Definition generate_merge_patch (from to : option stb_json) (case_sensitive : bool)
    : option (option stb_json * option stb_json * option stb_json) :=
  match to with
  | None => Some (Some stb_json_createnull, from, to)
  | Some t =>
      match from with
      | None => Some (stb_json_duplicate to true, from, to)
      | Some f =>
          match generate_merge_patch_nodes (height f) f t case_sensitive with
          | None => None
          | Some (patch, f', t') => Some (patch, Some f', Some t')
          end
      end
  end.

Definition stb_json_utils_generatemergepatch (from to : option stb_json)
    : option (option stb_json * option stb_json * option stb_json) :=
  generate_merge_patch from to false.
Definition stb_json_utils_generatemergepatchcasesensitive (from to : option stb_json)
    : option (option stb_json * option stb_json * option stb_json) :=
  generate_merge_patch from to true.

(** * Properties *)

(** ** The accessors *)

(** C10: the public accessors are total functions and safe on NULL.  For an
    argument that is NULL or not a number, [stb_json_getnumbervalue] and
    [stb_json_getnumberdouble] return NaN and [stb_json_getnumberint]
    returns 0; every [stb_json_is*] predicate is false on NULL;
    [stb_json_getarraysize] is 0 on NULL; [stb_json_getarrayitem] is NULL
    for every negative index. *)
Theorem accessors_null_safe (item array : option stb_json) (index : Z)
    (Hitem : item = None \/ exists i, item = Some i /\ kind i <> STB_JSON_NUMBER)
    (Hindex : index < 0) :
  stb_json_getnumbervalue item = NAN /\
  stb_json_getnumberdouble item = NAN /\
  stb_json_getnumberint item = 0 /\
  stb_json_isinvalid None = false /\ stb_json_isfalse None = false /\
  stb_json_istrue None = false /\ stb_json_isbool None = false /\
  stb_json_isnull None = false /\ stb_json_isnumber None = false /\
  stb_json_isstring None = false /\ stb_json_isarray None = false /\
  stb_json_isobject None = false /\ stb_json_israw None = false /\
  stb_json_getarraysize None = 0 /\
  stb_json_getarrayitem array index = None.
Proof.
  assert (Hnum : stb_json_isnumber item = false).
  { destruct Hitem as [-> | [i [-> Hk]]]; simpl; [reflexivity |].
    apply Z.eqb_neq; exact Hk. }
  unfold stb_json_getnumbervalue, stb_json_getnumberdouble, stb_json_getnumberint.
  rewrite Hnum; simpl.
  repeat split; try reflexivity.
  unfold stb_json_getarrayitem.
  apply Z.ltb_lt in Hindex; rewrite Hindex; reflexivity.
Qed.

Lemma accessors_null_safe_witness :
  let s := Some (stb_json_createstring (lit "x")) in
  stb_json_getnumbervalue s = NAN /\
  stb_json_getnumberint s = 0 /\
  stb_json_getarrayitem (Some stb_json_createarray) (-1) = None.
Proof.
  assert (Hk : kind (stb_json_createstring (lit "x")) <> STB_JSON_NUMBER)
    by (vm_compute; discriminate).
  assert (Hi : -1 < 0) by lia.
  pose proof (accessors_null_safe
                (Some (stb_json_createstring (lit "x")))
                (Some stb_json_createarray) (-1)
                (or_intror (ex_intro _ _ (conj eq_refl Hk))) Hi) as H.
  destruct H as (H1 & _ & H3 & H4).
  split; [exact H1 | split; [exact H3 |]].
  destruct H4 as (_ & _ & _ & _ & _ & _ & _ & _ & _ & _ & _ & H). exact H.
Defined.

(** ** The stand-alone comparator on numbers *)

(** C5, refuted as stated: the numbers 1 and 1 - 2^-53 have the integer
    projections 1 and 0, yet [stb_json_compare] reports them equal, so its
    verdict is not "doubles equal up to the tolerance and integer
    projections equal". *)
Lemma compare_numbers_ignores_valueint :
  let a := stb_json_createnumber (double_of_int 1) in
  let b := stb_json_createnumber below_one in
  stb_json_compare (fun _ _ => false) (Some a) (Some b) true = Some true /\
  ~ (compare_double (valuedouble a) (valuedouble b) = true /\ valueint a = valueint b).
Proof.
  split.
  - vm_compute. reflexivity.
  - intros [_ H]. vm_compute in H. discriminate H.
Qed.

(** C5, amended: on two number nodes [stb_json_compare] returns true when
    they are one and the same node, and otherwise exactly when the doubles
    are equal up to [max(|a|,|b|) * DBL_EPSILON]; the integer projections
    are not consulted. *)
Theorem compare_numbers (same_node : stb_json -> stb_json -> bool)
    (a b : stb_json) (case_sensitive : bool)
    (Ha : kind a = STB_JSON_NUMBER) (Hb : kind b = STB_JSON_NUMBER) :
  stb_json_compare same_node (Some a) (Some b) case_sensitive =
    Some (same_node a b || compare_double (valuedouble a) (valuedouble b)).
Proof.
  unfold stb_json_compare.
  destruct a as [ca ta sa ia da ka], b as [cb tb sb ib db kb].
  unfold compare_nodes.
  unfold kind in *; simpl in *.
  rewrite Ha, Hb. simpl.
  destruct (same_node _ _); reflexivity.
Qed.

Lemma compare_numbers_witness :
  stb_json_compare (fun _ _ => false)
    (Some (stb_json_createnumber (double_of_int 1)))
    (Some (stb_json_createnumber below_one)) true
  = Some (false || compare_double (double_of_int 1) below_one).
Proof.
  exact (compare_numbers (fun _ _ => false)
           (stb_json_createnumber (double_of_int 1))
           (stb_json_createnumber below_one) true eq_refl eq_refl).
Defined.

(** ** The byte under the cursor *)

Lemma skipn_nth_error {A} (l : list A) (n : nat) (x : A) :
  nth_error l n = Some x -> skipn n l = x :: skipn (S n) l.
Proof.
  revert n; induction l as [| y l IH]; intros [| n] H; simpl in *; try discriminate.
  - injection H as ->. reflexivity.
  - apply IH in H. rewrite H. destruct l; reflexivity.
Qed.

Lemma at_is_skipn (b : parse_buffer) (c : ascii) :
  at_is b 0 c = true ->
  skipn (offset b) (content b) = c :: skipn (S (offset b)) (content b).
Proof.
  unfold at_is, buffer_at_offset. rewrite Nat.add_0_r.
  intros H. apply andb_prop in H as [_ H].
  destruct (nth_error (content b) (offset b)) as [x |] eqn:E; [| discriminate].
  apply Ascii.eqb_eq in H. subst x.
  apply skipn_nth_error. exact E.
Qed.

Lemma at_is_inv (b : parse_buffer) (c : ascii) :
  at_is b 0 c = true ->
  can_access_at_index b 0 = true /\ buffer_at_offset b 0 = Some c.
Proof.
  unfold at_is. intros H. apply andb_prop in H as [H1 H2]. split; [exact H1 |].
  destruct (buffer_at_offset b 0) as [x |]; [| discriminate].
  apply Ascii.eqb_eq in H2. congruence.
Qed.

Lemma at_is_other (b : parse_buffer) (c c' : ascii) :
  at_is b 0 c = true -> c <> c' -> at_is b 0 c' = false.
Proof.
  intros H Hne. apply at_is_inv in H as [H1 H2].
  unfold at_is. rewrite H1, H2. simpl.
  apply Ascii.eqb_neq. exact Hne.
Qed.

Lemma starts_with_head (b : parse_buffer) (c x : ascii) (s : list ascii) :
  at_is b 0 c = true -> c <> x -> starts_with b (x :: s) = false.
Proof.
  intros H Hne. unfold starts_with. rewrite (at_is_skipn b c H). simpl.
  replace (Ascii.eqb x c) with false.
  - simpl. apply andb_false_r.
  - symmetry. apply Ascii.eqb_neq. congruence.
Qed.

(** ** A leading plus sign *)

(** [parse_value] fails at a plus sign, whatever the fuel. *)
Lemma parse_value_plus (pow10 : Z -> double) (limit : nat)
    (ps : stb_json -> parse_buffer -> outcome (stb_json * parse_buffer))
    (fuel : nat) (item : stb_json) (b : parse_buffer) :
  at_is b 0 "+" = true ->
  parse_value pow10 limit ps (S fuel) item b = Failed.
Proof.
  intros H. simpl.
  rewrite (starts_with_head b "+" "n" _ H) by discriminate.
  rewrite (starts_with_head b "+" "f" _ H) by discriminate.
  rewrite (starts_with_head b "+" "t" _ H) by discriminate.
  rewrite (at_is_other b "+" dquote H) by discriminate.
  rewrite (at_is_other b "+" "[" H) by discriminate.
  rewrite (at_is_other b "+" "{" H) by discriminate.
  apply at_is_inv in H as [H1 H2]. rewrite H1, H2. reflexivity.
Qed.

(** C6, refuted as stated: no buffer whose cursor stands on a plus sign is
    accepted by [parse_value], for any fuel, any [pow], any nesting limit
    and any string parser; no number token that begins with a plus sign is
    turned into a number node. *)
Lemma no_number_begins_with_plus :
  ~ exists (pow10 : Z -> double) (limit : nat)
      (ps : stb_json -> parse_buffer -> outcome (stb_json * parse_buffer))
      (fuel : nat) (item : stb_json) (b : parse_buffer)
      (r : stb_json * parse_buffer),
      at_is b 0 "+" = true /\ parse_value pow10 limit ps fuel item b = Done r.
Proof.
  intros (pow10 & limit & ps & fuel & item & b & r & H & Hd).
  destruct fuel as [| fuel]; [discriminate Hd |].
  rewrite (parse_value_plus pow10 limit ps fuel item b H) in Hd. discriminate Hd.
Qed.

(** C6, amended: a value that begins with a plus sign is rejected, because
    [parse_value] hands only a minus sign or a digit to [parse_number].
    [stb_json_strtod] itself does skip a leading plus sign (it reads "+5"
    as 5 and consumes both bytes), and the parser accepts a plus sign
    inside a number token, as the sign of the exponent: "1e+2" parses to
    the number 100. *)
Theorem plus_sign_in_numbers (pow10 : Z -> double) (limit : nat)
    (ps : stb_json -> parse_buffer -> outcome (stb_json * parse_buffer))
    (fuel : nat) (item : stb_json) (b : parse_buffer)
    (Hplus : at_is b 0 "+" = true) :
  parse_value pow10 limit ps (S fuel) item b = Failed /\
  stb_json_strtod pow10 (lit "+5") = (double_of_int 5, 2%nat) /\
  stb_json_parse pow10_ref 1000 parse_string (Some (lit "+5")) = Failed /\
  stb_json_parse pow10_ref 1000 parse_string (Some (lit "1e+2"))
    = Done (stb_json_createnumber (double_of_int 100)).
Proof.
  split; [apply parse_value_plus; exact Hplus |].
  split; [vm_compute; reflexivity |].
  split; vm_compute; reflexivity.
Qed.

Lemma plus_sign_in_numbers_witness :
  parse_value pow10_ref 1000 parse_string 1 stb_json_new_item
    (mk_parse_buffer (lit "+5") 0 0) = Failed.
Proof.
  exact (proj1 (plus_sign_in_numbers pow10_ref 1000 parse_string 0 stb_json_new_item
                  (mk_parse_buffer (lit "+5") 0 0) eq_refl)).
Defined.

(** ** The minifier on an escaped quote *)

(** C7: minification is not idempotent on the code.  After an escaped quote
    [minify_string] advances the read cursor twice, so the byte that
    follows the escaped quote is lost: the first pass drops the b, the
    second pass then drops the closing quote, and a third pass would read
    past the terminating NUL. *)
Theorem minify_twice_differs :
  stb_json_minify escaped_quote_text
    = Some [dquote; "a"%char; "\"%char; dquote; dquote] /\
  stb_json_minify [dquote; "a"%char; "\"%char; dquote; dquote]
    = Some [dquote; "a"%char; "\"%char; dquote] /\
  stb_json_minify [dquote; "a"%char; "\"%char; dquote] = None.
Proof. repeat split; vm_compute; reflexivity. Qed.

(** ** The circular [prev] pointer of a child list *)

Module MemFacts.
Import Mem.
Local Open Scope nat_scope.

Lemma write_Some (h : heap) (a : nat) (n : node) (f : node -> node) :
  h !! a = Some n -> write h a f = Some (<[a := f n]> h).
Proof. intros H. unfold write. rewrite H. reflexivity. Qed.

Lemma ptr_eqb_eq (p q : ptr) : ptr_eqb p q = true <-> p = q.
Proof.
  destruct p as [a |], q as [b |]; simpl; split; intros H;
    try discriminate; try reflexivity.
  - apply Nat.eqb_eq in H. congruence.
  - injection H as ->. apply Nat.eqb_refl.
Qed.

Lemma ptr_eqb_neq (p q : ptr) : ptr_eqb p q = false <-> p <> q.
Proof.
  rewrite <- ptr_eqb_eq. destruct (ptr_eqb p q); split; congruence.
Qed.

(** What the invariant says about the node at one position. *)
Lemma child_list_at (h : heap) (parent : nat) (l : list nat) (i a : nat) :
  child_list h parent l -> l !! i = Some a ->
  exists n, h !! a = Some n /\ next n = l !! (S i) /\
            prev n = match i with O => last l | S j => l !! j end.
Proof. intros (_ & _ & _ & H) Hi. exact (H i a Hi). Qed.

Lemma child_list_parent (h : heap) (parent : nat) (l : list nat) :
  child_list h parent l ->
  exists p, h !! parent = Some p /\ child p = l !! 0.
Proof. intros (_ & _ & H & _). exact H. Qed.

(** The invariant of the specification follows from [child_list]. *)
Lemma child_list_circular (h : heap) (parent : nat) (l : list nat) :
  child_list h parent l -> circular_prev h l.
Proof.
  intros Hl. destruct l as [| hd tl]; [exact I |].
  destruct (child_list_at h parent (hd :: tl) 0 hd Hl eq_refl) as (nh & Hh & _ & Hp).
  assert (Hlast : exists t, last (hd :: tl) = Some t).
  { rewrite last_lookup. apply lookup_lt_is_Some. simpl. lia. }
  destruct Hlast as [t Ht].
  pose proof Ht as Ht'. rewrite last_lookup in Ht'.
  destruct (child_list_at h parent (hd :: tl) _ t Hl Ht') as (nt & Hnt & Hn & _).
  exists t, nh, nt. repeat split; try assumption.
  - congruence.
  - rewrite Hn. apply lookup_ge_None. simpl. lia.
Qed.

(** Two positions that hold the same address are the same position. *)
Lemma child_list_index (h : heap) (parent : nat) (l : list nat) (i j a : nat) :
  child_list h parent l -> l !! i = Some a -> l !! j = Some a -> i = j.
Proof. intros (Hnd & _) Hi Hj. exact (NoDup_lookup l i j a Hnd Hi Hj). Qed.

Lemma child_list_not_parent (h : heap) (parent : nat) (l : list nat) (i a : nat) :
  child_list h parent l -> l !! i = Some a -> a <> parent.
Proof.
  intros (_ & Hp & _) Hi ->. apply Hp. apply list_elem_of_lookup. eauto.
Qed.

(** *** Append *)

Lemma add_item_to_array_list (h : heap) (parent item : nat) (l : list nat) (n0 : node) :
  child_list h parent l ->
  item ∉ l -> item <> parent -> h !! item = Some n0 -> next n0 = None ->
  exists h', add_item_to_array h (Some parent) (Some item) = Some (true, h') /\
             child_list h' parent (l ++ [item]).
Proof.
  intros Hl Hfresh Hne Hitem Hnext.
  destruct (child_list_parent _ _ _ Hl) as (p & Hp & Hc).
  unfold add_item_to_array.
  replace (Nat.eqb parent item) with false
    by (symmetry; apply Nat.eqb_neq; congruence).
  rewrite Hp.
  destruct l as [| hd tl].
  - (* the list is empty *)
    simpl in Hc. rewrite Hc.
    rewrite (write_Some _ _ _ _ Hp).
    rewrite (write_Some _ _ n0) by (rewrite lookup_insert_ne by congruence; exact Hitem).
    eexists. split; [reflexivity |].
    rewrite app_nil_l.
    repeat split.
    + apply NoDup_singleton.
    + rewrite list_elem_of_singleton. congruence.
    + exists (set_child p (Some item)).
      rewrite lookup_insert_ne by congruence. rewrite lookup_insert_eq. split; reflexivity.
    + intros i a Hi. destruct i as [| i]; [| destruct i; discriminate Hi].
      simpl in Hi. injection Hi as <-.
      eexists. rewrite lookup_insert_eq. split; [reflexivity |].
      simpl. split; [exact Hnext | reflexivity].
  - (* the list has a head [hd] and a tail node [t] *)
    simpl in Hc. rewrite Hc.
    destruct (child_list_at _ _ _ 0 hd Hl eq_refl) as (nh & Hh & Hhn & Hhp).
    rewrite Hh.
    assert (Hlast : exists t, last (hd :: tl) = Some t).
    { rewrite last_lookup. apply lookup_lt_is_Some. simpl. lia. }
    destruct Hlast as [t Ht]. rewrite Ht in Hhp. rewrite Hhp.
    pose proof Ht as Hti. rewrite last_lookup in Hti. simpl in Hti.
    destruct (child_list_at _ _ _ _ t Hl Hti) as (nt & Hnt & Htn & Htp).
    assert (Htne : t <> item).
    { intros ->. apply Hfresh. apply list_elem_of_lookup. eauto. }
    assert (Htpar : t <> parent) by (eapply child_list_not_parent; eauto).
    assert (Hhpar : hd <> parent)
      by (eapply (child_list_not_parent _ _ _ 0); eauto; reflexivity).
    assert (Hhne : hd <> item).
    { intros ->. apply Hfresh. apply list_elem_of_lookup. exists 0. reflexivity. }
    unfold suffix_object.
    rewrite (write_Some _ _ _ _ Hnt).
    rewrite (write_Some _ _ n0) by (rewrite lookup_insert_ne by congruence; exact Hitem).
    rewrite lookup_insert_ne by congruence.
    rewrite lookup_insert_ne by congruence.
    rewrite Hp, Hc.
    set (h1 := <[item := set_prev n0 (Some t)]> (<[t := set_next nt (Some item)]> h)).
    assert (Hh1 : exists nh1, h1 !! hd = Some nh1 /\
               next nh1 = (if decide (hd = t) then Some item else next nh) /\
               prev nh1 = prev nh).
    { unfold h1. rewrite lookup_insert_ne by congruence.
      destruct (decide (hd = t)) as [-> | Hd].
      - rewrite lookup_insert_eq. eexists. split; [reflexivity |].
        simpl. split; [reflexivity |]. congruence.
      - rewrite lookup_insert_ne by congruence. eexists. split; [exact Hh |]. auto. }
    destruct Hh1 as (nh1 & Hh1 & Hh1n & Hh1p).
    rewrite (write_Some _ _ _ _ Hh1).
    eexists. split; [reflexivity |].
    destruct Hl as (Hnd & Hpar & _ & Hall).
    repeat split.
    + apply NoDup_app. repeat split; [exact Hnd | | apply NoDup_singleton].
      intros x Hx Hx'. apply list_elem_of_singleton in Hx'. subst x. contradiction.
    + rewrite elem_of_app, list_elem_of_singleton. intros [H | H]; [contradiction | congruence].
    + exists p. rewrite lookup_insert_ne by congruence.
      unfold h1. rewrite lookup_insert_ne by congruence.
      rewrite lookup_insert_ne by congruence. split; [exact Hp |]. exact Hc.
    + intros i a Hi.
      assert (Hlen : length ((hd :: tl) ++ [item]) = S (length (hd :: tl)))
        by (rewrite length_app; simpl; lia).
      assert (Hlastnew : last ((hd :: tl) ++ [item]) = Some item)
        by (rewrite last_snoc; reflexivity).
      destruct (decide (i < length (hd :: tl))) as [Hlt | Hge].
      * rewrite lookup_app_l in Hi by exact Hlt.
        destruct (Hall i a Hi) as (n & Hn & Hnn & Hnp).
        assert (Hai : a <> item).
        { intros ->. apply Hfresh. apply list_elem_of_lookup. eauto. }
        destruct (decide (a = hd)) as [-> | Hahd].
        -- assert (i = 0) by (eapply NoDup_lookup; eauto; reflexivity). subst i.
           rewrite lookup_insert_eq. eexists. split; [reflexivity |].
           cbn [next prev child set_prev set_next set_child]. rewrite Hh1n, Hlastnew. split; [| reflexivity].
           destruct (decide (hd = t)) as [-> | Hd].
           ++ assert (0 = length tl) by (eapply NoDup_lookup; eauto; reflexivity).
              destruct tl; [reflexivity | discriminate].
           ++ rewrite Hhn. destruct tl as [| x tl']; [| reflexivity].
              simpl in Hti. congruence.
        -- rewrite lookup_insert_ne by congruence.
           unfold h1. rewrite lookup_insert_ne by congruence.
           destruct (decide (a = t)) as [-> | Hat].
           ++ assert (i = length tl) by (eapply NoDup_lookup; eauto). subst i.
              rewrite lookup_insert_eq. eexists. split; [reflexivity |].
              cbn [next prev child set_prev set_next set_child]. split.
              ** rewrite lookup_app_r by (simpl; lia).
                 replace (S (length tl) - length (hd :: tl)) with 0 by (simpl; lia).
                 reflexivity.
              ** rewrite Hnt in Hn. injection Hn as <-.
                 destruct (length tl) as [| k] eqn:Hk.
                 --- simpl in Hti. congruence.
                 --- rewrite lookup_app_l by (simpl; lia). exact Hnp.
           ++ rewrite lookup_insert_ne by congruence.
              exists n. split; [exact Hn |]. split.
              ** rewrite Hnn.
                 destruct (decide (S i < length (hd :: tl))) as [Hs | Hs].
                 --- rewrite lookup_app_l by exact Hs. reflexivity.
                 --- exfalso. apply Hat.
                     assert (i = length tl) by (simpl in *; lia). subst i.
                     congruence.
              ** destruct i as [| j].
                 --- exfalso. apply Hahd. simpl in Hi. congruence.
                 --- rewrite lookup_app_l by lia. exact Hnp.
      * assert (i = length (hd :: tl)).
        { apply lookup_lt_Some in Hi. rewrite Hlen in Hi. lia. }
        subst i. rewrite lookup_app_r in Hi by lia.
        rewrite Nat.sub_diag in Hi. simpl in Hi. injection Hi as <-.
        rewrite lookup_insert_ne by congruence.
        unfold h1. rewrite lookup_insert_eq.
        eexists. split; [reflexivity |].
        cbn [next prev child set_prev set_next set_child]. split.
        -- rewrite Hnext. symmetry. apply lookup_ge_None. rewrite length_app. simpl. lia.
        -- cbn [length]. rewrite lookup_app_l by (simpl; lia). symmetry. exact Hti.
Qed.

(** *** The links of one node through a sequence of writes *)

Lemma links_set_next (h : heap) (b : nat) (nb : node) (p : ptr) (a : nat) (nx pv : ptr) :
  h !! b = Some nb -> links h a nx pv ->
  links (<[b := set_next nb p]> h) a (if decide (a = b) then p else nx) pv.
Proof.
  intros Hb (n & Hn & <- & <-). destruct (decide (a = b)) as [-> | Hne].
  - rewrite Hb in Hn. injection Hn as <-.
    exists (set_next nb p). rewrite lookup_insert_eq. repeat split.
  - exists n. rewrite lookup_insert_ne by congruence. repeat split. exact Hn.
Qed.

Lemma links_set_prev (h : heap) (b : nat) (nb : node) (p : ptr) (a : nat) (nx pv : ptr) :
  h !! b = Some nb -> links h a nx pv ->
  links (<[b := set_prev nb p]> h) a nx (if decide (a = b) then p else pv).
Proof.
  intros Hb (n & Hn & <- & <-). destruct (decide (a = b)) as [-> | Hne].
  - rewrite Hb in Hn. injection Hn as <-.
    exists (set_prev nb p). rewrite lookup_insert_eq. repeat split.
  - exists n. rewrite lookup_insert_ne by congruence. repeat split. exact Hn.
Qed.

Lemma links_set_both (h : heap) (b : nat) (nb : node) (p q : ptr) (a : nat) (nx pv : ptr) :
  h !! b = Some nb -> links h a nx pv ->
  links (<[b := set_prev (set_next nb p) q]> h) a
    (if decide (a = b) then p else nx) (if decide (a = b) then q else pv).
Proof.
  intros Hb (n & Hn & <- & <-). destruct (decide (a = b)) as [-> | Hne].
  - rewrite Hb in Hn. injection Hn as <-.
    eexists. rewrite lookup_insert_eq. repeat split.
  - exists n. rewrite lookup_insert_ne by congruence. repeat split. exact Hn.
Qed.

Lemma links_set_child (h : heap) (b : nat) (nb : node) (p : ptr) (a : nat) (nx pv : ptr) :
  h !! b = Some nb -> links h a nx pv ->
  links (<[b := set_child nb p]> h) a nx pv.
Proof.
  intros Hb (n & Hn & <- & <-). destruct (decide (a = b)) as [-> | Hne].
  - rewrite Hb in Hn. injection Hn as <-.
    exists (set_child nb p). rewrite lookup_insert_eq. repeat split.
  - exists n. rewrite lookup_insert_ne by congruence. repeat split. exact Hn.
Qed.

Lemma links_lookup (h : heap) (a : nat) (nx pv : ptr) :
  links h a nx pv -> exists n, h !! a = Some n /\ next n = nx /\ prev n = pv.
Proof. intros H. exact H. Qed.

Lemma child_list_links (h : heap) (parent : nat) (l : list nat) (i a : nat) :
  child_list h parent l -> l !! i = Some a -> links h a (l !! (S i)) (before l i).
Proof. intros Hl Hi. exact (child_list_at h parent l i a Hl Hi). Qed.

Lemma child_list_intro (h : heap) (parent : nat) (l : list nat) (p : node) :
  NoDup l -> parent ∉ l -> h !! parent = Some p -> child p = l !! 0 ->
  (forall i a, l !! i = Some a -> links h a (l !! (S i)) (before l i)) ->
  child_list h parent l.
Proof.
  intros Hnd Hpar Hp Hc Hall.
  split; [exact Hnd | split; [exact Hpar | split]].
  - exists p. split; assumption.
  - intros i a Hi. exact (Hall i a Hi).
Qed.

Lemma child_list_neq (h : heap) (parent : nat) (l : list nat) (i j a b : nat) :
  child_list h parent l -> l !! i = Some a -> l !! j = Some b -> i <> j -> a <> b.
Proof.
  intros Hl Hi Hj Hne ->. apply Hne. eapply child_list_index; eauto.
Qed.

(** [walk] follows the [next] links along the list. *)
Lemma walk_list (h : heap) (parent : nat) (l : list nat) (which j : nat) :
  child_list h parent l -> walk h (l !! j) which = Some (l !! (j + which)).
Proof.
  intros Hl. revert j. induction which as [| w IH]; intros j.
  - rewrite Nat.add_0_r. destruct (l !! j); reflexivity.
  - destruct (l !! j) as [a |] eqn:Ha; simpl.
    + destruct (child_list_at _ _ _ _ _ Hl Ha) as (n & Hn & Hnx & _).
      rewrite Hn, Hnx. rewrite IH. f_equal. f_equal. lia.
    + f_equal. symmetry. apply lookup_ge_None.
      apply lookup_ge_None in Ha. lia.
Qed.

(** *** Lists with one element inserted or removed *)

Lemma inserted_lt (k x : nat) (l : list nat) (i : nat) :
  i < k -> k <= length l -> inserted k x l !! i = l !! i.
Proof.
  intros Hi Hk. unfold inserted.
  rewrite lookup_app_l by (rewrite length_take; lia).
  apply lookup_take_lt. exact Hi.
Qed.

Lemma inserted_eq (k x : nat) (l : list nat) :
  k <= length l -> inserted k x l !! k = Some x.
Proof.
  intros Hk. unfold inserted.
  rewrite lookup_app_r by (rewrite length_take; lia).
  rewrite length_take. replace (k - k `min` length l) with 0 by lia. reflexivity.
Qed.

Lemma inserted_gt (k x : nat) (l : list nat) (i : nat) :
  k < i -> k <= length l -> inserted k x l !! i = l !! (i - 1).
Proof.
  intros Hi Hk. unfold inserted.
  rewrite lookup_app_r by (rewrite length_take; lia).
  rewrite length_take. replace (i - k `min` length l) with (S (i - k - 1)) by lia.
  simpl. rewrite lookup_drop. f_equal. lia.
Qed.

Lemma length_inserted (k x : nat) (l : list nat) :
  length (inserted k x l) = S (length l).
Proof.
  unfold inserted. rewrite length_app. simpl. rewrite length_take, length_drop. lia.
Qed.

Lemma inserted_last (k x : nat) (l : list nat) :
  k < length l -> last (inserted k x l) = last l.
Proof.
  intros Hk. rewrite !last_lookup, length_inserted. simpl.
  destruct (length l) as [| n] eqn:Hn; [lia |].
  rewrite inserted_gt by lia. simpl. f_equal. lia.
Qed.

Lemma elem_of_inserted (k x y : nat) (l : list nat) :
  y ∈ inserted k x l <-> y = x \/ y ∈ l.
Proof.
  unfold inserted. rewrite elem_of_app, elem_of_cons.
  assert (H : y ∈ l <-> y ∈ take k l \/ y ∈ drop k l)
    by (rewrite <- elem_of_app, take_drop; reflexivity).
  rewrite H. tauto.
Qed.

Lemma NoDup_inserted (k x : nat) (l : list nat) :
  NoDup l -> x ∉ l -> NoDup (inserted k x l).
Proof.
  intros Hnd Hx. unfold inserted.
  rewrite <- (take_drop k l) in Hnd, Hx.
  apply NoDup_app in Hnd as (H1 & H2 & H3).
  rewrite elem_of_app in Hx.
  apply NoDup_app. split; [exact H1 | split].
  - intros y Hy Hy'. apply elem_of_cons in Hy' as [-> | Hy'].
    + apply Hx. left. exact Hy.
    + exact (H2 y Hy Hy').
  - apply NoDup_cons. split; [| exact H3].
    intros H. apply Hx. right. exact H.
Qed.

Lemma removed_lt (k : nat) (l : list nat) (i : nat) :
  i < k -> k < length l -> removed k l !! i = l !! i.
Proof.
  intros Hi Hk. unfold removed.
  rewrite lookup_app_l by (rewrite length_take; lia).
  apply lookup_take_lt. exact Hi.
Qed.

Lemma removed_ge (k : nat) (l : list nat) (i : nat) :
  k <= i -> k < length l -> removed k l !! i = l !! (S i).
Proof.
  intros Hi Hk. unfold removed.
  rewrite lookup_app_r by (rewrite length_take; lia).
  rewrite length_take, lookup_drop. f_equal. lia.
Qed.

Lemma length_removed (k : nat) (l : list nat) :
  k < length l -> length (removed k l) = length l - 1.
Proof.
  intros Hk. unfold removed. rewrite length_app, length_take, length_drop. lia.
Qed.

Lemma removed_last (k : nat) (l : list nat) :
  S k < length l -> last (removed k l) = last l.
Proof.
  intros Hk. rewrite !last_lookup, length_removed by lia.
  rewrite removed_ge by lia. f_equal. lia.
Qed.

Lemma removed_last_tail (k : nat) (l : list nat) :
  S k = length l ->
  last (removed k l) = match k with O => None | S j => l !! j end.
Proof.
  intros Hk. rewrite last_lookup, length_removed by lia.
  destruct k as [| j].
  - apply lookup_ge_None. rewrite length_removed by lia. lia.
  - rewrite removed_lt by lia. f_equal. lia.
Qed.

Lemma elem_of_removed (k y : nat) (l : list nat) :
  y ∈ removed k l -> y ∈ l.
Proof.
  unfold removed. rewrite elem_of_app. intros [H | H].
  - apply elem_of_take in H as (i & Hi & _). eapply list_elem_of_lookup_2; eauto.
  - apply list_elem_of_lookup in H as (i & Hi). rewrite lookup_drop in Hi.
    eapply list_elem_of_lookup_2; eauto.
Qed.

Lemma NoDup_removed (k : nat) (l : list nat) : NoDup l -> NoDup (removed k l).
Proof.
  intros Hnd. unfold removed.
  rewrite <- (take_drop k l) in Hnd.
  apply NoDup_app in Hnd as (H1 & H2 & H3).
  apply NoDup_app. split; [exact H1 | split].
  - intros y Hy Hy'. apply (H2 y Hy).
    apply list_elem_of_lookup in Hy' as (i & Hi). rewrite lookup_drop in Hi.
    apply list_elem_of_lookup. exists (S i). rewrite lookup_drop.
    rewrite <- Hi. f_equal; lia.
  - destruct (drop k l) as [| z d] eqn:Hd.
    + rewrite <- (Nat.add_1_r k), <- drop_drop, Hd. apply NoDup_nil_2.
    + rewrite <- (Nat.add_1_r k), <- drop_drop, Hd. simpl.
      apply NoDup_cons in H3 as [_ H3]. exact H3.
Qed.

(** *** Insert *)

Lemma insert_item_in_array_list (h : heap) (parent item : nat) (l : list nat)
    (n0 : node) (which : nat) :
  child_list h parent l ->
  item ∉ l -> item <> parent -> h !! item = Some n0 -> next n0 = None ->
  exists h', insert_item_in_array h parent which item = Some (true, h') /\
             child_list h' parent (inserted which item l).
Proof.
  intros Hl Hfresh Hne Hitem Hnext.
  destruct (child_list_parent _ _ _ Hl) as (p & Hp & Hc).
  unfold insert_item_in_array. rewrite Hp, Hc.
  rewrite (walk_list h parent l which 0 Hl). simpl (0 + which).
  destruct (l !! which) as [c |] eqn:Hk.
  - (* the walk stops at the node [c] at index [which] *)
    assert (Hlen : which < length l) by (eapply lookup_lt_Some; eauto).
    destruct (child_list_at _ _ _ _ _ Hl Hk) as (nc & Hnc & Hcn & Hcp).
    assert (Hci : c <> item).
    { intros ->. apply Hfresh. eapply list_elem_of_lookup_2; eauto. }
    assert (Hcpar : c <> parent) by (eapply child_list_not_parent; eauto).
    rewrite Hnc.
    rewrite (write_Some _ _ _ _ Hitem).
    set (h1 := <[item := set_prev (set_next n0 (Some c)) (prev nc)]> h).
    assert (Hc1 : h1 !! c = Some nc)
      by (unfold h1; rewrite lookup_insert_ne by congruence; exact Hnc).
    rewrite (write_Some _ _ _ _ Hc1).
    set (h2 := <[c := set_prev nc (Some item)]> h1).
    assert (Hp2 : h2 !! parent = Some p).
    { unfold h2, h1. rewrite !lookup_insert_ne by congruence. exact Hp. }
    rewrite Hp2, Hc.
    (* the links of every node after the first two writes *)
    assert (Hl2 : forall a nx pv, links h a nx pv ->
               links h2 a (if decide (a = item) then Some c else nx)
                 (if decide (a = c) then Some item
                  else if decide (a = item) then prev nc else pv)).
    { intros a nx pv Ha. unfold h2.
      apply (links_set_prev h1 c nc (Some item) a _ _ Hc1).
      unfold h1. apply (links_set_both h item n0 (Some c) (prev nc) a _ _ Hitem Ha). }
    assert (Hnd' : NoDup (inserted which item l))
      by (apply NoDup_inserted; [apply Hl | exact Hfresh]).
    assert (Hpar' : parent ∉ inserted which item l).
    { rewrite elem_of_inserted. intros [-> | H]; [congruence |]. apply Hl. exact H. }
    destruct (ptr_eqb (Some c) (l !! 0)) eqn:Hhead.
    + (* [c] is the head: the new node becomes the head *)
      apply ptr_eqb_eq in Hhead. symmetry in Hhead.
      assert (which = 0) by (eapply child_list_index; eauto). subst which.
      rewrite (write_Some _ _ _ _ Hp2).
      eexists. split; [reflexivity |].
      eapply child_list_intro;
        [exact Hnd' | exact Hpar' | apply lookup_insert_eq | reflexivity |].
      intros i a Hi.
      apply (links_set_child h2 parent p (Some item) a _ _ Hp2).
      destruct i as [| i].
      * (* the new head *)
        rewrite inserted_eq in Hi by lia. injection Hi as <-.
        assert (H0 : links h item None (prev n0)) by (exists n0; auto).
        apply Hl2 in H0.
        rewrite decide_True in H0 by reflexivity.
        rewrite decide_False in H0 by congruence.
        rewrite decide_True in H0 by reflexivity.
        rewrite inserted_gt by lia. simpl. rewrite Hk.
        unfold before. rewrite inserted_last by lia.
        rewrite <- Hcp. exact H0.
      * assert (Hi' : l !! i = Some a).
        { rewrite inserted_gt in Hi by lia. rewrite <- Hi. f_equal; lia. }
        pose proof (child_list_links _ _ _ _ _ Hl Hi') as H0.
        apply Hl2 in H0.
        assert (Hai : a <> item).
        { intros ->. apply Hfresh. eapply list_elem_of_lookup_2; eauto. }
        rewrite decide_False in H0 by exact Hai.
        assert (E1 : inserted 0 item l !! S (S i) = l !! S i).
        { rewrite inserted_gt by lia. f_equal. }
        rewrite E1. cbn [before].
        destruct i as [| i].
        -- rewrite Hk in Hi'. injection Hi' as <-.
           rewrite decide_True in H0 by reflexivity.
           rewrite inserted_eq by lia. exact H0.
        -- assert (Hac : a <> c) by (eapply (child_list_neq _ _ _ (S i) 0); eauto).
           rewrite !decide_False in H0 by assumption.
           assert (E2 : inserted 0 item l !! S i = l !! i).
           { rewrite inserted_gt by lia. f_equal; lia. }
           rewrite E2. exact H0.
    + (* [c] is inside the list: its predecessor [q] gets a new [next] *)
      apply ptr_eqb_neq in Hhead.
      destruct which as [| k]; [congruence |]. simpl in Hcp.
      assert (Hi2 : h2 !! item = Some (set_prev (set_next n0 (Some c)) (prev nc))).
      { unfold h2. rewrite lookup_insert_ne by congruence. unfold h1.
        apply lookup_insert_eq. }
      rewrite Hi2. cbn [prev set_prev]. rewrite Hcp.
      destruct (l !! k) as [q |] eqn:Hq;
        [| apply lookup_ge_None in Hq; lia].
      assert (Hqc : q <> c) by (eapply (child_list_neq _ _ _ k (S k)); eauto).
      assert (Hqi : q <> item).
      { intros ->. apply Hfresh. eapply list_elem_of_lookup_2; eauto. }
      pose proof (child_list_links _ _ _ _ _ Hl Hq) as Hlq.
      apply Hl2 in Hlq. destruct Hlq as (nq & Hnq & _ & _).
      rewrite (write_Some _ _ _ _ Hnq).
      eexists. split; [reflexivity |].
      eapply child_list_intro; [exact Hnd' | exact Hpar' | | |].
      * rewrite lookup_insert_ne; [exact Hp2 |].
        intros ->. eapply child_list_not_parent; eauto.
      * rewrite Hc. symmetry. apply inserted_lt; lia.
      * intros i a Hi.
        assert (Hfin : forall nx pv, links h a nx pv ->
                  links (<[q := set_next nq (Some item)]> h2) a
                    (if decide (a = q) then Some item
                     else if decide (a = item) then Some c else nx)
                    (if decide (a = c) then Some item
                     else if decide (a = item) then Some q else pv)).
        { intros nx pv Ha. rewrite <- Hcp.
          apply (links_set_next h2 q nq (Some item) a _ _ Hnq).
          apply Hl2. exact Ha. }
        destruct (lt_eq_lt_dec i (S k)) as [[Hlt | ->] | Hgt].
        -- (* before the new node *)
           rewrite inserted_lt in Hi by lia.
           pose proof (child_list_links _ _ _ _ _ Hl Hi) as H0. apply Hfin in H0.
           assert (Hai : a <> item).
           { intros ->. apply Hfresh. eapply list_elem_of_lookup_2; eauto. }
           assert (Hac : a <> c) by (eapply (child_list_neq _ _ _ i (S k)); eauto; lia).
           rewrite (decide_False (P := a = c)) in H0 by exact Hac.
           rewrite !(decide_False (P := a = item)) in H0 by exact Hai.
           assert (Hb : before (inserted (S k) item l) i = before l i).
           { destruct i as [| j]; simpl.
             - apply inserted_last. lia.
             - apply inserted_lt; lia. }
           rewrite Hb.
           destruct (decide (i = k)) as [-> | Hik].
           ++ rewrite Hq in Hi. injection Hi as <-.
              rewrite decide_True in H0 by reflexivity.
              rewrite inserted_eq by lia. exact H0.
           ++ assert (Haq : a <> q) by (eapply (child_list_neq _ _ _ i k); eauto).
              rewrite decide_False in H0 by exact Haq.
              rewrite inserted_lt by lia. exact H0.
        -- (* the new node *)
           rewrite inserted_eq in Hi by lia. injection Hi as <-.
           assert (H0 : links h item None (prev n0)) by (exists n0; auto).
           apply Hfin in H0.
           rewrite decide_False in H0 by congruence.
           rewrite decide_True in H0 by reflexivity.
           rewrite decide_False in H0 by congruence.
           rewrite decide_True in H0 by reflexivity.
           assert (E1 : inserted (S k) item l !! S (S k) = Some c).
           { rewrite inserted_gt by lia. rewrite <- Hk. f_equal; lia. }
           rewrite E1. cbn [before].
           rewrite inserted_lt by lia. rewrite Hq. exact H0.
        -- (* after the new node *)
           assert (Hi' : l !! (i - 1) = Some a).
           { rewrite inserted_gt in Hi by lia. exact Hi. }
           pose proof (child_list_links _ _ _ _ _ Hl Hi') as H0. apply Hfin in H0.
           assert (Hai : a <> item).
           { intros ->. apply Hfresh. eapply list_elem_of_lookup_2; eauto. }
           assert (Haq : a <> q) by (eapply (child_list_neq _ _ _ (i - 1) k); eauto; lia).
           rewrite decide_False in H0 by exact Haq.
           rewrite !(decide_False (P := a = item)) in H0 by exact Hai.
           assert (E1 : inserted (S k) item l !! S i = l !! S (i - 1)).
           { rewrite inserted_gt by lia. f_equal; lia. }
           rewrite E1.
           destruct i as [| j]; [lia |]. cbn [before].
           destruct (decide (j = S k)) as [-> | Hjk].
           ++ replace (S (S k) - 1) with (S k) in Hi' by lia.
              rewrite Hk in Hi'. injection Hi' as <-.
              rewrite decide_True in H0 by reflexivity.
              rewrite inserted_eq by lia. exact H0.
           ++ assert (Hac : a <> c).
              { eapply (child_list_neq _ _ _ (S j - 1) (S k)); eauto. lia. }
              rewrite decide_False in H0 by exact Hac.
              rewrite inserted_gt by lia.
              replace (before l (S j - 1)) with (l !! (j - 1)) in H0.
              ** exact H0.
              ** destruct j as [| j']; [lia |].
                 replace (S (S j') - 1) with (S j') by lia. cbn [before].
                 f_equal; lia.
  - (* the walk runs off the end: append *)
    assert (Hlen : length l <= which) by (apply lookup_ge_None; exact Hk).
    destruct (add_item_to_array_list h parent item l n0 Hl Hfresh Hne Hitem Hnext)
      as (h' & Hadd & Hl').
    exists h'. split; [exact Hadd |].
    unfold inserted. rewrite take_ge, drop_ge by lia. exact Hl'.
Qed.

(** *** Detach *)

Lemma detach_list (h : heap) (parent : nat) (l : list nat) (k x : nat) :
  child_list h parent l -> l !! k = Some x ->
  exists h', stb_json_detachitemviapointer h (Some parent) (Some x) = Some (Some x, h') /\
             child_list h' parent (removed k l) /\ links h' x None None.
Proof.
  intros Hl Hk.
  destruct (child_list_parent _ _ _ Hl) as (p & Hp & Hc).
  destruct (child_list_at _ _ _ _ _ Hl Hk) as (nx & Hx & Hxn & Hxp).
  assert (Hlen : k < length l) by (eapply lookup_lt_Some; eauto).
  assert (Hxpar : x <> parent) by (eapply child_list_not_parent; eauto).
  assert (Hnd' : NoDup (removed k l)) by (apply NoDup_removed; apply Hl).
  assert (Hpar' : parent ∉ removed k l).
  { intros H. apply elem_of_removed in H. apply Hl. exact H. }
  unfold stb_json_detachitemviapointer. rewrite Hp, Hx, Hc.
  destruct k as [| k].
  - (* the head is detached *)
    rewrite Hk. replace (ptr_eqb (Some x) (Some x)) with true
      by (symmetry; apply ptr_eqb_eq; reflexivity).
    cbn [negb andb]. rewrite Hx, Hxn.
    destruct (l !! 1) as [y |] eqn:Hy.
    + assert (Hyx : y <> x) by (eapply (child_list_neq _ _ _ 1 0); eauto).
      assert (Hypar : y <> parent) by (eapply child_list_not_parent; eauto).
      destruct (child_list_at _ _ _ _ _ Hl Hy) as (ny & Hny & _ & _).
      rewrite (write_Some _ _ _ _ Hny).
      set (h2 := <[y := set_prev ny (prev nx)]> h).
      assert (Hp2 : h2 !! parent = Some p)
        by (unfold h2; rewrite lookup_insert_ne by congruence; exact Hp).
      assert (Hx2 : h2 !! x = Some nx)
        by (unfold h2; rewrite lookup_insert_ne by congruence; exact Hx).
      rewrite Hp2, Hx2, Hc, Hk.
      replace (ptr_eqb (Some x) (Some x)) with true
        by (symmetry; apply ptr_eqb_eq; reflexivity).
      rewrite (write_Some _ _ _ _ Hp2).
      set (h3 := <[parent := set_child p (next nx)]> h2).
      assert (Hx3 : h3 !! x = Some nx)
        by (unfold h3; rewrite lookup_insert_ne by congruence; exact Hx2).
      rewrite (write_Some _ _ _ _ Hx3).
      assert (Hfin : forall a nxt pv, links h a nxt pv ->
                links (<[x := set_next (set_prev nx None) None]> h3) a
                  (if decide (a = x) then None else nxt)
                  (if decide (a = x) then None
                   else if decide (a = y) then prev nx else pv)).
      { intros a nxt pv Ha.
        assert (H3 : links h3 a nxt (if decide (a = y) then prev nx else pv)).
        { unfold h3. apply (links_set_child h2 parent p _ a _ _ Hp2).
          unfold h2. apply (links_set_prev h y ny _ a _ _ Hny Ha). }
        destruct H3 as (n & Hn & <- & <-).
        destruct (decide (a = x)) as [-> | Hax].
        - eexists. rewrite lookup_insert_eq. repeat split.
        - exists n. rewrite lookup_insert_ne by congruence. repeat split. exact Hn. }
      eexists. split; [reflexivity |]. split.
      * eapply child_list_intro; [exact Hnd' | exact Hpar' | | |].
        -- rewrite lookup_insert_ne by congruence. unfold h3. apply lookup_insert_eq.
        -- cbn [child set_child]. rewrite Hxn. rewrite removed_ge by lia.
           symmetry. exact Hy.
        -- intros i a Hi.
           assert (Hi' : l !! S i = Some a) by (rewrite removed_ge in Hi by lia; exact Hi).
           pose proof (child_list_links _ _ _ _ _ Hl Hi') as H0. apply Hfin in H0.
           assert (Hax : a <> x) by (eapply (child_list_neq _ _ _ (S i) 0); eauto).
           rewrite !(decide_False (P := a = x)) in H0 by exact Hax.
           rewrite removed_ge by lia.
           destruct i as [| i].
           ++ rewrite Hy in Hi'. injection Hi' as <-.
              rewrite decide_True in H0 by reflexivity.
              cbn [before]. rewrite removed_last by (apply lookup_lt_Some in Hy; lia).
              rewrite <- Hxp. exact H0.
           ++ assert (Hay : a <> y) by (eapply (child_list_neq _ _ _ (S (S i)) 1); eauto).
              rewrite decide_False in H0 by exact Hay.
              cbn [before] in *. rewrite removed_ge by lia. exact H0.
      * assert (H0 : links h x (next nx) (prev nx)) by (exists nx; auto).
        apply Hfin in H0. rewrite !decide_True in H0 by reflexivity. exact H0.
    + (* the list had one node *)
      rewrite Hp, Hx, Hc, Hk.
      replace (ptr_eqb (Some x) (Some x)) with true
        by (symmetry; apply ptr_eqb_eq; reflexivity).
      rewrite (write_Some _ _ _ _ Hp).
      rewrite (write_Some _ _ nx) by (rewrite lookup_insert_ne by congruence; exact Hx).
      assert (Hone : length l = 1) by (apply lookup_ge_None in Hy; lia).
      assert (Hnil : removed 0 l = []).
      { apply length_zero_iff_nil. rewrite length_removed by lia. lia. }
      eexists. split; [reflexivity |]. split.
      * rewrite Hnil.
        eapply child_list_intro; [apply NoDup_nil_2 | apply not_elem_of_nil | | |].
        -- rewrite lookup_insert_ne by congruence. apply lookup_insert_eq.
        -- cbn [child set_child]. exact Hxn.
        -- intros i a Hi. discriminate Hi.
      * eexists. rewrite lookup_insert_eq. repeat split.
  - (* a node after the head is detached; [q] is its predecessor *)
    cbn [before] in Hxp.
    destruct (l !! 0) as [hd |] eqn:Hhd; [| apply lookup_ge_None in Hhd; lia].
    assert (Hxhd : x <> hd) by (eapply (child_list_neq _ _ _ (S k) 0); eauto).
    replace (ptr_eqb (Some x) (Some hd)) with false
      by (symmetry; apply ptr_eqb_neq; congruence).
    destruct (l !! k) as [q |] eqn:Hq; [| apply lookup_ge_None in Hq; lia].
    rewrite Hxp. change (ptr_eqb (Some q) None) with false. cbn [negb andb].
    assert (Hqx : q <> x) by (eapply (child_list_neq _ _ _ k (S k)); eauto).
    assert (Hqpar : q <> parent) by (eapply child_list_not_parent; eauto).
    assert (Hhdpar : hd <> parent) by (eapply child_list_not_parent; eauto).
    destruct (child_list_at _ _ _ _ _ Hl Hq) as (nq & Hnq & _ & _).
    rewrite (write_Some _ _ _ _ Hnq).
    set (h1 := <[q := set_next nq (next nx)]> h).
    assert (Hx1 : h1 !! x = Some nx)
      by (unfold h1; rewrite lookup_insert_ne by congruence; exact Hx).
    assert (Hp1 : h1 !! parent = Some p)
      by (unfold h1; rewrite lookup_insert_ne by congruence; exact Hp).
    assert (Hl1 : forall a nxt pv, links h a nxt pv ->
              links h1 a (if decide (a = q) then next nx else nxt) pv).
    { intros a nxt pv Ha. unfold h1. apply (links_set_next h q nq _ a _ _ Hnq Ha). }
    rewrite Hx1, Hxn.
    destruct (l !! S (S k)) as [y |] eqn:Hy.
    + (* a node [y] follows *)
      assert (Hyx : y <> x) by (eapply (child_list_neq _ _ _ (S (S k)) (S k)); eauto).
      assert (Hypar : y <> parent) by (eapply child_list_not_parent; eauto).
      pose proof (child_list_links _ _ _ _ _ Hl Hy) as Hly.
      apply Hl1 in Hly. destruct Hly as (ny & Hny & _ & _).
      rewrite (write_Some _ _ _ _ Hny).
      set (h2 := <[y := set_prev ny (prev nx)]> h1).
      assert (Hp2 : h2 !! parent = Some p)
        by (unfold h2; rewrite lookup_insert_ne by congruence; exact Hp1).
      assert (Hx2 : h2 !! x = Some nx)
        by (unfold h2; rewrite lookup_insert_ne by congruence; exact Hx1).
      rewrite Hp2, Hx2, Hc, Hxn.
      replace (ptr_eqb (Some x) (Some hd)) with false
        by (symmetry; apply ptr_eqb_neq; congruence).
      change (ptr_eqb (Some y) None) with false. cbv iota.
      rewrite (write_Some _ _ _ _ Hx2).
      assert (Hfin : forall a nxt pv, links h a nxt pv ->
                links (<[x := set_next (set_prev nx None) None]> h2) a
                  (if decide (a = x) then None
                   else if decide (a = q) then Some y else nxt)
                  (if decide (a = x) then None
                   else if decide (a = y) then Some q else pv)).
      { intros a nxt pv Ha.
        assert (H2 : links h2 a (if decide (a = q) then Some y else nxt)
                       (if decide (a = y) then Some q else pv)).
        { rewrite <- Hxn, <- Hxp. unfold h2.
          apply (links_set_prev h1 y ny _ a _ _ Hny). apply Hl1. exact Ha. }
        destruct H2 as (n & Hn & <- & <-).
        destruct (decide (a = x)) as [-> | Hax].
        - eexists. rewrite lookup_insert_eq. repeat split.
        - exists n. rewrite lookup_insert_ne by congruence. repeat split. exact Hn. }
      eexists. split; [reflexivity |]. split.
      * eapply child_list_intro; [exact Hnd' | exact Hpar' | | |].
        -- rewrite lookup_insert_ne by congruence. exact Hp2.
        -- rewrite Hc. symmetry. rewrite removed_lt by lia. exact Hhd.
        -- intros i a Hi.
           destruct (decide (i < S k)) as [Hlt | Hge].
           ++ assert (Hi' : l !! i = Some a) by (rewrite removed_lt in Hi by lia; exact Hi).
              pose proof (child_list_links _ _ _ _ _ Hl Hi') as H0. apply Hfin in H0.
              assert (Hax : a <> x) by (eapply (child_list_neq _ _ _ i (S k)); eauto; lia).
              assert (Hay : a <> y) by (eapply (child_list_neq _ _ _ i (S (S k))); eauto; lia).
              rewrite !(decide_False (P := a = x)) in H0 by exact Hax.
              rewrite (decide_False (P := a = y)) in H0 by exact Hay.
              assert (Hb : before (removed (S k) l) i = before l i).
              { destruct i as [| j]; cbn [before].
                - apply removed_last. apply lookup_lt_Some in Hy. lia.
                - apply removed_lt; lia. }
              rewrite Hb.
              destruct (decide (i = k)) as [-> | Hik].
              ** rewrite Hq in Hi'. injection Hi' as <-.
                 rewrite decide_True in H0 by reflexivity.
                 rewrite removed_ge by lia. rewrite Hy. exact H0.
              ** assert (Haq : a <> q) by (eapply (child_list_neq _ _ _ i k); eauto).
                 rewrite decide_False in H0 by exact Haq.
                 rewrite removed_lt by lia. exact H0.
           ++ assert (Hi' : l !! S i = Some a) by (rewrite removed_ge in Hi by lia; exact Hi).
              pose proof (child_list_links _ _ _ _ _ Hl Hi') as H0. apply Hfin in H0.
              assert (Hax : a <> x) by (eapply (child_list_neq _ _ _ (S i) (S k)); eauto; lia).
              assert (Haq : a <> q) by (eapply (child_list_neq _ _ _ (S i) k); eauto; lia).
              rewrite !(decide_False (P := a = x)) in H0 by exact Hax.
              rewrite (decide_False (P := a = q)) in H0 by exact Haq.
              rewrite removed_ge by lia.
              destruct i as [| j]; [lia |]. cbn [before] in *.
              destruct (decide (j = k)) as [-> | Hjk].
              ** rewrite Hy in Hi'. injection Hi' as <-.
                 rewrite decide_True in H0 by reflexivity.
                 rewrite removed_lt by lia. rewrite Hq. exact H0.
              ** assert (Hay : a <> y)
                   by (eapply (child_list_neq _ _ _ (S (S j)) (S (S k))); eauto; lia).
                 rewrite decide_False in H0 by exact Hay.
                 rewrite removed_ge by lia. exact H0.
      * assert (H0 : links h x (next nx) (prev nx)) by (exists nx; auto).
        apply Hfin in H0. rewrite !decide_True in H0 by reflexivity. exact H0.
    + (* the tail is detached: the head gets a new [prev] *)
      rewrite Hp1, Hx1, Hc, Hxn.
      replace (ptr_eqb (Some x) (Some hd)) with false
        by (symmetry; apply ptr_eqb_neq; congruence).
      change (ptr_eqb None None) with true. cbv iota.
      pose proof (child_list_links _ _ _ _ _ Hl Hhd) as Hlhd.
      apply Hl1 in Hlhd. destruct Hlhd as (nhd & Hnhd & _ & _).
      rewrite (write_Some _ _ _ _ Hnhd).
      set (h3 := <[hd := set_prev nhd (prev nx)]> h1).
      assert (Hx3 : h3 !! x = Some nx)
        by (unfold h3; rewrite lookup_insert_ne by congruence; exact Hx1).
      rewrite (write_Some _ _ _ _ Hx3).
      assert (Htail : S (S k) = length l) by (apply lookup_ge_None in Hy; lia).
      assert (Hfin : forall a nxt pv, links h a nxt pv ->
                links (<[x := set_next (set_prev nx None) None]> h3) a
                  (if decide (a = x) then None
                   else if decide (a = q) then None else nxt)
                  (if decide (a = x) then None
                   else if decide (a = hd) then Some q else pv)).
      { intros a nxt pv Ha.
        assert (H3 : links h3 a (if decide (a = q) then None else nxt)
                       (if decide (a = hd) then Some q else pv)).
        { rewrite <- Hxn, <- Hxp. unfold h3.
          apply (links_set_prev h1 hd nhd _ a _ _ Hnhd). apply Hl1. exact Ha. }
        destruct H3 as (n & Hn & <- & <-).
        destruct (decide (a = x)) as [-> | Hax].
        - eexists. rewrite lookup_insert_eq. repeat split.
        - exists n. rewrite lookup_insert_ne by congruence. repeat split. exact Hn. }
      eexists. split; [reflexivity |]. split.
      * eapply child_list_intro; [exact Hnd' | exact Hpar' | | |].
        -- rewrite lookup_insert_ne by congruence.
           unfold h3. rewrite lookup_insert_ne by congruence. exact Hp1.
        -- rewrite Hc. symmetry. rewrite removed_lt by lia. exact Hhd.
        -- intros i a Hi.
           assert (Hlt : i < S k).
           { apply lookup_lt_Some in Hi. rewrite length_removed in Hi by lia. lia. }
           assert (Hi' : l !! i = Some a) by (rewrite removed_lt in Hi by lia; exact Hi).
           pose proof (child_list_links _ _ _ _ _ Hl Hi') as H0. apply Hfin in H0.
           assert (Hax : a <> x) by (eapply (child_list_neq _ _ _ i (S k)); eauto; lia).
           rewrite !(decide_False (P := a = x)) in H0 by exact Hax.
           assert (Hnx : (if decide (a = q) then None else l !! S i)
                         = removed (S k) l !! S i).
           { destruct (decide (a = q)) as [-> | Haq].
             - assert (i = k) by (eapply child_list_index; eauto). subst i.
               symmetry. apply lookup_ge_None. rewrite length_removed by lia. lia.
             - assert (i <> k) by (intros ->; congruence).
               symmetry. apply removed_lt; lia. }
           assert (Hpv : (if decide (a = hd) then Some q else before l i)
                         = before (removed (S k) l) i).
           { destruct (decide (a = hd)) as [-> | Hahd].
             - assert (i = 0) by (eapply child_list_index; eauto). subst i.
               cbn [before]. rewrite removed_last_tail by lia. symmetry. exact Hq.
             - destruct i as [| j]; [congruence |]. cbn [before].
               symmetry. apply removed_lt; lia. }
           rewrite <- Hnx, <- Hpv. exact H0.
      * assert (H0 : links h x (next nx) (prev nx)) by (exists nx; auto).
        apply Hfin in H0. rewrite !decide_True in H0 by reflexivity. exact H0.
Qed.

(** C9: the three mutations of a child list keep it well linked.  For a
    child list [l] of [parent] and a detached node [item] outside it,
    appending with [add_item_to_array] yields the list [l ++ [item]],
    inserting with [insert_item_in_array] at [which] yields [l] with
    [item] before position [which] (at the end when [which] is not below
    the length), and detaching the node at position [k] with
    [stb_json_detachitemviapointer] yields [l] without it and clears both
    links of the detached node.  In each resulting list the [prev] of the
    head is the tail and the [next] of the tail is NULL. *)
Theorem child_list_mutations (h : heap) (parent item : nat) (l : list nat)
    (n0 : node) (which : nat)
    (Hl : child_list h parent l)
    (Hfresh : item ∉ l) (Hne : item <> parent)
    (Hitem : h !! item = Some n0) (Hnext : next n0 = None) :
  (exists h', add_item_to_array h (Some parent) (Some item) = Some (true, h') /\
              child_list h' parent (l ++ [item]) /\
              circular_prev h' (l ++ [item])) /\
  (exists h', insert_item_in_array h parent which item = Some (true, h') /\
              child_list h' parent (inserted which item l) /\
              circular_prev h' (inserted which item l)) /\
  (forall k x, l !! k = Some x ->
     exists h', stb_json_detachitemviapointer h (Some parent) (Some x)
                  = Some (Some x, h') /\
                child_list h' parent (removed k l) /\
                circular_prev h' (removed k l) /\
                links h' x None None).
Proof.
  split; [| split].
  - destruct (add_item_to_array_list h parent item l n0 Hl Hfresh Hne Hitem Hnext)
      as (h' & H1 & H2).
    exists h'. split; [exact H1 | split; [exact H2 |]].
    eapply child_list_circular; eauto.
  - destruct (insert_item_in_array_list h parent item l n0 which Hl Hfresh Hne Hitem Hnext)
      as (h' & H1 & H2).
    exists h'. split; [exact H1 | split; [exact H2 |]].
    eapply child_list_circular; eauto.
  - intros k x Hk.
    destruct (detach_list h parent l k x Hl Hk) as (h' & H1 & H2 & H3).
    exists h'. split; [exact H1 | split; [exact H2 | split; [| exact H3]]].
    eapply child_list_circular; eauto.
Qed.

Lemma sample_child_list : child_list sample_heap 0 [1; 2].
Proof.
  split; [| split; [| split]].
  - apply NoDup_cons. split; [| apply NoDup_singleton].
    rewrite list_elem_of_singleton. lia.
  - rewrite !elem_of_cons. intros [H | [H | H]]; try lia. inversion H.
  - eexists. split; [vm_compute; reflexivity | reflexivity].
  - intros i a Hi. destruct i as [| [| i]]; simpl in Hi; try discriminate;
      injection Hi as <-; eexists; (split; [vm_compute; reflexivity |]);
      split; reflexivity.
Defined.

Lemma child_list_mutations_witness :
  exists h', add_item_to_array sample_heap (Some 0) (Some 3) = Some (true, h') /\
             child_list h' 0 [1; 2; 3] /\ circular_prev h' [1; 2; 3].
Proof.
  assert (Hfresh : 3 ∉ [1; 2]).
  { rewrite !elem_of_cons. intros [H | [H | H]]; try lia. inversion H. }
  assert (Hne : 3 <> 0) by lia.
  assert (Hitem : sample_heap !! 3 = Some blank) by (vm_compute; reflexivity).
  exact (proj1 (child_list_mutations sample_heap 0 3 [1; 2] blank 0
                  sample_child_list Hfresh Hne Hitem eq_refl)).
Defined.
End MemFacts.

(** ** Induction on trees *)

Lemma stb_json_induction (P : stb_json -> Prop) :
  (forall t, Forall P (child t) -> P t) -> forall t, P t.
Proof.
  intros H. fix IH 1. intros [c ty vs vi vd k]. apply H. simpl.
  induction c as [| x c IHc]; constructor; [apply IH | exact IHc].
Qed.

Lemma height_children_eq (t : stb_json) :
  height t = S (foldr (fun c n => Nat.max (height c) n) O (child t)).
Proof.
  destruct t as [c ty vs vi vd k]. reflexivity.
Qed.

Lemma height_child (t c : stb_json) : In c (child t) -> (height c < height t)%nat.
Proof.
  rewrite (height_children_eq t). generalize (child t). intros l Hin.
  induction l as [| x l IHl]; [contradiction |].
  cbn [foldr]. destruct Hin as [-> | Hin].
  - lia.
  - specialize (IHl Hin). lia.
Qed.

(** ** The test operation and the order of object members *)

Lemma reordered_refl (t : stb_json) : reordered t t.
Proof.
  induction t as [t IH] using stb_json_induction.
  apply (reordered_node t t (child t)); try reflexivity.
  induction IH; constructor; assumption.
Qed.

Lemma reordered_set_child (a : stb_json) (l l' : list stb_json) :
  Permutation (child a) l ->
  (kind a <> STB_JSON_OBJECT -> l = child a) ->
  Forall2 reordered l l' ->
  reordered a (set_child a l').
Proof.
  intros Hp Hk Hf. apply (reordered_node a (set_child a l') l); try reflexivity; assumption.
Qed.

Lemma sort_list_middle_skipn (second current : list stb_json) :
  exists k, sort_list_middle second current = skipn k second.
Proof.
  revert second. induction current as [current IH] using (induction_ltof1 _ (@length _)).
  intros second. destruct current as [| x [| y current']]; simpl.
  - exists O. reflexivity.
  - exists O. reflexivity.
  - destruct (IH current' ltac:(unfold ltof; simpl; lia) (tl second)) as [k Hk].
    exists (S k). rewrite Hk. destruct second; simpl; [destruct k |]; reflexivity.
Qed.

Lemma sort_list_split (l : list stb_json) :
  firstn (length l - length (sort_list_middle l l)) l ++ sort_list_middle l l = l.
Proof.
  destruct (sort_list_middle_skipn l l) as [k Hk]. rewrite Hk.
  destruct (le_lt_dec k (length l)) as [Hle | Hgt].
  - rewrite length_skipn.
    replace (length l - (length l - k))%nat with k by lia.
    apply firstn_skipn.
  - rewrite skipn_all2 by lia. simpl. rewrite Nat.sub_0_r, firstn_all, app_nil_r. reflexivity.
Qed.

Lemma sort_list_merge_perm (cs : bool) (first second : list stb_json) :
  Permutation (first ++ second) (sort_list_merge cs first second).
Proof.
  revert second. induction first as [| f first IHf]; intros second.
  - destruct second; reflexivity.
  - induction second as [| s second IHs].
    + simpl. rewrite app_nil_r. reflexivity.
    + simpl. destruct (compare_strings (string f) (string s) cs <? 0).
      * constructor. apply IHf.
      * etransitivity; [| constructor; exact IHs].
        symmetry. apply Permutation_middle.
Qed.

Lemma sort_list_fuel_perm (fuel : nat) (l : list stb_json) (cs : bool) :
  Permutation l (sort_list_fuel fuel l cs).
Proof.
  revert l. induction fuel as [| fuel IH]; intros l; [reflexivity |].
  destruct l as [| x [| y l']]; try reflexivity.
  cbn [sort_list_fuel].
  etransitivity; [| apply sort_list_merge_perm].
  rewrite <- (sort_list_split (x :: y :: l')) at 1.
  apply Permutation_app; apply IH.
Qed.

Lemma sort_list_perm (l : list stb_json) (cs : bool) : Permutation l (sort_list l cs).
Proof. apply sort_list_fuel_perm. Qed.

(** The pairwise walk changes the two lists element by element. *)
Lemma compare_children_reordered
    (cmp : stb_json -> stb_json -> option (bool * stb_json * stb_json))
    (cs keyed : bool) (la lb : list stb_json) :
  (forall a b r a' b', In a la -> cmp a b = Some (r, a', b') ->
      reordered a a' /\ reordered b b') ->
  forall r la' lb', compare_children cmp cs keyed la lb = Some (r, la', lb') ->
    Forall2 reordered la la' /\ Forall2 reordered lb lb'.
Proof.
  revert lb. induction la as [| a la IH]; intros lb Hcmp r la' lb' H.
  - destruct lb; simpl in H; injection H as <- <- <-.
    + split; constructor.
    + split; [constructor |].
      apply Forall2_same_length_lookup. split; [reflexivity |].
      intros i x y Hx Hy. rewrite Hx in Hy. injection Hy as <-. apply reordered_refl.
  - assert (Hsame : forall l : list stb_json, Forall2 reordered l l).
    { intros l. induction l; constructor; [apply reordered_refl | assumption]. }
    destruct lb as [| b lb]; simpl in H.
    + injection H as <- <- <-. split; [apply Hsame | constructor].
    + destruct (keyed && negb (compare_strings (string a) (string b) cs =? 0)).
      * injection H as <- <- <-. split; apply Hsame.
      * destruct (cmp a b) as [[[ra a'] b'] |] eqn:Hab; [| discriminate].
        destruct (Hcmp a b ra a' b' (or_introl eq_refl) Hab) as [Ha Hb].
        destruct ra.
        -- destruct (compare_children cmp cs keyed la lb) as [[[r2 la2] lb2] |] eqn:Hrec;
             [| discriminate].
           injection H as <- <- <-.
           destruct (IH lb (fun x y r x' y' Hin => Hcmp x y r x' y' (or_intror Hin))
                       _ _ _ Hrec) as [H1 H2].
           split; constructor; assumption.
        -- injection H as <- <- <-. split; constructor; auto.
Qed.

Lemma compare_json_nodes_reordered (fuel : nat) (cs : bool) (a b : stb_json)
    (r : bool) (a' b' : stb_json) :
  compare_json_nodes fuel cs a b = Some (r, a', b') ->
  reordered a a' /\ reordered b b'.
Proof.
  revert a b r a' b'. induction fuel as [| fuel IH]; intros a b r a' b' H;
    [discriminate |].
  cbn [compare_json_nodes] in H.
  destruct (negb (kind a =? kind b)) eqn:Hkind.
  { injection H as <- <- <-. split; apply reordered_refl. }
  apply negb_false_iff, Z.eqb_eq in Hkind.
  destruct (kind a =? STB_JSON_NUMBER).
  { injection H as <- <- <-. split; apply reordered_refl. }
  destruct ((kind a =? STB_JSON_STRING) || (kind a =? STB_JSON_RAW)).
  { injection H as <- <- <-. split; apply reordered_refl. }
  destruct (kind a =? STB_JSON_ARRAY) eqn:Harr.
  { destruct (compare_children _ _ _ _ _) as [[[r2 la] lb] |] eqn:Hc; [| discriminate].
    injection H as <- <- <-.
    destruct (compare_children_reordered _ _ _ _ _
                (fun x y r x' y' _ Hxy => IH x y r x' y' Hxy) _ _ _ Hc) as [H1 H2].
    split.
    - apply (reordered_set_child a (child a) la); [reflexivity | reflexivity | exact H1].
    - apply (reordered_set_child b (child b) lb); [reflexivity | reflexivity | exact H2]. }
  destruct (kind a =? STB_JSON_OBJECT) eqn:Hobj.
  { destruct (compare_children _ _ _ _ _) as [[[r2 la] lb] |] eqn:Hc; [| discriminate].
    injection H as <- <- <-.
    destruct (compare_children_reordered _ _ _ _ _
                (fun x y r x' y' _ Hxy => IH x y r x' y' Hxy) _ _ _ Hc) as [H1 H2].
    apply Z.eqb_eq in Hobj.
    split.
    - apply (reordered_node a _ (sort_list (child a) cs)); try reflexivity.
      + apply sort_list_perm.
      + intros Hne. contradiction.
      + exact H1.
    - apply (reordered_node b _ (sort_list (child b) cs)); try reflexivity.
      + apply sort_list_perm.
      + intros Hne. congruence.
      + exact H2. }
  injection H as <- <- <-. split; apply reordered_refl.
Qed.

Lemma nth_error_lookup {A} (l : list A) (i : nat) : nth_error l i = l !! i.
Proof.
  revert i. induction l as [| x l IH]; intros [| i]; simpl; try reflexivity. apply IH.
Qed.

Lemma Forall2_reordered_refl (l : list stb_json) : Forall2 reordered l l.
Proof. induction l; constructor; [apply reordered_refl | assumption]. Qed.

(** Overwriting a node with a reordered copy reorders the tree. *)
Lemma update_at_reordered (t : stb_json) (path : list nat) (n n' : stb_json) :
  node_at t path = Some n -> reordered n n' -> reordered t (update_at t path n').
Proof.
  revert t. induction path as [| i path IH]; intros t Hn Hr; simpl in *.
  - injection Hn as <-. exact Hr.
  - destruct (nth_error (child t) i) as [c |] eqn:Hc; [| discriminate].
    apply (reordered_set_child t (child t)); [reflexivity | reflexivity |].
    rewrite nth_error_lookup in Hc.
    apply Forall2_same_length_lookup. split; [rewrite length_insert; reflexivity |].
    intros j x y Hx Hy.
    destruct (decide (i = j)) as [<- | Hne].
    + rewrite list_lookup_insert_eq in Hy by (eapply lookup_lt_Some; eauto).
      injection Hy as <-. rewrite Hc in Hx. injection Hx as <-. apply IH; assumption.
    + rewrite list_lookup_insert_ne in Hy by exact Hne.
      rewrite Hx in Hy. injection Hy as <-. apply reordered_refl.
Qed.

Lemma compare_children_total
    (cmp : stb_json -> stb_json -> option (bool * stb_json * stb_json))
    (cs keyed : bool) (la lb : list stb_json) :
  (forall a b, In a la -> exists r, cmp a b = Some r) ->
  exists r, compare_children cmp cs keyed la lb = Some r.
Proof.
  revert lb. induction la as [| a la IH]; intros lb Hcmp.
  - destruct lb; simpl; eauto.
  - destruct lb as [| b lb]; simpl; [eauto |].
    destruct (keyed && negb (compare_strings (string a) (string b) cs =? 0)); [eauto |].
    destruct (Hcmp a b (or_introl eq_refl)) as [[[ra a'] b'] ->].
    destruct ra; [| eauto].
    destruct (IH lb (fun x y Hin => Hcmp x y (or_intror Hin))) as [[[r2 la2] lb2] ->].
    eauto.
Qed.

(** The height of the first argument is fuel enough for [compare_json]. *)
Lemma compare_json_nodes_total (fuel : nat) (cs : bool) (a b : stb_json) :
  (height a <= fuel)%nat -> exists r, compare_json_nodes fuel cs a b = Some r.
Proof.
  revert a b. induction fuel as [| fuel IH]; intros a b Hh.
  - rewrite height_children_eq in Hh. lia.
  - cbn [compare_json_nodes].
    destruct (negb (kind a =? kind b)); [eauto |].
    destruct (kind a =? STB_JSON_NUMBER); [eauto |].
    destruct ((kind a =? STB_JSON_STRING) || (kind a =? STB_JSON_RAW)); [eauto |].
    destruct (kind a =? STB_JSON_ARRAY).
    { destruct (compare_children_total (compare_json_nodes fuel cs) cs false
                  (child a) (child b)) as [[[r la] lb] ->]; [| eauto].
      intros x y Hin. apply IH. apply height_child in Hin. lia. }
    destruct (kind a =? STB_JSON_OBJECT); [| eauto].
    destruct (compare_children_total (compare_json_nodes fuel cs) cs true
                (child (sort_object a cs)) (child (sort_object b cs)))
      as [[[r la] lb] ->]; [| eauto].
    intros x y Hin. apply IH.
    assert (Hin' : In x (child a)).
    { simpl in Hin. eapply Permutation_in; [symmetry; apply sort_list_perm | exact Hin]. }
    apply height_child in Hin'. lia.
Qed.

Lemma compare_json_total (a b : option stb_json) (cs : bool) :
  exists r a' b', compare_json a b cs = Some (r, a', b').
Proof.
  destruct a as [x |], b as [y |]; simpl; eauto.
  destruct (compare_json_nodes_total (height x) cs x y (le_n _)) as [[[r x'] y'] ->].
  eauto.
Qed.

Lemma compare_json_reordered (a b : option stb_json) (cs : bool)
    (r : bool) (a' b' : option stb_json) :
  compare_json a b cs = Some (r, a', b') ->
  match a, a' with
  | Some x, Some x' => reordered x x'
  | None, None => True
  | _, _ => False
  end.
Proof.
  destruct a as [x |], b as [y |]; simpl; intros H;
    try (injection H as <- <- <-; try exact I; apply reordered_refl).
  destruct (compare_json_nodes (height x) cs x y) as [[[r2 x'] y'] |] eqn:Hc; [| discriminate].
  injection H as <- <- <-.
  apply (compare_json_nodes_reordered _ _ _ _ _ _ _ Hc).
Qed.




(** ** The nesting limit *)

(** Nothing but [parse_array] and [parse_object] reads the depth counter. *)
Lemma at_is_set_depth (b : parse_buffer) (d i : nat) (c : ascii) :
  at_is (set_depth b d) i c = at_is b i c.
Proof. reflexivity. Qed.

Lemma skip_whitespace_set_depth (b : parse_buffer) (d : nat) :
  buffer_skip_whitespace (set_depth b d) = set_depth (buffer_skip_whitespace b) d.
Proof.
  unfold buffer_skip_whitespace. simpl.
  destruct (Nat.eqb _ _); reflexivity.
Qed.

Lemma depth_skip_whitespace (b : parse_buffer) :
  depth (buffer_skip_whitespace b) = depth b.
Proof. unfold buffer_skip_whitespace. destruct (Nat.eqb _ _); reflexivity. Qed.

Lemma parse_number_set_depth (pow10 : Z -> double) (item : stb_json)
    (b : parse_buffer) (d : nat) :
  parse_number pow10 item (set_depth b d) = with_depth (parse_number pow10 item b) d.
Proof.
  unfold parse_number. cbn [content offset set_depth depth].
  destruct (Nat.eqb _ 0); [reflexivity |].
  destruct (stb_json_strtod _ _) as [number after_end].
  destruct (Nat.eqb after_end 0); reflexivity.
Qed.

Lemma parse_number_depth (pow10 : Z -> double) (item r : stb_json) (b b' : parse_buffer) :
  parse_number pow10 item b = Done (r, b') ->
  depth b' = depth b /\ kind r = STB_JSON_NUMBER.
Proof.
  unfold parse_number.
  destruct (Nat.eqb _ 0); [discriminate |].
  destruct (stb_json_strtod _ _) as [number after_end].
  destruct (Nat.eqb after_end 0); [discriminate |].
  intros H. injection H as <- <-. split; reflexivity.
Qed.

Lemma parse_string_set_depth (item : stb_json) (b : parse_buffer) (d : nat) :
  parse_string item (set_depth b d) = with_depth (parse_string item b) d.
Proof.
  unfold parse_string. rewrite at_is_set_depth.
  cbn [content offset set_depth depth].
  destruct (negb _); [reflexivity |].
  match goal with
  | |- context [string_body ?f ?l] => destruct (string_body f l) as [[s n] |]
  end; reflexivity.
Qed.

Lemma parse_string_depth (item r : stb_json) (b b' : parse_buffer) :
  parse_string item b = Done (r, b') ->
  depth b' = depth b /\ kind r = STB_JSON_STRING /\ child r = child item.
Proof.
  unfold parse_string.
  destruct (negb _); [discriminate |].
  match goal with
  | |- context [string_body ?f ?l] => destruct (string_body f l) as [[s n] |]
  end; [| discriminate].
  intros H. injection H as <- <-. repeat split.
Qed.

Lemma nesting_scalar (t : stb_json) :
  kind t <> STB_JSON_ARRAY -> kind t <> STB_JSON_OBJECT -> nesting t = O.
Proof.
  intros Ha Ho. destruct t as [c ty vs vi vd k]. unfold nesting; fold nesting.
  apply Z.eqb_neq in Ha, Ho. rewrite Ha, Ho. reflexivity.
Qed.

Lemma nesting_container (item : stb_json) (t : Z) (head : list stb_json) :
  t = STB_JSON_ARRAY \/ t = STB_JSON_OBJECT ->
  nesting (set_child (set_type item t) head) = S (max_nesting head).
Proof.
  intros Ht. unfold nesting; fold nesting. unfold max_nesting.
  destruct Ht as [-> | ->]; reflexivity.
Qed.

Lemma parse_array_eq (L : nat)
    (loop : parse_buffer -> outcome (list stb_json * parse_buffer))
    (item : stb_json) (b : parse_buffer) :
  parse_array L loop item b =
  if Nat.leb L (depth b) then Failed
  else
    match buffer_at_offset b 0 with
    | None => Failed
    | Some c =>
        if negb (Ascii.eqb c "[") then Failed
        else container_rest STB_JSON_ARRAY "]" loop item
               (buffer_skip_whitespace (set_offset b (offset b + 1))) (depth b)
    end.
Proof.
  unfold parse_array, container_rest.
  destruct (Nat.leb L (depth b)); [reflexivity |].
  change (buffer_at_offset (set_depth b (S (depth b))) 0) with (buffer_at_offset b 0).
  destruct (buffer_at_offset b 0) as [c |]; [| reflexivity].
  destruct (negb (Ascii.eqb c "[")); [reflexivity |].
  change (set_offset (set_depth b (S (depth b))) (offset (set_depth b (S (depth b))) + 1))
    with (set_depth (set_offset b (offset b + 1)) (S (depth b))).
  rewrite skip_whitespace_set_depth. reflexivity.
Qed.

Lemma parse_object_eq (L : nat)
    (loop : parse_buffer -> outcome (list stb_json * parse_buffer))
    (item : stb_json) (b : parse_buffer) :
  parse_object L loop item b =
  if Nat.leb L (depth b) then Failed
  else if cannot_access_at_index b 0 || negb (at_is b 0 "{") then Failed
  else container_rest STB_JSON_OBJECT "}" loop item
         (buffer_skip_whitespace (set_offset b (offset b + 1))) (depth b).
Proof.
  unfold parse_object, container_rest.
  destruct (Nat.leb L (depth b)); [reflexivity |].
  change (cannot_access_at_index (set_depth b (S (depth b))) 0)
    with (cannot_access_at_index b 0).
  rewrite at_is_set_depth.
  destruct (cannot_access_at_index b 0 || negb (at_is b 0 "{")); [reflexivity |].
  change (set_offset (set_depth b (S (depth b))) (offset (set_depth b (S (depth b))) + 1))
    with (set_depth (set_offset b (offset b + 1)) (S (depth b))).
  rewrite skip_whitespace_set_depth. reflexivity.
Qed.

Lemma container_rest_set_depth (t : Z) (close : ascii)
    (loop : parse_buffer -> outcome (list stb_json * parse_buffer))
    (item : stb_json) (b1 : parse_buffer) (x d : nat) :
  container_rest t close loop item (set_depth b1 x) d
  = container_rest t close loop item b1 d.
Proof. reflexivity. Qed.

Section NestingLimit.
Variable pow10 : Z -> double.

(** The shared part of the two containers around a loop that obeys the
    budget. *)
Lemma container_rest_budget (t : Z) (close : ascii)
    (loop : nat -> nat -> parse_buffer -> outcome (list stb_json * parse_buffer))
    (fuel : nat) :
  t = STB_JSON_ARRAY \/ t = STB_JSON_OBJECT ->
  loop_budget loop fuel ->
  forall (L' : nat) (item : stb_json) (b1 : parse_buffer) (dp : nat)
         (r : stb_json) (b' : parse_buffer),
    (dp < L')%nat ->
    container_rest t close (loop L' fuel) item b1 dp = Done (r, b') ->
    depth b' = dp /\ (dp + nesting r <= L')%nat /\ (1 <= nesting r)%nat /\
    forall (L d : nat), (d < L)%nat ->
      container_rest t close (loop L fuel) item b1 d
      = if Nat.leb (d + nesting r) L then Done (r, set_depth b' d) else Failed.
Proof.
  intros Ht Hloop L' item b1 dp r b' Hdp H.
  unfold container_rest in *.
  destruct (at_is b1 0 close) eqn:Hclose.
  - (* the empty container *)
    unfold parse_success in H. injection H as <- <-.
    rewrite nesting_container by exact Ht.
    change (max_nesting []) with O.
    split; [simpl; lia | split; [lia | split; [lia |]]].
    intros L d HdL.
    replace (Nat.leb (d + 1) L) with true by (symmetry; apply Nat.leb_le; lia).
    unfold parse_success, set_offset, set_depth. cbn [depth content offset].
    repeat f_equal; lia.
  - destruct (cannot_access_at_index b1 0) eqn:Hacc; [discriminate |].
    destruct (loop L' fuel (set_depth (set_offset b1 (offset b1 - 1)) (S dp)))
      as [[head b2] | |] eqn:Hl; try discriminate.
    cbn [bind] in H.
    destruct (cannot_access_at_index b2 0 || negb (at_is b2 0 close)) eqn:Hend;
      [discriminate |].
    unfold parse_success in H. injection H as <- <-.
    assert (Hin : (depth (set_depth (set_offset b1 (offset b1 - 1)) (S dp)) <= L')%nat)
      by (simpl; lia).
    destruct (Hloop L' _ _ _ Hin Hl) as (Hd2 & Hfit & Hany).
    change (depth b2 = S dp) in Hd2.
    change (S dp + max_nesting head <= L')%nat in Hfit.
    rewrite nesting_container by exact Ht.
    split; [simpl; lia | split; [lia | split; [lia |]]].
    intros L d HdL.
    specialize (Hany L (S d) ltac:(lia)).
    change (set_depth (set_depth (set_offset b1 (offset b1 - 1)) (S dp)) (S d))
      with (set_depth (set_offset b1 (offset b1 - 1)) (S d)) in Hany.
    rewrite Hany.
    replace (Nat.leb (S d + max_nesting head) L)
      with (Nat.leb (d + S (max_nesting head)) L) by (f_equal; lia).
    destruct (Nat.leb (d + S (max_nesting head)) L); [| reflexivity].
    cbn [bind]. rewrite !at_is_set_depth.
    change (cannot_access_at_index (set_depth b2 (S d)) 0)
      with (cannot_access_at_index b2 0).
    rewrite Hend. unfold parse_success, set_offset, set_depth.
    cbn [depth content offset]. f_equal. f_equal. f_equal. lia.
Qed.

Lemma parse_value_eq (L fuel : nat) (item : stb_json) (input_buffer : parse_buffer) :
  parse_value pow10 L parse_string (S fuel) item input_buffer =
  if starts_with input_buffer (lit "null") then
    Done (set_type item STB_JSON_NULL, set_offset input_buffer (offset input_buffer + 4))
  else if starts_with input_buffer (lit "false") then
    Done (set_type item STB_JSON_FALSE, set_offset input_buffer (offset input_buffer + 5))
  else if starts_with input_buffer (lit "true") then
    Done (set_valueint (set_type item STB_JSON_TRUE) 1,
          set_offset input_buffer (offset input_buffer + 4))
  else if at_is input_buffer 0 dquote then parse_string item input_buffer
  else if can_access_at_index input_buffer 0 &&
          match buffer_at_offset input_buffer 0 with
          | Some c => Ascii.eqb c "-" || is_digit c
          | None => false
          end
  then parse_number pow10 item input_buffer
  else if at_is input_buffer 0 "[" then
    parse_array L (parse_array_loop pow10 L parse_string fuel) item input_buffer
  else if at_is input_buffer 0 "{" then
    parse_object L (parse_object_loop pow10 L parse_string fuel) item input_buffer
  else Failed.
Proof. reflexivity. Qed.

Lemma parse_array_loop_eq (L fuel : nat) (input_buffer : parse_buffer) :
  parse_array_loop pow10 L parse_string (S fuel) input_buffer =
  bind (parse_value pow10 L parse_string fuel stb_json_new_item
          (buffer_skip_whitespace (set_offset input_buffer (offset input_buffer + 1))))
    (fun r =>
       let '(current_item, b) := r in
       let b := buffer_skip_whitespace b in
       if at_is b 0 "," then
         bind (parse_array_loop pow10 L parse_string fuel b) (fun r' =>
           let '(rest, b') := r' in Done (current_item :: rest, b'))
       else Done ([current_item], b)).
Proof. reflexivity. Qed.

Lemma parse_object_loop_eq (L fuel : nat) (input_buffer : parse_buffer) :
  parse_object_loop pow10 L parse_string (S fuel) input_buffer =
  if cannot_access_at_index input_buffer 1 then Failed
  else
    bind (parse_string stb_json_new_item
            (buffer_skip_whitespace (set_offset input_buffer (offset input_buffer + 1))))
      (fun r =>
         let '(current_item, b) := r in
         let b := buffer_skip_whitespace b in
         let current_item := set_string current_item (valuestring current_item) in
         let current_item := set_valuestring current_item None in
         if cannot_access_at_index b 0 || negb (at_is b 0 ":") then Failed
         else
           let b := buffer_skip_whitespace (set_offset b (offset b + 1)) in
           bind (parse_value pow10 L parse_string fuel current_item b) (fun r1 =>
             let '(current_item, b) := r1 in
             let b := buffer_skip_whitespace b in
             if at_is b 0 "," then
               bind (parse_object_loop pow10 L parse_string fuel b) (fun r' =>
                 let '(rest, b') := r' in Done (current_item :: rest, b'))
             else Done ([current_item], b))).
Proof. reflexivity. Qed.

Lemma leb_max (d a b L : nat) :
  Nat.leb (d + Nat.max a b) L = Nat.leb (d + a) L && Nat.leb (d + b) L.
Proof.
  destruct (Nat.leb (d + a) L) eqn:Ha, (Nat.leb (d + b) L) eqn:Hb; simpl;
    rewrite ?Nat.leb_le, ?Nat.leb_gt in *; lia.
Qed.

(** The tail of both loops: after an element, either a comma and the
    rest of the loop, or the end of the loop. *)
Lemma loop_tail_budget
    (loop : nat -> nat -> parse_buffer -> outcome (list stb_json * parse_buffer))
    (fuel : nat) (cur : stb_json) :
  loop_budget loop fuel ->
  forall (L' : nat) (b2 : parse_buffer) (rs : list stb_json) (b' : parse_buffer),
    (depth b2 + nesting cur <= L')%nat ->
    (let b := buffer_skip_whitespace b2 in
     if at_is b 0 "," then
       bind (loop L' fuel b) (fun r' => let '(rest, b') := r' in Done (cur :: rest, b'))
     else Done ([cur], b)) = Done (rs, b') ->
    depth b' = depth b2 /\ (depth b2 + max_nesting rs <= L')%nat /\
    (nesting cur <= max_nesting rs)%nat /\
    forall (L d : nat), (d <= L)%nat -> Nat.leb (d + nesting cur) L = true ->
      (let b := buffer_skip_whitespace (set_depth b2 d) in
       if at_is b 0 "," then
         bind (loop L fuel b) (fun r' => let '(rest, b') := r' in Done (cur :: rest, b'))
       else Done ([cur], b))
      = if Nat.leb (d + max_nesting rs) L then Done (rs, set_depth b' d) else Failed.
Proof.
  intros Hloop L' b2 rs b' Hcur H. cbv zeta in *.
  pose proof (depth_skip_whitespace b2) as Hd3.
  destruct (at_is (buffer_skip_whitespace b2) 0 ",") eqn:Hcomma.
  - destruct (loop L' fuel (buffer_skip_whitespace b2)) as [[rest b4] | |] eqn:Hl;
      try discriminate.
    cbn [bind] in H. injection H as <- <-.
    assert (Hin : (depth (buffer_skip_whitespace b2) <= L')%nat) by lia.
    destruct (Hloop L' _ _ _ Hin Hl) as (Hd4 & Hfit & Hany).
    change (max_nesting (cur :: rest)) with (Nat.max (nesting cur) (max_nesting rest)).
    split; [lia | split; [lia | split; [lia |]]].
    intros L d HdL Hc. rewrite skip_whitespace_set_depth, at_is_set_depth, Hcomma.
    rewrite (Hany L d HdL). rewrite leb_max, Hc. cbn [andb].
    destruct (Nat.leb (d + max_nesting rest) L); reflexivity.
  - injection H as <- <-.
    change (max_nesting [cur]) with (Nat.max (nesting cur) 0).
    split; [lia | split; [lia | split; [lia |]]].
    intros L d HdL Hc. rewrite skip_whitespace_set_depth, at_is_set_depth, Hcomma.
    rewrite leb_max, Hc, Nat.add_0_r.
    replace (Nat.leb d L) with true by (symmetry; apply Nat.leb_le; exact HdL).
    reflexivity.
Qed.

Lemma budget (fuel : nat) :
  value_budget pow10 fuel /\
  loop_budget (fun L f b => parse_array_loop pow10 L parse_string f b) fuel /\
  loop_budget (fun L f b => parse_object_loop pow10 L parse_string f b) fuel.
Proof.
  induction fuel as [| fuel (IHv & IHa & IHo)].
  - split; [| split]; intros L'; intros; discriminate.
  - split; [| split].
    + (* parse_value *)
      intros L' item b r b' Hd H. rewrite parse_value_eq in H.
      assert (Hscalar : forall r0 b0,
                kind r0 <> STB_JSON_ARRAY -> kind r0 <> STB_JSON_OBJECT ->
                depth b0 = depth b ->
                depth b0 = depth b /\ (depth b + nesting r0 <= L')%nat /\
                forall L d, (d <= L)%nat ->
                  Done (r0, set_depth b0 d)
                  = if Nat.leb (d + nesting r0) L then Done (r0, set_depth b0 d)
                    else @Failed (stb_json * parse_buffer)).
      { intros r0 b0 Ha Ho Hb0. rewrite (nesting_scalar r0 Ha Ho).
        split; [exact Hb0 | split; [lia |]].
        intros L d HdL. rewrite Nat.add_0_r.
        replace (Nat.leb d L) with true by (symmetry; apply Nat.leb_le; exact HdL).
        reflexivity. }
      destruct (starts_with b (lit "null")) eqn:Hnull.
      { injection H as <- <-.
        destruct (Hscalar (set_type item STB_JSON_NULL) (set_offset b (offset b + 4)))
          as (H1 & H2 & H3); try reflexivity; try (unfold kind; simpl; discriminate).
        split; [exact H1 | split; [exact H2 |]].
        intros L d HdL. rewrite parse_value_eq.
        change (starts_with (set_depth b d) (lit "null")) with (starts_with b (lit "null")).
        rewrite Hnull. apply H3. exact HdL. }
      destruct (starts_with b (lit "false")) eqn:Hfalse.
      { injection H as <- <-.
        destruct (Hscalar (set_type item STB_JSON_FALSE) (set_offset b (offset b + 5)))
          as (H1 & H2 & H3); try reflexivity; try (unfold kind; simpl; discriminate).
        split; [exact H1 | split; [exact H2 |]].
        intros L d HdL. rewrite parse_value_eq.
        change (starts_with (set_depth b d) (lit "null")) with (starts_with b (lit "null")).
        change (starts_with (set_depth b d) (lit "false")) with (starts_with b (lit "false")).
        rewrite Hnull, Hfalse. apply H3. exact HdL. }
      destruct (starts_with b (lit "true")) eqn:Htrue.
      { injection H as <- <-.
        destruct (Hscalar (set_valueint (set_type item STB_JSON_TRUE) 1)
                    (set_offset b (offset b + 4)))
          as (H1 & H2 & H3); try reflexivity; try (unfold kind; simpl; discriminate).
        split; [exact H1 | split; [exact H2 |]].
        intros L d HdL. rewrite parse_value_eq.
        change (starts_with (set_depth b d) (lit "null")) with (starts_with b (lit "null")).
        change (starts_with (set_depth b d) (lit "false")) with (starts_with b (lit "false")).
        change (starts_with (set_depth b d) (lit "true")) with (starts_with b (lit "true")).
        rewrite Hnull, Hfalse, Htrue. apply H3. exact HdL. }
      assert (Hhead : forall L d,
                parse_value pow10 L parse_string (S fuel) item (set_depth b d)
                = if at_is b 0 dquote then parse_string item (set_depth b d)
                  else if can_access_at_index b 0 &&
                          match buffer_at_offset b 0 with
                          | Some c => Ascii.eqb c "-" || is_digit c
                          | None => false
                          end
                  then parse_number pow10 item (set_depth b d)
                  else if at_is b 0 "[" then
                    parse_array L (parse_array_loop pow10 L parse_string fuel) item
                      (set_depth b d)
                  else if at_is b 0 "{" then
                    parse_object L (parse_object_loop pow10 L parse_string fuel) item
                      (set_depth b d)
                  else Failed).
      { intros L d. rewrite parse_value_eq.
        change (starts_with (set_depth b d) (lit "null")) with (starts_with b (lit "null")).
        change (starts_with (set_depth b d) (lit "false")) with (starts_with b (lit "false")).
        change (starts_with (set_depth b d) (lit "true")) with (starts_with b (lit "true")).
        rewrite Hnull, Hfalse, Htrue, !at_is_set_depth.
        change (can_access_at_index (set_depth b d) 0) with (can_access_at_index b 0).
        change (buffer_at_offset (set_depth b d) 0) with (buffer_at_offset b 0).
        destruct (at_is b 0 dquote); [reflexivity |].
        destruct (can_access_at_index b 0 && _); [reflexivity |].
        destruct (at_is b 0 "["); [reflexivity |].
        destruct (at_is b 0 "{"); reflexivity. }
      destruct (at_is b 0 dquote) eqn:Hq.
      { (* a string *)
        destruct (parse_string_depth _ _ _ _ H) as (Hd1 & Hk & _).
        destruct (Hscalar r b') as (H1 & H2 & H3);
          [rewrite Hk; discriminate | rewrite Hk; discriminate | exact Hd1 |].
        split; [exact H1 | split; [exact H2 |]].
        intros L d HdL. rewrite Hhead, parse_string_set_depth, H. apply H3. exact HdL. }
      destruct (can_access_at_index b 0 && _) eqn:Hnum.
      { (* a number *)
        destruct (parse_number_depth _ _ _ _ _ H) as (Hd1 & Hk).
        destruct (Hscalar r b') as (H1 & H2 & H3);
          [rewrite Hk; discriminate | rewrite Hk; discriminate | exact Hd1 |].
        split; [exact H1 | split; [exact H2 |]].
        intros L d HdL. rewrite Hhead, parse_number_set_depth, H. apply H3. exact HdL. }
      destruct (at_is b 0 "[") eqn:Harr.
      { (* an array *)
        rewrite parse_array_eq in H.
        destruct (Nat.leb L' (depth b)) eqn:Hlim; [discriminate |].
        apply Nat.leb_gt in Hlim.
        destruct (buffer_at_offset b 0) as [c |] eqn:Hc0; [| discriminate].
        destruct (negb (Ascii.eqb c "[")) eqn:Hbr; [discriminate |].
        destruct (container_rest_budget STB_JSON_ARRAY "]"
                    (fun L f b => parse_array_loop pow10 L parse_string f b) fuel
                    (or_introl eq_refl) IHa L' item _ (depth b) r b' Hlim H)
          as (H1 & H2 & H3 & H4).
        split; [exact H1 | split; [exact H2 |]].
        intros L d HdL. rewrite Hhead, parse_array_eq.
        change (depth (set_depth b d)) with d.
        change (buffer_at_offset (set_depth b d) 0) with (buffer_at_offset b 0).
        rewrite Hc0, Hbr.
        destruct (Nat.leb L d) eqn:HLd.
        - apply Nat.leb_le in HLd.
          replace (Nat.leb (d + nesting r) L) with false
            by (symmetry; apply Nat.leb_gt; lia).
          reflexivity.
        - apply Nat.leb_gt in HLd.
          change (set_offset (set_depth b d) (offset (set_depth b d) + 1))
            with (set_depth (set_offset b (offset b + 1)) d).
          rewrite skip_whitespace_set_depth, container_rest_set_depth.
          apply H4. exact HLd. }
      destruct (at_is b 0 "{") eqn:Hobj; [| discriminate].
      (* an object *)
      rewrite parse_object_eq in H.
      destruct (Nat.leb L' (depth b)) eqn:Hlim; [discriminate |].
      apply Nat.leb_gt in Hlim.
      destruct (cannot_access_at_index b 0 || negb (at_is b 0 "{")) eqn:Hbr;
        [discriminate |].
      destruct (container_rest_budget STB_JSON_OBJECT "}"
                  (fun L f b => parse_object_loop pow10 L parse_string f b) fuel
                  (or_intror eq_refl) IHo L' item _ (depth b) r b' Hlim H)
        as (H1 & H2 & H3 & H4).
      split; [exact H1 | split; [exact H2 |]].
      intros L d HdL. rewrite Hhead, parse_object_eq.
      change (depth (set_depth b d)) with d.
      change (cannot_access_at_index (set_depth b d) 0) with (cannot_access_at_index b 0).
      rewrite at_is_set_depth, Hbr.
      destruct (Nat.leb L d) eqn:HLd.
      * apply Nat.leb_le in HLd.
        replace (Nat.leb (d + nesting r) L) with false
          by (symmetry; apply Nat.leb_gt; lia).
        reflexivity.
      * apply Nat.leb_gt in HLd.
        change (set_offset (set_depth b d) (offset (set_depth b d) + 1))
          with (set_depth (set_offset b (offset b + 1)) d).
        rewrite skip_whitespace_set_depth, container_rest_set_depth.
        apply H4. exact HLd.
    + (* the loop of parse_array *)
      intros L' b rs b' Hd H. cbv beta in H. rewrite parse_array_loop_eq in H.
      set (b1 := buffer_skip_whitespace (set_offset b (offset b + 1))) in *.
      assert (Hd1 : depth b1 = depth b) by (unfold b1; rewrite depth_skip_whitespace; reflexivity).
      destruct (parse_value pow10 L' parse_string fuel stb_json_new_item b1)
        as [[cur b2] | |] eqn:Hv; try discriminate.
      cbn [bind] in H.
      assert (Hin : (depth b1 <= L')%nat) by lia.
      destruct (IHv L' _ _ _ _ Hin Hv) as (Hd2 & Hfit & Hany).
      assert (Hfit2 : (depth b2 + nesting cur <= L')%nat) by lia.
      destruct (loop_tail_budget
                  (fun L f b => parse_array_loop pow10 L parse_string f b)
                  fuel cur IHa L' b2 rs b' Hfit2 H) as (Hd3 & Hfit3 & Hle & Hany3).
      split; [lia | split; [lia |]].
      intros L d HdL. cbv beta. rewrite parse_array_loop_eq.
      change (set_offset (set_depth b d) (offset (set_depth b d) + 1))
        with (set_depth (set_offset b (offset b + 1)) d).
      rewrite skip_whitespace_set_depth. fold b1. rewrite (Hany L d HdL).
      destruct (Nat.leb (d + nesting cur) L) eqn:Hc.
      * cbn [bind]. apply (Hany3 L d HdL Hc).
      * cbn [bind]. apply Nat.leb_gt in Hc.
        replace (Nat.leb (d + max_nesting rs) L) with false
          by (symmetry; apply Nat.leb_gt; lia).
        reflexivity.
    + (* the loop of parse_object *)
      intros L' b rs b' Hd H. cbv beta in H. rewrite parse_object_loop_eq in H.
      destruct (cannot_access_at_index b 1) eqn:Hacc; [discriminate |].
      set (b1 := buffer_skip_whitespace (set_offset b (offset b + 1))) in *.
      assert (Hd1 : depth b1 = depth b) by (unfold b1; rewrite depth_skip_whitespace; reflexivity).
      destruct (parse_string stb_json_new_item b1) as [[key bk] | |] eqn:Hs;
        try discriminate.
      cbn [bind] in H. cbv zeta in H.
      destruct (parse_string_depth _ _ _ _ Hs) as (Hdk & _ & _).
      set (bc := buffer_skip_whitespace bk) in *.
      assert (Hdc : depth bc = depth bk) by (unfold bc; apply depth_skip_whitespace).
      destruct (cannot_access_at_index bc 0 || negb (at_is bc 0 ":")) eqn:Hcolon;
        [discriminate |].
      set (b3 := buffer_skip_whitespace (set_offset bc (offset bc + 1))) in *.
      assert (Hd3 : depth b3 = depth bc) by (unfold b3; rewrite depth_skip_whitespace; reflexivity).
      set (item0 := set_valuestring (set_string key (valuestring key)) None) in *.
      destruct (parse_value pow10 L' parse_string fuel item0 b3)
        as [[cur b2] | |] eqn:Hv; try discriminate.
      cbn [bind] in H.
      assert (Hin : (depth b3 <= L')%nat) by lia.
      destruct (IHv L' _ _ _ _ Hin Hv) as (Hd2 & Hfit & Hany).
      assert (Hfit2 : (depth b2 + nesting cur <= L')%nat) by lia.
      destruct (loop_tail_budget
                  (fun L f b => parse_object_loop pow10 L parse_string f b)
                  fuel cur IHo L' b2 rs b' Hfit2 H) as (Hd4 & Hfit4 & Hle & Hany4).
      split; [lia | split; [lia |]].
      intros L d HdL. cbv beta. rewrite parse_object_loop_eq.
      change (cannot_access_at_index (set_depth b d) 1) with (cannot_access_at_index b 1).
      rewrite Hacc.
      change (set_offset (set_depth b d) (offset (set_depth b d) + 1))
        with (set_depth (set_offset b (offset b + 1)) d).
      rewrite skip_whitespace_set_depth. fold b1.
      rewrite parse_string_set_depth, Hs. cbn [with_depth bind]. cbv zeta.
      rewrite skip_whitespace_set_depth. fold bc.
      change (cannot_access_at_index (set_depth bc d) 0) with (cannot_access_at_index bc 0).
      rewrite at_is_set_depth, Hcolon.
      change (set_offset (set_depth bc d) (offset (set_depth bc d) + 1))
        with (set_depth (set_offset bc (offset bc + 1)) d).
      rewrite skip_whitespace_set_depth. fold b3. fold item0.
      rewrite (Hany L d HdL).
      destruct (Nat.leb (d + nesting cur) L) eqn:Hc.
      * cbn [bind]. apply (Hany4 L d HdL Hc).
      * cbn [bind]. apply Nat.leb_gt in Hc.
        replace (Nat.leb (d + max_nesting rs) L) with false
          by (symmetry; apply Nat.leb_gt; lia).
        reflexivity.
Qed.
End NestingLimit.

(** The budget at the entry point: a parse that succeeds under the limit
    [L'] yields a tree of nesting at most [L'], and under any other limit
    [L] the same input yields the same tree when the tree fits and fails
    when it does not. *)
Lemma parse_withlengthopts_budget (pow10 : Z -> double) (L' L : nat)
    (value : option (list ascii)) (require_null_terminated : bool) (r : stb_json) :
  stb_json_parse_withlengthopts pow10 L' parse_string value require_null_terminated = Done r ->
  (nesting r <= L')%nat /\
  stb_json_parse_withlengthopts pow10 L parse_string value require_null_terminated
  = if Nat.leb (nesting r) L then Done r else Failed.
Proof.
  unfold stb_json_parse_withlengthopts.
  destruct value as [bytes |]; [| discriminate].
  destruct (Nat.eqb (length bytes) 0); [discriminate |].
  destruct (skip_utf8_bom (mk_parse_buffer bytes 0 0)) as [buffer |] eqn:Hbom; [| discriminate].
  assert (Hd0 : depth buffer = O).
  { unfold skip_utf8_bom in Hbom.
    destruct (negb _); [discriminate |].
    destruct (_ && _); injection Hbom as <-; reflexivity. }
  set (b0 := buffer_skip_whitespace buffer).
  assert (Hb0 : depth b0 = O) by (unfold b0; rewrite depth_skip_whitespace; exact Hd0).
  destruct (parse_value pow10 L' parse_string (S (2 * length bytes)) stb_json_new_item b0)
    as [[item b1] | |] eqn:Hv; try discriminate.
  cbn [bind]. intros H.
  assert (Hin : (depth b0 <= L')%nat) by lia.
  destruct (proj1 (budget pow10 _) L' _ _ _ _ Hin Hv) as (Hd1 & Hfit & Hany).
  specialize (Hany L O (Nat.le_0_l L)).
  assert (Hsame : set_depth b0 0 = b0).
  { destruct b0 as [ct off dp]. simpl in Hb0. subst dp. reflexivity. }
  rewrite Hsame in Hany. rewrite Hany. cbn [Nat.add].
  assert (Hr : item = r).
  { destruct require_null_terminated; [| congruence].
    destruct (_ || _); [discriminate | congruence]. }
  subst item. rewrite Hb0 in Hfit. split; [exact Hfit |].
  destruct (Nat.leb (nesting r) L); [| reflexivity].
  cbn [bind].
  assert (Hsame1 : set_depth b1 0 = b1).
  { destruct b1 as [ct off dp]. simpl in Hd1. rewrite Hb0 in Hd1. subst dp. reflexivity. }
  rewrite Hsame1. exact H.
Qed.



(** * Merge patch *)

Lemma code_nonneg (c : ascii) : 0 <= code c.
Proof. unfold code. lia. Qed.

Lemma tolower_zero (c : ascii) : tolower c = 0 <-> code c = 0.
Proof.
  unfold tolower. pose proof (code_nonneg c).
  destruct ((65 <=? code c) && (code c <=? 90)) eqn:E; [| tauto].
  apply andb_true_iff in E as [E1 E2]. lia.
Qed.

Lemma strcmp_zero (a b : list ascii) :
  c_string a = true -> c_string b = true ->
  (strcmp a b = 0 <-> map code a = map code b).
Proof.
  revert b. induction a as [| x a IH]; intros [| y b]; simpl; intros Ha Hb.
  - tauto.
  - apply andb_true_iff in Hb as [Hy _]. split; [lia | discriminate].
  - apply andb_true_iff in Ha as [Hx _]. split; [lia | discriminate].
  - apply andb_true_iff in Ha as [Hx Ha]. apply andb_true_iff in Hb as [Hy Hb].
    destruct (code x =? code y) eqn:E.
    + apply Z.eqb_eq in E. rewrite (IH b Ha Hb). split; [intros ->; f_equal; exact E |].
      intros H. injection H as _ H. exact H.
    + apply Z.eqb_neq in E. split; [lia |]. intros H. injection H as H _. contradiction.
Qed.

Lemma case_insensitive_zero (a b : list ascii) :
  c_string a = true -> c_string b = true ->
  (case_insensitive_loop a b = 0 <-> map tolower a = map tolower b).
Proof.
  revert b. induction a as [| x a IH]; intros [| y b]; simpl; intros Ha Hb.
  - tauto.
  - apply andb_true_iff in Hb as [Hy _]. pose proof (tolower_zero y).
    split; [lia | discriminate].
  - apply andb_true_iff in Ha as [Hx _]. pose proof (tolower_zero x).
    split; [lia | discriminate].
  - apply andb_true_iff in Ha as [Hx Ha]. apply andb_true_iff in Hb as [Hy Hb].
    destruct (tolower x =? tolower y) eqn:E.
    + apply Z.eqb_eq in E. rewrite (IH b Ha Hb). split; [intros ->; f_equal; exact E |].
      intros H. injection H as _ H. exact H.
    + apply Z.eqb_neq in E. split; [lia |]. intros H. injection H as H _. contradiction.
Qed.

(** The comparison of [get_object_item] is equality of key texts. *)
Lemma key_match (cs : bool) (name k : list ascii) :
  c_string name = true -> c_string k = true ->
  ((if cs then strcmp name k else case_insensitive_strcmp (Some name) (Some k)) =? 0) = true
  <-> key_text cs name = key_text cs k.
Proof.
  intros Hn Hk. rewrite Z.eqb_eq. destruct cs; simpl.
  - apply strcmp_zero; assumption.
  - apply case_insensitive_zero; assumption.
Qed.

Lemma item_of_cons (cs : bool) (m : stb_json) (l : list stb_json) (k0 name : list ascii) :
  string m = Some k0 ->
  item_of cs (m :: l) name
  = if (if cs then strcmp name k0 else case_insensitive_strcmp (Some name) (Some k0)) =? 0
    then Some m else item_of cs l name.
Proof.
  intros Hm. unfold item_of. simpl. rewrite Hm.
  destruct (_ =? 0); [reflexivity |].
  destruct (get_object_item_index l name cs); reflexivity.
Qed.

Lemma keyed_members_cons (m : stb_json) (l : list stb_json) :
  keyed_members (m :: l) = true ->
  exists k0, string m = Some k0 /\ c_string k0 = true /\ keyed_members l = true.
Proof.
  simpl. intros H. apply andb_true_iff in H as [H1 H2].
  destruct (string m) as [k0 |]; [| discriminate]. eauto.
Qed.

Lemma item_of_none (cs : bool) (l : list stb_json) (name : list ascii) :
  keyed_members l = true -> c_string name = true ->
  (Some (key_text cs name) ∉ map (member_key cs) l) ->
  item_of cs l name = None.
Proof.
  intros Hl Hn. induction l as [| m l IH]; intros Hnot; [reflexivity |].
  destruct (keyed_members_cons _ _ Hl) as (k0 & Hm & Hk0 & Hl').
  rewrite (item_of_cons _ _ _ _ _ Hm).
  rewrite map_cons, not_elem_of_cons in Hnot. destruct Hnot as [Hne Hnot].
  destruct (_ =? 0) eqn:E.
  - apply key_match in E; [| assumption ..].
    exfalso. apply Hne. unfold member_key. rewrite Hm. simpl. congruence.
  - apply IH; assumption.
Qed.

(** Detaching the member found for a key: the other keys keep their
    members, the key itself is gone. *)
Lemma detach_step (cs : bool) (l : list stb_json) (km : list ascii) :
  keyed_members l = true -> NoDup (map (member_key cs) l) -> c_string km = true ->
  let l' := match get_object_item_index l km cs with
            | Some i => remove_nth i l
            | None => l
            end in
  keyed_members l' = true /\ NoDup (map (member_key cs) l') /\
  (Some (key_text cs km) ∉ map (member_key cs) l') /\
  (forall x, x ∈ map (member_key cs) l' -> x ∈ map (member_key cs) l) /\
  (forall k, c_string k = true -> key_text cs k <> key_text cs km ->
     item_of cs l' k = item_of cs l k).
Proof.
  intros Hl Hnd Hkm. induction l as [| m l IH].
  - simpl. repeat split; auto. apply not_elem_of_nil.
  - destruct (keyed_members_cons _ _ Hl) as (k0 & Hm & Hk0 & Hl').
    rewrite map_cons in Hnd. apply NoDup_cons in Hnd as [Hhead Hnd].
    specialize (IH Hl' Hnd). cbv zeta in IH. destruct IH as (I1 & I2 & I3 & I4 & I5).
    cbn [get_object_item_index]. rewrite Hm.
    destruct (_ =? 0) eqn:E.
    + apply key_match in E; [| assumption ..].
      cbv zeta. unfold remove_nth. cbn [firstn skipn app].
      split; [exact Hl' |]. split; [exact Hnd |].
      split; [| split].
      * rewrite E. unfold member_key in Hhead. rewrite Hm in Hhead. exact Hhead.
      * intros x Hx. rewrite map_cons. apply elem_of_cons. right. exact Hx.
      * intros k Hk Hne. rewrite (item_of_cons _ _ _ _ _ Hm).
        destruct (_ =? 0) eqn:E2; [| reflexivity].
        apply key_match in E2; [| assumption ..]. congruence.
    + assert (Hne0 : key_text cs km <> key_text cs k0).
      { intros Heq. apply (key_match cs km k0 Hkm Hk0) in Heq. congruence. }
      assert (Heq : match option_map S (get_object_item_index l km cs) with
                    | Some i => remove_nth i (m :: l)
                    | None => m :: l
                    end
                    = m :: match get_object_item_index l km cs with
                           | Some i => remove_nth i l
                           | None => l
                           end).
      { destruct (get_object_item_index l km cs); reflexivity. }
      cbv zeta. rewrite Heq. clear Heq.
      set (l' := match get_object_item_index l km cs with
                 | Some i => remove_nth i l
                 | None => l
                 end) in *.
      split; [| split; [| split; [| split]]].
      * simpl. rewrite Hm, Hk0. exact I1.
      * rewrite map_cons. apply NoDup_cons. split; [| exact I2].
        intros Hin. apply Hhead, I4, Hin.
      * rewrite map_cons. apply not_elem_of_cons. split; [| exact I3].
        unfold member_key. rewrite Hm. simpl. congruence.
      * intros x Hx. rewrite map_cons in *. apply elem_of_cons in Hx as [-> | Hx];
          apply elem_of_cons; [left; reflexivity | right; apply I4, Hx].
      * intros k Hk Hne. rewrite !(item_of_cons _ _ _ _ _ Hm).
        rewrite (I5 k Hk Hne). reflexivity.
Qed.

(** Appending a member under a key the list does not hold. *)
Lemma append_step (cs : bool) (l : list stb_json) (x : stb_json) (kx : list ascii) :
  keyed_members l = true -> NoDup (map (member_key cs) l) ->
  string x = Some kx -> c_string kx = true ->
  (Some (key_text cs kx) ∉ map (member_key cs) l) ->
  keyed_members (l ++ [x]) = true /\ NoDup (map (member_key cs) (l ++ [x])) /\
  item_of cs (l ++ [x]) kx = Some x /\
  (forall k, c_string k = true -> key_text cs k <> key_text cs kx ->
     item_of cs (l ++ [x]) k = item_of cs l k).
Proof.
  intros Hl Hnd Hx Hkx Hnot.
  assert (Hkey : member_key cs x = Some (key_text cs kx)).
  { unfold member_key. rewrite Hx. reflexivity. }
  split; [| split; [| split]].
  - unfold keyed_members. rewrite forallb_app. fold (keyed_members l). rewrite Hl.
    simpl. rewrite Hx, Hkx. reflexivity.
  - rewrite map_app. apply NoDup_app. split; [exact Hnd |]. split.
    + intros y Hy Hy'. simpl in Hy'. apply list_elem_of_singleton in Hy'. subst y.
      rewrite Hkey in Hy. contradiction.
    + simpl. apply NoDup_singleton.
  - clear Hnd. induction l as [| m l IH].
    + simpl. rewrite (item_of_cons _ _ _ _ _ Hx).
      replace (_ =? 0) with true; [reflexivity |].
      symmetry. apply key_match; auto.
    + destruct (keyed_members_cons _ _ Hl) as (k0 & Hm & Hk0 & Hl').
      rewrite map_cons, not_elem_of_cons in Hnot. destruct Hnot as [Hne Hnot].
      rewrite <- app_comm_cons, (item_of_cons _ _ _ _ _ Hm).
      destruct (_ =? 0) eqn:E; [| apply IH; assumption].
      apply key_match in E; [| assumption ..].
      exfalso. apply Hne. unfold member_key. rewrite Hm. simpl. congruence.
  - intros k Hk Hne. clear Hnd Hnot. induction l as [| m l IH].
    + simpl. rewrite (item_of_cons _ _ _ _ _ Hx).
      destruct (_ =? 0) eqn:E; [| reflexivity].
      apply key_match in E; [| assumption ..]. contradiction.
    + destruct (keyed_members_cons _ _ Hl) as (k0 & Hm & Hk0 & Hl').
      rewrite <- app_comm_cons, !(item_of_cons _ _ _ _ _ Hm).
      destruct (_ =? 0); [reflexivity | apply IH; assumption].
Qed.

Lemma get_object_item_index_valid (cs : bool) (l : list stb_json) (name : list ascii) (i : nat) :
  get_object_item_index l name cs = Some i -> exists m, nth_error l i = Some m.
Proof.
  revert i. induction l as [| m l IH]; intros i; simpl; [discriminate |].
  destruct (string m) as [k |]; [| discriminate].
  destruct (_ =? 0).
  - intros H. injection H as <-. eauto.
  - destruct (get_object_item_index l name cs) as [j |]; [| discriminate].
    intros H. injection H as <-. exact (IH j eq_refl).
Qed.

Lemma set_child_child (o : stb_json) : set_child o (child o) = o.
Proof. destruct o; reflexivity. Qed.

Lemma set_child_twice (o : stb_json) (l1 l2 : list stb_json) :
  set_child (set_child o l1) l2 = set_child o l2.
Proof. destruct o; reflexivity. Qed.

(** [stb_json_detachitemfromobject] and its case-sensitive variant on an
    object: the member found, and the object without it. *)
Lemma detach_from_object (cs : bool) (o : stb_json) (km : list ascii) :
  (if cs then stb_json_detachitemfromobjectcasesensitive (Some o) (Some km)
   else stb_json_detachitemfromobject (Some o) (Some km))
  = (item_of cs (child o) km,
     Some (set_child o match get_object_item_index (child o) km cs with
                       | Some i => remove_nth i (child o)
                       | None => child o
                       end)).
Proof.
  assert (H : stb_json_detachitemviapointer (Some o) (get_object_item (Some o) (Some km) cs)
              = (item_of cs (child o) km,
                 Some (set_child o match get_object_item_index (child o) km cs with
                                   | Some i => remove_nth i (child o)
                                   | None => child o
                                   end))).
  { unfold item_of, get_object_item, stb_json_detachitemviapointer.
    destruct (get_object_item_index (child o) km cs) as [i |] eqn:E.
    - destruct (get_object_item_index_valid _ _ _ _ E) as [m Hm]. rewrite Hm. reflexivity.
    - rewrite set_child_child. reflexivity. }
  destruct cs; exact H.
Qed.

Lemma delete_from_object (cs : bool) (o : stb_json) (km : list ascii) :
  (if cs then stb_json_deleteitemfromobjectcasesensitive (Some o) (Some km)
   else stb_json_deleteitemfromobject (Some o) (Some km))
  = Some (set_child o match get_object_item_index (child o) km cs with
                      | Some i => remove_nth i (child o)
                      | None => child o
                      end).
Proof.
  pose proof (detach_from_object cs o km) as H.
  unfold stb_json_deleteitemfromobjectcasesensitive, stb_json_deleteitemfromobject.
  destruct cs; rewrite H; reflexivity.
Qed.

(** The loop over the members of the patch, on an object whose members
    have distinct keys. *)
Lemma merge_patch_members_items (cs : bool)
    (merge : option stb_json -> stb_json -> option stb_json) (ms : list stb_json) :
  forall o : stb_json,
  keyed_members ms = true -> NoDup (map (member_key cs) ms) ->
  keyed_members (child o) = true -> NoDup (map (member_key cs) (child o)) ->
  (forall m rm, m ∈ ms -> exists r, merge rm m = Some r) ->
  exists l' : list stb_json,
    merge_patch_members merge cs ms (Some o) = Some (set_child o l') /\
    keyed_members l' = true /\ NoDup (map (member_key cs) l') /\
    (forall m km, m ∈ ms -> string m = Some km ->
       if stb_json_isnull (Some m) then item_of cs l' km = None
       else exists r, merge (item_of cs (child o) km) m = Some r /\
                      item_of cs l' km = Some (member_added (Some km) r)) /\
    (forall k, c_string k = true -> (Some (key_text cs k) ∉ map (member_key cs) ms) ->
       item_of cs l' k = item_of cs (child o) k).
Proof.
  induction ms as [| m ms IH]; intros o Hms Hnd Ho Hndo Htotal.
  - exists (child o). simpl. rewrite set_child_child.
    repeat split; auto. intros m km Hin. apply elem_of_nil in Hin. contradiction.
  - destruct (keyed_members_cons _ _ Hms) as (km & Hm & Hkm & Hms').
    rewrite map_cons in Hnd. apply NoDup_cons in Hnd as [Hhead Hnd].
    assert (Hkey : member_key cs m = Some (key_text cs km)).
    { unfold member_key. rewrite Hm. reflexivity. }
    rewrite Hkey in Hhead.
    destruct (detach_step cs (child o) km Ho Hndo Hkm) as (D1 & D2 & D3 & D4 & D5).
    set (l1 := match get_object_item_index (child o) km cs with
               | Some i => remove_nth i (child o)
               | None => child o
               end) in *.
    assert (Hother : forall m' km', m' ∈ ms -> string m' = Some km' ->
              c_string km' = true /\ key_text cs km' <> key_text cs km).
    { intros m' km' Hin Hs. split.
      - unfold keyed_members in Hms'. rewrite forallb_forall in Hms'.
        apply list_elem_of_In in Hin. specialize (Hms' m' Hin). rewrite Hs in Hms'. exact Hms'.
      - intros Heq. apply Hhead. rewrite <- Heq.
        apply list_elem_of_fmap. exists m'. split; [| exact Hin].
        unfold member_key. rewrite Hs. reflexivity. }
    cbn [merge_patch_members]. rewrite Hm.
    destruct (stb_json_isnull (Some m)) eqn:Hnull.
    + rewrite delete_from_object. fold l1.
      destruct (IH (set_child o l1)) as (l' & E & K1 & K2 & K3 & K4).
      { exact Hms'. } { exact Hnd. }
      { destruct o; exact D1. } { destruct o; exact D2. }
      { intros m' rm Hin. apply Htotal. apply elem_of_cons. right. exact Hin. }
      assert (Hc : child (set_child o l1) = l1) by (destruct o; reflexivity).
      rewrite Hc in *. rewrite set_child_twice in E.
      exists l'. split; [exact E |]. split; [exact K1 |]. split; [exact K2 |]. split.
      * intros m' km' Hin Hs. apply elem_of_cons in Hin as [-> | Hin].
        -- rewrite Hnull. rewrite Hm in Hs. injection Hs as <-.
           rewrite (K4 km Hkm Hhead). apply item_of_none; assumption.
        -- destruct (Hother m' km' Hin Hs) as [Hc' Hne].
           specialize (K3 m' km' Hin Hs). rewrite (D5 km' Hc' Hne) in K3. exact K3.
      * intros k Hk Hnot. rewrite map_cons, not_elem_of_cons in Hnot.
        destruct Hnot as [Hne Hnot]. rewrite (K4 k Hk Hnot). apply D5; [exact Hk |].
        rewrite Hkey in Hne. congruence.
    + rewrite detach_from_object. fold l1.
      destruct (Htotal m (item_of cs (child o) km)) as [r Hr].
      { apply elem_of_cons. left. reflexivity. }
      rewrite Hr.
      assert (Hadd : snd (stb_json_additemtoobject (Some (set_child o l1)) (Some km) (Some r))
                     = Some (set_child o (l1 ++ [member_added (Some km) r]))).
      { destruct o; reflexivity. }
      rewrite Hadd. clear Hadd.
      destruct (append_step cs l1 (member_added (Some km) r) km D1 D2)
        as (A1 & A2 & A3 & A4).
      { destruct r; reflexivity. } { exact Hkm. } { exact D3. }
      set (l2 := l1 ++ [member_added (Some km) r]) in *.
      destruct (IH (set_child o l2)) as (l' & E & K1 & K2 & K3 & K4).
      { exact Hms'. } { exact Hnd. }
      { destruct o; exact A1. } { destruct o; exact A2. }
      { intros m' rm Hin. apply Htotal. apply elem_of_cons. right. exact Hin. }
      assert (Hc : child (set_child o l2) = l2) by (destruct o; reflexivity).
      rewrite Hc in *. rewrite set_child_twice in E.
      exists l'. split; [exact E |]. split; [exact K1 |]. split; [exact K2 |]. split.
      * intros m' km' Hin Hs. apply elem_of_cons in Hin as [-> | Hin].
        -- rewrite Hnull. rewrite Hm in Hs. injection Hs as <-.
           exists r. split; [exact Hr |]. rewrite (K4 km Hkm Hhead). exact A3.
        -- destruct (Hother m' km' Hin Hs) as [Hc' Hne].
           specialize (K3 m' km' Hin Hs).
           rewrite (A4 km' Hc' Hne), (D5 km' Hc' Hne) in K3. exact K3.
      * intros k Hk Hnot. rewrite map_cons, not_elem_of_cons in Hnot.
        destruct Hnot as [Hne Hnot]. rewrite Hkey in Hne.
        assert (Hne' : key_text cs k <> key_text cs km) by congruence.
        rewrite (K4 k Hk Hnot), (A4 k Hk Hne'). apply D5; assumption.
Qed.

Lemma duplicate_children_total (duplicate : stb_json -> option stb_json) (l : list stb_json) :
  Forall (fun c => exists r, duplicate c = Some r) l ->
  exists rs, duplicate_children duplicate l = Some rs.
Proof.
  induction 1 as [| c l [r Hr] _ [rs Hrs]]; simpl; [eauto |].
  rewrite Hr, Hrs. eauto.
Qed.

Opaque STB_JSON_CIRCULAR_LIMIT.

(** A copy succeeds when the tree fits under the limit of
    [STB_JSON_CIRCULAR_LIMIT]. *)
Lemma stb_json_duplicate_rec_total (item : stb_json) :
  forall depth : nat,
  (depth + height item <= STB_JSON_CIRCULAR_LIMIT)%nat ->
  exists r, stb_json_duplicate_rec item depth true = Some r.
Proof.
  induction item as [item IH] using stb_json_induction. intros depth Hh.
  assert (Hchildren : exists rs,
            duplicate_children (fun c => stb_json_duplicate_rec c (S depth) true) (child item)
            = Some rs).
  { apply duplicate_children_total. rewrite Forall_forall in IH |- *.
    intros c Hc. apply IH; [exact Hc |].
    apply list_elem_of_In in Hc. pose proof (height_child item c Hc). lia. }
  destruct Hchildren as [rs Hrs].
  assert (Hd : Nat.leb STB_JSON_CIRCULAR_LIMIT depth = false).
  { apply Nat.leb_gt. rewrite (height_children_eq item) in Hh. lia. }
  destruct item as [c ty vs vi vd k]. cbn [stb_json_duplicate_rec negb child] in *.
  rewrite Hd, Hrs. eauto.
Qed.

Lemma detach_keeps_object (t : stb_json) (i : option nat) :
  exists rm t', stb_json_detachitemviapointer (Some t) i = (rm, Some t').
Proof.
  unfold stb_json_detachitemviapointer. destruct i as [i |]; [| eauto].
  destruct (nth_error (child t) i); eauto.
Qed.

Lemma add_keeps_object (t : stb_json) (name : option (list ascii)) (item : option stb_json) :
  exists t', snd (stb_json_additemtoobject (Some t) name item) = Some t'.
Proof.
  unfold stb_json_additemtoobject. destruct name, item; simpl; eauto.
Qed.

Lemma merge_patch_node_total (cs : bool) (patch : stb_json) :
  forall target : option stb_json,
  (height patch <= STB_JSON_CIRCULAR_LIMIT)%nat ->
  exists r, merge_patch_node target patch cs = Some r.
Proof.
  induction patch as [patch IH] using stb_json_induction. intros target Hh.
  assert (Heq : merge_patch_node target patch cs
                = if negb (stb_json_isobject (Some patch))
                  then stb_json_duplicate (Some patch) true
                  else merge_patch_members
                         (fun replace_me patch_child =>
                            merge_patch_node replace_me patch_child cs)
                         cs (child patch) (merge_patch_target target)).
  { destruct patch; reflexivity. }
  rewrite Heq. clear Heq.
  destruct (negb (stb_json_isobject (Some patch))).
  - apply stb_json_duplicate_rec_total. simpl. exact Hh.
  - assert (Hl : forall c, In c (child patch) -> (height c <= STB_JSON_CIRCULAR_LIMIT)%nat).
    { intros c Hc. pose proof (height_child patch c Hc). lia. }
    assert (Ht : exists t, merge_patch_target target = Some t).
    { unfold merge_patch_target. destruct (negb (stb_json_isobject target)) eqn:E; [eauto |].
      destruct target; [eauto | discriminate]. }
    destruct Ht as [t ->]. clear Hh.
    revert t. induction (child patch) as [| m ms IHms]; intros t; [simpl; eauto |].
    apply Forall_cons in IH as [IHm IH].
    assert (Hms : forall c, In c ms -> (height c <= STB_JSON_CIRCULAR_LIMIT)%nat).
    { intros c Hc. apply Hl. right. exact Hc. }
    specialize (IHms IH Hms).
    cbn [merge_patch_members].
    unfold stb_json_deleteitemfromobjectcasesensitive, stb_json_deleteitemfromobject,
      stb_json_detachitemfromobjectcasesensitive, stb_json_detachitemfromobject.
    destruct (detach_keeps_object t (get_object_item (Some t) (string m) true))
      as (rm1 & t1 & E1).
    destruct (detach_keeps_object t (get_object_item (Some t) (string m) false))
      as (rm2 & t2 & E2).
    rewrite E1, E2. cbn [snd].
    destruct (stb_json_isnull (Some m)).
    + destruct cs; apply IHms.
    + assert (Hstep : forall rm t',
                exists r, match merge_patch_node rm m cs with
                          | Some replacement =>
                              merge_patch_members
                                (fun replace_me patch_child =>
                                   merge_patch_node replace_me patch_child cs)
                                cs ms
                                (snd (stb_json_additemtoobject (Some t') (string m)
                                        (Some replacement)))
                          | None => None
                          end = Some r).
      { intros rm t'. destruct (IHm rm) as [r Hr]; [apply Hl; left; reflexivity |].
        rewrite Hr. destruct (add_keeps_object t' (string m) (Some r)) as [t'' ->].
        apply IHms. }
      destruct cs; apply Hstep.
Qed.

Lemma merge_patch_node_eq (cs : bool) (target : option stb_json) (patch : stb_json) :
  merge_patch_node target patch cs
  = if negb (stb_json_isobject (Some patch))
    then stb_json_duplicate (Some patch) true
    else merge_patch_members
           (fun replace_me patch_child => merge_patch_node replace_me patch_child cs)
           cs (child patch) (merge_patch_target target).
Proof. destruct patch; reflexivity. Qed.

Lemma object_item_eq (cs : bool) (o : stb_json) (k : list ascii) :
  object_item cs (Some o) (Some k) = item_of cs (child o) k.
Proof.
  unfold object_item, stb_json_getobjectitemcasesensitive, stb_json_getobjectitem,
    item_of, get_object_item, child_at.
  destruct cs; destruct (get_object_item_index (child o) k _); reflexivity.
Qed.



(** * Printing numbers *)

(** ** Rounding keeps the sign of a product *)

Lemma shr_1_nonneg (mrs : shr_record) : 0 <= shr_m mrs -> 0 <= shr_m (shr_1 mrs).
Proof.
  destruct mrs as [m r s]. destruct m as [| p | p]; simpl; intros H; try lia;
    destruct p; simpl; lia.
Qed.

Lemma iter_pos_shr_1_nonneg (p : positive) :
  forall mrs, 0 <= shr_m mrs -> 0 <= shr_m (SpecFloat.iter_pos shr_1 p mrs).
Proof.
  induction p as [p IH | p IH |]; intros mrs H; simpl.
  - apply IH, IH, shr_1_nonneg, H.
  - apply IH, IH, H.
  - apply shr_1_nonneg, H.
Qed.

Lemma shr_fexp_nonneg (prec emax m e : Z) (l : location) :
  0 <= m -> 0 <= shr_m (fst (shr_fexp prec emax m e l)).
Proof.
  intros H. unfold shr_fexp, shr.
  assert (H0 : 0 <= shr_m (shr_record_of_loc m l)).
  { destruct l as [| []]; exact H. }
  destruct (_ - e) as [| p | p]; simpl; auto using iter_pos_shr_1_nonneg.
Qed.

Lemma round_nearest_even_nonneg (mx : Z) (lx : location) :
  0 <= mx -> 0 <= round_nearest_even mx lx.
Proof.
  intros H. destruct lx as [| []]; simpl; try lia. destruct (Z.even mx); lia.
Qed.

(** A rounded non-negative mantissa under the sign plus is not below zero. *)
Lemma binary_round_aux_nonneg (prec emax mx ex : Z) (lx : location) :
  0 <= mx ->
  SFleb (S754_zero false) (binary_round_aux prec emax false mx ex lx) = true.
Proof.
  intros H. unfold binary_round_aux.
  pose proof (shr_fexp_nonneg prec emax mx ex lx H) as H1.
  destruct (shr_fexp prec emax mx ex lx) as [mrs' e']. simpl in H1.
  pose proof (shr_fexp_nonneg prec emax _ e' loc_Exact
                (round_nearest_even_nonneg _ (loc_of_shr_record mrs') H1)) as H2.
  destruct (shr_fexp prec emax _ e' loc_Exact) as [mrs'' e'']. simpl in H2.
  destruct (shr_m mrs'') as [| p | p]; [reflexivity | | lia].
  destruct (e'' <=? emax - prec); reflexivity.
Qed.

(** ** [compare_double] on equal doubles *)

Lemma compare_double_refl (d : double) :
  isnan d || isinf d = false -> compare_double d d = true.
Proof.
  destruct d as [s | s | | s m e]; try discriminate; intros _.
  - destruct s; reflexivity.
  - unfold compare_double, fabs, d_ltb, d_sub, d_mul, d_leb, SFabs.
    assert (Hlt : SFltb (S754_finite false m e) (S754_finite false m e) = false).
    { unfold SFltb, SFcompare. rewrite Z.compare_refl, Pos.compare_cont_refl. reflexivity. }
    rewrite Hlt.
    assert (Hsub : SFsub 53 1024 (S754_finite s m e) (S754_finite s m e) = S754_zero false).
    { unfold SFsub. cbv zeta. rewrite Z.sub_diag. reflexivity. }
    rewrite Hsub. unfold DBL_EPSILON, SFmul. cbn [xorb].
    apply binary_round_aux_nonneg. lia.
Qed.

(** What [==] on doubles says of a finite double: the other one is the
    same double, or both are zeros. *)
Lemma d_eqb_finite (a b : double) :
  isnan a || isinf a = false -> d_eqb a b = true ->
  a = b \/ exists s1 s2, a = S754_zero s1 /\ b = S754_zero s2.
Proof.
  unfold d_eqb, SFeqb.
  destruct a as [s1 | s1 | | s1 m1 e1]; try discriminate; intros _;
    destruct b as [s2 | s2 | | s2 m2 e2]; simpl;
    try discriminate; try (destruct s1; discriminate); try (destruct s2; discriminate).
  - right. eauto.
  - left. destruct s1, s2; try discriminate;
      destruct (Z.compare_spec e1 e2) as [-> | |]; try discriminate;
      destruct (Pos.compare_cont Eq m1 m2) eqn:E; try discriminate;
      apply Pos.compare_eq in E; subst; reflexivity.
Qed.

Lemma compare_double_eqb (a b : double) :
  isnan b || isinf b = false -> d_eqb b a = true -> compare_double a b = true.
Proof.
  intros Hb Heq. destruct (d_eqb_finite b a Hb Heq) as [<- | (s1 & s2 & -> & ->)].
  - apply compare_double_refl, Hb.
  - destruct s1, s2; reflexivity.
Qed.

(** C2, refuted as stated: the sum of one tenth and two tenths, the double
    next above three tenths, is printed with 15 digits as 0.3, because the
    re-read value is accepted by [compare_double], which allows a relative
    difference of [DBL_EPSILON]; the text 0.3 reads back, by [sscanf] and
    by [parse_number] alike, as the double three tenths, which is another
    double. *)
Lemma printed_number_reads_back_different :
  print_number sprintf_g_ref sscanf_lg_ref (stb_json_createnumber sum_of_tenths)
  = Some (lit "0.3") /\
  sscanf_lg_ref (lit "0.3") = Some three_tenths /\
  (exists r b, parse_number pow10_ref stb_json_new_item (buffer_of (lit "0.3")) = Done (r, b)
               /\ valuedouble r = three_tenths) /\
  compare_double three_tenths sum_of_tenths = true /\
  d_eqb three_tenths sum_of_tenths = false /\
  three_tenths <> sum_of_tenths.
Proof.
  split; [vm_compute; reflexivity |].
  split; [vm_compute; reflexivity |].
  split; [do 2 eexists; split; vm_compute; reflexivity |].
  split; [vm_compute; reflexivity |].
  split; [vm_compute; reflexivity | discriminate].
Qed.

(** C2, amended: a NaN or an infinity is printed as null; a double equal
    to the integer projection as that integer; any other double with 15
    digits when the text reads back as a double that [compare_double]
    accepts, and with 17 digits otherwise. Where the C library reads the
    integer and the 17 digits back exactly, the printed text of a finite
    double reads back as a double that [compare_double] accepts: equal up
    to a relative difference of [DBL_EPSILON], not necessarily the same
    double. *)
Theorem print_number_reads_back
    (sprintf_g : nat -> double -> list ascii) (sscanf_lg : list ascii -> option double)
    (item : stb_json)
    (Hint : sscanf_lg (sprintf_d (valueint item)) = Some (double_of_int (valueint item)))
    (H17 : sscanf_lg (sprintf_g 17%nat (valuedouble item)) = Some (valuedouble item)) :
  let d := valuedouble item in
  let text := number_text sprintf_g sscanf_lg item in
  ((length text <= 25)%nat -> print_number sprintf_g sscanf_lg item = Some text) /\
  (isnan d || isinf d = true -> text = lit "null") /\
  (isnan d || isinf d = false ->
   (d_eqb d (double_of_int (valueint item)) = true -> text = sprintf_d (valueint item)) /\
   (d_eqb d (double_of_int (valueint item)) = false ->
    (text = sprintf_g 15%nat d /\
     exists test, sscanf_lg (sprintf_g 15%nat d) = Some test /\ compare_double test d = true) \/
    (text = sprintf_g 17%nat d /\
     forall test, sscanf_lg (sprintf_g 15%nat d) = Some test -> compare_double test d = false)) /\
   exists test, sscanf_lg text = Some test /\ compare_double test d = true).
Proof.
  intros d text. subst text. unfold print_number, number_text. fold d. cbv zeta.
  split; [| split].
  - intros Hlen. apply Nat.ltb_ge in Hlen. rewrite Hlen. reflexivity.
  - intros ->. reflexivity.
  - intros Hfin. rewrite Hfin.
    destruct (d_eqb d (double_of_int (valueint item))) eqn:Heq.
    + split; [reflexivity |]. split; [discriminate |].
      exists (double_of_int (valueint item)). split; [exact Hint |].
      apply compare_double_eqb; assumption.
    + split; [discriminate |].
      destruct (sscanf_lg (sprintf_g 15%nat d)) as [test |] eqn:Hscan.
      * destruct (compare_double test d) eqn:Hcmp.
        -- split; [intros _; left; split; [reflexivity | eauto] | eauto].
        -- split.
           ++ intros _. right. split; [reflexivity |].
              intros test' Ht. injection Ht as <-. exact Hcmp.
           ++ exists d. split; [exact H17 | apply compare_double_refl, Hfin].
      * split.
        -- intros _. right. split; [reflexivity | discriminate].
        -- exists d. split; [exact H17 | apply compare_double_refl, Hfin].
Qed.

Lemma print_number_reads_back_witness :
  exists test,
    sscanf_lg_ref
      (number_text sprintf_g_ref sscanf_lg_ref (stb_json_createnumber sum_of_tenths))
    = Some test /\
    compare_double test sum_of_tenths = true.
Proof.
  apply (print_number_reads_back sprintf_g_ref sscanf_lg_ref
           (stb_json_createnumber sum_of_tenths)).
  - vm_compute. reflexivity.
  - vm_compute. reflexivity.
  - vm_compute. reflexivity.
Defined.

(** * Printing a tree and parsing the text *)

(** ** The cursor over a text *)

Lemma skipn_cons_inv {A} (l : list A) (n : nat) (x : A) (s : list A) :
  skipn n l = x :: s ->
  nth_error l n = Some x /\ (n < length l)%nat /\ skipn (S n) l = s.
Proof.
  revert n. induction l as [| y l IH]; intros [| n] H; simpl in *; try discriminate.
  - injection H as -> ->. split; [reflexivity |]. split; [lia | destruct s; reflexivity].
  - destruct (IH n H) as (H1 & H2 & H3). split; [exact H1 |]. split; [lia | exact H3].
Qed.

Lemma skipn_text {A} (l t s : list A) (n : nat) :
  skipn n l = t ++ s -> skipn (n + length t) l = s.
Proof.
  intros H. rewrite Nat.add_comm, <- skipn_skipn, H. apply drop_app_length.
Qed.

Lemma skipn_text_length {A} (l t s : list A) (n : nat) :
  skipn n l = t ++ s -> t <> [] -> (n + length t <= length l)%nat.
Proof.
  intros H Ht. assert (Hl : length (skipn n l) = (length t + length s)%nat).
  { rewrite H. apply length_app. }
  rewrite length_skipn in Hl. destruct t; [contradiction |]. simpl in *. lia.
Qed.

Section Cursor.
Variables (c : list ascii) (o d : nat).

Lemma cursor_at (x : ascii) (s : list ascii) :
  skipn o c = x :: s ->
  can_access_at_index (mk_parse_buffer c o d) 0 = true /\
  cannot_access_at_index (mk_parse_buffer c o d) 0 = false /\
  buffer_at_offset (mk_parse_buffer c o d) 0 = Some x /\
  forall y, at_is (mk_parse_buffer c o d) 0 y = Ascii.eqb x y.
Proof.
  intros H. destruct (skipn_cons_inv _ _ _ _ H) as (H1 & H2 & _).
  assert (Hc : can_access_at_index (mk_parse_buffer c o d) 0 = true).
  { unfold can_access_at_index. cbn [offset content]. apply Nat.ltb_lt. lia. }
  assert (Hb : buffer_at_offset (mk_parse_buffer c o d) 0 = Some x).
  { unfold buffer_at_offset. cbn [offset content]. rewrite Nat.add_0_r. exact H1. }
  repeat split; auto.
  - unfold cannot_access_at_index. rewrite Hc. reflexivity.
  - intros y. unfold at_is. rewrite Hc, Hb. reflexivity.
Qed.

Lemma starts_with_other (x y : ascii) (s l : list ascii) :
  skipn o c = x :: s -> Ascii.eqb y x = false ->
  starts_with (mk_parse_buffer c o d) (y :: l) = false.
Proof.
  intros H Hne. unfold starts_with. cbn [offset content]. rewrite H. simpl.
  rewrite Hne. apply andb_false_r.
Qed.

Lemma prefix_eqb_app (t s : list ascii) : prefix_eqb t (t ++ s) = true.
Proof.
  induction t as [| x t IH]; [reflexivity |]. simpl. rewrite Ascii.eqb_refl. exact IH.
Qed.

Lemma starts_with_text (t s : list ascii) :
  skipn o c = t ++ s -> t <> [] -> starts_with (mk_parse_buffer c o d) t = true.
Proof.
  intros H Ht. unfold starts_with, can_read. cbn [offset content].
  rewrite H, prefix_eqb_app, andb_true_r. apply Nat.leb_le.
  eapply skipn_text_length; eauto.
Qed.

Lemma whitespace_run_app (w : list ascii) (x : ascii) (s : list ascii) :
  whitespace w = true -> (code x <=? 32) = false ->
  whitespace_run (w ++ x :: s) = length w.
Proof.
  intros Hw Hx. induction w as [| y w IH]; simpl.
  - rewrite Hx. reflexivity.
  - simpl in Hw. apply andb_true_iff in Hw as [Hy Hw]. rewrite Hy, (IH Hw). reflexivity.
Qed.

Lemma skip_whitespace_text (w : list ascii) (x : ascii) (s : list ascii) :
  skipn o c = w ++ x :: s -> whitespace w = true -> (code x <=? 32) = false ->
  buffer_skip_whitespace (mk_parse_buffer c o d) = mk_parse_buffer c (o + length w) d.
Proof.
  intros H Hw Hx. unfold buffer_skip_whitespace. cbn [offset content].
  rewrite H, (whitespace_run_app _ _ _ Hw Hx).
  pose proof (skipn_text _ _ _ _ H) as H'.
  destruct (skipn_cons_inv _ _ _ _ H') as (_ & Hlt & _).
  replace (Nat.eqb (o + length w) (length c)) with false; [reflexivity |].
  symmetry. apply Nat.eqb_neq. lia.
Qed.

Lemma skip_whitespace_none (x : ascii) (s : list ascii) :
  skipn o c = x :: s -> (code x <=? 32) = false ->
  buffer_skip_whitespace (mk_parse_buffer c o d) = mk_parse_buffer c o d.
Proof.
  intros H Hx. rewrite (skip_whitespace_text [] x s H eq_refl Hx).
  simpl. rewrite Nat.add_0_r. reflexivity.
Qed.

End Cursor.

(** ** Strings *)

(** One byte of a C string, escaped by [print_string_ptr], is read back by
    the string parser as that byte. *)
Lemma string_body_escape_char (x : ascii) (fuel : nat) (l : list ascii)
    (r : list ascii * nat) :
  code x <> 0 ->
  string_body fuel l = Some r ->
  string_body (S fuel) (escape_char x ++ l)
  = Some (x :: fst r, (length (escape_char x) + snd r)%nat).
Proof.
  intros Hx H. destruct r as [s n].
  destruct x as [b0 b1 b2 b3 b4 b5 b6 b7].
  destruct b0, b1, b2, b3, b4, b5, b6, b7;
    try (exfalso; apply Hx; reflexivity);
    simpl; change (drop 0 l) with l; rewrite H; reflexivity.
Qed.

Lemma length_escape_char (x : ascii) : (1 <= length (escape_char x))%nat.
Proof.
  unfold escape_char. destruct (_ && _); simpl; lia.
Qed.

Lemma string_body_escaped (s : list ascii) :
  c_string s = true ->
  forall (fuel : nat) (rest : list ascii),
  (length (flat_map escape_char s) < fuel)%nat ->
  string_body fuel (flat_map escape_char s ++ dquote :: rest)
  = Some (s, S (length (flat_map escape_char s))).
Proof.
  induction s as [| x s IH]; intros Hs fuel rest Hfuel.
  - destruct fuel as [| fuel]; [simpl in Hfuel; lia |]. reflexivity.
  - simpl in Hs. apply andb_true_iff in Hs as [Hx Hs].
    cbn [flat_map] in *. rewrite length_app in Hfuel.
    pose proof (length_escape_char x) as Hlen.
    destruct fuel as [| fuel]; [lia |].
    rewrite <- app_assoc.
    rewrite (string_body_escape_char x fuel _ (s, S (length (flat_map escape_char s)))).
    + cbn [fst snd]. rewrite length_app. f_equal. f_equal. lia.
    + apply negb_true_iff, Z.eqb_neq in Hx. exact Hx.
    + apply IH; [exact Hs | lia].
Qed.

(** The string parser on the text [print_string_ptr] writes for a C
    string. *)
Lemma parse_string_printed (s : list ascii) (item : stb_json)
    (c : list ascii) (o d : nat) (rest : list ascii) :
  c_string s = true ->
  skipn o c = print_string_ptr (Some s) ++ rest ->
  parse_string item (mk_parse_buffer c o d)
  = Done (set_valuestring (set_type item STB_JSON_STRING) (Some s),
          mk_parse_buffer c (o + length (print_string_ptr (Some s))) d).
Proof.
  intros Hs H. unfold print_string_ptr in *.
  rewrite <- app_comm_cons in H.
  destruct (cursor_at c o d _ _ H) as (_ & _ & _ & Hat).
  destruct (skipn_cons_inv _ _ _ _ H) as (_ & _ & Hbody).
  unfold parse_string. rewrite Hat, Ascii.eqb_refl. cbn [negb offset content].
  rewrite Hbody, <- app_assoc. cbn [app].
  rewrite string_body_escaped; [| exact Hs |].
  - unfold set_offset. cbn [offset content depth length].
    rewrite length_app. cbn [length]. do 3 f_equal. lia.
  - rewrite length_app. cbn [length]. lia.
Qed.

(** ** Numbers *)

Lemma number_c_string_text (t s : list ascii) :
  forallb is_number_char t = true -> number_end s = true ->
  number_c_string (t ++ s) = t.
Proof.
  intros Ht Hs. induction t as [| x t IH]; cbn [app number_c_string].
  - destruct s as [| y s]; [reflexivity |]. cbn [number_end] in Hs.
    apply negb_true_iff in Hs. cbn [number_c_string]. rewrite Hs. reflexivity.
  - cbn [forallb] in Ht. apply andb_true_iff in Ht as [Hx Ht].
    rewrite Hx, (IH Ht). reflexivity.
Qed.

Section RoundTrip.
Variable pow10 : Z -> double.
Variable sprintf_g : nat -> double -> list ascii.
Variable sscanf_lg : list ascii -> option double.
Variable limit : nat.
Variable format : bool.

(** The number parser on the printed text of a number that reads back. *)
Lemma parse_number_printed (v item : stb_json) (c : list ascii) (o d : nat)
    (s : list ascii) :
  number_reads_back pow10 sprintf_g sscanf_lg v = true ->
  exists (x : ascii) (t : list ascii),
    print_number sprintf_g sscanf_lg v = Some (x :: t) /\
    (Ascii.eqb x "-" || is_digit x) = true /\
    (skipn o c = (x :: t) ++ s -> number_end s = true ->
     exists number,
       parse_number pow10 item (mk_parse_buffer c o d)
       = Done (set_type (set_valueint (set_valuedouble item number) (saturate number))
                 STB_JSON_NUMBER,
               mk_parse_buffer c (o + length (x :: t)) d) /\
       compare_double number (valuedouble v) = true).
Proof.
  unfold number_reads_back.
  destruct (print_number sprintf_g sscanf_lg v) as [[| x t] |]; try discriminate.
  intros H. apply andb_true_iff in H as [H Hread]. apply andb_true_iff in H as [Hx Hchars].
  exists x, t. split; [reflexivity |]. split; [exact Hx |].
  intros Hskip Hend. unfold parse_number. cbn [offset content].
  rewrite Hskip, (number_c_string_text _ _ Hchars Hend).
  destruct (stb_json_strtod pow10 (x :: t)) as [number after_end].
  apply andb_true_iff in Hread as [Hlen Hcmp]. apply Nat.eqb_eq in Hlen. subst after_end.
  exists number. split; [reflexivity | exact Hcmp].
Qed.

(** ** The seven kinds *)

Lemma print_value_eq (v : stb_json) (print_depth : nat) :
  print_value sprintf_g sscanf_lg v format print_depth =
  if kind v =? STB_JSON_NULL then Some (lit "null")
  else if kind v =? STB_JSON_FALSE then Some (lit "false")
  else if kind v =? STB_JSON_TRUE then Some (lit "true")
  else if kind v =? STB_JSON_NUMBER then print_number sprintf_g sscanf_lg v
  else if kind v =? STB_JSON_RAW then valuestring v
  else if kind v =? STB_JSON_STRING then Some (print_string v)
  else if kind v =? STB_JSON_ARRAY then
    match
      print_array_elements
        (fun c => print_value sprintf_g sscanf_lg c format (S print_depth)) format (child v)
    with
    | None => None
    | Some body => Some ("["%char :: body ++ ["]"%char])
    end
  else if kind v =? STB_JSON_OBJECT then
    match
      print_object_members
        (fun c => print_value sprintf_g sscanf_lg c format (S print_depth)) format
        (S print_depth) (child v)
    with
    | None => None
    | Some body =>
        Some ("{"%char :: (if format then [ascii_of_nat 10] else [])
              ++ body ++ (if format then tabs print_depth else []) ++ ["}"%char])
    end
  else None.
Proof. destruct v; reflexivity. Qed.

Lemma json_value_cases (v : stb_json) :
  json_value pow10 sprintf_g sscanf_lg v = true ->
  kind v = STB_JSON_NULL \/ kind v = STB_JSON_FALSE \/ kind v = STB_JSON_TRUE \/
  (kind v = STB_JSON_NUMBER /\ number_reads_back pow10 sprintf_g sscanf_lg v = true) \/
  (kind v = STB_JSON_STRING /\ exists s, valuestring v = Some s /\ c_string s = true) \/
  (kind v = STB_JSON_ARRAY /\
   forallb (json_value pow10 sprintf_g sscanf_lg) (child v) = true) \/
  (kind v = STB_JSON_OBJECT /\
   forallb (fun m => match string m with Some k => c_string k | None => false end
                     && json_value pow10 sprintf_g sscanf_lg m) (child v) = true).
Proof.
  assert (Heq : json_value pow10 sprintf_g sscanf_lg v =
    if (kind v =? STB_JSON_NULL) || (kind v =? STB_JSON_FALSE) || (kind v =? STB_JSON_TRUE)
    then true
    else if kind v =? STB_JSON_NUMBER then number_reads_back pow10 sprintf_g sscanf_lg v
    else if kind v =? STB_JSON_STRING then
      match valuestring v with Some s => c_string s | None => false end
    else if kind v =? STB_JSON_ARRAY then
      forallb (json_value pow10 sprintf_g sscanf_lg) (child v)
    else if kind v =? STB_JSON_OBJECT then
      forallb (fun m => match string m with Some k => c_string k | None => false end
                        && json_value pow10 sprintf_g sscanf_lg m) (child v)
    else false).
  { destruct v; reflexivity. }
  rewrite Heq. clear Heq.
  destruct (kind v =? STB_JSON_NULL) eqn:E1; [apply Z.eqb_eq in E1; auto |].
  destruct (kind v =? STB_JSON_FALSE) eqn:E2; [apply Z.eqb_eq in E2; auto |].
  destruct (kind v =? STB_JSON_TRUE) eqn:E3; [apply Z.eqb_eq in E3; auto |].
  cbn [orb].
  destruct (kind v =? STB_JSON_NUMBER) eqn:E4; [apply Z.eqb_eq in E4; auto 10 |].
  destruct (kind v =? STB_JSON_STRING) eqn:E5.
  { apply Z.eqb_eq in E5. intros H. do 4 right. left. split; [exact E5 |].
    destruct (valuestring v) as [s |]; [eauto | discriminate]. }
  destruct (kind v =? STB_JSON_ARRAY) eqn:E6; [apply Z.eqb_eq in E6; auto 10 |].
  destruct (kind v =? STB_JSON_OBJECT) eqn:E7; [apply Z.eqb_eq in E7; auto 10 |].
  discriminate.
Qed.

Ltac other_kind Hk :=
  let H := fresh in
  intros H; rewrite Hk in H; try destruct H as [H | H]; vm_compute in H; discriminate H.

Lemma number_start_code (x : ascii) :
  (Ascii.eqb x "-" || is_digit x) = true -> (code x <=? 32) = false.
Proof.
  intros H. apply orb_true_iff in H as [H | H].
  - apply Ascii.eqb_eq in H. subst x. reflexivity.
  - unfold is_digit in H. apply andb_true_iff in H as [H _].
    apply Z.leb_le in H. apply Z.leb_gt. lia.
Qed.

Lemma number_start_other (x y : ascii) :
  (Ascii.eqb x "-" || is_digit x) = true ->
  (Ascii.eqb y "-" || is_digit y) = false ->
  Ascii.eqb y x = false /\ Ascii.eqb x y = false.
Proof.
  intros Hx Hy. split; apply Ascii.eqb_neq; intros ->; congruence.
Qed.

Lemma parses_back_null (v : stb_json) :
  kind v = STB_JSON_NULL -> parses_back pow10 sprintf_g sscanf_lg limit format v.
Proof.
  intros Hk pd t Ht fuel item c o d s Hfuel Hskip _ _.
  rewrite print_value_eq, Hk in Ht. injection Ht as <-.
  destruct fuel as [| fuel]; [simpl in Hfuel; lia |].
  rewrite parse_value_eq.
  rewrite (starts_with_text c o d (lit "null") s Hskip); [| discriminate].
  eexists. split; [reflexivity |]. split; [| reflexivity].
  apply reads_as_node; [rewrite Hk; reflexivity | other_kind Hk ..].
Qed.

Lemma parses_back_false (v : stb_json) :
  kind v = STB_JSON_FALSE -> parses_back pow10 sprintf_g sscanf_lg limit format v.
Proof.
  intros Hk pd t Ht fuel item c o d s Hfuel Hskip _ _.
  rewrite print_value_eq, Hk in Ht. injection Ht as <-.
  destruct fuel as [| fuel]; [simpl in Hfuel; lia |].
  rewrite parse_value_eq.
  change (lit "null") with ("n"%char :: lit "ull").
  rewrite (starts_with_other c o d "f" "n" _ _ Hskip eq_refl).
  rewrite (starts_with_text c o d (lit "false") s Hskip); [| discriminate].
  eexists. split; [reflexivity |]. split; [| reflexivity].
  apply reads_as_node; [rewrite Hk; reflexivity | other_kind Hk ..].
Qed.

Lemma parses_back_true (v : stb_json) :
  kind v = STB_JSON_TRUE -> parses_back pow10 sprintf_g sscanf_lg limit format v.
Proof.
  intros Hk pd t Ht fuel item c o d s Hfuel Hskip _ _.
  rewrite print_value_eq, Hk in Ht. injection Ht as <-.
  destruct fuel as [| fuel]; [simpl in Hfuel; lia |].
  rewrite parse_value_eq.
  change (lit "null") with ("n"%char :: lit "ull").
  rewrite (starts_with_other c o d "t" "n" _ _ Hskip eq_refl).
  change (lit "false") with ("f"%char :: lit "alse").
  rewrite (starts_with_other c o d "t" "f" _ _ Hskip eq_refl).
  rewrite (starts_with_text c o d (lit "true") s Hskip); [| discriminate].
  eexists. split; [reflexivity |]. split; [| reflexivity].
  apply reads_as_node; [rewrite Hk; reflexivity | other_kind Hk ..].
Qed.

Lemma parses_back_string (v : stb_json) (str : list ascii) :
  kind v = STB_JSON_STRING -> valuestring v = Some str -> c_string str = true ->
  parses_back pow10 sprintf_g sscanf_lg limit format v.
Proof.
  intros Hk Hv Hstr pd t Ht fuel item c o d s Hfuel Hskip _ _.
  rewrite print_value_eq, Hk in Ht. injection Ht as <-.
  unfold print_string in *. rewrite Hv in *.
  destruct fuel as [| fuel]; [simpl in Hfuel; lia |].
  rewrite parse_value_eq.
  assert (Hhead : skipn o c = dquote :: (flat_map escape_char str ++ [dquote]) ++ s).
  { exact Hskip. }
  change (lit "null") with ("n"%char :: lit "ull").
  rewrite (starts_with_other c o d dquote "n" _ _ Hhead eq_refl).
  change (lit "false") with ("f"%char :: lit "alse").
  rewrite (starts_with_other c o d dquote "f" _ _ Hhead eq_refl).
  change (lit "true") with ("t"%char :: lit "rue").
  rewrite (starts_with_other c o d dquote "t" _ _ Hhead eq_refl).
  destruct (cursor_at c o d _ _ Hhead) as (_ & _ & _ & Hat).
  rewrite Hat, Ascii.eqb_refl.
  rewrite (parse_string_printed str item c o d s Hstr Hskip).
  eexists. split; [reflexivity |]. split; [| reflexivity].
  apply reads_as_node; [rewrite Hk; reflexivity | other_kind Hk | | other_kind Hk ..].
  intros _. exists str. split; [exact Hv | reflexivity].
Qed.

Lemma parses_back_number (v : stb_json) :
  kind v = STB_JSON_NUMBER -> number_reads_back pow10 sprintf_g sscanf_lg v = true ->
  parses_back pow10 sprintf_g sscanf_lg limit format v.
Proof.
  intros Hk Hv pd t Ht fuel item c o d s Hfuel Hskip Hend _.
  rewrite print_value_eq, Hk in Ht.
  change (print_number sprintf_g sscanf_lg v = Some t) in Ht.
  destruct (parse_number_printed v item c o d s Hv) as (x & t' & Hp & Hx & Hparse).
  rewrite Hp in Ht. injection Ht as <-.
  destruct (Hparse Hskip Hend) as (number & Hnum & Hcmp).
  destruct fuel as [| fuel]; [simpl in Hfuel; lia |].
  rewrite parse_value_eq.
  assert (Hhead : skipn o c = x :: t' ++ s) by exact Hskip.
  destruct (number_start_other x "n" Hx eq_refl) as [Hn _].
  destruct (number_start_other x "f" Hx eq_refl) as [Hf _].
  destruct (number_start_other x "t" Hx eq_refl) as [Ht _].
  destruct (number_start_other x dquote Hx eq_refl) as [_ Hq].
  change (lit "null") with ("n"%char :: lit "ull").
  rewrite (starts_with_other c o d x "n" _ _ Hhead Hn).
  change (lit "false") with ("f"%char :: lit "alse").
  rewrite (starts_with_other c o d x "f" _ _ Hhead Hf).
  change (lit "true") with ("t"%char :: lit "rue").
  rewrite (starts_with_other c o d x "t" _ _ Hhead Ht).
  destruct (cursor_at c o d _ _ Hhead) as (Hcan & _ & Hbuf & Hat).
  rewrite Hat, Hq, Hcan, Hbuf, Hx. cbn [andb].
  rewrite Hnum.
  eexists. split; [reflexivity |]. split; [| reflexivity].
  apply reads_as_node; [rewrite Hk; reflexivity | | other_kind Hk ..].
  intros _. exact Hcmp.
Qed.

(** The first byte of a printed value is no whitespace and no closing
    bracket. *)
Lemma printed_start (v : stb_json) (print_depth : nat) (t : list ascii) :
  json_value pow10 sprintf_g sscanf_lg v = true ->
  print_value sprintf_g sscanf_lg v format print_depth = Some t ->
  exists x t', t = x :: t' /\ (code x <=? 32) = false /\ Ascii.eqb x "]" = false.
Proof.
  intros Hv Ht. rewrite print_value_eq in Ht.
  destruct (json_value_cases v Hv)
    as [Hk | [Hk | [Hk | [[Hk Hn] | [[Hk Hs] | [[Hk Hl] | [Hk Hl]]]]]]];
    rewrite Hk in Ht.
  - injection Ht as <-. do 2 eexists. split; [reflexivity |]. split; reflexivity.
  - injection Ht as <-. do 2 eexists. split; [reflexivity |]. split; reflexivity.
  - injection Ht as <-. do 2 eexists. split; [reflexivity |]. split; reflexivity.
  - change (print_number sprintf_g sscanf_lg v = Some t) in Ht.
    destruct (parse_number_printed v v [] O O [] Hn) as (x & t' & Hp & Hx & _).
    rewrite Hp in Ht. injection Ht as <-. exists x, t'. split; [reflexivity |].
    split; [apply number_start_code, Hx |].
    apply (number_start_other x "]" Hx eq_refl).
  - injection Ht as <-. unfold print_string, print_string_ptr.
    destruct (valuestring v); do 2 eexists; (split; [reflexivity |]); split; reflexivity.
  - cbn [Z.eqb STB_JSON_ARRAY STB_JSON_NULL STB_JSON_FALSE STB_JSON_TRUE STB_JSON_NUMBER
         STB_JSON_RAW STB_JSON_STRING Pos.eqb] in Ht.
    destruct (print_array_elements _ _ _) as [body |]; [| discriminate].
    injection Ht as <-. do 2 eexists. split; [reflexivity |]. split; reflexivity.
  - cbn [Z.eqb STB_JSON_ARRAY STB_JSON_NULL STB_JSON_FALSE STB_JSON_TRUE STB_JSON_NUMBER
         STB_JSON_RAW STB_JSON_STRING STB_JSON_OBJECT Pos.eqb] in Ht.
    destruct (print_object_members _ _ _ _) as [body |]; [| discriminate].
    injection Ht as <-. do 2 eexists. split; [reflexivity |]. split; reflexivity.
Qed.

Lemma length_printed (v : stb_json) (print_depth : nat) (t : list ascii) :
  json_value pow10 sprintf_g sscanf_lg v = true ->
  print_value sprintf_g sscanf_lg v format print_depth = Some t ->
  (1 <= length t)%nat.
Proof.
  intros Hv Ht. destruct (printed_start v print_depth t Hv Ht) as (x & t' & -> & _).
  simpl. lia.
Qed.

(** ** Arrays *)

Lemma parse_array_loop_printed (l : list stb_json) :
  Forall (fun x => json_value pow10 sprintf_g sscanf_lg x = true ->
                   parses_back pow10 sprintf_g sscanf_lg limit format x) l ->
  forallb (json_value pow10 sprintf_g sscanf_lg) l = true ->
  l <> [] ->
  forall (print_depth : nat) (body : list ascii),
    print_array_elements (fun x => print_value sprintf_g sscanf_lg x format print_depth)
      format l = Some body ->
    forall (fuel : nat) (c : list ascii) (o d : nat) (w s : list ascii),
      (S (length body) <= fuel)%nat ->
      skipn (o + 1) c = w ++ body ++ "]"%char :: s ->
      whitespace w = true ->
      (d + max_nesting l <= limit)%nat ->
      exists rs : list stb_json,
        parse_array_loop pow10 limit parse_string fuel (mk_parse_buffer c o d)
        = Done (rs, mk_parse_buffer c (o + 1 + length w + length body) d) /\
        Forall2 reads_as l rs.
Proof.
  induction l as [| x next IH];
    intros HP Hwf Hne pd body Hbody fuel c o d w s Hfuel Hskip Hw Hnest; [contradiction |].
  apply Forall_cons in HP as [Px HP].
  cbn [forallb] in Hwf. apply andb_true_iff in Hwf as [Hx Hnext].
  cbn [print_array_elements] in Hbody.
  destruct (print_value sprintf_g sscanf_lg x format pd) as [text |] eqn:Htext;
    [| discriminate].
  destruct (print_array_elements _ format next) as [more |] eqn:Hmore; [| discriminate].
  injection Hbody as <-.
  set (sep := match next with
              | [] => []
              | _ :: _ => ","%char :: (if format then [" "%char] else [])
              end) in *.
  destruct (printed_start x pd text Hx Htext) as (x0 & text' & Hshape & Hx0 & _).
  assert (Hlen : (1 <= length text)%nat) by (subst text; simpl; lia).
  destruct fuel as [| fuel]; [lia |].
  rewrite parse_array_loop_eq.
  change (set_offset (mk_parse_buffer c o d) (offset (mk_parse_buffer c o d) + 1))
    with (mk_parse_buffer c (o + 1) d).
  assert (Hskip1 : skipn (o + 1) c = w ++ x0 :: text' ++ sep ++ more ++ "]"%char :: s).
  { rewrite Hskip, Hshape. rewrite <- !app_assoc. reflexivity. }
  rewrite (skip_whitespace_text c (o + 1) d w x0 _ Hskip1 Hw Hx0).
  apply skipn_text in Hskip1.
  assert (Hskip2 : skipn (o + 1 + length w) c = text ++ sep ++ more ++ "]"%char :: s).
  { rewrite Hskip1, Hshape. reflexivity. }
  cbn [max_nesting foldr] in Hnest. fold (max_nesting next) in Hnest.
  rewrite !length_app in Hfuel.
  destruct (Px Hx pd text Htext fuel stb_json_new_item c (o + 1 + length w)%nat d
              (sep ++ more ++ "]"%char :: s)) as (r & Hparse & Hr & _).
  { lia. } { exact Hskip2. }
  { subst sep. destruct next; [| reflexivity].
    cbn [print_array_elements] in Hmore. injection Hmore as <-. reflexivity. }
  { lia. }
  rewrite Hparse. cbn [bind].
  apply skipn_text in Hskip2.
  destruct next as [| y next'].
  - cbn [print_array_elements] in Hmore. injection Hmore as <-. subst sep.
    cbn [app] in Hskip2.
    rewrite (skip_whitespace_none c _ d _ _ Hskip2 eq_refl).
    destruct (cursor_at c _ d _ _ Hskip2) as (_ & _ & _ & Hat).
    rewrite Hat. cbn [Ascii.eqb Bool.eqb].
    exists [r]. split.
    + rewrite !app_nil_r. reflexivity.
    + constructor; [exact Hr | constructor].
  - subst sep. rewrite <- app_comm_cons in Hskip2.
    rewrite (skip_whitespace_none c _ d _ _ Hskip2 eq_refl).
    destruct (cursor_at c _ d _ _ Hskip2) as (_ & _ & _ & Hat).
    rewrite Hat. cbn [Ascii.eqb Bool.eqb].
    destruct (skipn_cons_inv _ _ _ _ Hskip2) as (_ & _ & Hskip3).
    rewrite <- Nat.add_1_r in Hskip3.
    cbn [length] in Hfuel. rewrite ?length_app in Hfuel.
    destruct (IH HP Hnext ltac:(discriminate) pd more Hmore fuel c
                (o + 1 + length w + length text)%nat d
                (if format then [" "%char] else []) s) as (rs & Hloop & Hrs).
    { lia. } { exact Hskip3. } { destruct format; reflexivity. } { lia. }
    rewrite Hloop. cbn [bind].
    exists (r :: rs). split.
    + do 3 f_equal. rewrite !length_app. cbn [length]. rewrite ?length_app. lia.
    + constructor; assumption.
Qed.

(** ** Objects *)

Lemma whitespace_app (w1 w2 : list ascii) :
  whitespace w1 = true -> whitespace w2 = true -> whitespace (w1 ++ w2) = true.
Proof.
  unfold whitespace. intros H1 H2. rewrite forallb_app, H1, H2. reflexivity.
Qed.

Lemma whitespace_tabs (n : nat) : whitespace (tabs n) = true.
Proof. induction n as [| n IH]; [reflexivity |]. simpl. exact IH. Qed.

Lemma whitespace_not_number (x : ascii) :
  (code x <=? 32) = true -> is_number_char x = false.
Proof.
  intros H. apply Z.leb_le in H. unfold is_number_char, is_digit.
  assert (Hne : forall y, 32 < code y -> Ascii.eqb x y = false).
  { intros y Hy. apply Ascii.eqb_neq. intros ->. lia. }
  rewrite !Hne by (vm_compute; reflexivity).
  replace (48 <=? code x) with false by (symmetry; apply Z.leb_gt; lia).
  reflexivity.
Qed.

Lemma number_end_whitespace (w s : list ascii) (x : ascii) :
  whitespace w = true -> is_number_char x = false -> number_end (w ++ x :: s) = true.
Proof.
  intros Hw Hx. destruct w as [| y w]; cbn [app number_end].
  - rewrite Hx. reflexivity.
  - cbn [whitespace forallb] in Hw. apply andb_true_iff in Hw as [Hy _].
    rewrite (whitespace_not_number y Hy). reflexivity.
Qed.

Lemma print_object_members_tabs (print_child : stb_json -> option (list ascii))
    (tab_depth : nat) (l : list stb_json) (body : list ascii) :
  print_object_members print_child format tab_depth l = Some body -> l <> [] ->
  exists core, body = (if format then tabs tab_depth else []) ++ dquote :: core.
Proof.
  destruct l as [| m next]; [contradiction |]. intros H _.
  cbn [print_object_members] in H.
  destruct (print_child m) as [text |]; [| discriminate].
  destruct (print_object_members print_child format tab_depth next) as [more |];
    [| discriminate].
  injection H as <-. rewrite <- app_assoc.
  unfold print_string_ptr. destruct (string m); cbn [app]; eauto.
Qed.

Lemma parse_object_loop_printed (l : list stb_json) :
  Forall (fun x => json_value pow10 sprintf_g sscanf_lg x = true ->
                   parses_back pow10 sprintf_g sscanf_lg limit format x) l ->
  forallb (fun m => match string m with Some k => c_string k | None => false end
                    && json_value pow10 sprintf_g sscanf_lg m) l = true ->
  l <> [] ->
  forall (print_depth tab_depth : nat) (body core : list ascii),
    print_object_members (fun x => print_value sprintf_g sscanf_lg x format print_depth)
      format tab_depth l = Some body ->
    body = (if format then tabs tab_depth else []) ++ core ->
    forall (fuel : nat) (c : list ascii) (o d : nat) (w w_end s : list ascii),
      (S (length core) <= fuel)%nat ->
      skipn (o + 1) c = w ++ core ++ w_end ++ "}"%char :: s ->
      whitespace w = true ->
      whitespace w_end = true ->
      (d + max_nesting l <= limit)%nat ->
      exists rs : list stb_json,
        parse_object_loop pow10 limit parse_string fuel (mk_parse_buffer c o d)
        = Done (rs, mk_parse_buffer c (o + 1 + length w + length core + length w_end) d) /\
        Forall2 reads_as l rs /\
        Forall2 (fun m rm => exists k, string m = Some k /\ string rm = Some k) l rs.
Proof.
  induction l as [| m next IH];
    intros HP Hwf Hne pd td body core Hbody Hcore fuel c o d w w_end s
           Hfuel Hskip Hw Hwend Hnest; [contradiction |].
  apply Forall_cons in HP as [Pm HP].
  cbn [forallb] in Hwf. apply andb_true_iff in Hwf as [Hm Hnext].
  apply andb_true_iff in Hm as [Hkey Hm].
  destruct (string m) as [k |] eqn:Hk; [| discriminate].
  cbn [print_object_members] in Hbody.
  destruct (print_value sprintf_g sscanf_lg m format pd) as [text |] eqn:Htext;
    [| discriminate].
  destruct (print_object_members _ format td next) as [more |] eqn:Hmore; [| discriminate].
  injection Hbody as <-. rewrite Hk in Hcore.
  set (sep := match next with [] => [] | _ :: _ => [","%char] end) in *.
  set (w2 := if format then [ascii_of_nat 9] else []) in *.
  set (w3 := if format then [ascii_of_nat 10] else []) in *.
  rewrite <- !app_assoc in Hcore. apply app_inv_head in Hcore. subst core.
  assert (Hw2 : whitespace w2 = true) by (subst w2; destruct format; reflexivity).
  assert (Hw3 : whitespace w3 = true) by (subst w3; destruct format; reflexivity).
  destruct (printed_start m pd text Hm Htext) as (x0 & text' & Hshape & Hx0 & _).
  assert (Hlen : (1 <= length text)%nat) by (subst text; simpl; lia).
  destruct fuel as [| fuel]; [lia |].
  rewrite parse_object_loop_eq.
  (* the key *)
  assert (Hskip1 : skipn (o + 1) c
                   = w ++ dquote :: (flat_map escape_char k ++ [dquote])
                       ++ ":"%char :: w2 ++ text ++ sep ++ w3 ++ more
                       ++ w_end ++ "}"%char :: s).
  { rewrite Hskip. unfold print_string_ptr.
    repeat (rewrite <- app_assoc || rewrite <- app_comm_cons). reflexivity. }
  assert (Hcan : cannot_access_at_index (mk_parse_buffer c o d) 1 = false).
  { pose proof (skipn_text _ _ _ _ Hskip1) as H1.
    destruct (skipn_cons_inv _ _ _ _ H1) as (_ & Hlt & _).
    unfold cannot_access_at_index, can_access_at_index. cbn [offset content].
    apply negb_false_iff, Nat.ltb_lt. lia. }
  rewrite Hcan.
  change (set_offset (mk_parse_buffer c o d) (offset (mk_parse_buffer c o d) + 1))
    with (mk_parse_buffer c (o + 1) d).
  rewrite (skip_whitespace_text c (o + 1) d w dquote _ Hskip1 Hw eq_refl).
  apply skipn_text in Hskip1.
  rewrite (parse_string_printed k stb_json_new_item c _ d _ Hkey Hskip1).
  cbn [bind].
  apply (skipn_text c (print_string_ptr (Some k))) in Hskip1.
  (* the colon *)
  rewrite (skip_whitespace_none c _ d _ _ Hskip1 eq_refl).
  destruct (cursor_at c _ d _ _ Hskip1) as (_ & Hno & _ & Hat).
  rewrite Hno, Hat. cbn [Ascii.eqb Bool.eqb negb orb].
  destruct (skipn_cons_inv _ _ _ _ Hskip1) as (_ & _ & Hskip2).
  rewrite <- Nat.add_1_r in Hskip2.
  set (o2 := (o + 1 + length w + length (print_string_ptr (Some k)))%nat) in *.
  change (set_offset (mk_parse_buffer c o2 d) (offset (mk_parse_buffer c o2 d) + 1))
    with (mk_parse_buffer c (o2 + 1) d).
  assert (Hskip3 : skipn (o2 + 1) c
                   = w2 ++ x0 :: text' ++ sep ++ w3 ++ more ++ w_end ++ "}"%char :: s).
  { rewrite Hskip2, Hshape. reflexivity. }
  rewrite (skip_whitespace_text c (o2 + 1) d w2 x0 _ Hskip3 Hw2 Hx0).
  apply skipn_text in Hskip3.
  assert (Hskip4 : skipn (o2 + 1 + length w2) c
                   = text ++ sep ++ w3 ++ more ++ w_end ++ "}"%char :: s).
  { rewrite Hskip3, Hshape. reflexivity. }
  (* the value *)
  cbn [max_nesting foldr] in Hnest. fold (max_nesting next) in Hnest.
  rewrite !length_app in Hfuel. cbn [length] in Hfuel. rewrite !length_app in Hfuel.
  set (key_item := set_valuestring _ None).
  destruct (Pm Hm pd text Htext fuel key_item c (o2 + 1 + length w2)%nat d
              (sep ++ w3 ++ more ++ w_end ++ "}"%char :: s)) as (r & Hparse & Hr & Hstring).
  { lia. } { exact Hskip4. }
  { subst sep. destruct next.
    - cbn [print_object_members] in Hmore. injection Hmore as <-. cbn [app].
      rewrite app_assoc. apply number_end_whitespace; [| reflexivity].
      apply whitespace_app; assumption.
    - reflexivity. }
  { lia. }
  rewrite Hparse. cbn [bind].
  assert (Hrk : string r = Some k) by (rewrite Hstring; reflexivity).
  apply skipn_text in Hskip4.
  destruct next as [| y next'].
  - cbn [print_object_members] in Hmore. injection Hmore as <-. subst sep.
    cbn [app] in Hskip4. rewrite app_assoc in Hskip4.
    rewrite (skip_whitespace_text c _ d (w3 ++ w_end) "}" s Hskip4
               (whitespace_app _ _ Hw3 Hwend) eq_refl).
    apply skipn_text in Hskip4.
    destruct (cursor_at c _ d _ _ Hskip4) as (_ & _ & _ & Hat').
    rewrite Hat'. cbn [Ascii.eqb Bool.eqb].
    exists [r]. split; [| split].
    + do 3 f_equal. subst o2. rewrite !length_app. cbn [length]. rewrite !length_app.
      cbn [length]. lia.
    + constructor; [exact Hr | constructor].
    + constructor; [eauto | constructor].
  - subst sep. cbn [app] in Hskip4.
    rewrite (skip_whitespace_none c _ d _ _ Hskip4 eq_refl).
    destruct (cursor_at c _ d _ _ Hskip4) as (_ & _ & _ & Hat').
    rewrite Hat'. cbn [Ascii.eqb Bool.eqb].
    destruct (skipn_cons_inv _ _ _ _ Hskip4) as (_ & _ & Hskip5).
    rewrite <- Nat.add_1_r in Hskip5.
    destruct (print_object_members_tabs _ td (y :: next') more Hmore ltac:(discriminate))
      as [core' Hcore'].
    destruct (IH HP Hnext ltac:(discriminate) pd td more _ Hmore Hcore' fuel c
                (o2 + 1 + length w2 + length text)%nat d
                (w3 ++ (if format then tabs td else [])) w_end s) as (rs & Hloop & Hrs & Hks).
    { rewrite Hcore' in Hfuel. rewrite !length_app in Hfuel. lia. }
    { rewrite Hskip5, Hcore', <- !app_assoc. reflexivity. }
    { apply whitespace_app; [exact Hw3 |]. destruct format; [apply whitespace_tabs |];
        reflexivity. }
    { exact Hwend. } { lia. }
    rewrite Hloop. cbn [bind].
    exists (r :: rs). split; [| split].
    + do 3 f_equal. subst o2. rewrite Hcore'.
      rewrite !length_app. cbn [length]. rewrite !length_app. cbn [length]. lia.
    + constructor; assumption.
    + constructor; [eauto | assumption].
Qed.

(** ** Containers *)

Lemma nesting_kind (v : stb_json) :
  kind v = STB_JSON_ARRAY \/ kind v = STB_JSON_OBJECT ->
  nesting v = S (max_nesting (child v)).
Proof.
  intros Hk. destruct v as [c ty vs vi vd k]. unfold nesting; fold nesting.
  unfold max_nesting. cbn [child]. destruct Hk as [Hk | Hk]; rewrite Hk; reflexivity.
Qed.

Lemma container_rest_empty (t : Z) (close : ascii)
    (loop : parse_buffer -> outcome (list stb_json * parse_buffer))
    (item : stb_json) (c : list ascii) (o1 d : nat) (s : list ascii) :
  skipn o1 c = close :: s ->
  container_rest t close loop item (mk_parse_buffer c o1 d) d
  = Done (set_child (set_type item t) [], mk_parse_buffer c (o1 + 1) d).
Proof.
  intros H. unfold container_rest.
  destruct (cursor_at c o1 d _ _ H) as (_ & _ & _ & Hat).
  rewrite Hat, Ascii.eqb_refl. unfold parse_success, set_depth, set_offset.
  cbn [content offset depth]. replace (S d - 1)%nat with d by lia. reflexivity.
Qed.

Lemma container_rest_children (t : Z) (close : ascii)
    (loop : parse_buffer -> outcome (list stb_json * parse_buffer))
    (item : stb_json) (c : list ascii) (o1 d : nat) (x : ascii) (s : list ascii)
    (rs : list stb_json) (o2 : nat) (s2 : list ascii) :
  skipn (o1 + 1) c = x :: s ->
  Ascii.eqb x close = false ->
  loop (mk_parse_buffer c o1 (S d)) = Done (rs, mk_parse_buffer c o2 (S d)) ->
  skipn o2 c = close :: s2 ->
  container_rest t close loop item (mk_parse_buffer c (o1 + 1) d) d
  = Done (set_child (set_type item t) rs, mk_parse_buffer c (o2 + 1) d).
Proof.
  intros H Hx Hloop H2. unfold container_rest.
  destruct (cursor_at c (o1 + 1) d _ _ H) as (_ & Hno & _ & Hat).
  rewrite Hat, Hx, Hno. unfold set_depth, set_offset. cbn [content offset depth].
  rewrite Nat.add_sub, Hloop. cbn [bind].
  destruct (cursor_at c o2 (S d) _ _ H2) as (_ & Hno2 & _ & Hat2).
  rewrite Hno2, Hat2, Ascii.eqb_refl. cbn [negb orb].
  unfold parse_success, set_depth, set_offset.
  cbn [content offset depth]. replace (S d - 1)%nat with d by lia. reflexivity.
Qed.

Lemma print_array_elements_start (print_depth : nat) (l : list stb_json)
    (body : list ascii) :
  forallb (json_value pow10 sprintf_g sscanf_lg) l = true -> l <> [] ->
  print_array_elements (fun x => print_value sprintf_g sscanf_lg x format print_depth)
    format l = Some body ->
  exists x body', body = x :: body' /\ (code x <=? 32) = false /\ Ascii.eqb x "]" = false.
Proof.
  destruct l as [| v next]; [contradiction |]. intros Hl _ H.
  cbn [forallb] in Hl. apply andb_true_iff in Hl as [Hv _].
  cbn [print_array_elements] in H.
  destruct (print_value sprintf_g sscanf_lg v format print_depth) as [text |] eqn:Ht;
    [| discriminate].
  destruct (print_array_elements _ format next) as [more |]; [| discriminate].
  injection H as <-.
  destruct (printed_start v print_depth text Hv Ht) as (x & t' & -> & Hx & Hx').
  exists x. eexists. split; [reflexivity |]. split; assumption.
Qed.

Lemma parses_back_array (v : stb_json) :
  kind v = STB_JSON_ARRAY ->
  Forall (fun x => json_value pow10 sprintf_g sscanf_lg x = true ->
                   parses_back pow10 sprintf_g sscanf_lg limit format x) (child v) ->
  forallb (json_value pow10 sprintf_g sscanf_lg) (child v) = true ->
  parses_back pow10 sprintf_g sscanf_lg limit format v.
Proof.
  intros Hk HP Hl pd t Ht fuel item c o d s Hfuel Hskip _ Hnest.
  rewrite print_value_eq, Hk in Ht.
  assert (Ht' : match
                  print_array_elements
                    (fun x => print_value sprintf_g sscanf_lg x format (S pd)) format
                    (child v)
                with
                | None => None
                | Some body => Some ("["%char :: body ++ ["]"%char])
                end = Some t) by exact Ht.
  clear Ht.
  destruct (print_array_elements _ format (child v)) as [body |] eqn:Hbody;
    [| discriminate].
  injection Ht' as <-.
  rewrite (nesting_kind v (or_introl Hk)) in Hnest.
  cbn [length] in Hfuel. rewrite length_app in Hfuel. cbn [length] in Hfuel.
  destruct fuel as [| fuel]; [lia |].
  assert (Hhead : skipn o c = "["%char :: body ++ "]"%char :: s).
  { rewrite Hskip. rewrite <- app_comm_cons, <- app_assoc. reflexivity. }
  rewrite parse_value_eq.
  change (lit "null") with ("n"%char :: lit "ull").
  rewrite (starts_with_other c o d "[" "n" _ _ Hhead eq_refl).
  change (lit "false") with ("f"%char :: lit "alse").
  rewrite (starts_with_other c o d "[" "f" _ _ Hhead eq_refl).
  change (lit "true") with ("t"%char :: lit "rue").
  rewrite (starts_with_other c o d "[" "t" _ _ Hhead eq_refl).
  destruct (cursor_at c o d _ _ Hhead) as (Hcan & _ & Hbuf & Hat).
  rewrite !Hat, Hcan, Hbuf.
  replace (Ascii.eqb "[" dquote) with false by reflexivity.
  replace (Ascii.eqb "[" "-" || is_digit "[") with false by reflexivity.
  rewrite Ascii.eqb_refl. cbn [andb].
  rewrite parse_array_eq, Hbuf, Ascii.eqb_refl. cbn [depth negb].
  replace (Nat.leb limit d) with false by (symmetry; apply Nat.leb_gt; lia).
  change (set_offset (mk_parse_buffer c o d) (offset (mk_parse_buffer c o d) + 1))
    with (mk_parse_buffer c (o + 1) d).
  destruct (skipn_cons_inv _ _ _ _ Hhead) as (_ & _ & Hin).
  rewrite <- Nat.add_1_r in Hin.
  assert (Hclose : skipn (o + 1 + length body) c = "]"%char :: s).
  { apply (skipn_text c body). exact Hin. }
  destruct (child v) as [| x next] eqn:Hchild.
  - cbn [print_array_elements] in Hbody. injection Hbody as <-.
    cbn [app] in Hin.
    rewrite (skip_whitespace_none c _ d _ _ Hin eq_refl).
    rewrite (container_rest_empty _ _ _ _ c (o + 1) d s Hin).
    eexists. split; [| split].
    + do 2 f_equal. cbn [length app]. f_equal. lia.
    + apply reads_as_node; cbn [type child set_child set_type];
        [rewrite Hk; reflexivity | other_kind Hk | other_kind Hk | | other_kind Hk].
      intros _. rewrite Hchild. constructor.
    + reflexivity.
  - destruct (print_array_elements_start (S pd) (x :: next) body Hl ltac:(discriminate) Hbody)
      as (x0 & body' & Hshape & Hx0 & Hx0').
    rewrite Hshape in Hin.
    rewrite (skip_whitespace_none c _ d _ _ Hin Hx0).
    destruct (parse_array_loop_printed (x :: next) HP Hl ltac:(discriminate) (S pd) body
                Hbody fuel c o (S d) [] s) as (rs & Hloop & Hrs).
    { lia. } { rewrite Hshape. exact Hin. } { reflexivity. } { lia. }
    cbn [length] in Hloop. rewrite Nat.add_0_r in Hloop.
    rewrite (container_rest_children _ _ _ item c o d x0 _ rs _ s Hin Hx0' Hloop Hclose).
    eexists. split; [| split].
    + do 2 f_equal. cbn [length]. rewrite length_app. cbn [length]. f_equal. lia.
    + apply reads_as_node; cbn [type child set_child set_type];
        [rewrite Hk; reflexivity | other_kind Hk | other_kind Hk | | other_kind Hk].
      intros _. rewrite Hchild. exact Hrs.
    + reflexivity.
Qed.

Lemma parses_back_object (v : stb_json) :
  kind v = STB_JSON_OBJECT ->
  Forall (fun x => json_value pow10 sprintf_g sscanf_lg x = true ->
                   parses_back pow10 sprintf_g sscanf_lg limit format x) (child v) ->
  forallb (fun m => match string m with Some k => c_string k | None => false end
                    && json_value pow10 sprintf_g sscanf_lg m) (child v) = true ->
  parses_back pow10 sprintf_g sscanf_lg limit format v.
Proof.
  intros Hk HP Hl pd t Ht fuel item c o d s Hfuel Hskip _ Hnest.
  rewrite print_value_eq, Hk in Ht.
  set (w0 := if format then [ascii_of_nat 10] else []) in *.
  set (w_end := if format then tabs pd else []) in *.
  assert (Ht' : match
                  print_object_members
                    (fun x => print_value sprintf_g sscanf_lg x format (S pd)) format
                    (S pd) (child v)
                with
                | None => None
                | Some body => Some ("{"%char :: w0 ++ body ++ w_end ++ ["}"%char])
                end = Some t) by exact Ht.
  clear Ht.
  destruct (print_object_members _ format (S pd) (child v)) as [body |] eqn:Hbody;
    [| discriminate].
  injection Ht' as <-.
  assert (Hw0 : whitespace w0 = true) by (subst w0; destruct format; reflexivity).
  assert (Hwend : whitespace w_end = true).
  { subst w_end. destruct format; [apply whitespace_tabs | reflexivity]. }
  rewrite (nesting_kind v (or_intror Hk)) in Hnest.
  cbn [length] in Hfuel. rewrite !length_app in Hfuel. cbn [length] in Hfuel.
  destruct fuel as [| fuel]; [lia |].
  assert (Hhead : skipn o c = "{"%char :: w0 ++ body ++ w_end ++ "}"%char :: s).
  { rewrite Hskip. rewrite <- app_comm_cons, <- !app_assoc. reflexivity. }
  rewrite parse_value_eq.
  change (lit "null") with ("n"%char :: lit "ull").
  rewrite (starts_with_other c o d "{" "n" _ _ Hhead eq_refl).
  change (lit "false") with ("f"%char :: lit "alse").
  rewrite (starts_with_other c o d "{" "f" _ _ Hhead eq_refl).
  change (lit "true") with ("t"%char :: lit "rue").
  rewrite (starts_with_other c o d "{" "t" _ _ Hhead eq_refl).
  destruct (cursor_at c o d _ _ Hhead) as (Hcan & Hno & Hbuf & Hat).
  rewrite !Hat, Hcan, Hbuf.
  replace (Ascii.eqb "{" dquote) with false by reflexivity.
  replace (Ascii.eqb "{" "-" || is_digit "{") with false by reflexivity.
  replace (Ascii.eqb "{" "[") with false by reflexivity.
  rewrite Ascii.eqb_refl. cbn [andb].
  rewrite parse_object_eq, Hno, Hat, Ascii.eqb_refl. cbn [depth negb orb].
  replace (Nat.leb limit d) with false by (symmetry; apply Nat.leb_gt; lia).
  change (set_offset (mk_parse_buffer c o d) (offset (mk_parse_buffer c o d) + 1))
    with (mk_parse_buffer c (o + 1) d).
  destruct (skipn_cons_inv _ _ _ _ Hhead) as (_ & _ & Hin).
  rewrite <- Nat.add_1_r in Hin.
  destruct (child v) as [| m next] eqn:Hchild.
  - cbn [print_object_members] in Hbody. injection Hbody as <-.
    cbn [app] in Hin. rewrite app_assoc in Hin.
    rewrite (skip_whitespace_text c _ d (w0 ++ w_end) "}" s Hin
               (whitespace_app _ _ Hw0 Hwend) eq_refl).
    apply skipn_text in Hin.
    rewrite (container_rest_empty _ _ _ _ c _ d s Hin).
    eexists. split; [| split].
    + do 2 f_equal. cbn [length app]. rewrite !length_app. cbn [length]. f_equal. lia.
    + apply reads_as_node; cbn [type child set_child set_type];
        [rewrite Hk; reflexivity | other_kind Hk | other_kind Hk | |];
        intros _; rewrite Hchild; constructor.
    + reflexivity.
  - destruct (print_object_members_tabs _ (S pd) (m :: next) body Hbody ltac:(discriminate))
      as [core Hcore].
    set (w1 := if format then tabs (S pd) else []) in *.
    assert (Hw1 : whitespace w1 = true).
    { subst w1. destruct format; [apply whitespace_tabs | reflexivity]. }
    assert (Hin1 : skipn (o + 1) c
                   = (w0 ++ w1) ++ dquote :: core ++ w_end ++ "}"%char :: s).
    { rewrite Hin, Hcore. rewrite <- !app_assoc. reflexivity. }
    rewrite (skip_whitespace_text c _ d (w0 ++ w1) dquote _ Hin1
               (whitespace_app _ _ Hw0 Hw1) eq_refl).
    apply skipn_text in Hin1.
    set (n := length (w0 ++ w1)) in *.
    assert (Hentry : skipn (o + n + 1) c = [] ++ (dquote :: core) ++ w_end ++ "}"%char :: s).
    { replace (o + n + 1)%nat with (o + 1 + n)%nat by lia. exact Hin1. }
    assert (Hn : length body = (length w1 + S (length core))%nat).
    { rewrite Hcore, length_app. reflexivity. }
    destruct (parse_object_loop_printed (m :: next) HP Hl ltac:(discriminate) (S pd) (S pd)
                body (dquote :: core) Hbody Hcore fuel c (o + n)%nat (S d) [] w_end s)
      as (rs & Hloop & Hrs & Hks).
    { cbn [length]. lia. } { exact Hentry. } { reflexivity. } { exact Hwend. } { lia. }
    cbn [length] in Hloop. rewrite Nat.add_0_r in Hloop.
    assert (Hclose : skipn (o + n + 1 + S (length core) + length w_end) c = "}"%char :: s).
    { apply (skipn_text c w_end). apply (skipn_text c (dquote :: core)). exact Hentry. }
    replace (o + 1 + n)%nat with (o + n + 1)%nat by lia.
    replace (o + 1 + n)%nat with (o + n + 1)%nat in Hin1 by lia.
    rewrite (container_rest_children STB_JSON_OBJECT "}" _ item c (o + n)%nat d dquote _
               rs _ s Hin1 eq_refl Hloop Hclose).
    eexists. split; [| split].
    + do 2 f_equal. subst n. cbn [length]. rewrite !length_app. cbn [length].
      rewrite Hn. f_equal. lia.
    + apply reads_as_node; cbn [type child set_child set_type];
        [rewrite Hk; reflexivity | other_kind Hk | other_kind Hk | |];
        intros _; rewrite Hchild; assumption.
    + reflexivity.
Qed.

(** Every value of the data model parses back. *)
Lemma parses_back_all (v : stb_json) :
  json_value pow10 sprintf_g sscanf_lg v = true ->
  parses_back pow10 sprintf_g sscanf_lg limit format v.
Proof.
  induction v as [v IH] using stb_json_induction. intros Hv.
  destruct (json_value_cases v Hv)
    as [Hk | [Hk | [Hk | [[Hk Hn] | [[Hk (str & Hs & Hc)] | [[Hk Hl] | [Hk Hl]]]]]]].
  - apply parses_back_null, Hk.
  - apply parses_back_false, Hk.
  - apply parses_back_true, Hk.
  - apply parses_back_number; assumption.
  - eapply parses_back_string; eassumption.
  - apply parses_back_array; assumption.
  - apply parses_back_object; assumption.
Qed.

(** ** Printing succeeds *)

Lemma print_array_elements_total (print_child : stb_json -> option (list ascii))
    (l : list stb_json) :
  Forall (fun x => exists t, print_child x = Some t) l ->
  exists body, print_array_elements print_child format l = Some body.
Proof.
  induction 1 as [| x l [t Ht] _ [body Hbody]]; cbn [print_array_elements]; [eauto |].
  rewrite Ht, Hbody. eauto.
Qed.

Lemma print_object_members_total (print_child : stb_json -> option (list ascii))
    (tab_depth : nat) (l : list stb_json) :
  Forall (fun x => exists t, print_child x = Some t) l ->
  exists body, print_object_members print_child format tab_depth l = Some body.
Proof.
  induction 1 as [| x l [t Ht] _ [body Hbody]]; cbn [print_object_members]; [eauto |].
  rewrite Ht, Hbody. eauto.
Qed.

Lemma print_value_total (v : stb_json) :
  json_value pow10 sprintf_g sscanf_lg v = true ->
  forall print_depth : nat,
  exists t, print_value sprintf_g sscanf_lg v format print_depth = Some t.
Proof.
  induction v as [v IH] using stb_json_induction. intros Hv pd.
  rewrite print_value_eq.
  destruct (json_value_cases v Hv)
    as [Hk | [Hk | [Hk | [[Hk Hn] | [[Hk Hs] | [[Hk Hl] | [Hk Hl]]]]]]];
    rewrite Hk.
  - eexists. reflexivity.
  - eexists. reflexivity.
  - eexists. reflexivity.
  - destruct (parse_number_printed v v [] O O [] Hn) as (x & t & Hp & _).
    exists (x :: t). exact Hp.
  - eexists. reflexivity.
  - destruct (print_array_elements_total
                (fun c => print_value sprintf_g sscanf_lg c format (S pd)) (child v))
      as [body Hbody].
    { rewrite Forall_forall in IH |- *. intros x Hx. apply IH; [exact Hx |].
      rewrite forallb_forall in Hl. apply Hl. apply list_elem_of_In, Hx. }
    exists ("["%char :: body ++ ["]"%char]).
    transitivity (match
                    print_array_elements
                      (fun c => print_value sprintf_g sscanf_lg c format (S pd)) format
                      (child v)
                  with
                  | None => None
                  | Some body => Some ("["%char :: body ++ ["]"%char])
                  end); [reflexivity |].
    rewrite Hbody. reflexivity.
  - destruct (print_object_members_total
                (fun c => print_value sprintf_g sscanf_lg c format (S pd)) (S pd) (child v))
      as [body Hbody].
    { rewrite Forall_forall in IH |- *. intros x Hx. apply IH; [exact Hx |].
      rewrite forallb_forall in Hl. apply list_elem_of_In in Hx.
      specialize (Hl x Hx). apply andb_true_iff in Hl as [_ Hl]. exact Hl. }
    eexists.
    transitivity (match
                    print_object_members
                      (fun c => print_value sprintf_g sscanf_lg c format (S pd)) format
                      (S pd) (child v)
                  with
                  | None => None
                  | Some body =>
                      Some ("{"%char :: (if format then [ascii_of_nat 10] else [])
                            ++ body ++ (if format then tabs pd else []) ++ ["}"%char])
                  end); [reflexivity |].
    rewrite Hbody. reflexivity.
Qed.

(** The first byte of a printed value is an ASCII byte. *)
Lemma printed_start_ascii (v : stb_json) (print_depth : nat) (t : list ascii) :
  json_value pow10 sprintf_g sscanf_lg v = true ->
  print_value sprintf_g sscanf_lg v format print_depth = Some t ->
  exists x t', t = x :: t' /\ (code x <=? 32) = false /\ Ascii.eqb (ascii_of_nat 239) x = false.
Proof.
  intros Hv Ht. rewrite print_value_eq in Ht.
  destruct (json_value_cases v Hv)
    as [Hk | [Hk | [Hk | [[Hk Hn] | [[Hk Hs] | [[Hk Hl] | [Hk Hl]]]]]]];
    rewrite Hk in Ht.
  - injection Ht as <-. do 2 eexists. split; [reflexivity |]. split; reflexivity.
  - injection Ht as <-. do 2 eexists. split; [reflexivity |]. split; reflexivity.
  - injection Ht as <-. do 2 eexists. split; [reflexivity |]. split; reflexivity.
  - change (print_number sprintf_g sscanf_lg v = Some t) in Ht.
    destruct (parse_number_printed v v [] O O [] Hn) as (x & t' & Hp & Hx & _).
    rewrite Hp in Ht. injection Ht as <-. exists x, t'. split; [reflexivity |].
    split; [apply number_start_code, Hx |].
    apply (number_start_other x (ascii_of_nat 239) Hx eq_refl).
  - injection Ht as <-. unfold print_string, print_string_ptr.
    destruct (valuestring v); do 2 eexists; (split; [reflexivity |]); split; reflexivity.
  - cbn [Z.eqb STB_JSON_ARRAY STB_JSON_NULL STB_JSON_FALSE STB_JSON_TRUE STB_JSON_NUMBER
         STB_JSON_RAW STB_JSON_STRING Pos.eqb] in Ht.
    destruct (print_array_elements _ _ _) as [body |]; [| discriminate].
    injection Ht as <-. do 2 eexists. split; [reflexivity |]. split; reflexivity.
  - cbn [Z.eqb STB_JSON_ARRAY STB_JSON_NULL STB_JSON_FALSE STB_JSON_TRUE STB_JSON_NUMBER
         STB_JSON_RAW STB_JSON_STRING STB_JSON_OBJECT Pos.eqb] in Ht.
    destruct (print_object_members _ _ _ _) as [body |]; [| discriminate].
    injection Ht as <-. do 2 eexists. split; [reflexivity |]. split; reflexivity.
Qed.

(** ** The entry point *)

Lemma parse_printed (v : stb_json) (text : list ascii) :
  json_value pow10 sprintf_g sscanf_lg v = true ->
  (nesting v <= limit)%nat ->
  print sprintf_g sscanf_lg (Some v) format = Some text ->
  exists r, stb_json_parse pow10 limit parse_string (Some text) = Done r /\ reads_as v r.
Proof.
  intros Hv Hn Ht. unfold print in Ht.
  destruct (printed_start_ascii v O text Hv Ht) as (x & t' & Hshape & Hx & Hbom).
  unfold stb_json_parse, stb_json_parse_withopts, stb_json_parse_withlengthopts.
  set (bytes := text ++ [ascii_of_nat 0]).
  assert (Hlen : length bytes = S (length text)).
  { subst bytes. rewrite length_app. cbn [length]. lia. }
  rewrite Hlen. cbn [Nat.eqb].
  assert (Hskip : skipn 0 bytes = text ++ [ascii_of_nat 0]) by reflexivity.
  assert (Hhead : skipn 0 bytes = x :: t' ++ [ascii_of_nat 0]).
  { rewrite Hskip, Hshape. reflexivity. }
  assert (Hb : skip_utf8_bom (mk_parse_buffer bytes 0 0) = Some (mk_parse_buffer bytes 0 0)).
  { unfold skip_utf8_bom. cbn [offset content Nat.eqb negb].
    change (skipn 0 bytes) with bytes. change (skipn 0 bytes) with bytes in Hhead.
    rewrite Hhead. unfold utf8_bom. cbn [prefix_eqb]. rewrite Hbom.
    rewrite andb_false_r. reflexivity. }
  rewrite Hb. rewrite (skip_whitespace_none bytes 0 0 _ _ Hhead Hx).
  destruct (parses_back_all v Hv O text Ht (S (2 * S (length text))) stb_json_new_item
              bytes O O [ascii_of_nat 0]) as (r & Hparse & Hr & _).
  { lia. } { exact Hskip. } { reflexivity. } { exact Hn. }
  rewrite Hparse. cbn [bind]. exists r. split; [reflexivity | exact Hr].
Qed.

End RoundTrip.

(** ** The comparator on a tree that was read back *)

Lemma strcmp_refl (s : list ascii) : strcmp s s = 0.
Proof. induction s as [| x s IH]; simpl; [reflexivity |]. rewrite Z.eqb_refl. exact IH. Qed.

Lemma case_insensitive_loop_refl (s : list ascii) : case_insensitive_loop s s = 0.
Proof. induction s as [| x s IH]; simpl; [reflexivity |]. rewrite Z.eqb_refl. exact IH. Qed.

Lemma compare_nodes_eq (same_node : stb_json -> stb_json -> bool) (a b : stb_json)
    (case_sensitive : bool) :
  compare_nodes same_node a b case_sensitive =
  if negb (kind a =? kind b) then Some false
  else if same_node a b then Some true
  else if (kind a =? STB_JSON_FALSE) || (kind a =? STB_JSON_TRUE)
          || (kind a =? STB_JSON_NULL) then Some true
  else if kind a =? STB_JSON_NUMBER then
    Some (compare_double (valuedouble a) (valuedouble b))
  else if (kind a =? STB_JSON_STRING) || (kind a =? STB_JSON_RAW) then
    match valuestring a, valuestring b with
    | Some x, Some y => Some (strcmp x y =? 0)
    | _, _ => Some false
    end
  else if kind a =? STB_JSON_ARRAY then
    compare_elements (fun x y => compare_nodes same_node x y case_sensitive)
      (child a) (child b)
  else if kind a =? STB_JSON_OBJECT then
    compare_members (fun x y => compare_nodes same_node x y case_sensitive) case_sensitive
      (child a) (child b)
  else Some false.
Proof. destruct a; reflexivity. Qed.

Section ReadBack.
Variable pow10 : Z -> double.
Variable sprintf_g : nat -> double -> list ascii.
Variable sscanf_lg : list ascii -> option double.
Variable same_node : stb_json -> stb_json -> bool.
Variable case_sensitive : bool.

Lemma compare_elements_read (lv lr : list stb_json) :
  Forall (fun v => forall r, json_value pow10 sprintf_g sscanf_lg v = true ->
                    reads_as v r ->
                    compare_nodes same_node r v case_sensitive = Some true) lv ->
  forallb (json_value pow10 sprintf_g sscanf_lg) lv = true ->
  Forall2 reads_as lv lr ->
  compare_elements (fun x y => compare_nodes same_node x y case_sensitive) lr lv
  = Some true.
Proof.
  intros HP Hl HF. induction HF as [| v r lv lr Hr _ IH]; [reflexivity |].
  apply Forall_cons in HP as [Pv HP].
  cbn [forallb] in Hl. apply andb_true_iff in Hl as [Hv Hl].
  cbn [compare_elements]. rewrite (Pv r Hv Hr). apply IH; assumption.
Qed.

Lemma compare_members_read (lv lr : list stb_json) :
  Forall (fun v => forall r, json_value pow10 sprintf_g sscanf_lg v = true ->
                    reads_as v r ->
                    compare_nodes same_node r v case_sensitive = Some true) lv ->
  forallb (fun m => match string m with Some k => c_string k | None => false end
                    && json_value pow10 sprintf_g sscanf_lg m) lv = true ->
  Forall2 reads_as lv lr ->
  Forall2 (fun m rm => exists k, string m = Some k /\ string rm = Some k) lv lr ->
  compare_members (fun x y => compare_nodes same_node x y case_sensitive) case_sensitive
    lr lv
  = Some true.
Proof.
  intros HP Hl HF HK. induction HF as [| v r lv lr Hr _ IH]; [reflexivity |].
  apply Forall_cons in HP as [Pv HP].
  apply Forall2_cons in HK as [(k & Hkv & Hkr) HK].
  cbn [forallb] in Hl. apply andb_true_iff in Hl as [Hv Hl].
  apply andb_true_iff in Hv as [_ Hv].
  cbn [compare_members]. rewrite Hkv, Hkr.
  assert (Hkeys : (if case_sensitive then Some (strcmp k k)
                   else Some (case_insensitive_strcmp (Some k) (Some k))) = Some 0).
  { destruct case_sensitive; cbn [case_insensitive_strcmp];
      rewrite ?strcmp_refl, ?case_insensitive_loop_refl; reflexivity. }
  rewrite Hkeys. cbn [Z.eqb negb]. rewrite (Pv r Hv Hr). apply IH; assumption.
Qed.

(** A tree that reads as a value of the data model compares equal to it. *)
Lemma reads_as_compare (v : stb_json) :
  forall r : stb_json,
  json_value pow10 sprintf_g sscanf_lg v = true ->
  reads_as v r ->
  compare_nodes same_node r v case_sensitive = Some true.
Proof.
  induction v as [v IH] using stb_json_induction. intros r Hv Hr.
  inversion Hr as [v' r' Htype Hnum Hstr Hch Hkeys]; subst v' r'.
  rewrite compare_nodes_eq.
  assert (Hkind : forall K, kind v = K -> Z.land K 255 = K -> kind r = K).
  { intros K HK HK'. unfold kind. rewrite Htype, HK. exact HK'. }
  destruct (json_value_cases pow10 sprintf_g sscanf_lg v Hv)
    as [Hk | [Hk | [Hk | [[Hk Hn] | [[Hk (str & Hs & Hc)] | [[Hk Hl] | [Hk Hl]]]]]]];
    rewrite (Hkind _ Hk eq_refl), Hk; destruct (same_node r v); try reflexivity.
  - transitivity (Some (compare_double (valuedouble r) (valuedouble v))); [reflexivity |].
    rewrite (Hnum Hk). reflexivity.
  - transitivity (match valuestring r, valuestring v with
                  | Some x, Some y => Some (strcmp x y =? 0)
                  | _, _ => Some false
                  end); [reflexivity |].
    destruct (Hstr Hk) as (s & Hvs & Hrs). rewrite Hvs, Hrs, strcmp_refl. reflexivity.
  - transitivity (compare_elements
                    (fun x y => compare_nodes same_node x y case_sensitive)
                    (child r) (child v)); [reflexivity |].
    apply compare_elements_read; auto.
  - transitivity (compare_members
                    (fun x y => compare_nodes same_node x y case_sensitive) case_sensitive
                    (child r) (child v)); [reflexivity |].
    apply compare_members_read; auto.
Qed.

End ReadBack.




(** * Keys: comparison without case and JSON pointer tokens *)

Lemma code_inj (a b : ascii) : code a = code b -> a = b.
Proof.
  unfold code. intros H. apply N2Z.inj in H.
  rewrite <- (ascii_N_embedding a), <- (ascii_N_embedding b), H. reflexivity.
Qed.

Lemma case_insensitive_loop_opp (a b : list ascii) :
  case_insensitive_loop b a = - case_insensitive_loop a b.
Proof.
  revert b. induction a as [| x a IH]; intros [| y b]; simpl; try lia.
  rewrite (Z.eqb_sym (tolower y)). destruct (tolower x =? tolower y); [apply IH | lia].
Qed.

(** X1: the comparison of keys without case: NULL compares as different; two C
    strings compare as equal exactly when they agree byte by byte after
    [tolower]; strings that are equal compare as equal, and exchanging the
    arguments negates the result. *)
Theorem case_insensitive_strcmp_equal (a b : list ascii)
    (Ha : c_string a = true) (Hb : c_string b = true) :
  (case_insensitive_strcmp (Some a) (Some b) = 0 <-> map tolower a = map tolower b) /\
  case_insensitive_strcmp (Some a) (Some a) = 0 /\
  case_insensitive_strcmp (Some b) (Some a) = - case_insensitive_strcmp (Some a) (Some b) /\
  (forall s, case_insensitive_strcmp None s = 1 /\ case_insensitive_strcmp s None = 1).
Proof.
  split; [apply case_insensitive_zero; assumption |].
  split; [apply case_insensitive_loop_refl |].
  split; [apply case_insensitive_loop_opp |].
  intros s. split; [reflexivity | destruct s; reflexivity].
Qed.

Lemma case_insensitive_strcmp_equal_witness :
  case_insensitive_strcmp (Some (lit "Key")) (Some (lit "kEY")) = 0 <->
  map tolower (lit "Key") = map tolower (lit "kEY").
Proof.
  apply (case_insensitive_strcmp_equal (lit "Key") (lit "kEY")); reflexivity.
Defined.

(** ** Encoding a key as a pointer token *)

Lemma decode_pointer_loop_encoded (original s decoded : list ascii) :
  decode_pointer_loop original decoded (encode_string_as_pointer s) = decoded ++ s.
Proof.
  revert decoded. induction s as [| c s IH]; intros decoded; simpl.
  - rewrite app_nil_r. reflexivity.
  - destruct (Ascii.eqb c "/") eqn:E1.
    + apply Ascii.eqb_eq in E1. subst c. simpl. rewrite IH, <- app_assoc. reflexivity.
    + destruct (Ascii.eqb c "~") eqn:E2.
      * apply Ascii.eqb_eq in E2. subst c. simpl. rewrite IH, <- app_assoc. reflexivity.
      * simpl. rewrite E2, IH, <- app_assoc. reflexivity.
Qed.

(** X2: a key that is encoded as a pointer token and decoded again is the key;
    the encoding has the length [pointer_encoded_length] announces and
    holds no slash. *)
Theorem pointer_token_round_trip (s : list ascii) :
  decode_pointer_inplace (encode_string_as_pointer s) = s /\
  length (encode_string_as_pointer s) = pointer_encoded_length s /\
  ("/"%char ∉ encode_string_as_pointer s).
Proof.
  split; [| split].
  - unfold decode_pointer_inplace. apply decode_pointer_loop_encoded.
  - induction s as [| c s IH]; simpl; [reflexivity |].
    destruct (Ascii.eqb c "/") eqn:E1.
    + rewrite orb_true_r. simpl. rewrite IH. reflexivity.
    + destruct (Ascii.eqb c "~") eqn:E2; simpl; rewrite IH; reflexivity.
  - induction s as [| c s IH]; simpl; [apply not_elem_of_nil |].
    destruct (Ascii.eqb c "/") eqn:E1.
    + rewrite !not_elem_of_cons. repeat split; try discriminate. exact IH.
    + destruct (Ascii.eqb c "~") eqn:E2.
      * rewrite !not_elem_of_cons. repeat split; try discriminate. exact IH.
      * rewrite not_elem_of_cons. split; [| exact IH].
        intros <-. discriminate.
Qed.

Lemma tolower_tilde (n : ascii) : (tolower n =? tolower "~") = Ascii.eqb n "~".
Proof.
  destruct n as [b0 b1 b2 b3 b4 b5 b6 b7].
  destruct b0, b1, b2, b3, b4, b5, b6, b7; reflexivity.
Qed.

Lemma tolower_slash (n : ascii) : (tolower n =? tolower "/") = Ascii.eqb n "/".
Proof.
  destruct n as [b0 b1 b2 b3 b4 b5 b6 b7].
  destruct b0, b1, b2, b3, b4, b5, b6, b7; reflexivity.
Qed.

Lemma key_text_cons (cs : bool) (x y : ascii) (a b : list ascii) :
  key_text cs (x :: a) = key_text cs (y :: b) <->
  (if cs then Ascii.eqb x y else tolower x =? tolower y) = true /\
  key_text cs a = key_text cs b.
Proof.
  destruct cs; simpl.
  - rewrite Ascii.eqb_eq. split.
    + intros H. injection H as H1 H2. split; [apply code_inj, H1 | exact H2].
    + intros [-> ->]. reflexivity.
  - rewrite Z.eqb_eq. split.
    + intros H. injection H as H1 H2. auto.
    + intros [-> ->]. reflexivity.
Qed.

(** The test of [compare_pointers] on one pair of bytes that are not part
    of an escape. *)
Lemma compare_pointers_plain (cs : bool) (n p : ascii) :
  ((cs && negb (Ascii.eqb n p)) || (negb cs && negb (tolower n =? tolower p)))
  = negb (if cs then Ascii.eqb n p else tolower n =? tolower p).
Proof. destruct cs; simpl; [rewrite orb_false_r |]; reflexivity. Qed.

Lemma compare_pointers_token (cs : bool) (k rest : list ascii)
    (Hrest : match rest with [] => True | c :: _ => c = "/"%char end) :
  forall name : list ascii,
  compare_pointers name (encode_string_as_pointer k ++ rest) cs = true
  <-> key_text cs name = key_text cs k.
Proof.
  induction k as [| c k IH]; intros name.
  - cbn [encode_string_as_pointer app].
    destruct name as [| n name]; destruct rest as [| r rest]; simpl.
    + split; reflexivity.
    + subst r. split; reflexivity.
    + split; [discriminate | destruct cs; discriminate].
    + subst r. split; [discriminate | destruct cs; discriminate].
  - cbn [encode_string_as_pointer].
    destruct (Ascii.eqb c "/") eqn:E1; [| destruct (Ascii.eqb c "~") eqn:E2].
    + apply Ascii.eqb_eq in E1. subst c.
      destruct name as [| n name]; cbn [app compare_pointers].
      * split; [discriminate | destruct cs; discriminate].
      * change (Ascii.eqb "~" "/") with false. change (Ascii.eqb "~" "~") with true.
        change (Ascii.eqb "1" "0") with false. change (Ascii.eqb "1" "1") with true.
        cbn [negb orb andb]. rewrite key_text_cons, <- IH.
        replace (if cs then Ascii.eqb n "/" else tolower n =? tolower "/")
          with (Ascii.eqb n "/") by (destruct cs; [| rewrite tolower_slash]; reflexivity).
        destruct (Ascii.eqb n "/"); simpl; [tauto |].
        split; [discriminate | intros [H _]; discriminate].
    + apply Ascii.eqb_eq in E2. subst c.
      destruct name as [| n name]; cbn [app compare_pointers].
      * split; [discriminate | destruct cs; discriminate].
      * change (Ascii.eqb "~" "/") with false. change (Ascii.eqb "~" "~") with true.
        change (Ascii.eqb "0" "0") with true. change (Ascii.eqb "0" "1") with false.
        cbn [negb orb andb]. rewrite key_text_cons, <- IH.
        replace (if cs then Ascii.eqb n "~" else tolower n =? tolower "~")
          with (Ascii.eqb n "~") by (destruct cs; [| rewrite tolower_tilde]; reflexivity).
        destruct (Ascii.eqb n "~"); simpl; [tauto |].
        split; [discriminate | intros [H _]; discriminate].
    + destruct name as [| n name]; cbn [app compare_pointers].
      * rewrite E1. split; [discriminate | destruct cs; discriminate].
      * rewrite E1, E2, compare_pointers_plain, key_text_cons, <- IH.
        destruct (if cs then Ascii.eqb n c else tolower n =? tolower c); simpl; [tauto |].
        split; [discriminate | intros [H _]; discriminate].
Qed.

(** X3: [compare_pointers] against the encoding of a key, followed by the end
    of the pointer or by a slash, holds exactly for the names that are
    this key under the comparison in use. *)
Theorem compare_pointers_encoded (cs : bool) (k rest name : list ascii)
    (Hrest : match rest with [] => True | c :: _ => c = "/"%char end) :
  compare_pointers name (encode_string_as_pointer k ++ rest) cs = true
  <-> key_text cs name = key_text cs k.
Proof. apply compare_pointers_token, Hrest. Qed.

Lemma compare_pointers_encoded_witness :
  compare_pointers (lit "a/b") (encode_string_as_pointer (lit "A/B") ++ lit "/0") false = true
  <-> key_text false (lit "a/b") = key_text false (lit "A/B").
Proof.
  apply compare_pointers_encoded. reflexivity.
Defined.

Lemma skip_token_encoded (k : list ascii) : skip_token (encode_string_as_pointer k) = [].
Proof.
  induction k as [| c k IH]; [reflexivity |]. cbn [encode_string_as_pointer].
  destruct (Ascii.eqb c "/") eqn:E1; [exact IH |].
  destruct (Ascii.eqb c "~") eqn:E2; [exact IH |].
  cbn [skip_token]. rewrite E1. exact IH.
Qed.

Lemma find_member_encoded (cs : bool) (l : list stb_json) (k : list ascii) :
  keyed_members l = true -> c_string k = true ->
  find_member l (encode_string_as_pointer k) cs = get_object_item_index l k cs.
Proof.
  intros Hl Hk. induction l as [| m l IH]; [reflexivity |].
  destruct (keyed_members_cons _ _ Hl) as (k0 & Hm & Hk0 & Hl').
  cbn [find_member get_object_item_index]. rewrite Hm, (IH Hl').
  assert (H : compare_pointers k0 (encode_string_as_pointer k) cs
              = ((if cs then strcmp k k0 else case_insensitive_strcmp (Some k) (Some k0)) =? 0)).
  { apply eq_true_iff_eq.
    rewrite <- (app_nil_r (encode_string_as_pointer k)).
    rewrite (compare_pointers_token cs k [] I k0), (key_match cs k k0 Hk Hk0).
    split; congruence. }
  rewrite H. reflexivity.
Qed.

(** X4: for an object whose members all have keys, the JSON pointer made of a
    slash and the encoded key designates the member that
    [stb_json_getobjectitem] (or its case-sensitive variant) finds for the
    key, and no member when that lookup finds none. *)
Theorem pointer_to_member (cs : bool) (o : stb_json) (k : list ascii)
    (Ho : kind o = STB_JSON_OBJECT)
    (Hl : keyed_members (child o) = true) (Hk : c_string k = true) :
  get_item_from_pointer (Some o) (Some ("/"%char :: encode_string_as_pointer k)) cs
  = option_map (fun i => [i]) (get_object_item (Some o) (Some k) cs) /\
  (get_item_from_pointer (Some o) (Some ("/"%char :: encode_string_as_pointer k)) cs = None
   <-> object_item cs (Some o) (Some k) = None).
Proof.
  assert (H : get_item_from_pointer (Some o)
                (Some ("/"%char :: encode_string_as_pointer k)) cs
              = option_map (fun i => [i]) (get_object_item (Some o) (Some k) cs)).
  { unfold get_item_from_pointer, get_object_item.
    cbn [length get_item_from_pointer_loop]. change (Ascii.eqb "/" "/") with true.
    cbv iota. rewrite Ho.
    change (STB_JSON_OBJECT =? STB_JSON_ARRAY) with false.
    change (STB_JSON_OBJECT =? STB_JSON_OBJECT) with true. cbv iota.
    rewrite (find_member_encoded cs _ _ Hl Hk).
    destruct (get_object_item_index (child o) k cs) as [i |] eqn:E; [| reflexivity].
    destruct (get_object_item_index_valid _ _ _ _ E) as [m Hm]. rewrite Hm.
    rewrite skip_token_encoded.
    destruct (length (encode_string_as_pointer k)); reflexivity. }
  split; [exact H |]. rewrite H, object_item_eq. unfold item_of, get_object_item.
  destruct (get_object_item_index (child o) k cs) as [i |] eqn:E.
  - destruct (get_object_item_index_valid _ _ _ _ E) as [m Hm]. rewrite Hm.
    split; discriminate.
  - split; reflexivity.
Qed.

Lemma pointer_to_member_witness :
  get_item_from_pointer (Some sample_test) (Some ("/"%char :: encode_string_as_pointer (lit "path")))
    true
  = option_map (fun i => [i]) (get_object_item (Some sample_test) (Some (lit "path")) true).
Proof.
  apply (pointer_to_member true sample_test (lit "path")); reflexivity.
Defined.

(** ** UTF-16 escapes and UTF-8 *)

Lemma range_check (P : Z -> bool) (n : nat) :
  forallb P (map Z.of_nat (seq 0 n)) = true ->
  forall z, 0 <= z < Z.of_nat n -> P z = true.
Proof.
  intros H z Hz. rewrite forallb_forall in H. apply H.
  apply in_map_iff. exists (Z.to_nat z). split; [lia |].
  apply in_seq. lia.
Qed.

Lemma code_uchar (z : Z) : code (uchar z) = z mod 256.
Proof.
  unfold code, uchar. rewrite N_ascii_embedding.
  - apply Z2N.id. apply Z.mod_pos_bound. lia.
  - assert (0 <= z mod 256 < 256) by (apply Z.mod_pos_bound; lia). lia.
Qed.

Lemma hex_digit_range (c : ascii) (h : Z) : hex_digit c = Some h -> 0 <= h <= 15.
Proof.
  unfold hex_digit.
  destruct ((48 <=? code c) && (code c <=? 57)) eqn:E1;
    [| destruct ((65 <=? code c) && (code c <=? 70)) eqn:E2;
       [| destruct ((97 <=? code c) && (code c <=? 102)) eqn:E3]];
    intros [= <-]; lia.
Qed.

Lemma parse_hex4_range (l : list ascii) : 0 <= parse_hex4 l < 65536.
Proof.
  unfold parse_hex4.
  destruct l as [| c0 [| c1 [| c2 [| c3 l]]]]; try lia.
  destruct (hex_digit c0) as [h0 |] eqn:E0; [| lia].
  destruct (hex_digit c1) as [h1 |] eqn:E1; [| lia].
  destruct (hex_digit c2) as [h2 |] eqn:E2; [| lia].
  destruct (hex_digit c3) as [h3 |] eqn:E3; [| lia].
  apply hex_digit_range in E0, E1, E2, E3.
  rewrite !Z.shiftl_mul_pow2 by lia. change (2 ^ 4) with 16. lia.
Qed.

Lemma continuation_written (x : Z) :
  continuation_byte (uchar (Z.lor 128 (Z.land x 63))) = true /\
  code (uchar (Z.lor 128 (Z.land x 63))) <> 0.
Proof.
  assert (Hr : 0 <= Z.land x 63 < Z.of_nat 64).
  { change 63 with (Z.ones 6). rewrite Z.land_ones by lia.
    change (Z.of_nat 64) with (2 ^ 6). apply Z.mod_pos_bound. lia. }
  pose proof (range_check
    (fun y => continuation_byte (uchar (Z.lor 128 y))
              && negb (code (uchar (Z.lor 128 y)) =? 0)) 64 eq_refl _ Hr) as H.
  cbv beta in H. apply andb_true_iff in H. destruct H as [H1 H2].
  split; [exact H1 |]. apply negb_true_iff, Z.eqb_neq in H2. exact H2.
Qed.

Lemma shiftr_range (x k n : Z) : 0 <= k -> 0 <= x < n * 2 ^ k -> 0 <= Z.shiftr x k < n.
Proof.
  intros Hk Hx. rewrite Z.shiftr_div_pow2 by lia.
  assert (0 < 2 ^ k) by (apply Z.pow_pos_nonneg; lia).
  split; [apply Z.div_pos; lia | apply Z.div_lt_upper_bound; lia].
Qed.

Lemma is_valid_utf8_one (z : Z) (rest : list ascii) :
  1 <= z < 128 ->
  is_valid_utf8 (uchar z :: rest) = is_valid_utf8 rest /\ code (uchar z) <> 0.
Proof.
  intros Hz. cbn [is_valid_utf8]. rewrite code_uchar, Z.mod_small by lia.
  destruct (z =? 0) eqn:E; [lia |]. destruct (z <? 128) eqn:E'; [| lia].
  split; [reflexivity | lia].
Qed.

Lemma is_valid_utf8_two (q : Z) (c1 : ascii) (rest : list ascii) :
  2 <= q < 32 -> continuation_byte c1 = true ->
  is_valid_utf8 (uchar (Z.lor 192 q) :: c1 :: rest) = is_valid_utf8 rest /\
  code (uchar (Z.lor 192 q)) <> 0.
Proof.
  intros Hq Hc.
  pose proof (range_check
    (fun y => negb (code (uchar (Z.lor 192 y)) =? 0)
              && negb (code (uchar (Z.lor 192 y)) <? 128)
              && (Z.land (code (uchar (Z.lor 192 y))) 224 =? 192)) 32 eq_refl q
    ltac:(change (Z.of_nat 32) with 32; lia)) as H.
  cbv beta in H. apply andb_true_iff in H. destruct H as [H H3].
  apply andb_true_iff in H. destruct H as [H1 H2].
  apply negb_true_iff in H1, H2.
  cbn [is_valid_utf8]. rewrite H1, H2, H3.
  unfold continuation_byte in Hc. rewrite Hc. cbn [negb].
  split; [reflexivity | apply Z.eqb_neq, H1].
Qed.

Lemma is_valid_utf8_three (q : Z) (c1 c2 : ascii) (rest : list ascii) :
  0 <= q < 16 -> continuation_byte c1 = true -> continuation_byte c2 = true ->
  is_valid_utf8 (uchar (Z.lor 224 q) :: c1 :: c2 :: rest) = is_valid_utf8 rest /\
  code (uchar (Z.lor 224 q)) <> 0.
Proof.
  intros Hq Hc1 Hc2.
  pose proof (range_check
    (fun y => negb (code (uchar (Z.lor 224 y)) =? 0)
              && negb (code (uchar (Z.lor 224 y)) <? 128)
              && negb (Z.land (code (uchar (Z.lor 224 y))) 224 =? 192)
              && (Z.land (code (uchar (Z.lor 224 y))) 240 =? 224)) 16 eq_refl q
    ltac:(change (Z.of_nat 16) with 16; lia)) as H.
  cbv beta in H. apply andb_true_iff in H. destruct H as [H H4].
  apply andb_true_iff in H. destruct H as [H H3].
  apply andb_true_iff in H. destruct H as [H1 H2].
  apply negb_true_iff in H1, H2, H3.
  cbn [is_valid_utf8]. rewrite H1, H2, H3, H4.
  unfold continuation_byte in Hc1, Hc2. rewrite Hc1, Hc2. cbn [negb].
  split; [reflexivity | apply Z.eqb_neq, H1].
Qed.

Lemma is_valid_utf8_four (q : Z) (c1 c2 c3 : ascii) (rest : list ascii) :
  0 <= q < 8 -> continuation_byte c1 = true -> continuation_byte c2 = true ->
  continuation_byte c3 = true ->
  is_valid_utf8 (uchar (Z.lor 240 q) :: c1 :: c2 :: c3 :: rest) = is_valid_utf8 rest /\
  code (uchar (Z.lor 240 q)) <> 0.
Proof.
  intros Hq Hc1 Hc2 Hc3.
  pose proof (range_check
    (fun y => negb (code (uchar (Z.lor 240 y)) =? 0)
              && negb (code (uchar (Z.lor 240 y)) <? 128)
              && negb (Z.land (code (uchar (Z.lor 240 y))) 224 =? 192)
              && negb (Z.land (code (uchar (Z.lor 240 y))) 240 =? 224)
              && (Z.land (code (uchar (Z.lor 240 y))) 248 =? 240)) 8 eq_refl q
    ltac:(change (Z.of_nat 8) with 8; lia)) as H.
  cbv beta in H. apply andb_true_iff in H. destruct H as [H H5].
  apply andb_true_iff in H. destruct H as [H H4].
  apply andb_true_iff in H. destruct H as [H H3].
  apply andb_true_iff in H. destruct H as [H1 H2].
  apply negb_true_iff in H1, H2, H3, H4.
  cbn [is_valid_utf8]. rewrite H1, H2, H3, H4, H5.
  unfold continuation_byte in Hc1, Hc2, Hc3. rewrite Hc1, Hc2, Hc3. cbn [negb].
  split; [reflexivity | apply Z.eqb_neq, H1].
Qed.

(** X5: whenever [utf16_to_utf8] accepts an escape it consumes the 6 bytes of
    one escape or the 12 bytes of a surrogate pair, all of them inside the
    input; it writes between one and four bytes, at most half of what it consumed,
    none of them NUL; and [is_valid_utf8] accepts what it wrote in front
    of any text that it accepts. *)
Theorem utf16_to_utf8_output (input : list ascii) (n : nat) (bytes : list ascii)
    (H : utf16_to_utf8 input = Some (n, bytes)) :
  (n = 6 \/ n = 12)%nat /\ (n <= length input)%nat /\
  (1 <= length bytes <= 4)%nat /\ (2 * length bytes <= n)%nat /\
  Forall (fun b => code b <> 0) bytes /\
  forall rest : list ascii, is_valid_utf8 (bytes ++ rest) = is_valid_utf8 rest.
Proof.
  unfold utf16_to_utf8 in H.
  destruct (Nat.ltb (length input) 6) eqn:L6; [discriminate |].
  apply Nat.ltb_ge in L6.
  pose proof (parse_hex4_range (skipn 2 input)) as R1.
  set (first_code := parse_hex4 (skipn 2 input)) in *.
  destruct (first_code =? 0) eqn:Z0; [discriminate |]. apply Z.eqb_neq in Z0.
  destruct ((55296 <=? first_code) && (first_code <=? 56319)) eqn:Hs.
  - destruct (Nat.ltb (length input) 12) eqn:L12; [discriminate |].
    apply Nat.ltb_ge in L12.
    destruct (nth_error input 6) as [b6 |]; [| discriminate].
    destruct (nth_error input 7) as [b7 |]; [| discriminate].
    destruct (negb (Ascii.eqb b6 "\") || negb (Ascii.eqb b7 "u")); [discriminate |].
    pose proof (parse_hex4_range (skipn 8 input)) as R2.
    set (second_code := parse_hex4 (skipn 8 input)) in *.
    destruct ((second_code <? 56320) || (57343 <? second_code)) eqn:Hl; [discriminate |].
    injection H as <- <-.
    set (codepoint := 65536 + Z.lor (Z.shiftl (Z.land first_code 1023) 10)
                                    (Z.land second_code 1023)).
    assert (Hcp : 0 <= codepoint < 8 * 2 ^ 18).
    { unfold codepoint.
      assert (0 <= Z.lor (Z.shiftl (Z.land first_code 1023) 10) (Z.land second_code 1023)
              < 2 ^ 20); [| lia].
      assert (A : 0 <= Z.land first_code 1023 < 2 ^ 10).
      { change 1023 with (Z.ones 10). rewrite Z.land_ones by lia.
        apply Z.mod_pos_bound. lia. }
      assert (B : 0 <= Z.land second_code 1023 < 2 ^ 10).
      { change 1023 with (Z.ones 10). rewrite Z.land_ones by lia.
        apply Z.mod_pos_bound. lia. }
      split.
      - apply Z.lor_nonneg. split; [apply Z.shiftl_nonneg |]; lia.
      - destruct (Z.eq_dec (Z.lor (Z.shiftl (Z.land first_code 1023) 10)
                                  (Z.land second_code 1023)) 0) as [-> | Hne]; [lia |].
        apply Z.log2_lt_pow2.
        + assert (0 <= Z.lor (Z.shiftl (Z.land first_code 1023) 10)
                             (Z.land second_code 1023))
            by (apply Z.lor_nonneg; split; [apply Z.shiftl_nonneg |]; lia).
          lia.
        + rewrite Z.log2_lor by (try apply Z.shiftl_nonneg; lia).
          apply Z.max_lub_lt.
          * destruct (Z.eq_dec (Z.land first_code 1023) 0) as [-> | Hn1];
              [rewrite Z.shiftl_0_l; simpl; lia |].
            rewrite Z.log2_shiftl by lia.
            assert (Z.log2 (Z.land first_code 1023) < 10)
              by (apply Z.log2_lt_pow2; lia). lia.
          * destruct (Z.eq_dec (Z.land second_code 1023) 0) as [-> | Hn2];
              [simpl; lia |].
            assert (Z.log2 (Z.land second_code 1023) < 10)
              by (apply Z.log2_lt_pow2; lia). lia. }
    assert (Hq : 0 <= Z.shiftr codepoint 18 < 8) by (apply shiftr_range; [lia | exact Hcp]).
    destruct (continuation_written (Z.shiftr codepoint 12)) as [C1 N1].
    destruct (continuation_written (Z.shiftr codepoint 6)) as [C2 N2].
    destruct (continuation_written codepoint) as [C3 N3].
    split; [right; reflexivity |]. split; [exact L12 |].
    split; [simpl; lia |]. split; [simpl; lia |].
    split.
    + repeat constructor; try assumption.
      apply (is_valid_utf8_four _ _ _ _ [] Hq C1 C2 C3).
    + intros rest. apply (is_valid_utf8_four _ _ _ _ rest Hq C1 C2 C3).
  - destruct (first_code <? 128) eqn:H1; [| destruct (first_code <? 2048) eqn:H2].
    + injection H as <- <-. apply Z.ltb_lt in H1.
      split; [left; reflexivity |]. split; [exact L6 |].
      split; [simpl; lia |]. split; [simpl; lia |].
      split.
      * repeat constructor. apply (is_valid_utf8_one first_code []). lia.
      * intros rest. apply (is_valid_utf8_one first_code rest). lia.
    + injection H as <- <-. apply Z.ltb_lt in H2. apply Z.ltb_ge in H1.
      assert (Hq : 2 <= Z.shiftr first_code 6 < 32).
      { rewrite Z.shiftr_div_pow2 by lia. change (2 ^ 6) with 64.
        split; [apply Z.div_le_lower_bound; lia | apply Z.div_lt_upper_bound; lia]. }
      destruct (continuation_written first_code) as [C1 N1].
      split; [left; reflexivity |]. split; [exact L6 |].
      split; [simpl; lia |]. split; [simpl; lia |].
      split.
      * repeat constructor; try assumption.
        apply (is_valid_utf8_two _ _ [] Hq C1).
      * intros rest. apply (is_valid_utf8_two _ _ rest Hq C1).
    + injection H as <- <-. apply Z.ltb_ge in H2.
      assert (Hq : 0 <= Z.shiftr first_code 12 < 16).
      { apply shiftr_range; [lia |]. change (16 * 2 ^ 12) with 65536. lia. }
      destruct (continuation_written (Z.shiftr first_code 6)) as [C1 N1].
      destruct (continuation_written first_code) as [C2 N2].
      split; [left; reflexivity |]. split; [exact L6 |].
      split; [simpl; lia |]. split; [simpl; lia |].
      split.
      * repeat constructor; try assumption.
        apply (is_valid_utf8_three _ _ _ [] Hq C1 C2).
      * intros rest. apply (is_valid_utf8_three _ _ _ rest Hq C1 C2).
Qed.

Lemma utf16_to_utf8_output_witness :
  utf16_to_utf8 (lit "\uD83D\uDE00")
  = Some (12%nat, [ascii_of_nat 240; ascii_of_nat 159; ascii_of_nat 152; ascii_of_nat 128]) /\
  is_valid_utf8 ([ascii_of_nat 240; ascii_of_nat 159; ascii_of_nat 152; ascii_of_nat 128] ++ lit "!")
  = is_valid_utf8 (lit "!").
Proof.
  split; [reflexivity |].
  apply (utf16_to_utf8_output (lit "\uD83D\uDE00") 12); reflexivity.
Defined.

(** ** Escaping in [print_string_ptr] *)

Lemma escape_char_measured (c : ascii) :
  length (escape_char c)
  = S (if code c <? 128 then
         if Ascii.eqb c dquote || Ascii.eqb c "\" || (code c =? 8) || (code c =? 12)
            || (code c =? 10) || (code c =? 13) || (code c =? 9)
         then 1%nat
         else if code c <? 32 then 5%nat else O
       else O).
Proof.
  destruct c as [b0 b1 b2 b3 b4 b5 b6 b7].
  destruct b0, b1, b2, b3, b4, b5, b6, b7; reflexivity.
Qed.

Lemma escape_char_continuation (c : ascii) :
  continuation_byte c = true -> escape_char c = [c].
Proof.
  destruct c as [b0 b1 b2 b3 b4 b5 b6 b7].
  destruct b0, b1, b2, b3, b4, b5, b6, b7; intros H; try discriminate H; reflexivity.
Qed.

Lemma escape_char_printable (c : ascii) :
  forallb (fun b => 32 <=? code b) (escape_char c) = true.
Proof.
  destruct c as [b0 b1 b2 b3 b4 b5 b6 b7].
  destruct b0, b1, b2, b3, b4, b5, b6, b7; reflexivity.
Qed.

Lemma escape_char_single (c : ascii) :
  length (escape_char c) = 1%nat -> escape_char c = [c].
Proof.
  unfold escape_char. destruct (_ && _); [reflexivity |].
  cbn [length]. intros H. exfalso.
  destruct (Ascii.eqb c "\"); [discriminate |].
  destruct (Ascii.eqb c dquote); [discriminate |].
  repeat (destruct (_ =? _); [discriminate |]). discriminate.
Qed.

Lemma flat_map_escape_length (s : list ascii) :
  (length s <= length (flat_map escape_char s) <= 6 * length s)%nat.
Proof.
  induction s as [| c s IH]; [simpl; lia |].
  cbn [flat_map]. rewrite length_app. cbn [length].
  rewrite escape_char_measured.
  destruct (code c <? 128); [| lia].
  destruct (_ || _); [lia |]. destruct (code c <? 32); lia.
Qed.

Lemma flat_map_escape_same (s : list ascii) :
  length (flat_map escape_char s) = length s -> flat_map escape_char s = s.
Proof.
  induction s as [| c s IH]; [reflexivity |].
  cbn [flat_map]. rewrite length_app. cbn [length]. intros H.
  pose proof (flat_map_escape_length s) as B.
  pose proof (length_escape_char c) as B1.
  rewrite (escape_char_single c) by lia. rewrite IH by lia. reflexivity.
Qed.

Lemma flat_map_escape_continuation (k : nat) (l : list ascii) :
  forallb continuation_byte (firstn k l) = true ->
  length (flat_map escape_char l)
  = (length (firstn k l) + length (flat_map escape_char (skipn k l)))%nat.
Proof.
  revert l. induction k as [| k IH]; intros l H; [reflexivity |].
  destruct l as [| c l]; [reflexivity |].
  cbn [firstn forallb] in H. apply andb_true_iff in H as [Hc H].
  cbn [flat_map firstn skipn length]. rewrite (escape_char_continuation c Hc).
  cbn [app length]. rewrite (IH l H). reflexivity.
Qed.

Lemma measure_string_exact (fuel : nat) :
  forall s : list ascii, (length s < fuel)%nat -> c_string s = true ->
  measure_string fuel s
  = (length s, (length (flat_map escape_char s) - length s)%nat).
Proof.
  induction fuel as [| fuel IH]; intros s Hf Hs; [lia |].
  destruct s as [| c s]; [reflexivity |].
  cbn [c_string forallb] in Hs. apply andb_true_iff in Hs as [Hc Hs].
  apply negb_true_iff in Hc. cbn [measure_string]. rewrite Hc.
  cbn [length] in Hf. cbn [flat_map]. rewrite length_app, escape_char_measured.
  pose proof (flat_map_escape_length s) as B.
  destruct (code c <? 128) eqn:E.
  - rewrite (IH s) by (try exact Hs; lia). cbn [length]. f_equal. lia.
  - unfold sequence_bytes.
    set (bytes := if Z.land (code c) 224 =? 192 then 2%nat
                  else if Z.land (code c) 240 =? 224 then 3%nat
                  else if Z.land (code c) 248 =? 240 then 4%nat else 1%nat).
    destruct (forallb (fun b => Z.land (code b) 192 =? 128) (firstn (bytes - 1) s)
              && Nat.leb (bytes - 1) (length s)) eqn:V.
    + apply andb_true_iff in V as [V L]. apply Nat.leb_le in L.
      assert (Hb : (1 <= bytes)%nat)
        by (unfold bytes; repeat (destruct (_ =? _); [lia |]); lia).
      pose proof (length_skipn (bytes - 1) s) as Lk.
      assert (Hs' : c_string (skipn (bytes - 1) s) = true).
      { unfold c_string in *. rewrite forallb_forall in *.
        intros x Hx. apply Hs.
        rewrite <- (firstn_skipn (bytes - 1) s). apply in_or_app. right. exact Hx. }
      rewrite (IH (skipn (bytes - 1) s)) by (try exact Hs'; lia).
      rewrite (flat_map_escape_continuation (bytes - 1) s V).
      rewrite length_firstn, Nat.min_l by exact L.
      pose proof (flat_map_escape_length (skipn (bytes - 1) s)) as B'.
      cbn [length]. f_equal; lia.
    + change (1 - 1)%nat with O. change (skipn 0 s) with s.
      rewrite (IH s) by (try exact Hs; lia). cbn [length]. f_equal; lia.
Qed.

(** X6: the first loop of [print_string_ptr] measures a C string exactly: it
    stops at the end of the string, and [output_length] plus the two
    quotes is the number of bytes that the second loop writes.  When it
    counts no escape, the text between the quotes is the input itself,
    which is what the [memcpy] of the short path writes. *)
Theorem print_string_ptr_measured (s : list ascii) (Hs : c_string s = true) :
  fst (measure_string (S (length s)) s) = length s /\
  length (print_string_ptr (Some s)) = (fst (output_length s) + 2)%nat /\
  (snd (output_length s) = O -> print_string_ptr (Some s) = dquote :: s ++ [dquote]).
Proof.
  unfold output_length.
  rewrite (measure_string_exact (S (length s)) s (Nat.lt_succ_diag_r _) Hs).
  cbn [fst snd]. pose proof (flat_map_escape_length s) as B.
  unfold print_string_ptr. cbn [length]. rewrite length_app. cbn [length].
  split; [reflexivity |]. split; [lia |].
  intros H. rewrite flat_map_escape_same by lia. reflexivity.
Qed.

Lemma print_string_ptr_measured_witness :
  length (print_string_ptr (Some [ascii_of_nat 195; ascii_of_nat 169; ascii_of_nat 10]))
  = (fst (output_length [ascii_of_nat 195; ascii_of_nat 169; ascii_of_nat 10]) + 2)%nat.
Proof.
  apply (print_string_ptr_measured [ascii_of_nat 195; ascii_of_nat 169; ascii_of_nat 10]).
  reflexivity.
Defined.

(** X7: the text [print_string_ptr] writes holds no control byte and no NUL,
    whatever the input; for a string of [n] bytes it has between [n + 2]
    and [6 * n + 2] bytes, the first and the last being double quotes. *)
Theorem print_string_ptr_printable (input : option (list ascii)) :
  Forall (fun b => 32 <= code b) (print_string_ptr input) /\
  (exists body, print_string_ptr input = dquote :: body ++ [dquote]) /\
  forall s, input = Some s ->
    (length s + 2 <= length (print_string_ptr input) <= 6 * length s + 2)%nat.
Proof.
  split; [| split].
  - destruct input as [s |]; unfold print_string_ptr.
    + constructor; [vm_compute; discriminate |].
      apply Forall_app. split; [| repeat constructor; vm_compute; discriminate].
      apply Forall_forall. intros b Hb. apply list_elem_of_In, in_flat_map in Hb.
      destruct Hb as (c & _ & Hb).
      pose proof (escape_char_printable c) as P. rewrite forallb_forall in P.
      apply Z.leb_le, P, Hb.
    + repeat constructor; vm_compute; discriminate.
  - destruct input as [s |]; unfold print_string_ptr.
    + eexists. reflexivity.
    + exists []. reflexivity.
  - intros s ->. unfold print_string_ptr. cbn [length]. rewrite length_app.
    pose proof (flat_map_escape_length s). cbn [length]. lia.
Qed.

(** X8: a control byte that [print_string_ptr] writes as a backslash and
    [u00xx] is decoded by [utf16_to_utf8] to that byte, with the six bytes
    of the escape consumed. *)
Theorem control_escape_decoded (c : ascii) (rest : list ascii)
    (Hc : 0 < code c < 32) :
  utf16_to_utf8 ("\"%char :: sprintf_u04x c ++ rest) = Some (6%nat, [c]) /\
  (code c <> 8 -> code c <> 9 -> code c <> 10 -> code c <> 12 -> code c <> 13 ->
   escape_char c = "\"%char :: sprintf_u04x c).
Proof.
  destruct c as [b0 b1 b2 b3 b4 b5 b6 b7].
  destruct b0, b1, b2, b3, b4, b5, b6, b7;
    try (exfalso; vm_compute in Hc; destruct Hc as [H1 H2]; discriminate H1 || discriminate H2);
    (split; [reflexivity | intros; try reflexivity; exfalso; auto]).
Qed.

Lemma control_escape_decoded_witness :
  utf16_to_utf8 ("\"%char :: sprintf_u04x (ascii_of_nat 27) ++ lit "[0m")
  = Some (6%nat, [ascii_of_nat 27]).
Proof.
  apply (control_escape_decoded (ascii_of_nat 27) (lit "[0m")). vm_compute. split; reflexivity.
Defined.

(** ** Looking up and editing the members of an object *)

Lemma member_key_match (cs : bool) (m : stb_json) (k0 name : list ascii) :
  string m = Some k0 -> c_string k0 = true -> c_string name = true ->
  ((if cs then strcmp name k0 else case_insensitive_strcmp (Some name) (Some k0)) =? 0) = true
  <-> member_key cs m = Some (key_text cs name).
Proof.
  intros Hm Hk0 Hn. rewrite (key_match cs name k0 Hn Hk0).
  unfold member_key. rewrite Hm. simpl. split; [congruence | intros [= H]; congruence].
Qed.

Lemma get_object_item_index_first (cs : bool) (l : list stb_json) (k : list ascii) :
  keyed_members l = true -> c_string k = true ->
  match get_object_item_index l k cs with
  | Some i =>
      (exists m, nth_error l i = Some m /\ member_key cs m = Some (key_text cs k)) /\
      (Some (key_text cs k) ∉ map (member_key cs) (firstn i l))
  | None => Some (key_text cs k) ∉ map (member_key cs) l
  end.
Proof.
  intros Hl Hk. induction l as [| m l IH]; [apply not_elem_of_nil |].
  destruct (keyed_members_cons _ _ Hl) as (k0 & Hm & Hk0 & Hl').
  specialize (IH Hl'). cbn [get_object_item_index]. rewrite Hm.
  pose proof (member_key_match cs m k0 k Hm Hk0 Hk) as M.
  destruct (_ =? 0).
  - split; [exists m; split; [reflexivity | apply M; reflexivity] | apply not_elem_of_nil].
  - assert (Hne : member_key cs m <> Some (key_text cs k))
      by (intros E; apply M in E; discriminate).
    destruct (get_object_item_index l k cs) as [i |]; cbn [option_map].
    + destruct IH as [IH1 IH2]. split; [exact IH1 |].
      cbn [firstn map]. apply not_elem_of_cons. split; [congruence | exact IH2].
    + cbn [map]. apply not_elem_of_cons. split; [congruence | exact IH].
Qed.

(** X9: on an object whose members all have keys, [get_object_item] finds the
    first member whose key is the name, byte for byte or up to the case of
    letters as the caller chose; it finds nothing exactly when no member
    has that key, which is also when [stb_json_hasobjectitem] is false. *)
Theorem get_object_item_first_match (cs : bool) (o : stb_json) (k : list ascii)
    (Hl : keyed_members (child o) = true) (Hk : c_string k = true) :
  match get_object_item (Some o) (Some k) cs with
  | Some i =>
      (exists m, nth_error (child o) i = Some m /\
                 object_item cs (Some o) (Some k) = Some m /\
                 member_key cs m = Some (key_text cs k)) /\
      (Some (key_text cs k) ∉ map (member_key cs) (firstn i (child o)))
  | None =>
      object_item cs (Some o) (Some k) = None /\
      (Some (key_text cs k) ∉ map (member_key cs) (child o))
  end /\
  (stb_json_hasobjectitem (Some o) (Some k) = true
   <-> Some (key_text false k) ∈ map (member_key false) (child o)).
Proof.
  split.
  - pose proof (get_object_item_index_first cs (child o) k Hl Hk) as H.
    rewrite object_item_eq. unfold item_of. cbn [get_object_item].
    destruct (get_object_item_index (child o) k cs) as [i |].
    + destruct H as [(m & Hm & Hkey) Hfirst]. split; [| exact Hfirst].
      exists m. rewrite Hm. auto.
    + auto.
  - pose proof (get_object_item_index_first false (child o) k Hl Hk) as H.
    unfold stb_json_hasobjectitem, stb_json_getobjectitem, child_at.
    cbn [get_object_item].
    destruct (get_object_item_index (child o) k false) as [i |].
    + destruct H as [(m & Hm & Hkey) _]. rewrite Hm. split; [intros _ | reflexivity].
      rewrite <- Hkey. apply list_elem_of_In, in_map, (nth_error_In _ _ Hm).
    + split; [discriminate | intros Hin; contradiction].
Qed.

Lemma get_object_item_first_match_witness :
  stb_json_hasobjectitem (Some sample_test) (Some (lit "PATH")) = true
  <-> Some (key_text false (lit "PATH")) ∈ map (member_key false) (child sample_test).
Proof.
  apply (get_object_item_first_match false sample_test (lit "PATH")); reflexivity.
Defined.

(** X10: a child without a key ends the search of [get_object_item]: the
    members behind it are never found, whatever their keys. *)
Theorem keyless_member_hides_rest (cs : bool) (before after : list stb_json)
    (m : stb_json) (k : list ascii) (o : stb_json)
    (Hm : string m = None) (Ho : child o = before ++ m :: after) :
  get_object_item (Some o) (Some k) cs
  = get_object_item (Some (set_child o before)) (Some k) cs.
Proof.
  cbn [get_object_item]. rewrite Ho.
  replace (child (set_child o before)) with before by (destruct o; reflexivity).
  clear Ho. induction before as [| x l IH]; cbn [app get_object_item_index].
  - rewrite Hm. reflexivity.
  - destruct (string x); [| reflexivity].
    destruct (_ =? 0); [reflexivity |]. rewrite IH. reflexivity.
Qed.

Lemma keyless_member_hides_rest_witness :
  get_object_item
    (Some (object_of [keyed "a" stb_json_createnull; stb_json_createtrue;
                      keyed "b" stb_json_createfalse]))
    (Some (lit "b")) true
  = get_object_item (Some (set_child
      (object_of [keyed "a" stb_json_createnull; stb_json_createtrue;
                  keyed "b" stb_json_createfalse]) [keyed "a" stb_json_createnull]))
      (Some (lit "b")) true.
Proof.
  apply (keyless_member_hides_rest true [keyed "a" stb_json_createnull]
           [keyed "b" stb_json_createfalse] stb_json_createtrue); reflexivity.
Defined.

Lemma item_of_app (cs : bool) (l : list stb_json) (x : stb_json) (kx k : list ascii) :
  keyed_members l = true -> string x = Some kx -> c_string kx = true -> c_string k = true ->
  item_of cs (l ++ [x]) k
  = match item_of cs l k with
    | Some m => Some m
    | None => if decide (key_text cs k = key_text cs kx) then Some x else None
    end.
Proof.
  intros Hl Hx Hkx Hk. induction l as [| m l IH].
  - cbn [app]. rewrite (item_of_cons cs x [] kx k Hx).
    pose proof (key_match cs k kx Hk Hkx) as M.
    destruct (_ =? 0); destruct (decide _) as [E | E]; try reflexivity.
    + exfalso. apply E, M. reflexivity.
    + apply M in E. discriminate.
  - destruct (keyed_members_cons _ _ Hl) as (k0 & Hm & Hk0 & Hl').
    cbn [app]. rewrite !(item_of_cons cs m _ k0 k Hm).
    destruct (_ =? 0); [reflexivity | exact (IH Hl')].
Qed.

(** X11: [stb_json_additemtoobject] appends and never replaces: after adding
    an item under a key, a lookup of the key still finds the member the
    object already had under it, and finds the added item only when there
    was none; the lookup of every other key is unchanged, and the object
    has one member more.  Allocation is taken to succeed. *)
Theorem add_then_get (cs : bool) (o item : stb_json) (k : list ascii)
    (Hl : keyed_members (child o) = true) (Hk : c_string k = true) :
  exists o',
    stb_json_additemtoobject (Some o) (Some k) (Some item) = (true, Some o') /\
    length (child o') = S (length (child o)) /\
    object_item cs (Some o') (Some k)
    = match object_item cs (Some o) (Some k) with
      | Some m => Some m
      | None => Some (member_added (Some k) item)
      end /\
    forall k', c_string k' = true -> key_text cs k' <> key_text cs k ->
      object_item cs (Some o') (Some k') = object_item cs (Some o) (Some k').
Proof.
  eexists. split; [reflexivity |].
  assert (Hc : child (add_item_to_array o (set_type (set_string item (Some k))
                 (Z.land (type item) (Z.lnot STB_JSON_STRING_IS_CONST))))
               = child o ++ [member_added (Some k) item])
    by (destruct o; reflexivity).
  assert (Hs : string (member_added (Some k) item) = Some k) by (destruct item; reflexivity).
  split; [rewrite Hc, length_app; cbn [length]; lia |].
  split.
  - rewrite !object_item_eq, Hc, (item_of_app cs _ _ k k Hl Hs Hk Hk).
    destruct (item_of cs (child o) k); [reflexivity |].
    destruct (decide _) as [_ | E]; [reflexivity | contradiction].
  - intros k' Hk' Hne.
    rewrite !object_item_eq, Hc, (item_of_app cs _ _ k k' Hl Hs Hk Hk').
    destruct (item_of cs (child o) k'); [reflexivity |].
    destruct (decide _) as [E | _]; [contradiction | reflexivity].
Qed.

Lemma add_then_get_witness :
  exists o',
    stb_json_additemtoobject (Some sample_test) (Some (lit "op")) (Some stb_json_createnull)
    = (true, Some o') /\
    object_item true (Some o') (Some (lit "op"))
    = object_item true (Some sample_test) (Some (lit "op")).
Proof.
  destruct (add_then_get true sample_test stb_json_createnull (lit "op") eq_refl eq_refl)
    as (o' & H1 & _ & H3 & _).
  exists o'. split; [exact H1 |]. rewrite H3. reflexivity.
Defined.

(** X12: on an object whose members have distinct keys,
    [stb_json_detachitemfromobject] and its case-sensitive variant return
    the member that the lookup finds for the key and leave an object in
    which the key is gone and every other key holds what it held; when the
    key is absent nothing is returned and the object is unchanged. *)
Theorem detach_then_get (cs : bool) (o : stb_json) (k : list ascii)
    (Hw : well_keyed cs (child o)) (Hk : c_string k = true) :
  exists o',
    (if cs then stb_json_detachitemfromobjectcasesensitive (Some o) (Some k)
     else stb_json_detachitemfromobject (Some o) (Some k))
    = (object_item cs (Some o) (Some k), Some o') /\
    (if cs then stb_json_deleteitemfromobjectcasesensitive (Some o) (Some k)
     else stb_json_deleteitemfromobject (Some o) (Some k)) = Some o' /\
    well_keyed cs (child o') /\
    object_item cs (Some o') (Some k) = None /\
    (forall k', c_string k' = true -> key_text cs k' <> key_text cs k ->
       object_item cs (Some o') (Some k') = object_item cs (Some o) (Some k')) /\
    (object_item cs (Some o) (Some k) = None -> o' = o) /\
    (object_item cs (Some o) (Some k) <> None -> S (length (child o')) = length (child o)).
Proof.
  destruct Hw as [Hl Hnd].
  pose proof (detach_step cs (child o) k Hl Hnd Hk) as D. cbv zeta in D.
  set (l' := match get_object_item_index (child o) k cs with
             | Some i => remove_nth i (child o)
             | None => child o
             end) in *.
  destruct D as (D1 & D2 & D3 & _ & D5).
  exists (set_child o l').
  assert (Hc : child (set_child o l') = l') by (destruct o; reflexivity).
  split; [rewrite detach_from_object, object_item_eq; reflexivity |].
  split; [rewrite delete_from_object; reflexivity |].
  rewrite Hc. split; [split; assumption |].
  split; [rewrite object_item_eq, Hc; apply item_of_none; assumption |].
  split; [intros k' Hk' Hne; rewrite !object_item_eq, Hc; apply D5; assumption |].
  rewrite object_item_eq. unfold item_of, l'.
  destruct (get_object_item_index (child o) k cs) as [i |] eqn:E.
  - destruct (get_object_item_index_valid _ _ _ _ E) as [m Hm]. rewrite Hm.
    split; [discriminate | intros _].
    unfold remove_nth. rewrite length_app, length_firstn, length_skipn.
    assert (i < length (child o))%nat by (apply nth_error_Some; congruence). lia.
  - split; [intros _; apply set_child_child | intros H; contradiction].
Qed.

Lemma detach_then_get_witness :
  exists o',
    stb_json_deleteitemfromobject (Some sample_test) (Some (lit "PATH")) = Some o' /\
    object_item false (Some o') (Some (lit "PATH")) = None.
Proof.
  assert (Hw : well_keyed false (child sample_test)).
  { split; [reflexivity |]. apply (bool_decide_unpack _). vm_compute. exact I. }
  destruct (detach_then_get false sample_test (lit "PATH") Hw eq_refl)
    as (o' & _ & H2 & _ & H4 & _).
  exists o'. split; assumption.
Defined.

(** ** Copies *)

Lemma comparable_eq (v : stb_json) :
  comparable v =
  if (kind v =? STB_JSON_FALSE) || (kind v =? STB_JSON_TRUE) || (kind v =? STB_JSON_NULL)
  then true
  else if kind v =? STB_JSON_NUMBER then negb (isnan (valuedouble v) || isinf (valuedouble v))
  else if (kind v =? STB_JSON_STRING) || (kind v =? STB_JSON_RAW) then
    match valuestring v with Some _ => true | None => false end
  else if kind v =? STB_JSON_ARRAY then forallb comparable (child v)
  else if kind v =? STB_JSON_OBJECT then
    forallb (fun m => match string m with Some _ => true | None => false end && comparable m)
      (child v)
  else false.
Proof. destruct v; reflexivity. Qed.

Lemma compare_double_self (d : double) :
  compare_double d d = negb (isnan d || isinf d).
Proof.
  destruct (isnan d || isinf d) eqn:E.
  - destruct d as [s | s | | s m e]; try discriminate E; try reflexivity.
    destruct s; reflexivity.
  - apply compare_double_refl. exact E.
Qed.

Section CompareSelf.
Variable same_node : stb_json -> stb_json -> bool.
Variable case_sensitive : bool.

Lemma compare_elements_self (l : list stb_json) :
  Forall (fun c => compare_nodes same_node c c case_sensitive = Some true
                   <-> comparable c = true) l ->
  compare_elements (fun x y => compare_nodes same_node x y case_sensitive) l l = Some true
  <-> forallb comparable l = true.
Proof.
  induction 1 as [| c l Hc _ IH]; cbn [compare_elements forallb]; [tauto |].
  rewrite andb_true_iff, <- Hc, <- IH.
  destruct (compare_nodes same_node c c case_sensitive) as [[|] |].
  - tauto.
  - split; [discriminate | intros [H _]; discriminate].
  - split; [discriminate | intros [H _]; discriminate].
Qed.

Lemma compare_members_self (l : list stb_json) :
  Forall (fun c => compare_nodes same_node c c case_sensitive = Some true
                   <-> comparable c = true) l ->
  compare_members (fun x y => compare_nodes same_node x y case_sensitive) case_sensitive l l
  = Some true
  <-> forallb (fun m => match string m with Some _ => true | None => false end
                        && comparable m) l = true.
Proof.
  induction 1 as [| c l Hc _ IH]; cbn [compare_members forallb]; [tauto |].
  rewrite !andb_true_iff, <- Hc, <- IH.
  destruct (string c) as [k |].
  - assert (Hk : (if case_sensitive then Some (strcmp k k)
                  else Some (case_insensitive_strcmp (Some k) (Some k))) = Some 0).
    { destruct case_sensitive; cbn [case_insensitive_strcmp];
        rewrite ?strcmp_refl, ?case_insensitive_loop_refl; reflexivity. }
    rewrite Hk. cbn [Z.eqb negb].
    destruct (compare_nodes same_node c c case_sensitive) as [[|] |].
    + tauto.
    + split; [discriminate | intros [[_ H] _]; discriminate].
    + split; [discriminate | intros [[_ H] _]; discriminate].
  - destruct case_sensitive; cbn [case_insensitive_strcmp Z.eqb negb];
      (split; [discriminate | intros [[H _] _]; discriminate]).
Qed.
End CompareSelf.

Lemma compare_nodes_distinct_self (cs : bool) (v : stb_json) :
  compare_nodes distinct_nodes v v cs = Some true <-> comparable v = true.
Proof.
  induction v as [v IH] using stb_json_induction.
  rewrite compare_nodes_eq, comparable_eq, Z.eqb_refl.
  cbn [negb]. unfold distinct_nodes at 1.
  destruct ((kind v =? STB_JSON_FALSE) || (kind v =? STB_JSON_TRUE)
            || (kind v =? STB_JSON_NULL)); [tauto |].
  destruct (kind v =? STB_JSON_NUMBER).
  { rewrite compare_double_self. split; [intros [= H] | intros H]; rewrite H; reflexivity. }
  destruct ((kind v =? STB_JSON_STRING) || (kind v =? STB_JSON_RAW)).
  { destruct (valuestring v) as [s |]; [| split; discriminate].
    rewrite strcmp_refl. tauto. }
  destruct (kind v =? STB_JSON_ARRAY); [apply compare_elements_self, IH |].
  destruct (kind v =? STB_JSON_OBJECT); [apply compare_members_self, IH |].
  split; discriminate.
Qed.

Lemma compare_nodes_self (same_node : stb_json -> stb_json -> bool) (cs : bool)
    (v : stb_json) :
  comparable v = true -> compare_nodes same_node v v cs = Some true.
Proof.
  induction v as [v IH] using stb_json_induction.
  rewrite compare_nodes_eq, comparable_eq, Z.eqb_refl. cbn [negb].
  destruct (same_node v v); [reflexivity |].
  destruct ((kind v =? STB_JSON_FALSE) || (kind v =? STB_JSON_TRUE)
            || (kind v =? STB_JSON_NULL)); [reflexivity |].
  destruct (kind v =? STB_JSON_NUMBER).
  { rewrite compare_double_self. intros ->. reflexivity. }
  destruct ((kind v =? STB_JSON_STRING) || (kind v =? STB_JSON_RAW)).
  { destruct (valuestring v) as [s |]; [| discriminate].
    rewrite strcmp_refl. reflexivity. }
  destruct (kind v =? STB_JSON_ARRAY).
  { clear - IH. induction IH as [| c l Hc _ IHl]; cbn [forallb compare_elements]; [reflexivity |].
    intros H. apply andb_true_iff in H as [H1 H2]. rewrite (Hc H1). exact (IHl H2). }
  destruct (kind v =? STB_JSON_OBJECT); [| discriminate].
  clear - IH. induction IH as [| c l Hc _ IHl]; cbn [forallb compare_members]; [reflexivity |].
  intros H. apply andb_true_iff in H as [H1 H2]. apply andb_true_iff in H1 as [Hk H1].
  destruct (string c) as [k |]; [| discriminate].
  assert (Hkk : (if cs then Some (strcmp k k)
                 else Some (case_insensitive_strcmp (Some k) (Some k))) = Some 0).
  { destruct cs; cbn [case_insensitive_strcmp];
      rewrite ?strcmp_refl, ?case_insensitive_loop_refl; reflexivity. }
  rewrite Hkk. cbn [Z.eqb negb]. rewrite (Hc H1). exact (IHl H2).
Qed.

(** X13: [stb_json_compare] finds a tree equal to a copy of itself exactly when
    the tree is comparable: every node has one of the kinds of the
    header, no number is a NaN or infinite, every string and raw node has
    a text and every member of an object has a key.  On such a tree the
    comparison with itself holds whether or not the two arguments are the
    same nodes. *)
Theorem compare_with_copy (cs : bool) (v : stb_json) :
  (stb_json_compare distinct_nodes (Some v) (Some v) cs = Some true
   <-> comparable v = true) /\
  (forall same_node, comparable v = true ->
     stb_json_compare same_node (Some v) (Some v) cs = Some true) /\
  (forall same_node, stb_json_compare same_node None (Some v) cs = Some false /\
                     stb_json_compare same_node (Some v) None cs = Some false).
Proof.
  split; [apply compare_nodes_distinct_self |].
  split; [intros same_node; apply compare_nodes_self |].
  intros same_node. split; reflexivity.
Qed.

Lemma duplicate_children_same (duplicate : stb_json -> option stb_json)
    (l rs : list stb_json) :
  Forall (fun c => forall r, duplicate c = Some r -> r = c) l ->
  duplicate_children duplicate l = Some rs -> rs = l.
Proof.
  intros H. revert rs. induction H as [| c l Hc _ IH]; intros rs; cbn [duplicate_children].
  - intros [= <-]. reflexivity.
  - destruct (duplicate c) as [r |] eqn:E; [| discriminate].
    destruct (duplicate_children duplicate l) as [rest |]; [| discriminate].
    intros [= <-]. rewrite (Hc r eq_refl), (IH rest eq_refl). reflexivity.
Qed.

Lemma duplicate_children_each (duplicate : stb_json -> option stb_json)
    (l rs : list stb_json) :
  duplicate_children duplicate l = Some rs ->
  Forall (fun c => duplicate c <> None) l.
Proof.
  revert rs. induction l as [| c l IH]; intros rs; cbn [duplicate_children]; [constructor |].
  destruct (duplicate c) as [r |] eqn:E; [| discriminate].
  destruct (duplicate_children duplicate l) as [rest |]; [| discriminate].
  intros _. constructor; [rewrite E; discriminate | exact (IH rest eq_refl)].
Qed.

Lemma stb_json_duplicate_rec_eq (item : stb_json) (depth : nat) (recurse : bool) :
  stb_json_duplicate_rec item depth recurse =
  let newitem := mk_json [] (type item) None (valueint item) (valuedouble item) None in
  let newitem :=
    match string item with
    | Some s =>
        if Z.land (type item) STB_JSON_STRING_IS_CONST =? 0
        then set_string newitem (Some s) else newitem
    | None => newitem
    end in
  let newitem := set_valuestring newitem (valuestring item) in
  if negb recurse then Some newitem
  else if Nat.leb STB_JSON_CIRCULAR_LIMIT depth then None
  else
    match
      duplicate_children (fun c => stb_json_duplicate_rec c (S depth) true) (child item)
    with
    | None => None
    | Some cs => Some (set_child newitem cs)
    end.
Proof. destruct item; reflexivity. Qed.

Lemma stb_json_duplicate_rec_limit (item : stb_json) :
  forall depth : nat,
  stb_json_duplicate_rec item depth true <> None ->
  (depth + height item <= STB_JSON_CIRCULAR_LIMIT)%nat.
Proof.
  induction item as [item IH] using stb_json_induction. intros depth.
  rewrite stb_json_duplicate_rec_eq. cbv zeta. cbn [negb].
  destruct (Nat.leb STB_JSON_CIRCULAR_LIMIT depth) eqn:L; [intros H; contradiction |].
  apply Nat.leb_gt in L.
  destruct (duplicate_children _ (child item)) as [rs |] eqn:E; [| intros H; contradiction].
  intros _. apply duplicate_children_each in E.
  rewrite (height_children_eq item).
  assert (H : forall l, Forall (fun c => forall depth,
                stb_json_duplicate_rec c depth true <> None ->
                (depth + height c <= STB_JSON_CIRCULAR_LIMIT)%nat) l ->
              Forall (fun c => stb_json_duplicate_rec c (S depth) true <> None) l ->
              (depth + S (foldr (fun c n => Nat.max (height c) n) O l)
               <= STB_JSON_CIRCULAR_LIMIT)%nat).
  { induction l as [| c l IHl]; intros H1 H2; cbn [foldr]; [lia |].
    inversion H1 as [| ? ? Hc H1']; subst. inversion H2 as [| ? ? Hd H2']; subst.
    specialize (IHl H1' H2'). specialize (Hc (S depth) Hd). lia. }
  apply H; assumption.
Qed.

Lemma stb_json_duplicate_rec_same (item : stb_json) :
  forall (depth : nat) (r : stb_json),
  no_constant_keys item = true ->
  stb_json_duplicate_rec item depth true = Some r -> r = item.
Proof.
  induction item as [item IH] using stb_json_induction. intros depth r Hn.
  rewrite stb_json_duplicate_rec_eq. cbv zeta. cbn [negb].
  assert (Hn' : negb (has_constant_key item) && forallb no_constant_keys (child item) = true)
    by (destruct item; exact Hn).
  apply andb_true_iff in Hn' as [Hk Hc]. apply negb_true_iff in Hk.
  destruct (Nat.leb STB_JSON_CIRCULAR_LIMIT depth); [discriminate |].
  destruct (duplicate_children _ (child item)) as [rs |] eqn:E; [| discriminate].
  intros [= <-].
  assert (Hrs : rs = child item).
  { refine (duplicate_children_same _ _ _ _ E).
    rewrite Forall_forall in IH |- *. intros c Hin r' Hr'.
    apply (IH c Hin (S depth) r'); [| exact Hr'].
    rewrite forallb_forall in Hc. apply Hc, list_elem_of_In, Hin. }
  rewrite Hrs. unfold has_constant_key in Hk.
  destruct item as [c ty vs vi vd k]. cbn in *.
  destruct k as [k |]; [| reflexivity].
  apply negb_false_iff in Hk. rewrite Hk. reflexivity.
Qed.

Lemma duplicate_children_length (duplicate : stb_json -> option stb_json)
    (l rs : list stb_json) :
  duplicate_children duplicate l = Some rs -> length rs = length l.
Proof.
  revert rs. induction l as [| c l IH]; intros rs; cbn [duplicate_children].
  - intros [= <-]. reflexivity.
  - destruct (duplicate c) as [r |]; [| discriminate].
    destruct (duplicate_children duplicate l) as [rest |]; [| discriminate].
    intros [= <-]. cbn [length]. rewrite (IH rest eq_refl). reflexivity.
Qed.

(** X14: a deep copy succeeds exactly when the tree has at most
    [STB_JSON_CIRCULAR_LIMIT] levels, and a shallow copy always succeeds.
    The copy has the type, number and text of the original and as many
    children (none for a shallow copy); it has the key of the original,
    except that a constant key is dropped while its flag stays in the
    type.  Allocation is taken to succeed. *)
Theorem stb_json_duplicate_limit (v : stb_json) :
  (stb_json_duplicate (Some v) true <> None
   <-> (height v <= STB_JSON_CIRCULAR_LIMIT)%nat) /\
  stb_json_duplicate (Some v) false <> None /\
  (forall recurse, stb_json_duplicate None recurse = None) /\
  forall (recurse : bool) (r : stb_json),
    stb_json_duplicate (Some v) recurse = Some r ->
    type r = type v /\ valueint r = valueint v /\ valuedouble r = valuedouble v /\
    valuestring r = valuestring v /\
    string r = (if has_constant_key v then None else string v) /\
    length (child r) = (if recurse then length (child v) else O).
Proof.
  split; [| split; [| split]].
  - cbn [stb_json_duplicate]. split.
    + intros H. apply (stb_json_duplicate_rec_limit v O H).
    + intros H. destruct (stb_json_duplicate_rec_total v O H) as [r Hr].
      rewrite Hr. discriminate.
  - cbn [stb_json_duplicate]. rewrite stb_json_duplicate_rec_eq. discriminate.
  - reflexivity.
  - intros recurse r. cbn [stb_json_duplicate]. rewrite stb_json_duplicate_rec_eq.
    cbv zeta. unfold has_constant_key.
    destruct recurse; cbn [negb].
    + destruct (Nat.leb STB_JSON_CIRCULAR_LIMIT 0); [discriminate |].
      destruct (duplicate_children _ (child v)) as [rs |] eqn:E; [| discriminate].
      apply duplicate_children_length in E. intros [= <-].
      destruct (string v) as [k |]; [destruct (_ =? 0) |]; cbn; auto 10.
    + intros [= <-].
      destruct (string v) as [k |]; [destruct (_ =? 0) |]; cbn; auto 10.
Qed.

(** X15: a tree without constant keys that fits under the limit is copied
    node for node: the deep copy has the same kinds, values, keys and
    children in the same order, and when the tree is comparable
    [stb_json_compare] finds the copy equal to the original. *)
Theorem stb_json_duplicate_same (cs : bool) (v : stb_json)
    (Hh : (height v <= STB_JSON_CIRCULAR_LIMIT)%nat)
    (Hc : no_constant_keys v = true) :
  stb_json_duplicate (Some v) true = Some v /\
  (comparable v = true ->
   stb_json_compare distinct_nodes (stb_json_duplicate (Some v) true) (Some v) cs
   = Some true).
Proof.
  assert (H : stb_json_duplicate (Some v) true = Some v).
  { cbn [stb_json_duplicate].
    destruct (stb_json_duplicate_rec_total v O Hh) as [r Hr].
    rewrite Hr. f_equal. exact (stb_json_duplicate_rec_same v O r Hc Hr). }
  split; [exact H |]. rewrite H. intros Hv. apply compare_nodes_self, Hv.
Qed.

Lemma stb_json_duplicate_same_witness :
  stb_json_duplicate (Some sample_test) true = Some sample_test /\
  stb_json_compare distinct_nodes (stb_json_duplicate (Some sample_test) true)
    (Some sample_test) true = Some true.
Proof.
  destruct (stb_json_duplicate_same true sample_test) as [H1 H2].
  - apply Nat.leb_le. vm_compute. reflexivity.
  - reflexivity.
  - split; [exact H1 | apply H2; reflexivity].
Defined.

(** ** Sorting the members of an object *)

Lemma strcmp_key_order (x y : list ascii) :
  strcmp x y = key_order (map code x) (map code y).
Proof.
  revert y. induction x as [| a x IH]; intros [| b y]; cbn [strcmp key_order map];
    try reflexivity.
  rewrite IH. reflexivity.
Qed.

Lemma case_insensitive_key_order (x y : list ascii) :
  case_insensitive_loop x y = key_order (map tolower x) (map tolower y).
Proof.
  revert y. induction x as [| a x IH]; intros [| b y];
    cbn [case_insensitive_loop key_order map]; try reflexivity.
  rewrite IH. reflexivity.
Qed.

Lemma compare_strings_key_order (cs : bool) (x y : list ascii) :
  compare_strings (Some x) (Some y) cs = key_order (key_text cs x) (key_text cs y).
Proof.
  unfold compare_strings, key_text, case_insensitive_strcmp.
  destruct cs; [apply strcmp_key_order | apply case_insensitive_key_order].
Qed.

Lemma key_order_opp (a b : list Z) : key_order b a = - key_order a b.
Proof.
  revert b. induction a as [| x a IH]; intros [| y b]; cbn [key_order]; try lia.
  rewrite (Z.eqb_sym y x). destruct (x =? y); [apply IH | lia].
Qed.

Lemma key_order_trans (a : list Z) :
  forall b c : list Z,
  Forall (fun z => 0 < z) a -> Forall (fun z => 0 < z) b -> Forall (fun z => 0 < z) c ->
  key_order a b <= 0 -> key_order b c <= 0 -> key_order a c <= 0.
Proof.
  induction a as [| x a IH]; intros b c Ha Hb Hc Hab Hbc.
  - destruct c as [| z c]; cbn [key_order]; [lia |].
    inversion Hc; subst. lia.
  - inversion Ha as [| ? ? Hx Ha']; subst.
    destruct b as [| y b]; cbn [key_order] in Hab; [lia |].
    inversion Hb as [| ? ? Hy Hb']; subst.
    destruct c as [| z c]; cbn [key_order] in Hbc |- *; [lia |].
    inversion Hc as [| ? ? Hz Hc']; subst.
    destruct (Z.eqb_spec x y) as [Exy | Exy]; destruct (Z.eqb_spec y z) as [Eyz | Eyz];
      destruct (Z.eqb_spec x z) as [Exz | Exz]; try lia.
    apply (IH b c); assumption.
Qed.

Lemma key_text_positive (cs : bool) (k : list ascii) :
  c_string k = true -> Forall (fun z => 0 < z) (key_text cs k).
Proof.
  intros Hk. unfold c_string in Hk. rewrite forallb_forall in Hk.
  unfold key_text. destruct cs; apply Forall_forall; intros z Hz;
    apply list_elem_of_In, in_map_iff in Hz; destruct Hz as (c & <- & Hc);
    specialize (Hk c Hc); apply negb_true_iff, Z.eqb_neq in Hk;
    pose proof (code_nonneg c) as Hn.
  - lia.
  - assert (tolower c <> 0) by (rewrite tolower_zero; exact Hk).
    unfold tolower in *. destruct (_ && _); lia.
Qed.

Lemma keyed_members_Forall (l : list stb_json) :
  keyed_members l = true <-> Forall keyed_member l.
Proof.
  unfold keyed_members. rewrite forallb_forall, Forall_forall. unfold keyed_member.
  split; intros H m Hm.
  - apply list_elem_of_In in Hm. specialize (H m Hm).
    destruct (string m) as [k |]; [eauto | discriminate].
  - apply list_elem_of_In in Hm. destruct (H m Hm) as (k & -> & Hk). exact Hk.
Qed.

Lemma key_le_trans (cs : bool) (x y z : stb_json) :
  keyed_member x -> keyed_member y -> keyed_member z ->
  key_le cs x y -> key_le cs y z -> key_le cs x z.
Proof.
  intros (kx & Hx & Cx) (ky & Hy & Cy) (kz & Hz & Cz). unfold key_le.
  rewrite Hx, Hy, Hz, !compare_strings_key_order.
  apply key_order_trans; apply key_text_positive; assumption.
Qed.

Lemma key_le_total (cs : bool) (x y : stb_json) :
  keyed_member x -> keyed_member y ->
  (compare_strings (string x) (string y) cs <? 0) = false -> key_le cs y x.
Proof.
  intros (kx & Hx & Cx) (ky & Hy & Cy). unfold key_le.
  rewrite Hx, Hy, !compare_strings_key_order, (key_order_opp (key_text cs kx)).
  intros H. apply Z.ltb_ge in H. lia.
Qed.

Lemma keys_ascending_Forall (cs : bool) (x : stb_json) (l : list stb_json) :
  keyed_member x -> Forall keyed_member l -> keys_ascending cs l ->
  forall y l', l = y :: l' -> keyed_member y -> key_le cs x y -> Forall (key_le cs x) l.
Proof.
  intros Kx Kl Hl y l' -> Ky Hxy. destruct Hl as [Hy _]. constructor; [exact Hxy |].
  inversion Kl as [| ? ? _ Kl']; subst.
  rewrite Forall_forall in Hy, Kl' |- *. intros z Hz.
  apply (key_le_trans cs x y z); auto.
Qed.

Lemma sort_list_merge_ascending (cs : bool) (first : list stb_json) :
  forall second : list stb_json,
  Forall keyed_member first -> Forall keyed_member second ->
  keys_ascending cs first -> keys_ascending cs second ->
  keys_ascending cs (sort_list_merge cs first second).
Proof.
  induction first as [| f first IHf]; intros second Kf Ks Hf Hs.
  - destruct second; exact Hs.
  - induction second as [| s second IHs]; [exact Hf |].
    inversion Kf as [| ? ? Kf1 Kf']; subst. inversion Ks as [| ? ? Ks1 Ks']; subst.
    destruct Hf as [Hf1 Hf']. destruct Hs as [Hs1 Hs'].
    cbn [sort_list_merge].
    destruct (compare_strings (string f) (string s) cs <? 0) eqn:E.
    + split.
      * rewrite <- (sort_list_merge_perm cs first (s :: second)).
        apply Forall_app. split; [exact Hf1 |].
        apply (keys_ascending_Forall cs f (s :: second) Kf1 Ks (conj Hs1 Hs') s second
                 eq_refl Ks1).
        unfold key_le. apply Z.ltb_lt in E. lia.
      * apply IHf; [assumption .. | split; assumption].
    + pose proof (key_le_total cs f s Kf1 Ks1 E) as Hsf. split.
      * change ((fix merge_second (second0 : list stb_json) : list stb_json :=
                   match second0 with
                   | [] => f :: first
                   | s0 :: second' =>
                       if compare_strings (string f) (string s0) cs <? 0
                       then f :: sort_list_merge cs first second0
                       else s0 :: merge_second second'
                   end) second)
          with (sort_list_merge cs (f :: first) second).
        rewrite <- (sort_list_merge_perm cs (f :: first) second).
        apply Forall_app. split; [| exact Hs1].
        apply (keys_ascending_Forall cs s (f :: first) Ks1 Kf (conj Hf1 Hf') f first
                 eq_refl Kf1 Hsf).
      * apply IHs; assumption.
Qed.

Lemma sort_list_middle_length (current : list stb_json) :
  forall second : list stb_json,
  length (sort_list_middle second current) = (length second - Nat.div2 (length current))%nat.
Proof.
  induction current as [current IH] using (induction_ltof1 _ (@length _)).
  intros second. destruct current as [| x [| y current']]; cbn [sort_list_middle length Nat.div2].
  - lia.
  - lia.
  - rewrite (IH current') by (unfold ltof; simpl; lia).
    destruct second as [| s second']; unfold tl; cbn [length].
    all: generalize (Nat.div2 (length current')); intros d; lia.
Qed.

Lemma div2_le (n : nat) : (Nat.div2 n <= n)%nat.
Proof. apply Nat.div2_decr. lia. Qed.

Lemma sort_list_fuel_ascending (cs : bool) (fuel : nat) :
  forall l : list stb_json,
  (length l <= fuel)%nat -> Forall keyed_member l ->
  keys_ascending cs (sort_list_fuel fuel l cs).
Proof.
  induction fuel as [| fuel IH]; intros l Hlen Kl.
  - destruct l; [exact I | simpl in Hlen; lia].
  - destruct l as [| x [| y l']]; [exact I | split; [constructor | exact I] |].
    cbn [sort_list_fuel].
    assert (Hdiv : (1 <= Nat.div2 (length (x :: y :: l')) < length (x :: y :: l'))%nat).
    { cbn [length Nat.div2]. pose proof (div2_le (length l')) as D. revert D.
      generalize (Nat.div2 (length l')). intros d D. lia. }
    pose proof (sort_list_split (x :: y :: l')) as Hsplit.
    pose proof (sort_list_middle_length (x :: y :: l') (x :: y :: l')) as Hmid.
    revert Hdiv Hmid. generalize (Nat.div2 (length (x :: y :: l'))). intros d Hdiv Hmid.
    revert Hsplit Hmid Hlen Kl Hdiv. generalize (x :: y :: l'). clear x y l'.
    intros l Hsplit Hmid Hlen Kl Hdiv.
    set (second := sort_list_middle l l) in *.
    set (first := firstn (length l - length second) l) in *.
    assert (Hfirst : length first = d) by (unfold first; rewrite length_firstn; lia).
    assert (K : Forall keyed_member first /\ Forall keyed_member second)
      by (apply Forall_app; rewrite Hsplit; exact Kl).
    destruct K as [K1 K2].
    apply sort_list_merge_ascending.
    + rewrite <- (sort_list_fuel_perm fuel first cs). exact K1.
    + rewrite <- (sort_list_fuel_perm fuel second cs). exact K2.
    + apply IH; [lia | exact K1].
    + apply IH; [lia | exact K2].
Qed.



(** ** From a node to its pointer and back *)

Lemma digit_char_digit (d : Z) :
  0 <= d <= 9 ->
  is_digit (digit_char d) = true /\ code (digit_char d) = 48 + d /\
  Ascii.eqb (digit_char d) "/" = false /\
  (1 <= d -> Ascii.eqb (digit_char d) "0" = false).
Proof.
  intros Hd.
  assert (H : d = 0 \/ d = 1 \/ d = 2 \/ d = 3 \/ d = 4 \/ d = 5 \/ d = 6 \/ d = 7
              \/ d = 8 \/ d = 9) by lia.
  repeat (destruct H as [-> | H]); try subst d;
    (split; [reflexivity | split; [reflexivity | split; [reflexivity |]]]);
    intros H1; try reflexivity; lia.
Qed.

Lemma decimal_digits_step (fuel : nat) (n : Z) :
  decimal_digits (S fuel) n
  = if n <? 10 then [digit_char n]
    else decimal_digits fuel (n / 10) ++ [digit_char (n mod 10)].
Proof. reflexivity. Qed.

Lemma decimal_digits_are_digits (fuel : nat) :
  forall n, 0 <= n -> Forall (fun c => is_digit c = true) (decimal_digits fuel n).
Proof.
  induction fuel as [| fuel IH]; intros n Hn; [constructor |].
  rewrite decimal_digits_step. destruct (n <? 10) eqn:E.
  - apply Z.ltb_lt in E. repeat constructor. apply digit_char_digit. lia.
  - apply Forall_app. split.
    + apply IH. apply Z.div_pos; lia.
    + repeat constructor. apply digit_char_digit.
      pose proof (Z.mod_pos_bound n 10). lia.
Qed.

Lemma decimal_digits_head (fuel : nat) :
  forall n, 1 <= n < 10 ^ Z.of_nat fuel ->
  exists c l, decimal_digits fuel n = c :: l /\ Ascii.eqb c "0" = false.
Proof.
  induction fuel as [| fuel IH]; intros n Hn.
  - change (10 ^ Z.of_nat 0) with 1 in Hn. lia.
  - rewrite decimal_digits_step. destruct (n <? 10) eqn:E.
    + apply Z.ltb_lt in E. eexists _, _. split; [reflexivity |].
      apply digit_char_digit; lia.
    + apply Z.ltb_ge in E.
      destruct (IH (n / 10)) as (c & l & Hc & Hz).
      { rewrite Nat2Z.inj_succ, Z.pow_succ_r in Hn by lia.
        split; [apply Z.div_le_lower_bound; lia | apply Z.div_lt_upper_bound; lia]. }
      rewrite Hc. eexists _, _. split; [reflexivity | exact Hz].
Qed.

Lemma decode_index_digits_decimal (fuel : nat) :
  forall (n acc : Z) (pos : nat) (rest : list ascii),
  0 <= n < 10 ^ Z.of_nat fuel -> 0 <= acc ->
  acc * 10 ^ Z.of_nat (length (decimal_digits fuel n)) + n < 2 ^ 64 ->
  decode_index_digits acc pos (decimal_digits fuel n ++ rest)
  = decode_index_digits (acc * 10 ^ Z.of_nat (length (decimal_digits fuel n)) + n)
      (pos + length (decimal_digits fuel n)) rest.
Proof.
  induction fuel as [| fuel IH]; intros n acc pos rest Hn Hacc Hfit.
  - change (10 ^ Z.of_nat 0) with 1 in Hn. assert (n = 0) by lia. subst n.
    cbn [decimal_digits length app]. change (10 ^ Z.of_nat 0) with 1.
    rewrite Z.mul_1_r, Z.add_0_r, Nat.add_0_r. reflexivity.
  - rewrite decimal_digits_step in *. destruct (n <? 10) eqn:E.
    + apply Z.ltb_lt in E. cbn [length app] in *.
      destruct (digit_char_digit n ltac:(lia)) as (H1 & H2 & _).
      cbn [decode_index_digits]. rewrite H1, H2.
      change (10 ^ Z.of_nat 1) with 10 in *.
      rewrite Z.mod_small by lia. f_equal; lia.
    + apply Z.ltb_ge in E.
      assert (Hq : 0 <= n / 10 < 10 ^ Z.of_nat fuel).
      { rewrite Nat2Z.inj_succ, Z.pow_succ_r in Hn by lia.
        split; [apply Z.div_pos; lia | apply Z.div_lt_upper_bound; lia]. }
      pose proof (Z.mod_pos_bound n 10 ltac:(lia)) as Hm.
      pose proof (Z.div_mod n 10 ltac:(lia)) as Hdm.
      rewrite length_app in *. cbn [length] in *.
      set (len := length (decimal_digits fuel (n / 10))) in *.
      replace (Z.of_nat (len + 1)) with (Z.succ (Z.of_nat len)) in * by lia.
      rewrite Z.pow_succ_r in * by lia.
      assert (Hp : 0 < 10 ^ Z.of_nat len) by (apply Z.pow_pos_nonneg; lia).
      rewrite <- app_assoc. cbn [app].
      assert (Hap : 0 <= acc * 10 ^ Z.of_nat len) by (apply Z.mul_nonneg_nonneg; lia).
      replace (acc * (10 * 10 ^ Z.of_nat len)) with (10 * (acc * 10 ^ Z.of_nat len))
        in * by ring.
      change (2 ^ 64) with 18446744073709551616 in *.
      rewrite (IH (n / 10) acc pos _ Hq Hacc) by (fold len; lia).
      fold len.
      destruct (digit_char_digit (n mod 10) ltac:(lia)) as (H1 & H2 & _).
      cbn [decode_index_digits]. rewrite H1, H2.
      rewrite Z.mod_small by lia.
      f_equal; lia.
Qed.

Lemma pointer_rest_no_digit (rest : list ascii) (acc : Z) (pos : nat) :
  match rest with [] => True | c :: _ => c = "/"%char end ->
  decode_index_digits acc pos rest = (acc, pos, rest).
Proof. destruct rest as [| c rest]; [reflexivity |]. intros ->. reflexivity. Qed.

Lemma decode_array_index_printed (i : nat) (rest : list ascii) :
  Z.of_nat i < 2 ^ 64 ->
  match rest with [] => True | c :: _ => c = "/"%char end ->
  decode_array_index_from_pointer (sprintf_zu i ++ rest) = Some i.
Proof.
  intros Hi Hrest. unfold sprintf_zu.
  assert (Hn : 0 <= Z.of_nat i < 10 ^ Z.of_nat 20).
  { change (2 ^ 64) with 18446744073709551616 in Hi.
    change (10 ^ Z.of_nat 20) with 100000000000000000000. lia. }
  assert (Hfit : 0 * 10 ^ Z.of_nat (length (decimal_digits 20 (Z.of_nat i))) + Z.of_nat i
                 < 2 ^ 64) by lia.
  pose proof (decode_index_digits_decimal 20 (Z.of_nat i) 0 0 rest Hn ltac:(lia) Hfit) as D.
  rewrite (pointer_rest_no_digit rest _ _ Hrest) in D.
  rewrite Z.mul_0_l, Z.add_0_l in D. cbn [Nat.add] in D.
  destruct (Z.eq_dec (Z.of_nat i) 0) as [Hz | Hnz].
  - assert (i = O) by lia. subst i. destruct rest as [| c rest]; [reflexivity |].
    subst c. reflexivity.
  - destruct (decimal_digits_head 20 (Z.of_nat i) ltac:(lia)) as (c & l & Hc & Hzero).
    unfold decode_array_index_from_pointer. rewrite D, Hc. cbn [app length Nat.eqb].
    rewrite Hzero. cbn [andb]. rewrite orb_false_r, Nat2Z.id.
    assert (Hstop : match rest with c0 :: _ => negb (Ascii.eqb c0 "/") | [] => false end = false).
    { destruct rest as [| c0 rest]; [reflexivity |]. subst c0. reflexivity. }
    rewrite Hstop. destruct (l ++ rest); reflexivity.
Qed.

Lemma skip_token_app (token rest : list ascii) :
  Forall (fun c => Ascii.eqb c "/" = false) token ->
  match rest with [] => True | c :: _ => c = "/"%char end ->
  skip_token (token ++ rest) = rest.
Proof.
  intros Ht Hrest. induction Ht as [| c token Hc _ IH]; cbn [app skip_token].
  - destruct rest as [| c rest]; [reflexivity |]. subst c. reflexivity.
  - rewrite Hc. exact IH.
Qed.

Lemma encode_string_as_pointer_no_slash (k : list ascii) :
  Forall (fun c => Ascii.eqb c "/" = false) (encode_string_as_pointer k).
Proof.
  induction k as [| c k IH]; cbn [encode_string_as_pointer]; [constructor |].
  destruct (Ascii.eqb c "/") eqn:E1; [repeat constructor; exact IH |].
  destruct (Ascii.eqb c "~") eqn:E2; [repeat constructor; exact IH |].
  constructor; assumption.
Qed.

Lemma sprintf_zu_no_slash (i : nat) :
  Forall (fun c => Ascii.eqb c "/" = false) (sprintf_zu i).
Proof.
  unfold sprintf_zu.
  pose proof (decimal_digits_are_digits 20 (Z.of_nat i) ltac:(lia)) as H.
  rewrite Forall_forall in H |- *. intros c Hc. specialize (H c Hc).
  destruct (Ascii.eqb c "/") eqn:E; [| reflexivity].
  apply Ascii.eqb_eq in E. subst c. discriminate H.
Qed.

Lemma find_member_first (cs : bool) (k rest : list ascii) (c : stb_json) :
  string c = Some k ->
  match rest with [] => True | x :: _ => x = "/"%char end ->
  forall (l : list stb_json) (i : nat),
  nth_error l i = Some c ->
  (Some (key_text cs k) ∉ map (member_key cs) (firstn i l)) ->
  find_member l (encode_string_as_pointer k ++ rest) cs = Some i.
Proof.
  intros Hc Hrest l. induction l as [| m l IH]; intros i Hi Hfirst.
  - destruct i; discriminate Hi.
  - destruct i as [| i]; cbn [find_member].
    + injection Hi as ->. rewrite Hc.
      assert (H : compare_pointers k (encode_string_as_pointer k ++ rest) cs = true)
        by (apply (compare_pointers_token cs k rest Hrest k); reflexivity).
      rewrite H. reflexivity.
    + cbn [firstn map] in Hfirst. apply not_elem_of_cons in Hfirst as [Hm Hfirst].
      cbn [nth_error] in Hi. rewrite (IH i Hi Hfirst).
      destruct (string m) as [k' |] eqn:Em; [| reflexivity].
      destruct (compare_pointers k' (encode_string_as_pointer k ++ rest) cs) eqn:E;
        [| reflexivity].
      apply (compare_pointers_token cs k rest Hrest k') in E.
      exfalso. apply Hm. unfold member_key. rewrite Em. cbn. rewrite E. reflexivity.
Qed.

Lemma find_pointer_shape (target : list nat) :
  forall (o : stb_json) (text : list ascii),
  stb_json_utils_findpointerfromobjectto o target = Some text ->
  match text with [] => True | c :: _ => c = "/"%char end.
Proof.
  destruct target as [| i target]; intros o text; cbn [stb_json_utils_findpointerfromobjectto].
  - intros [= <-]. exact I.
  - destruct (nth_error (child o) i) as [c |]; [| discriminate].
    destruct (stb_json_utils_findpointerfromobjectto c target) as [tp |]; [| discriminate].
    destruct (kind o =? STB_JSON_ARRAY); [intros [= <-]; reflexivity |].
    destruct (kind o =? STB_JSON_OBJECT); [| discriminate].
    destruct (string c); [intros [= <-]; reflexivity | discriminate].
Qed.

Lemma get_item_from_pointer_loop_found (cs : bool) (target : list nat) :
  forall (o : stb_json) (text : list ascii) (fuel : nat),
  addressable cs o target ->
  stb_json_utils_findpointerfromobjectto o target = Some text ->
  (length text < fuel)%nat ->
  get_item_from_pointer_loop fuel o text cs = Some target.
Proof.
  induction target as [| i target IH]; intros o text fuel Ha Hf Hfuel.
  - cbn in Hf. injection Hf as <-. destruct fuel; [simpl in Hfuel; lia | reflexivity].
  - cbn [addressable stb_json_utils_findpointerfromobjectto] in Ha, Hf.
    destruct (nth_error (child o) i) as [c |] eqn:Hi; [| contradiction].
    destruct Ha as [Hkind Ha].
    destruct (stb_json_utils_findpointerfromobjectto c target) as [tp |] eqn:Htp;
      [| discriminate].
    pose proof (find_pointer_shape target c tp Htp) as Hshape.
    destruct fuel as [| fuel]; [lia |].
    destruct Hkind as [[Hk Hsize] | (Hk & k & Hc & Hkc & Hfirst)].
    + rewrite Hk in Hf. change (STB_JSON_ARRAY =? STB_JSON_ARRAY) with true in Hf.
      injection Hf as <-. cbn [get_item_from_pointer_loop].
      change (Ascii.eqb "/" "/") with true. cbv iota. rewrite Hk.
      change (STB_JSON_ARRAY =? STB_JSON_ARRAY) with true. cbv iota.
      rewrite (decode_array_index_printed i tp Hsize Hshape), Hi.
      rewrite (skip_token_app _ _ (sprintf_zu_no_slash i) Hshape).
      rewrite (IH c tp fuel Ha Htp); [reflexivity |].
      cbn [length] in Hfuel. rewrite length_app in Hfuel. lia.
    + rewrite Hk, Hc in Hf. change (STB_JSON_OBJECT =? STB_JSON_ARRAY) with false in Hf.
      change (STB_JSON_OBJECT =? STB_JSON_OBJECT) with true in Hf.
      injection Hf as <-. cbn [get_item_from_pointer_loop].
      change (Ascii.eqb "/" "/") with true. cbv iota. rewrite Hk.
      change (STB_JSON_OBJECT =? STB_JSON_ARRAY) with false.
      change (STB_JSON_OBJECT =? STB_JSON_OBJECT) with true. cbv iota.
      rewrite (find_member_first cs k tp c Hc Hshape (child o) i Hi Hfirst), Hi.
      rewrite (skip_token_app _ _ (encode_string_as_pointer_no_slash k) Hshape).
      rewrite (IH c tp fuel Ha Htp); [reflexivity |].
      cbn [length] in Hfuel. rewrite length_app in Hfuel. lia.
Qed.

Lemma find_pointer_total (cs : bool) (target : list nat) :
  forall o : stb_json, addressable cs o target ->
  exists text, stb_json_utils_findpointerfromobjectto o target = Some text.
Proof.
  induction target as [| i target IH]; intros o Ha; [exists []; reflexivity |].
  cbn [addressable stb_json_utils_findpointerfromobjectto] in *.
  destruct (nth_error (child o) i) as [c |]; [| contradiction].
  destruct Ha as [Hkind Ha]. destruct (IH c Ha) as [tp Htp]. rewrite Htp.
  destruct Hkind as [[Hk _] | (Hk & k & Hc & _)]; rewrite Hk.
  - eexists. reflexivity.
  - rewrite Hc. eexists. reflexivity.
Qed.

(** X17: for a node that a pointer can name,
    [stb_json_utils_findpointerfromobjectto] returns a pointer, and
    [get_item_from_pointer] follows this pointer from the same root back
    to the node: array indices are written in decimal and read back, keys
    are escaped and compared through their escapes.  Allocation is
    taken to succeed. *)
Theorem pointer_round_trip (cs : bool) (o : stb_json) (target : list nat)
    (Ha : addressable cs o target) :
  exists text,
    stb_json_utils_findpointerfromobjectto o target = Some text /\
    get_item_from_pointer (Some o) (Some text) cs = Some target /\
    node_at o target <> None.
Proof.
  destruct (find_pointer_total cs target o Ha) as [text Ht].
  exists text. split; [exact Ht |]. split.
  - apply (get_item_from_pointer_loop_found cs target o text _ Ha Ht). lia.
  - clear text Ht. revert o Ha. induction target as [| i target IH]; intros o Ha;
      [discriminate |].
    cbn [addressable node_at] in *.
    destruct (nth_error (child o) i) as [c |]; [| contradiction].
    apply IH, Ha.
Qed.

Lemma pointer_round_trip_witness :
  exists text,
    stb_json_utils_findpointerfromobjectto sample_test [2%nat] = Some text /\
    get_item_from_pointer (Some sample_test) (Some text) true = Some [2%nat].
Proof.
  destruct (pointer_round_trip true sample_test [2%nat]) as (text & H1 & H2 & _).
  - cbn [addressable].
    change (nth_error (child sample_test) 2) with (Some (keyed "value" sample_document)).
    split; [| exact I]. right. split; [reflexivity |].
    exists (lit "value"). split; [reflexivity |]. split; [reflexivity |].
    apply (bool_decide_unpack _). vm_compute. exact I.
  - exists text. split; assumption.
Defined.

(** ** The minifier outside strings and comments *)

Lemma load_middle (w : list ascii) (c : ascii) (r : list ascii) :
  load (w ++ c :: r) (length w) = Some c.
Proof.
  unfold load. rewrite nth_error_app2 by lia. rewrite Nat.sub_diag. reflexivity.
Qed.

Lemma store_middle (w : list ascii) (x c : ascii) (r : list ascii) :
  store (w ++ x :: r) (length w) c = Some (w ++ c :: r).
Proof.
  unfold store. rewrite length_app. cbn [length].
  assert (H : Nat.ltb (length w) (length w + S (length r)) = true)
    by (apply Nat.ltb_lt; lia).
  rewrite H. f_equal. rewrite insert_app_r_alt by lia.
  rewrite Nat.sub_diag. reflexivity.
Qed.

Lemma cstring_app (w rest : list ascii) :
  forallb (fun c => negb (Ascii.eqb c NUL)) w = true ->
  cstring (w ++ NUL :: rest) = w.
Proof.
  induction w as [| c w IH]; cbn [forallb app cstring].
  - intros _. rewrite Ascii.eqb_refl. reflexivity.
  - intros H. apply andb_true_iff in H as [Hc Hw]. apply negb_true_iff in Hc.
    rewrite Hc, (IH Hw). reflexivity.
Qed.

(** The loop of [stb_json_minify] with [w] written, a gap [g] between the
    write and the read cursor and the plain text [r] still to read. *)
Lemma minify_loop_plain (r : list ascii) :
  forall (fuel : nat) (w g : list ascii),
  plain_text r = true -> (length r < fuel)%nat ->
  exists tail,
    minify_loop fuel (w ++ g ++ r ++ [NUL]) (length w + length g) (length w)
    = Some ((w ++ List.filter (fun c => negb (minify_blank c)) r) ++ NUL :: tail).
Proof.
  induction r as [| c r IH]; intros fuel w g Hr Hfuel.
  - destruct fuel as [| fuel]; [lia |]. cbn [app List.filter minify_loop].
    rewrite app_assoc, <- length_app, load_middle, Ascii.eqb_refl.
    rewrite <- app_assoc, app_nil_r.
    destruct g as [| x g]; cbn [app]; rewrite store_middle; eexists; reflexivity.
  - destruct fuel as [| fuel]; [lia |]. cbn [length] in Hfuel.
    cbn [plain_text forallb] in Hr. apply andb_true_iff in Hr as [Hc Hr].
    apply andb_true_iff in Hc as [Hc Hslash]. apply andb_true_iff in Hc as [Hnul Hquote].
    apply negb_true_iff in Hnul, Hquote, Hslash.
    cbn [minify_loop List.filter].
    replace (w ++ g ++ (c :: r) ++ [NUL]) with ((w ++ g) ++ c :: r ++ [NUL])
      by (rewrite <- app_assoc; reflexivity).
    rewrite <- length_app, load_middle, Hnul.
    fold (minify_blank c). destruct (minify_blank c) eqn:Hb; cbn [negb].
    + destruct (IH fuel w (g ++ [c]) Hr ltac:(lia)) as [tail Htail].
      exists tail. rewrite <- Htail. rewrite !length_app. cbn [length].
      rewrite <- !app_assoc. cbn [app].
      f_equal. lia.
    + rewrite Hslash, Hquote.
      destruct g as [| x g].
      * rewrite app_nil_r. rewrite store_middle.
        destruct (IH fuel (w ++ [c]) [] Hr ltac:(lia)) as [tail Htail].
        exists tail. rewrite <- !app_assoc in Htail. cbn [app] in Htail.
        rewrite <- app_assoc. cbn [app]. rewrite <- Htail.
        rewrite !length_app. cbn [length]. f_equal; lia.
      * rewrite <- app_assoc. cbn [app]. rewrite store_middle.
        destruct (IH fuel (w ++ [c]) (g ++ [c]) Hr ltac:(lia)) as [tail Htail].
        exists tail. rewrite <- !app_assoc in Htail. cbn [app] in Htail.
        rewrite <- app_assoc. cbn [app]. rewrite <- Htail.
        rewrite !length_app. cbn [length]. f_equal; lia.
Qed.

(** X18: on a text in which no string and no comment begins,
    [stb_json_minify] removes the spaces, tabs, carriage returns and line
    feeds and keeps every other byte, in order. *)
Theorem minify_plain_text (json : list ascii) (Hp : plain_text json = true) :
  stb_json_minify json = Some (List.filter (fun c => negb (minify_blank c)) json).
Proof.
  unfold stb_json_minify.
  destruct (minify_loop_plain json (S (length (json ++ [NUL]))) [] [] Hp) as [tail Ht].
  { rewrite length_app. cbn [length]. lia. }
  cbn [app length Nat.add] in Ht. rewrite Ht. f_equal.
  apply cstring_app. apply forallb_forall. intros c Hc.
  apply filter_In in Hc as [Hc _].
  unfold plain_text in Hp. rewrite forallb_forall in Hp. specialize (Hp c Hc).
  apply andb_true_iff in Hp as [Hp _]. apply andb_true_iff in Hp as [Hp _]. exact Hp.
Qed.

Lemma minify_plain_text_witness :
  stb_json_minify (lit "[1, 2 ,  true]") = Some (lit "[1,2,true]").
Proof.
  apply (minify_plain_text (lit "[1, 2 ,  true]")). reflexivity.
Defined.

(** ** The cursor of the parser *)

Lemma skip_whitespace_fields (b : parse_buffer) :
  content (buffer_skip_whitespace b) = content b /\
  depth (buffer_skip_whitespace b) = depth b.
Proof. unfold buffer_skip_whitespace. destruct (Nat.eqb _ _); split; reflexivity. Qed.

Lemma whitespace_run_length (l : list ascii) : (whitespace_run l <= length l)%nat.
Proof.
  induction l as [| c l IH]; cbn [whitespace_run length]; [lia |].
  destruct (code c <=? 32); lia.
Qed.

(** Where [buffer_skip_whitespace] leaves the cursor: inside the buffer
    and not before its start when it starts inside, on the last byte when
    it starts at the end. *)
Lemma skip_whitespace_offset (b : parse_buffer) :
  ((offset b < length (content b) ->
    offset b <= offset (buffer_skip_whitespace b) < length (content b)) /\
   (offset b = length (content b) ->
    offset (buffer_skip_whitespace b) = length (content b) - 1))%nat.
Proof.
  unfold buffer_skip_whitespace.
  pose proof (whitespace_run_length (skipn (offset b) (content b))) as H.
  rewrite length_skipn in H.
  destruct (Nat.eqb _ _) eqn:E; cbn [offset set_offset];
    [apply Nat.eqb_eq in E | apply Nat.eqb_neq in E]; split; intros Ho; lia.
Qed.

Lemma skip_whitespace_after (b : parse_buffer) (x : nat) :
  (x < length (content b) -> offset b = S x ->
   x <= offset (buffer_skip_whitespace b))%nat.
Proof.
  intros Hx Ho. destruct (skip_whitespace_offset b) as [H1 H2].
  destruct (Nat.eq_dec (offset b) (length (content b))) as [E | E].
  - rewrite (H2 E). lia.
  - specialize (H1 ltac:(lia)). lia.
Qed.

Lemma skip_whitespace_behind (b : parse_buffer) (x : nat) :
  (x < offset b <= length (content b) ->
   x <= offset (buffer_skip_whitespace b))%nat.
Proof.
  intros Hx. destruct (skip_whitespace_offset b) as [H1 H2].
  destruct (Nat.eq_dec (offset b) (length (content b))) as [E | E].
  - rewrite (H2 E). lia.
  - specialize (H1 ltac:(lia)). lia.
Qed.

Lemma at_is_inside (b : parse_buffer) (c : ascii) :
  at_is b 0 c = true -> (offset b < length (content b))%nat.
Proof.
  unfold at_is, can_access_at_index. rewrite Nat.add_0_r. intros H.
  apply andb_true_iff in H as [H _]. apply Nat.ltb_lt in H. exact H.
Qed.

Lemma number_c_string_length (l : list ascii) :
  (length (number_c_string l) <= length l)%nat.
Proof.
  induction l as [| c l IH]; cbn [number_c_string length]; [lia |].
  destruct (is_number_char c); cbn [length]; lia.
Qed.

Lemma stb_json_strtod_consumed (pow10 : Z -> double) (nptr : list ascii) :
  (snd (stb_json_strtod pow10 nptr) <= length nptr)%nat.
Proof.
  unfold stb_json_strtod.
  repeat match goal with
         | |- context [let '(_, _) := ?x in _] => destruct x
         end.
  cbn [snd]. lia.
Qed.

Lemma parse_number_cursor (pow10 : Z -> double) (item r : stb_json) (b b' : parse_buffer) :
  can_access_at_index b 0 = true ->
  parse_number pow10 item b = Done (r, b') -> cursor_advanced b b'.
Proof.
  unfold parse_number, can_access_at_index. rewrite Nat.add_0_r. intros Hacc.
  apply Nat.ltb_lt in Hacc.
  destruct (Nat.eqb _ 0); [discriminate |].
  pose proof (stb_json_strtod_consumed pow10
                (number_c_string (skipn (offset b) (content b)))) as Hc.
  pose proof (number_c_string_length (skipn (offset b) (content b))) as Hn.
  rewrite length_skipn in Hn.
  destruct (stb_json_strtod _ _) as [number after_end]. cbn [snd] in Hc.
  destruct (Nat.eqb after_end 0) eqn:E; [discriminate |]. apply Nat.eqb_neq in E.
  intros [= <- <-]. unfold cursor_advanced. cbn [offset content depth set_offset].
  split; [lia | split; reflexivity].
Qed.

Section ParserCursor.
Variable pow10 : Z -> double.
Variable STB_JSON_NESTING_LIMIT : nat.
Variable parse_string : stb_json -> parse_buffer -> outcome (stb_json * parse_buffer).
Hypothesis parse_string_cursor :
  forall item b r b', parse_string item b = Done (r, b') -> cursor_advanced b b'.

Local Abbreviation parse_value_ := (parse_value pow10 STB_JSON_NESTING_LIMIT parse_string).
Local Abbreviation parse_array_loop_ :=
  (parse_array_loop pow10 STB_JSON_NESTING_LIMIT parse_string).
Local Abbreviation parse_object_loop_ :=
  (parse_object_loop pow10 STB_JSON_NESTING_LIMIT parse_string).

Lemma container_cursor (t : Z) (close : ascii)
    (loop : parse_buffer -> outcome (list stb_json * parse_buffer))
    (item : stb_json) (b0 : parse_buffer) (r : stb_json) (b' : parse_buffer) :
  loop_cursor loop ->
  (offset b0 < length (content b0))%nat ->
  (let b := buffer_skip_whitespace (set_offset b0 (offset b0 + 1)) in
   if at_is b 0 close then parse_success item t [] b
   else if cannot_access_at_index b 0 then Failed
   else
     bind (loop (set_offset b (offset b - 1))) (fun r =>
       let '(head, b) := r in
       if cannot_access_at_index b 0 || negb (at_is b 0 close) then Failed
       else parse_success item t head b)) = Done (r, b') ->
  (offset b0 < offset b' <= length (content b0))%nat /\
  content b' = content b0 /\ depth b' = (depth b0 - 1)%nat.
Proof.
  intros Hloop Hp. cbv zeta.
  set (b := buffer_skip_whitespace (set_offset b0 (offset b0 + 1))).
  assert (Hq : (offset b0 <= offset b)%nat).
  { apply (skip_whitespace_after _ (offset b0)); [exact Hp |].
    cbn [offset set_offset]. lia. }
  destruct (skip_whitespace_fields (set_offset b0 (offset b0 + 1))) as [Hc Hd].
  fold b in Hc, Hd. cbn [content depth set_offset] in Hc, Hd.
  destruct (at_is b 0 close) eqn:Hclose.
  - unfold parse_success. intros [= <- <-]. cbn [offset content depth set_offset set_depth].
    apply at_is_inside in Hclose.
    rewrite Hc in *. rewrite Hd. split; [lia | split; reflexivity].
  - destruct (cannot_access_at_index b 0) eqn:Hacc; [discriminate |].
    unfold cannot_access_at_index, can_access_at_index in Hacc.
    apply negb_false_iff, Nat.ltb_lt in Hacc. rewrite Nat.add_0_r in Hacc.
    destruct (loop (set_offset b (offset b - 1))) as [[head b2] | |] eqn:Hl;
      try discriminate.
    cbn [bind].
    destruct (cannot_access_at_index b2 0 || negb (at_is b2 0 close)) eqn:Hend;
      [discriminate |].
    apply orb_false_iff in Hend as [_ Hend]. apply negb_false_iff in Hend.
    apply at_is_inside in Hend. rename Hend into Hlt.
    destruct (Hloop _ _ _ Hl) as (Ho & Hc2 & Hd2).
    cbn [offset content depth set_offset] in Ho, Hc2, Hd2.
    assert (Hfirst : (offset b0 <= offset (buffer_skip_whitespace
                        (set_offset (set_offset b (offset b - 1)) (offset b - 1 + 1))))%nat).
    { destruct (Nat.eq_dec (offset b) 0%nat) as [E | E].
      - lia.
      - replace (offset b - 1 + 1)%nat with (offset b) by lia.
        destruct (skip_whitespace_offset (set_offset (set_offset b (offset b - 1)) (offset b)))
          as [H1 _].
        cbn [offset content set_offset] in H1. specialize (H1 Hacc). lia. }
    unfold parse_success. intros [= <- <-].
    cbn [offset content depth set_offset set_depth].
    rewrite Hc2, Hc in *. rewrite Hd2, Hd. split; [lia | split; reflexivity].
Qed.

Lemma parse_array_cursor
    (loop : parse_buffer -> outcome (list stb_json * parse_buffer))
    (item : stb_json) (b : parse_buffer) (r : stb_json) (b' : parse_buffer) :
  loop_cursor loop ->
  parse_array STB_JSON_NESTING_LIMIT loop item b = Done (r, b') -> cursor_advanced b b'.
Proof.
  intros Hloop. unfold parse_array.
  destruct (Nat.leb STB_JSON_NESTING_LIMIT (depth b)); [discriminate |].
  destruct (buffer_at_offset (set_depth b (S (depth b))) 0) as [c |] eqn:Hc; [| discriminate].
  destruct (negb (Ascii.eqb c "[")); [discriminate |].
  intros H.
  assert (Hp : (offset b < length (content b))%nat).
  { unfold buffer_at_offset in Hc. cbn [content offset set_depth] in Hc.
    rewrite Nat.add_0_r in Hc. apply nth_error_Some. congruence. }
  destruct (container_cursor STB_JSON_ARRAY "]" loop item (set_depth b (S (depth b))) r b'
              Hloop Hp H) as (Ho & Hcn & Hd).
  cbn [offset content depth set_depth] in Ho, Hcn, Hd.
  unfold cursor_advanced. rewrite Hcn, Hd. split; [lia | split; [reflexivity | lia]].
Qed.

Lemma parse_object_cursor
    (loop : parse_buffer -> outcome (list stb_json * parse_buffer))
    (item : stb_json) (b : parse_buffer) (r : stb_json) (b' : parse_buffer) :
  loop_cursor loop ->
  parse_object STB_JSON_NESTING_LIMIT loop item b = Done (r, b') -> cursor_advanced b b'.
Proof.
  intros Hloop. unfold parse_object.
  destruct (Nat.leb STB_JSON_NESTING_LIMIT (depth b)); [discriminate |].
  destruct (cannot_access_at_index (set_depth b (S (depth b))) 0
            || negb (at_is (set_depth b (S (depth b))) 0 "{")) eqn:Hc; [discriminate |].
  apply orb_false_iff in Hc as [Hc _].
  unfold cannot_access_at_index, can_access_at_index in Hc.
  apply negb_false_iff, Nat.ltb_lt in Hc. cbn [offset content set_depth] in Hc.
  rewrite Nat.add_0_r in Hc.
  intros H.
  destruct (container_cursor STB_JSON_OBJECT "}" loop item (set_depth b (S (depth b))) r b'
              Hloop Hc H) as (Ho & Hcn & Hd).
  cbn [offset content depth set_depth] in Ho, Hcn, Hd.
  unfold cursor_advanced. rewrite Hcn, Hd. split; [lia | split; [reflexivity | lia]].
Qed.

Lemma parse_value_step (fuel : nat) (item : stb_json) (input_buffer : parse_buffer) :
  parse_value_ (S fuel) item input_buffer =
  if starts_with input_buffer (lit "null") then
    Done (set_type item STB_JSON_NULL, set_offset input_buffer (offset input_buffer + 4))
  else if starts_with input_buffer (lit "false") then
    Done (set_type item STB_JSON_FALSE, set_offset input_buffer (offset input_buffer + 5))
  else if starts_with input_buffer (lit "true") then
    Done (set_valueint (set_type item STB_JSON_TRUE) 1,
          set_offset input_buffer (offset input_buffer + 4))
  else if at_is input_buffer 0 dquote then parse_string item input_buffer
  else if can_access_at_index input_buffer 0 &&
          match buffer_at_offset input_buffer 0 with
          | Some c => Ascii.eqb c "-" || is_digit c
          | None => false
          end
  then parse_number pow10 item input_buffer
  else if at_is input_buffer 0 "[" then
    parse_array STB_JSON_NESTING_LIMIT (parse_array_loop_ fuel) item input_buffer
  else if at_is input_buffer 0 "{" then
    parse_object STB_JSON_NESTING_LIMIT (parse_object_loop_ fuel) item input_buffer
  else Failed.
Proof. reflexivity. Qed.

Lemma parse_array_loop_step (fuel : nat) (input_buffer : parse_buffer) :
  parse_array_loop_ (S fuel) input_buffer =
  bind (parse_value_ fuel stb_json_new_item
          (buffer_skip_whitespace (set_offset input_buffer (offset input_buffer + 1))))
    (fun r =>
       let '(current_item, b) := r in
       let b := buffer_skip_whitespace b in
       if at_is b 0 "," then
         bind (parse_array_loop_ fuel b) (fun r' =>
           let '(rest, b') := r' in Done (current_item :: rest, b'))
       else Done ([current_item], b)).
Proof. reflexivity. Qed.

Lemma parse_object_loop_step (fuel : nat) (input_buffer : parse_buffer) :
  parse_object_loop_ (S fuel) input_buffer =
  if cannot_access_at_index input_buffer 1 then Failed
  else
    bind (parse_string stb_json_new_item
            (buffer_skip_whitespace (set_offset input_buffer (offset input_buffer + 1))))
      (fun r =>
         let '(current_item, b) := r in
         let b := buffer_skip_whitespace b in
         let current_item := set_string current_item (valuestring current_item) in
         let current_item := set_valuestring current_item None in
         if cannot_access_at_index b 0 || negb (at_is b 0 ":") then Failed
         else
           let b := buffer_skip_whitespace (set_offset b (offset b + 1)) in
           bind (parse_value_ fuel current_item b) (fun r1 =>
             let '(current_item, b) := r1 in
             let b := buffer_skip_whitespace b in
             if at_is b 0 "," then
               bind (parse_object_loop_ fuel b) (fun r' =>
                 let '(rest, b') := r' in Done (current_item :: rest, b'))
             else Done ([current_item], b))).
Proof. reflexivity. Qed.

(** After a child that moved the cursor forward from [b1], and the
    whitespace behind it, the cursor is not before [b1]. *)
Lemma after_child (b1 b2 : parse_buffer) :
  cursor_advanced b1 b2 ->
  (offset b1 <= offset (buffer_skip_whitespace b2))%nat /\
  content (buffer_skip_whitespace b2) = content b1 /\
  depth (buffer_skip_whitespace b2) = depth b1.
Proof.
  intros (Ho & Hc & Hd). destruct (skip_whitespace_fields b2) as [Hc' Hd'].
  split; [| split; congruence].
  apply skip_whitespace_behind. lia.
Qed.

Lemma next_child (b : parse_buffer) :
  (offset b < length (content b) ->
   offset b <= offset (buffer_skip_whitespace (set_offset b (offset b + 1))))%nat.
Proof.
  intros H. apply (skip_whitespace_after _ (offset b)); [exact H |].
  cbn [offset set_offset]. lia.
Qed.

Lemma parser_cursor (fuel : nat) :
  (forall item b r b', parse_value_ fuel item b = Done (r, b') -> cursor_advanced b b') /\
  loop_cursor (parse_array_loop_ fuel) /\ loop_cursor (parse_object_loop_ fuel).
Proof.
  induction fuel as [| fuel (IHv & IHa & IHo)].
  - split; [| split]; intros; discriminate.
  - split; [| split].
    + intros item b r b'. rewrite parse_value_step.
      destruct (starts_with b (lit "null")) eqn:E1.
      { intros [= <- <-]. unfold starts_with, can_read in E1.
        apply andb_true_iff in E1 as [E1 _]. apply Nat.leb_le in E1.
        change (length (lit "null")) with 4%nat in E1.
        unfold cursor_advanced. cbn [offset content depth set_offset].
        split; [lia | split; reflexivity]. }
      destruct (starts_with b (lit "false")) eqn:E2.
      { intros [= <- <-]. unfold starts_with, can_read in E2.
        apply andb_true_iff in E2 as [E2 _]. apply Nat.leb_le in E2.
        change (length (lit "false")) with 5%nat in E2.
        unfold cursor_advanced. cbn [offset content depth set_offset].
        split; [lia | split; reflexivity]. }
      destruct (starts_with b (lit "true")) eqn:E3.
      { intros [= <- <-]. unfold starts_with, can_read in E3.
        apply andb_true_iff in E3 as [E3 _]. apply Nat.leb_le in E3.
        change (length (lit "true")) with 4%nat in E3.
        unfold cursor_advanced. cbn [offset content depth set_offset].
        split; [lia | split; reflexivity]. }
      destruct (at_is b 0 dquote); [apply parse_string_cursor |].
      destruct (can_access_at_index b 0 && _) eqn:E5.
      { apply andb_true_iff in E5 as [E5 _]. apply parse_number_cursor, E5. }
      destruct (at_is b 0 "["); [apply parse_array_cursor, IHa |].
      destruct (at_is b 0 "{"); [apply parse_object_cursor, IHo | discriminate].
    + intros b rs b'. rewrite parse_array_loop_step.
      set (b1 := buffer_skip_whitespace (set_offset b (offset b + 1))).
      destruct (skip_whitespace_fields (set_offset b (offset b + 1))) as [Hc1 Hd1].
      fold b1 in Hc1, Hd1. cbn [content depth set_offset] in Hc1, Hd1.
      destruct (parse_value_ fuel stb_json_new_item b1) as [[item b2] | |] eqn:Hv;
        try discriminate.
      cbn [bind]. destruct (after_child b1 b2 (IHv _ _ _ _ Hv)) as (Ho3 & Hc3 & Hd3).
      set (b3 := buffer_skip_whitespace b2) in *.
      destruct (at_is b3 0 ",") eqn:Hcomma.
      * destruct (parse_array_loop_ fuel b3) as [[rest b4] | |] eqn:Hl; try discriminate.
        cbn [bind]. intros [= <- <-].
        destruct (IHa _ _ _ Hl) as (Ho4 & Hc4 & Hd4).
        apply at_is_inside in Hcomma. rename Hcomma into Hlt.
        pose proof (next_child b3 Hlt).
        split; [lia | split; congruence].
      * intros [= <- <-]. split; [lia | split; congruence].
    + intros b rs b'. rewrite parse_object_loop_step.
      destruct (cannot_access_at_index b 1); [discriminate |].
      set (b1 := buffer_skip_whitespace (set_offset b (offset b + 1))).
      destruct (skip_whitespace_fields (set_offset b (offset b + 1))) as [Hc1 Hd1].
      fold b1 in Hc1, Hd1. cbn [content depth set_offset] in Hc1, Hd1.
      destruct (parse_string stb_json_new_item b1) as [[key b2] | |] eqn:Hk;
        try discriminate.
      cbn [bind]. cbv zeta.
      destruct (after_child b1 b2 (parse_string_cursor _ _ _ _ Hk)) as (Ho3 & Hc3 & Hd3).
      set (b3 := buffer_skip_whitespace b2) in *.
      destruct (cannot_access_at_index b3 0 || negb (at_is b3 0 ":")) eqn:Hcolon;
        [discriminate |].
      apply orb_false_iff in Hcolon as [_ Hcolon]. apply negb_false_iff in Hcolon.
      apply at_is_inside in Hcolon. rename Hcolon into Hlt3.
      pose proof (next_child b3 Hlt3) as Ho4.
      set (b4 := buffer_skip_whitespace (set_offset b3 (offset b3 + 1))) in *.
      destruct (skip_whitespace_fields (set_offset b3 (offset b3 + 1))) as [Hc4 Hd4].
      fold b4 in Hc4, Hd4. cbn [content depth set_offset] in Hc4, Hd4.
      destruct (parse_value_ fuel _ b4) as [[item b5] | |] eqn:Hv; try discriminate.
      cbn [bind]. destruct (after_child b4 b5 (IHv _ _ _ _ Hv)) as (Ho6 & Hc6 & Hd6).
      set (b6 := buffer_skip_whitespace b5) in *.
      destruct (at_is b6 0 ",") eqn:Hcomma.
      * destruct (parse_object_loop_ fuel b6) as [[rest b7] | |] eqn:Hl; try discriminate.
        cbn [bind]. intros [= <- <-].
        destruct (IHo _ _ _ Hl) as (Ho7 & Hc7 & Hd7).
        apply at_is_inside in Hcomma. rename Hcomma into Hlt.
        pose proof (next_child b6 Hlt).
        split; [lia | split; congruence].
      * intros [= <- <-]. split; [lia | split; congruence].
Qed.

(** X19: whenever [parse_value] succeeds it has moved the cursor forward by at
    least one byte and not beyond the end of the buffer, and it has left
    the content and the nesting depth of the buffer as they were;
    provided the string parser it calls does the same. *)
Theorem parse_value_cursor (fuel : nat) (item : stb_json) (b : parse_buffer)
    (r : stb_json) (b' : parse_buffer)
    (H : parse_value_ fuel item b = Done (r, b')) :
  cursor_advanced b b'.
Proof. exact (proj1 (parser_cursor fuel) item b r b' H). Qed.

End ParserCursor.

Lemma utf16_to_utf8_consumed (input : list ascii) (n : nat) (bytes : list ascii) :
  utf16_to_utf8 input = Some (n, bytes) -> (1 <= n <= length input)%nat.
Proof.
  unfold utf16_to_utf8.
  destruct (Nat.ltb (length input) 6) eqn:L6; [discriminate |]. apply Nat.ltb_ge in L6.
  destruct (_ =? 0); [discriminate |].
  destruct (_ && _).
  - destruct (Nat.ltb (length input) 12) eqn:L12; [discriminate |]. apply Nat.ltb_ge in L12.
    destruct (nth_error input 6); [| discriminate].
    destruct (nth_error input 7); [| discriminate].
    destruct (_ || _); [discriminate |].
    destruct (_ || _); [discriminate |].
    intros [= <- _]. lia.
  - destruct (_ <? 128); [intros [= <- _]; lia |].
    destruct (_ <? 2048); intros [= <- _]; lia.
Qed.

Lemma string_body_consumed (fuel : nat) :
  forall (l s : list ascii) (n : nat),
  string_body fuel l = Some (s, n) -> (1 <= n <= length l)%nat.
Proof.
  induction fuel as [| fuel IH]; intros l s n; [discriminate |].
  cbn [string_body]. destruct l as [| c l']; [discriminate |].
  destruct (Ascii.eqb c dquote); [intros [= _ <-]; cbn [length]; lia |].
  assert (Hsimple : forall (x : ascii) (l'' : list ascii),
            match string_body fuel l'' with
            | Some (s0, n0) => Some (x :: s0, (2 + n0)%nat)
            | None => None
            end = Some (s, n) -> (1 <= n <= 2 + length l'')%nat).
  { intros x l''. destruct (string_body fuel l'') as [[s0 n0] |] eqn:E; [| discriminate].
    intros [= _ <-]. apply IH in E. lia. }
  destruct (Ascii.eqb c "\").
  - destruct l' as [| e l'']; [discriminate |]. cbn [length].
    repeat (destruct (Ascii.eqb e _); [apply Hsimple |]).
    destruct (_ || _); [apply Hsimple |].
    destruct (Ascii.eqb e "u"); [| discriminate].
    destruct (utf16_to_utf8 (c :: e :: l'')) as [[used bytes] |] eqn:U; [| discriminate].
    apply utf16_to_utf8_consumed in U. cbn [length] in U.
    destruct (string_body fuel (skipn used (c :: e :: l''))) as [[s0 n0] |] eqn:E;
      [| discriminate].
    intros [= _ <-]. apply IH in E. rewrite length_skipn in E. cbn [length] in E. lia.
  - destruct (string_body fuel l') as [[s0 n0] |] eqn:E; [| discriminate].
    intros [= _ <-]. apply IH in E. cbn [length]. lia.
Qed.

(** The string parser moves the cursor forward inside the buffer. *)
Lemma parse_string_advances (item : stb_json) (b : parse_buffer) (r : stb_json)
    (b' : parse_buffer) :
  parse_string item b = Done (r, b') -> cursor_advanced b b'.
Proof.
  unfold parse_string. destruct (at_is b 0 dquote) eqn:Hq; [| discriminate].
  apply at_is_inside in Hq. cbn [negb].
  destruct (string_body _ _) as [[s n] |] eqn:E; [| discriminate].
  apply string_body_consumed in E. rewrite length_skipn in E.
  intros [= <- <-]. unfold cursor_advanced. cbn [offset content depth set_offset].
  split; [lia | split; reflexivity].
Qed.

Lemma parse_value_cursor_witness :
  cursor_advanced (mk_parse_buffer (lit "[1, {}] ") 0 0)
                  (mk_parse_buffer (lit "[1, {}] ") 7 0).
Proof.
  apply (parse_value_cursor pow10_ref 1000 parse_string parse_string_advances 10
           stb_json_new_item (mk_parse_buffer (lit "[1, {}] ") 0 0)
           (array_of [stb_json_createnumber (double_of_int 1); stb_json_createobject])).
  vm_compute. reflexivity.
Defined.

(** ** What the number parser accepts *)

Ltac by_length H := eapply Nat.le_trans; [exact H |]; cbn [length]; lia.

Section NumberParser.
Variable pow10 : Z -> double.

Lemma strtod_integer_length (p : list ascii) :
  forall value, (length (snd (strtod_integer value p)) <= length p)%nat.
Proof.
  induction p as [| c p IH]; intros value; cbn [strtod_integer]; [cbn; lia |].
  destruct (is_digit c); [specialize (IH (d_add (d_mul value ten) (double_of_int (code c - 48))));
                          cbn [length]; lia | cbn; lia].
Qed.

Lemma strtod_fraction_length (p : list ascii) :
  forall fraction divisor,
  (length (snd (strtod_fraction fraction divisor p)) <= length p)%nat.
Proof.
  induction p as [| c p IH]; intros fraction divisor; cbn [strtod_fraction]; [cbn; lia |].
  destruct (is_digit c); [| cbn; lia].
  specialize (IH (d_add (d_mul fraction ten) (double_of_int (code c - 48)))
                 (d_mul divisor ten)).
  cbn [length]. lia.
Qed.

Lemma strtod_exponent_length (p : list ascii) :
  forall exponent, (length (snd (strtod_exponent exponent p)) <= length p)%nat.
Proof.
  induction p as [| c p IH]; intros exponent; cbn [strtod_exponent]; [cbn; lia |].
  destruct (is_digit c); [| cbn; lia].
  specialize (IH (wrap_int (exponent * 10 + (code c - 48)))). cbn [length]. lia.
Qed.

(** [stb_json_strtod] consumes the sign and the digits of the integer
    part, and never steps back behind them. *)
Lemma stb_json_strtod_consumes (c : ascii) (l : list ascii) :
  Ascii.eqb c "-" || is_digit c = true ->
  (1 <= snd (stb_json_strtod pow10 (c :: l)) <= length (c :: l))%nat.
Proof.
  intros Hc. split; [| apply stb_json_strtod_consumed].
  unfold stb_json_strtod.
  set (start := if Ascii.eqb c "-" then (double_of_int (-1), l)
                else if Ascii.eqb c "+" then (double_of_int 1, l)
                else (double_of_int 1, c :: l)).
  assert (Hint : (length (snd (strtod_integer (S754_zero false) (snd start))) <= length l)%nat).
  { unfold start. destruct (Ascii.eqb c "-") eqn:E1; cbn [snd].
    - apply strtod_integer_length.
    - cbn [orb] in Hc. destruct (Ascii.eqb c "+") eqn:E2; cbn [snd].
      + apply strtod_integer_length.
      + cbn [strtod_integer]. rewrite Hc. apply strtod_integer_length. }
  destruct start as [sign p0]. cbn [snd] in Hint.
  destruct (strtod_integer (S754_zero false) p0) as [value p1]. cbn [snd] in Hint.
  set (frac := match p1 with
               | c0 :: p' =>
                   if Ascii.eqb c0 "." then strtod_fraction (S754_zero false) (double_of_int 1) p'
                   else (S754_zero false, double_of_int 1, p1)
               | [] => (S754_zero false, double_of_int 1, p1)
               end).
  assert (Hfrac : (length (snd frac) <= length p1)%nat).
  { unfold frac. clear frac. destruct p1 as [| c0 p']; [cbn; lia |].
    destruct (Ascii.eqb c0 "."); [| cbn; lia].
    pose proof (strtod_fraction_length p' (S754_zero false) (double_of_int 1)) as H.
    by_length H. }
  destruct frac as [[fraction divisor] p2]. cbn [snd] in Hfrac.
  set (ex := match p2 with
             | c0 :: p' =>
                 if Ascii.eqb c0 "e" || Ascii.eqb c0 "E" then
                   let '(exp_sign, p'') :=
                     match p' with
                     | s :: q =>
                         if Ascii.eqb s "-" then (-1, q)
                         else if Ascii.eqb s "+" then (1, q)
                         else (1, p')
                     | [] => (1, p')
                     end in
                   let '(exponent, p3) := strtod_exponent 0 p'' in
                   (exponent, exp_sign, p3)
                 else (0, 1, p2)
             | [] => (0, 1, p2)
             end).
  assert (Hex : (length (snd ex) <= length p2)%nat).
  { unfold ex. clear ex. destruct p2 as [| c0 p']; [cbn; lia |].
    destruct (Ascii.eqb c0 "e" || Ascii.eqb c0 "E"); [| cbn; lia].
    destruct p' as [| s q].
    - pose proof (strtod_exponent_length [] 0) as H.
      destruct (strtod_exponent 0 []). cbn [snd] in *. by_length H.
    - destruct (Ascii.eqb s "-"); [| destruct (Ascii.eqb s "+")].
      + pose proof (strtod_exponent_length q 0) as H.
        destruct (strtod_exponent 0 q). cbn [snd] in *. by_length H.
      + pose proof (strtod_exponent_length q 0) as H.
        destruct (strtod_exponent 0 q). cbn [snd] in *. by_length H.
      + pose proof (strtod_exponent_length (s :: q) 0) as H.
        destruct (strtod_exponent 0 (s :: q)). cbn [snd] in *. by_length H. }
  destruct ex as [[exponent exp_sign] p3]. cbn [snd] in Hex |- *.
  cbn [length]. lia.
Qed.

Lemma number_c_string_head (c : ascii) (l : list ascii) :
  Ascii.eqb c "-" || is_digit c = true ->
  exists t, number_c_string (c :: l) = c :: t.
Proof.
  intros Hc. cbn [number_c_string].
  assert (H : is_number_char c = true).
  { unfold is_number_char. apply orb_true_iff in Hc as [Hc | Hc]; rewrite Hc;
      rewrite ?orb_true_r; reflexivity. }
  rewrite H. eexists. reflexivity.
Qed.

(** X20: [parse_number] never fails where [parse_value] calls it: whenever the
    byte at the cursor is a minus sign or a digit it returns a number
    node, whatever follows, and moves the cursor forward inside the
    buffer.  The node keeps the key and the children of the item, and its
    integer value is the saturated double.  Allocation is taken to
    succeed. *)
Theorem parse_number_accepts (item : stb_json) (b : parse_buffer)
    (H : can_access_at_index b 0 &&
         match buffer_at_offset b 0 with
         | Some c => Ascii.eqb c "-" || is_digit c
         | None => false
         end = true) :
  exists r b',
    parse_number pow10 item b = Done (r, b') /\ cursor_advanced b b' /\
    type r = STB_JSON_NUMBER /\ valueint r = saturate (valuedouble r) /\
    child r = child item /\ string r = string item /\ valuestring r = valuestring item.
Proof.
  apply andb_true_iff in H as [Hacc Hc].
  unfold buffer_at_offset in Hc. rewrite Nat.add_0_r in Hc.
  destruct (nth_error (content b) (offset b)) as [c |] eqn:Hn; [| discriminate].
  assert (Hskip : exists l, skipn (offset b) (content b) = c :: l).
  { exists (skipn (S (offset b)) (content b)).
    rewrite nth_error_lookup in Hn. apply drop_S. exact Hn. }
  destruct Hskip as [l Hl].
  destruct (number_c_string_head c l Hc) as [t Ht].
  assert (Hd : exists r b', parse_number pow10 item b = Done (r, b') /\
             type r = STB_JSON_NUMBER /\ valueint r = saturate (valuedouble r) /\
             child r = child item /\ string r = string item /\
             valuestring r = valuestring item).
  { unfold parse_number. rewrite Hl, Ht. cbn [length Nat.eqb].
    pose proof (stb_json_strtod_consumes c t Hc) as [Hge _].
    destruct (stb_json_strtod pow10 (c :: t)) as [number after_end]. cbn [snd] in Hge.
    destruct (Nat.eqb after_end 0) eqn:E; [apply Nat.eqb_eq in E; lia |].
    eexists _, _. split; [reflexivity |]. destruct item; repeat split. }
  destruct Hd as (r & b' & Hp & Hrest). exists r, b'.
  split; [exact Hp |]. split; [exact (parse_number_cursor pow10 item r b b' Hacc Hp) |].
  exact Hrest.
Qed.

End NumberParser.

Lemma parse_number_accepts_witness :
  exists r b',
    parse_number pow10_ref stb_json_new_item (mk_parse_buffer (lit "-x") 0 0) = Done (r, b') /\
    cursor_advanced (mk_parse_buffer (lit "-x") 0 0) b' /\ type r = STB_JSON_NUMBER.
Proof.
  destruct (parse_number_accepts pow10_ref stb_json_new_item (mk_parse_buffer (lit "-x") 0 0)
              eq_refl) as (r & b' & H1 & H2 & H3 & _).
  exists r, b'. auto.
Defined.

(** ** Replacing a node of a child list *)

Module MemEditFacts.
Import Mem MemEdit MemFacts.
Local Open Scope nat_scope.

Lemma replaced_lookup (k r : nat) (l : list nat) (i : nat) :
  k < length l ->
  <[k := r]> l !! i = if decide (i = k) then Some r else l !! i.
Proof.
  intros Hk. destruct (decide (i = k)) as [-> | Hne].
  - apply list_lookup_insert_eq. exact Hk.
  - apply list_lookup_insert_ne. congruence.
Qed.

Lemma replaced_last (k r : nat) (l : list nat) :
  k < length l ->
  last (<[k := r]> l) = if decide (S k = length l) then Some r else last l.
Proof.
  intros Hk. rewrite !last_lookup, length_insert, replaced_lookup by exact Hk.
  destruct (decide (Nat.pred (length l) = k)), (decide (S k = length l));
    try reflexivity; lia.
Qed.

Lemma elem_of_replaced (k r y : nat) (l : list nat) :
  y ∈ <[k := r]> l -> y = r \/ y ∈ l.
Proof.
  intros H. apply list_elem_of_lookup in H as [i Hi].
  apply list_lookup_insert_Some in Hi as [(_ & -> & _) | (_ & Hi)]; [left; reflexivity |].
  right. eapply list_elem_of_lookup_2; eauto.
Qed.

Lemma NoDup_replaced (k r : nat) (l : list nat) :
  NoDup l -> r ∉ l -> NoDup (<[k := r]> l).
Proof.
  intros Hnd Hr. apply NoDup_alt. intros i j y Hi Hj.
  apply list_lookup_insert_Some in Hi as [(-> & <- & Hi) | (Hik & Hi)];
    apply list_lookup_insert_Some in Hj as [(Hj1 & Hj2 & Hj) | (Hjk & Hj)];
    try congruence.
  - exfalso. apply Hr. eapply list_elem_of_lookup_2; eauto.
  - exfalso. apply Hr. subst y. eapply list_elem_of_lookup_2; eauto.
  - eapply NoDup_lookup; eauto.
Qed.

Lemma links_clear (h : heap) (b : nat) (nb : node) (a : nat) (nx pv : ptr) :
  h !! b = Some nb -> links h a nx pv ->
  links (<[b := set_next (set_prev nb None) None]> h) a
    (if decide (a = b) then None else nx) (if decide (a = b) then None else pv).
Proof.
  intros Hb (n & Hn & <- & <-). destruct (decide (a = b)) as [-> | Hne].
  - eexists. rewrite lookup_insert_eq. repeat split.
  - exists n. rewrite lookup_insert_ne by congruence. repeat split. exact Hn.
Qed.

Lemma ptr_eqb_refl (p : ptr) : ptr_eqb p p = true.
Proof. apply ptr_eqb_eq. reflexivity. Qed.

Lemma replace_list (h : heap) (parent : nat) (l : list nat) (k x r : nat) (n0 : node) :
  child_list h parent l -> l !! k = Some x ->
  r ∉ l -> r <> parent -> h !! r = Some n0 ->
  exists h', stb_json_replaceitemviapointer h (Some parent) (Some x) (Some r)
               = Some (true, h') /\
             child_list h' parent (<[k := r]> l) /\ links h' x None None.
Proof.
  intros Hl Hk Hfresh Hne Hr.
  destruct (child_list_parent _ _ _ Hl) as (p & Hp & Hc).
  destruct (child_list_at _ _ _ _ _ Hl Hk) as (nx & Hx & Hxn & Hxp).
  assert (Hlen : k < length l) by (eapply lookup_lt_Some; eauto).
  assert (Hxpar : x <> parent) by (eapply child_list_not_parent; eauto).
  assert (Hrx : r <> x).
  { intros ->. apply Hfresh. eapply list_elem_of_lookup_2; eauto. }
  assert (Hnd' : NoDup (<[k := r]> l)) by (apply NoDup_replaced; [apply Hl | exact Hfresh]).
  assert (Hpar' : parent ∉ <[k := r]> l).
  { intros H. apply elem_of_replaced in H as [-> | H]; [congruence |]. apply Hl. exact H. }
  destruct (l !! 0) as [hd |] eqn:Hhd; [| apply lookup_ge_None in Hhd; lia].
  assert (Hhdpar : hd <> parent) by (eapply child_list_not_parent; eauto).
  assert (Hhdr : hd <> r).
  { intros ->. apply Hfresh. eapply list_elem_of_lookup_2; eauto. }
  unfold stb_json_replaceitemviapointer. rewrite Hp, Hc.
  replace (Nat.eqb r x) with false by (symmetry; apply Nat.eqb_neq; exact Hrx).
  rewrite Hx, (write_Some _ _ _ _ Hr).
  set (h1 := <[r := set_prev (set_next n0 (next nx)) (prev nx)]> h).
  assert (Hl1 : forall a nxt pv, links h a nxt pv ->
            links h1 a (if decide (a = r) then next nx else nxt)
                       (if decide (a = r) then prev nx else pv)).
  { intros a nxt pv Ha. unfold h1. apply (links_set_both h r n0 _ _ a _ _ Hr Ha). }
  assert (Hr1 : h1 !! r = Some (set_prev (set_next n0 (next nx)) (prev nx)))
    by (unfold h1; apply lookup_insert_eq).
  assert (Hx1 : h1 !! x = Some nx)
    by (unfold h1; rewrite lookup_insert_ne by congruence; exact Hx).
  assert (Hp1 : h1 !! parent = Some p)
    by (unfold h1; rewrite lookup_insert_ne by congruence; exact Hp).
  rewrite Hxn.
  destruct (l !! S k) as [y |] eqn:Hy.
  - (* a node [y] follows the replaced node *)
    assert (Hyx : y <> x) by (eapply (child_list_neq _ _ _ (S k) k); eauto).
    assert (Hypar : y <> parent) by (eapply child_list_not_parent; eauto).
    assert (Hyr : y <> r).
    { intros ->. apply Hfresh. eapply list_elem_of_lookup_2; eauto. }
    assert (Hlong : S (S k) <= length l) by (apply lookup_lt_Some in Hy; lia).
    destruct (child_list_at _ _ _ _ _ Hl Hy) as (ny & Hny & _ & _).
    assert (Hy1 : h1 !! y = Some ny)
      by (unfold h1; rewrite lookup_insert_ne by congruence; exact Hny).
    rewrite (write_Some _ _ _ _ Hy1).
    set (h2 := <[y := set_prev ny (Some r)]> h1).
    assert (Hl2 : forall a nxt pv, links h a nxt pv ->
              links h2 a (if decide (a = r) then next nx else nxt)
                         (if decide (a = y) then Some r
                          else if decide (a = r) then prev nx else pv)).
    { intros a nxt pv Ha. unfold h2.
      apply (links_set_prev h1 y ny _ a _ _ Hy1). apply Hl1, Ha. }
    assert (Hp2 : h2 !! parent = Some p)
      by (unfold h2; rewrite lookup_insert_ne by congruence; exact Hp1).
    assert (Hr2 : h2 !! r = Some (set_prev (set_next n0 (next nx)) (prev nx)))
      by (unfold h2; rewrite lookup_insert_ne by congruence; exact Hr1).
    assert (Hx2 : h2 !! x = Some nx)
      by (unfold h2; rewrite lookup_insert_ne by congruence; exact Hx1).
    rewrite Hp2, Hr2, Hc.
    destruct k as [| k].
    + (* the head is replaced *)
      rewrite Hhd in Hk. injection Hk as ->.
      rewrite ptr_eqb_refl, Hx2, Hxp. cbn [before].
      assert (Hlast : exists t, last l = Some t /\ t <> x).
      { rewrite last_lookup.
        destruct (l !! Nat.pred (length l)) as [t |] eqn:Ht;
          [| apply lookup_ge_None in Ht; lia].
        exists t. split; [reflexivity |].
        eapply (child_list_neq _ _ _ (Nat.pred (length l)) 0); eauto. lia. }
      destruct Hlast as (t & Ht & Htx). rewrite Ht.
      replace (ptr_eqb (Some t) (Some x)) with false
        by (symmetry; apply ptr_eqb_neq; congruence).
      rewrite (write_Some _ _ _ _ Hp2).
      set (h3 := <[parent := set_child p (Some r)]> h2).
      assert (Hx3 : h3 !! x = Some nx)
        by (unfold h3; rewrite lookup_insert_ne by congruence; exact Hx2).
      rewrite (write_Some _ _ _ _ Hx3).
      assert (Hfin : forall a nxt pv, links h a nxt pv ->
                links (<[x := set_next (set_prev nx None) None]> h3) a
                  (if decide (a = x) then None
                   else if decide (a = r) then next nx else nxt)
                  (if decide (a = x) then None
                   else if decide (a = y) then Some r
                   else if decide (a = r) then prev nx else pv)).
      { intros a nxt pv Ha. apply (links_clear h3 x nx a _ _ Hx3).
        unfold h3. apply (links_set_child h2 parent p _ a _ _ Hp2). apply Hl2, Ha. }
      eexists. split; [reflexivity |]. split.
      * eapply child_list_intro; [exact Hnd' | exact Hpar' | | |].
        -- rewrite lookup_insert_ne by congruence. unfold h3. apply lookup_insert_eq.
        -- cbn [child set_child]. rewrite replaced_lookup by lia.
           rewrite decide_True by reflexivity. reflexivity.
        -- intros i a Hi. rewrite replaced_lookup in Hi by lia.
           rewrite (replaced_lookup _ _ _ (S i)) by lia.
           rewrite (decide_False (P := S i = 0)) by lia.
           assert (Hbefore : before (<[0 := r]> l) i
                             = match i with
                               | O => last l
                               | S j => if decide (j = 0) then Some r else l !! j
                               end).
           { destruct i as [| i]; cbn [before].
             - rewrite replaced_last by lia. rewrite decide_False by lia. reflexivity.
             - rewrite replaced_lookup by lia. reflexivity. }
           rewrite Hbefore. clear Hbefore.
           destruct (decide (i = 0)) as [-> | Hi0].
           ++ injection Hi as <-.
              assert (H0 : links h r (next n0) (prev n0)) by (exists n0; auto).
              apply Hfin in H0.
              rewrite !(decide_False (P := r = x)) in H0 by congruence.
              rewrite (decide_False (P := r = y)) in H0 by congruence.
              rewrite !(decide_True (P := r = r)) in H0 by reflexivity.
              rewrite Hxn, Hxp in H0. cbn [before] in H0. rewrite Hy. exact H0.
           ++ pose proof (child_list_links _ _ _ _ _ Hl Hi) as H0. apply Hfin in H0.
              assert (Hax : a <> x) by (eapply (child_list_neq _ _ _ i 0); eauto).
              assert (Har : a <> r).
              { intros ->. apply Hfresh. eapply list_elem_of_lookup_2; eauto. }
              rewrite !(decide_False (P := a = x)) in H0 by exact Hax.
              rewrite !(decide_False (P := a = r)) in H0 by exact Har.
              destruct i as [| i]; [lia |]. cbn [before] in H0.
              destruct (decide (i = 0)) as [-> | Hi1].
              ** rewrite Hy in Hi. injection Hi as <-.
                 rewrite decide_True in H0 by reflexivity. exact H0.
              ** assert (Hay : a <> y) by (eapply (child_list_neq _ _ _ (S i) 1); eauto; lia).
                 rewrite decide_False in H0 by exact Hay. exact H0.
      * assert (H0 : links h x (next nx) (prev nx)) by (exists nx; auto).
        apply Hfin in H0. rewrite !decide_True in H0 by reflexivity. exact H0.
    + (* a node between two others is replaced; [q] is its predecessor *)
      cbn [before] in Hxp.
      assert (Hxhd : x <> hd) by (eapply (child_list_neq _ _ _ (S k) 0); eauto).
      destruct (l !! k) as [q |] eqn:Hq; [| apply lookup_ge_None in Hq; lia].
      assert (Hqx : q <> x) by (eapply (child_list_neq _ _ _ k (S k)); eauto).
      assert (Hqy : q <> y) by (eapply (child_list_neq _ _ _ k (S (S k))); eauto; lia).
      assert (Hqpar : q <> parent) by (eapply child_list_not_parent; eauto).
      assert (Hqr : q <> r).
      { intros ->. apply Hfresh. eapply list_elem_of_lookup_2; eauto. }
      replace (ptr_eqb (Some x) (Some hd)) with false
        by (symmetry; apply ptr_eqb_neq; congruence).
      cbn [prev set_prev set_next next]. rewrite Hxp.
      destruct (Hl2 q _ _ (child_list_links _ _ _ _ _ Hl Hq)) as (nq & Hnq & _ & _).
      rewrite (write_Some _ _ _ _ Hnq).
      set (h3 := <[q := set_next nq (Some r)]> h2).
      assert (Hp3 : h3 !! parent = Some p)
        by (unfold h3; rewrite lookup_insert_ne by congruence; exact Hp2).
      assert (Hr3 : h3 !! r = Some (set_prev (set_next n0 (next nx)) (prev nx)))
        by (unfold h3; rewrite lookup_insert_ne by congruence; exact Hr2).
      assert (Hx3 : h3 !! x = Some nx)
        by (unfold h3; rewrite lookup_insert_ne by congruence; exact Hx2).
      rewrite Hp3, Hr3. cbn [prev set_prev set_next next]. rewrite Hxn.
      rewrite (write_Some _ _ _ _ Hx3).
      assert (Hfin : forall a nxt pv, links h a nxt pv ->
                links (<[x := set_next (set_prev nx None) None]> h3) a
                  (if decide (a = x) then None
                   else if decide (a = q) then Some r
                   else if decide (a = r) then next nx else nxt)
                  (if decide (a = x) then None
                   else if decide (a = y) then Some r
                   else if decide (a = r) then prev nx else pv)).
      { intros a nxt pv Ha. apply (links_clear h3 x nx a _ _ Hx3).
        unfold h3. apply (links_set_next h2 q nq _ a _ _ Hnq). apply Hl2, Ha. }
      eexists. split; [reflexivity |]. split.
      * eapply child_list_intro; [exact Hnd' | exact Hpar' | | |].
        -- unfold h3, h2. rewrite !lookup_insert_ne by congruence. exact Hp1.
        -- rewrite replaced_lookup by lia. rewrite decide_False by lia.
           rewrite Hc, Hhd. reflexivity.
        -- intros i a Hi. rewrite replaced_lookup in Hi by lia.
           rewrite (replaced_lookup _ _ _ (S i)) by lia.
           assert (Hbefore : before (<[S k := r]> l) i
                             = match i with
                               | O => last l
                               | S j => if decide (j = S k) then Some r else l !! j
                               end).
           { destruct i as [| i]; cbn [before].
             - rewrite replaced_last by lia. rewrite decide_False by lia. reflexivity.
             - rewrite replaced_lookup by lia. reflexivity. }
           rewrite Hbefore. clear Hbefore.
           destruct (decide (i = S k)) as [-> | Hik].
           ++ injection Hi as <-.
              assert (H0 : links h r (next n0) (prev n0)) by (exists n0; auto).
              apply Hfin in H0.
              rewrite !(decide_False (P := r = x)) in H0 by congruence.
              rewrite (decide_False (P := r = q)) in H0 by congruence.
              rewrite (decide_False (P := r = y)) in H0 by congruence.
              rewrite !(decide_True (P := r = r)) in H0 by reflexivity.
              rewrite Hxn, Hxp in H0.
              rewrite decide_False by lia. rewrite decide_False by lia.
              rewrite Hy, Hq. exact H0.
           ++ pose proof (child_list_links _ _ _ _ _ Hl Hi) as H0. apply Hfin in H0.
              assert (Hax : a <> x) by (eapply (child_list_neq _ _ _ i (S k)); eauto).
              assert (Har : a <> r).
              { intros ->. apply Hfresh. eapply list_elem_of_lookup_2; eauto. }
              rewrite !(decide_False (P := a = x)) in H0 by exact Hax.
              rewrite !(decide_False (P := a = r)) in H0 by exact Har.
              destruct (decide (S i = S k)) as [E | E].
              ** injection E as ->. rewrite Hq in Hi. injection Hi as <-.
                 rewrite decide_True in H0 by reflexivity.
                 rewrite decide_False in H0 by exact Hqy.
                 destruct k as [| k]; cbn [before] in H0 |- *; [exact H0 |].
                 rewrite decide_False by (intros E'; clear - E'; lia). exact H0.
              ** assert (Haq : a <> q).
                 { eapply (child_list_neq _ _ _ i k); eauto. }
                 rewrite decide_False in H0 by exact Haq.
                 destruct i as [| i]; cbn [before] in H0.
                 --- rewrite decide_False in H0
                       by (eapply (child_list_neq _ _ _ 0 (S (S k))); eauto).
                     exact H0.
                 --- destruct (decide (i = S k)) as [-> | Hi1].
                     +++ rewrite Hy in Hi. injection Hi as <-.
                         rewrite decide_True in H0 by reflexivity. exact H0.
                     +++ rewrite decide_False in H0
                           by (eapply (child_list_neq _ _ _ (S i) (S (S k))); eauto;
                               congruence).
                         exact H0.
      * assert (H0 : links h x (next nx) (prev nx)) by (exists nx; auto).
        apply Hfin in H0. rewrite !decide_True in H0 by reflexivity. exact H0.
  - destruct k as [| k].
    + (* the only node of the list is replaced *)
      rewrite Hhd in Hk. injection Hk as ->.
      rewrite Hp1, Hr1, Hc, ptr_eqb_refl, Hx1, Hxp.
      assert (Hone : length l = 1) by (apply lookup_ge_None in Hy; lia).
      assert (Hlast : last l = Some x) by (rewrite last_lookup, Hone; exact Hhd).
      rewrite Hlast, ptr_eqb_refl. cbn [before] in Hxp.
      rewrite (write_Some _ _ _ _ Hr1).
      set (h2 := <[r := set_prev (set_prev (set_next n0 (next nx)) (prev nx)) (Some r)]> h1).
      assert (Hp2 : h2 !! parent = Some p)
        by (unfold h2; rewrite lookup_insert_ne by congruence; exact Hp1).
      rewrite (write_Some _ _ _ _ Hp2).
      set (h3 := <[parent := set_child p (Some r)]> h2).
      assert (Hx3 : h3 !! x = Some nx).
      { unfold h3, h2. rewrite !lookup_insert_ne by congruence. exact Hx1. }
      rewrite (write_Some _ _ _ _ Hx3).
      eexists. split; [reflexivity |]. split.
      * eapply child_list_intro; [exact Hnd' | exact Hpar' | | |].
        -- rewrite lookup_insert_ne by congruence. unfold h3. apply lookup_insert_eq.
        -- cbn [child set_child]. rewrite replaced_lookup by lia.
           rewrite decide_True by reflexivity. reflexivity.
        -- intros i a Hi. rewrite replaced_lookup in Hi by lia.
           destruct (decide (i = 0)) as [-> | Hi0];
             [| apply lookup_lt_Some in Hi; lia].
           injection Hi as <-.
           rewrite replaced_lookup by lia. rewrite decide_False by lia. rewrite Hy.
           cbn [before]. rewrite replaced_last by lia.
           rewrite decide_True by lia.
           exists (set_prev (set_prev (set_next n0 (next nx)) (prev nx)) (Some r)).
           split; [| split; [cbn; exact Hxn | reflexivity]].
           rewrite lookup_insert_ne by congruence. unfold h3.
           rewrite lookup_insert_ne by congruence. unfold h2. apply lookup_insert_eq.
      * eexists. rewrite lookup_insert_eq. repeat split.
    + (* the tail is replaced; [q] is its predecessor *)
      cbn [before] in Hxp.
      assert (Hxhd : x <> hd) by (eapply (child_list_neq _ _ _ (S k) 0); eauto).
      destruct (l !! k) as [q |] eqn:Hq; [| apply lookup_ge_None in Hq; lia].
      assert (Hqx : q <> x) by (eapply (child_list_neq _ _ _ k (S k)); eauto).
      assert (Hqpar : q <> parent) by (eapply child_list_not_parent; eauto).
      assert (Hqr : q <> r).
      { intros ->. apply Hfresh. eapply list_elem_of_lookup_2; eauto. }
      assert (Hlast : S (S k) = length l) by (apply lookup_ge_None in Hy; lia).
      rewrite Hp1, Hr1, Hc.
      replace (ptr_eqb (Some x) (Some hd)) with false
        by (symmetry; apply ptr_eqb_neq; congruence).
      cbn [prev set_prev set_next next]. rewrite Hxp.
      destruct (child_list_at _ _ _ _ _ Hl Hq) as (nq & Hnq & _ & _).
      assert (Hq1 : h1 !! q = Some nq)
        by (unfold h1; rewrite lookup_insert_ne by congruence; exact Hnq).
      rewrite (write_Some _ _ _ _ Hq1).
      set (h2 := <[q := set_next nq (Some r)]> h1).
      assert (Hl2 : forall a nxt pv, links h a nxt pv ->
                links h2 a (if decide (a = q) then Some r
                            else if decide (a = r) then next nx else nxt)
                           (if decide (a = r) then prev nx else pv)).
      { intros a nxt pv Ha. unfold h2.
        apply (links_set_next h1 q nq _ a _ _ Hq1). apply Hl1, Ha. }
      assert (Hp2 : h2 !! parent = Some p)
        by (unfold h2; rewrite lookup_insert_ne by congruence; exact Hp1).
      assert (Hr2 : h2 !! r = Some (set_prev (set_next n0 (next nx)) (prev nx)))
        by (unfold h2; rewrite lookup_insert_ne by congruence; exact Hr1).
      rewrite Hp2, Hr2. cbn [prev set_prev set_next next]. rewrite Hxn, Hc.
      destruct (Hl2 hd _ _ (child_list_links _ _ _ _ _ Hl Hhd)) as (nhd & Hnhd & _ & _).
      rewrite (write_Some _ _ _ _ Hnhd).
      set (h3 := <[hd := set_prev nhd (Some r)]> h2).
      assert (Hx3 : h3 !! x = Some nx).
      { unfold h3, h2. rewrite !lookup_insert_ne by congruence. exact Hx1. }
      rewrite (write_Some _ _ _ _ Hx3).
      assert (Hfin : forall a nxt pv, links h a nxt pv ->
                links (<[x := set_next (set_prev nx None) None]> h3) a
                  (if decide (a = x) then None
                   else if decide (a = q) then Some r
                   else if decide (a = r) then next nx else nxt)
                  (if decide (a = x) then None
                   else if decide (a = hd) then Some r
                   else if decide (a = r) then prev nx else pv)).
      { intros a nxt pv Ha. apply (links_clear h3 x nx a _ _ Hx3).
        unfold h3. apply (links_set_prev h2 hd nhd _ a _ _ Hnhd). apply Hl2, Ha. }
      eexists. split; [reflexivity |]. split.
      * eapply child_list_intro; [exact Hnd' | exact Hpar' | | |].
        -- unfold h3, h2. rewrite !lookup_insert_ne by congruence. exact Hp1.
        -- rewrite replaced_lookup by lia. rewrite decide_False by lia.
           rewrite Hc, Hhd. reflexivity.
        -- intros i a Hi. rewrite replaced_lookup in Hi by lia.
           rewrite (replaced_lookup _ _ _ (S i)) by lia.
           assert (Hbefore : before (<[S k := r]> l) i
                             = if decide (i = 0) then Some r
                               else match i with O => None | S j => l !! j end).
           { destruct i as [| i]; cbn [before].
             - rewrite replaced_last by lia. rewrite decide_True by lia. reflexivity.
             - rewrite replaced_lookup by lia.
               destruct (decide (S i = 0)); [lia |].
               destruct (decide (i = S k)) as [-> | _]; [| reflexivity].
               destruct (decide (S (S k) = S k)); [lia |].
               apply lookup_lt_Some in Hi. lia. }
           rewrite Hbefore. clear Hbefore.
           destruct (decide (i = S k)) as [-> | Hik].
           ++ injection Hi as <-.
              assert (H0 : links h r (next n0) (prev n0)) by (exists n0; auto).
              apply Hfin in H0.
              rewrite !(decide_False (P := r = x)) in H0 by congruence.
              rewrite (decide_False (P := r = q)) in H0 by congruence.
              rewrite (decide_False (P := r = hd)) in H0 by congruence.
              rewrite !(decide_True (P := r = r)) in H0 by reflexivity.
              rewrite Hxn, Hxp in H0.
              rewrite decide_False by lia. rewrite decide_False by lia.
              rewrite Hy, Hq. exact H0.
           ++ pose proof (child_list_links _ _ _ _ _ Hl Hi) as H0. apply Hfin in H0.
              assert (Hax : a <> x) by (eapply (child_list_neq _ _ _ i (S k)); eauto).
              assert (Har : a <> r).
              { intros ->. apply Hfresh. eapply list_elem_of_lookup_2; eauto. }
              rewrite !(decide_False (P := a = x)) in H0 by exact Hax.
              rewrite !(decide_False (P := a = r)) in H0 by exact Har.
              destruct (decide (S i = S k)) as [E | E].
              ** assert (i = k) by lia. subst i. rewrite Hq in Hi. injection Hi as <-.
                 rewrite decide_True in H0 by reflexivity.
                 destruct (decide (k = 0)) as [-> | Hk0].
                 --- rewrite Hhd in Hq. injection Hq as <-.
                     rewrite decide_True in H0 by reflexivity. exact H0.
                 --- assert (Hqhd : q <> hd) by (eapply (child_list_neq _ _ _ k 0); eauto).
                     rewrite decide_False in H0 by exact Hqhd.
                     destruct k as [| k]; [lia |]. exact H0.
              ** assert (Haq : a <> q) by (eapply (child_list_neq _ _ _ i k); eauto; lia).
                 rewrite decide_False in H0 by exact Haq.
                 destruct (decide (i = 0)) as [-> | Hi0].
                 --- rewrite Hhd in Hi. injection Hi as <-.
                     rewrite decide_True in H0 by reflexivity. exact H0.
                 --- assert (Hahd : a <> hd) by (eapply (child_list_neq _ _ _ i 0); eauto).
                     rewrite decide_False in H0 by exact Hahd.
                     destruct i as [| i]; [lia |]. exact H0.
      * assert (H0 : links h x (next nx) (prev nx)) by (exists nx; auto).
        apply Hfin in H0. rewrite !decide_True in H0 by reflexivity. exact H0.
Qed.

(** X21: replacing the node at position [k] of a child list by a node
    outside the list puts the new node at position [k] and leaves a well
    linked list: [next] leads through the new list, [prev] leads back,
    the [prev] of the head is the tail and the [next] of the tail is
    NULL; the replaced node ends with both links cleared.  Replacing a
    node by itself changes nothing and returns true; a NULL parent,
    item or replacement returns false. *)
Theorem replace_keeps_child_list (h : heap) (parent : nat) (l : list nat)
    (k x r : nat) (n0 : node)
    (Hl : child_list h parent l) (Hk : l !! k = Some x)
    (Hfresh : r ∉ l) (Hne : r <> parent) (Hr : h !! r = Some n0) :
  (exists h', stb_json_replaceitemviapointer h (Some parent) (Some x) (Some r)
                = Some (true, h') /\
              child_list h' parent (<[k := r]> l) /\
              circular_prev h' (<[k := r]> l) /\ links h' x None None) /\
  stb_json_replaceitemviapointer h (Some parent) (Some x) (Some x) = Some (true, h) /\
  stb_json_replaceitemviapointer h (Some parent) None (Some r) = Some (false, h) /\
  stb_json_replaceitemviapointer h (Some parent) (Some x) None = Some (false, h) /\
  stb_json_replaceitemviapointer h None (Some x) (Some r) = Some (false, h).
Proof.
  destruct (child_list_parent _ _ _ Hl) as (p & Hp & Hc).
  destruct (l !! 0) as [hd |] eqn:Hhd;
    [| apply lookup_ge_None in Hhd; apply lookup_lt_Some in Hk; lia].
  split; [| split; [| split; [| split]]].
  - destruct (replace_list h parent l k x r n0 Hl Hk Hfresh Hne Hr) as (h' & H1 & H2 & H3).
    exists h'. split; [exact H1 |]. split; [exact H2 |]. split; [| exact H3].
    eapply child_list_circular; eauto.
  - unfold stb_json_replaceitemviapointer. rewrite Hp, Hc, Nat.eqb_refl. reflexivity.
  - unfold stb_json_replaceitemviapointer. rewrite Hp, Hc. reflexivity.
  - unfold stb_json_replaceitemviapointer. rewrite Hp, Hc. reflexivity.
  - reflexivity.
Qed.

Lemma replace_keeps_child_list_witness :
  exists h', stb_json_replaceitemviapointer sample_heap (Some 0) (Some 2) (Some 3)
               = Some (true, h') /\
             child_list h' 0 [1; 3] /\ circular_prev h' [1; 3] /\ links h' 2 None None.
Proof.
  assert (Hfresh : 3 ∉ [1; 2]).
  { rewrite !elem_of_cons. intros [H | [H | H]]; try lia. inversion H. }
  assert (Hne : 3 <> 0) by lia.
  assert (Hitem : sample_heap !! 3 = Some blank) by (vm_compute; reflexivity).
  exact (proj1 (replace_keeps_child_list sample_heap 0 [1; 2] 1 2 3 blank
                  sample_child_list eq_refl Hfresh Hne Hitem)).
Defined.

Lemma count_items_list (h : heap) (parent : nat) (l : list nat) :
  child_list h parent l ->
  forall (fuel j : nat), length l <= j + fuel ->
  count_items fuel h (l !! j) = Some (length l - j).
Proof.
  intros Hl fuel. induction fuel as [| fuel IH]; intros j Hfuel.
  - rewrite (proj2 (lookup_ge_None l j)) by lia. cbn. f_equal. lia.
  - destruct (l !! j) as [a |] eqn:Ha.
    + destruct (child_list_at _ _ _ _ _ Hl Ha) as (n & Hn & Hnx & _).
      cbn [count_items]. rewrite Hn, Hnx, IH by lia. cbn [option_map].
      apply lookup_lt_Some in Ha. f_equal. lia.
    + apply lookup_ge_None in Ha. cbn. f_equal. lia.
Qed.

Lemma child_list_size (h : heap) (parent : nat) (l : list nat) :
  child_list h parent l -> length l <= size h.
Proof.
  intros Hl. pose proof Hl as (Hnd & _).
  assert (Hsub : (list_to_set l : gset nat) ⊆ dom h).
  { intros a Ha. apply elem_of_list_to_set, list_elem_of_lookup in Ha as [i Hi].
    destruct (child_list_at _ _ _ _ _ Hl Hi) as (n & Hn & _).
    apply elem_of_dom. eauto. }
  apply subseteq_size in Hsub.
  rewrite size_list_to_set, size_dom in Hsub by exact Hnd. exact Hsub.
Qed.

(** X22: on a child list, [stb_json_getarraysize] is the number of nodes and
    [get_array_item] is the node at the index, NULL from the length on;
    a negative index and a NULL array give NULL, and a NULL array has
    size 0. *)
Theorem array_access (h : heap) (parent : nat) (l : list nat)
    (Hl : child_list h parent l) :
  stb_json_getarraysize h (Some parent) = Some (wrap_int (Z.of_nat (length l))) /\
  (forall i, get_array_item h (Some parent) i = Some (l !! i)) /\
  (forall z, stb_json_getarrayitem h (Some parent) z
             = Some (if (z <? 0)%Z then None else l !! Z.to_nat z)) /\
  stb_json_getarraysize h None = Some 0%Z /\
  (forall z, stb_json_getarrayitem h None z = Some None).
Proof.
  destruct (child_list_parent _ _ _ Hl) as (p & Hp & Hc).
  assert (Hitem : forall i, get_array_item h (Some parent) i = Some (l !! i)).
  { intros i. unfold get_array_item. rewrite Hp, Hc.
    apply (walk_list h parent l i 0 Hl). }
  split; [| split; [exact Hitem | split; [| split]]].
  - unfold stb_json_getarraysize. rewrite Hp, Hc.
    rewrite (count_items_list h parent l Hl).
    + cbn [option_map]. rewrite Nat.sub_0_r. reflexivity.
    + pose proof (child_list_size h parent l Hl). lia.
  - intros z. unfold stb_json_getarrayitem. destruct (z <? 0)%Z; [reflexivity |].
    apply Hitem.
  - reflexivity.
  - intros z. unfold stb_json_getarrayitem. destruct (z <? 0)%Z; reflexivity.
Qed.

Lemma array_access_witness :
  stb_json_getarraysize sample_heap (Some 0) = Some 2%Z /\
  get_array_item sample_heap (Some 0) 1 = Some (Some 2).
Proof.
  destruct (array_access sample_heap 0 [1; 2] sample_child_list) as (H1 & H2 & _).
  split; [exact H1 | exact (H2 1)].
Defined.

End MemEditFacts.

(** ** The merge patch between a document and itself *)

Lemma compare_strings_self (cs : bool) (k : list ascii) :
  compare_strings (Some k) (Some k) cs = 0.
Proof.
  unfold compare_strings, case_insensitive_strcmp.
  destruct cs; [apply strcmp_refl | apply case_insensitive_loop_refl].
Qed.

Lemma compare_children_self
    (cmp : stb_json -> stb_json -> option (bool * stb_json * stb_json))
    (cs keyed : bool) (l : list stb_json) :
  Forall (fun c => exists c', cmp c c = Some (true, c', c')) l ->
  (keyed = true -> Forall (fun c => string c <> None) l) ->
  exists l', compare_children cmp cs keyed l l = Some (true, l', l').
Proof.
  intros Hc Hk. induction Hc as [| c l (c' & Hc) _ IH]; cbn [compare_children].
  - exists []. reflexivity.
  - assert (Hkey : keyed && negb (compare_strings (string c) (string c) cs =? 0) = false).
    { destruct keyed; [| reflexivity]. specialize (Hk eq_refl).
      inversion Hk as [| ? ? Hs _]; subst. destruct (string c) as [k |]; [| contradiction].
      rewrite compare_strings_self. reflexivity. }
    rewrite Hkey, Hc.
    destruct IH as [l' Hl'].
    { intros E. specialize (Hk E). inversion Hk; assumption. }
    rewrite Hl'. exists (c' :: l'). reflexivity.
Qed.

Lemma comparable_children (v : stb_json) :
  comparable v = true ->
  (kind v = STB_JSON_ARRAY -> Forall (fun c => comparable c = true) (child v)) /\
  (kind v = STB_JSON_OBJECT ->
   Forall (fun c => string c <> None /\ comparable c = true) (child v)).
Proof.
  rewrite comparable_eq. intros H. split; intros Hk; rewrite Hk in H;
    vm_compute (_ =? _) in H; cbn [orb] in H.
  - apply Forall_forall. intros c Hc. rewrite forallb_forall in H.
    apply H, list_elem_of_In, Hc.
  - apply Forall_forall. intros c Hc. rewrite forallb_forall in H.
    specialize (H c (proj1 (list_elem_of_In _ _) Hc)).
    apply andb_true_iff in H as [H1 H2].
    split; [destruct (string c); [discriminate | discriminate H1] | exact H2].
Qed.

Lemma compare_json_nodes_self (cs : bool) (fuel : nat) :
  forall a : stb_json, (height a <= fuel)%nat -> comparable a = true ->
  exists a', compare_json_nodes fuel cs a a = Some (true, a', a').
Proof.
  induction fuel as [| fuel IH]; intros a Hh Ha.
  - rewrite height_children_eq in Hh. lia.
  - pose proof (comparable_children a Ha) as [Harr Hobj].
    rewrite comparable_eq in Ha.
    cbn [compare_json_nodes]. rewrite Z.eqb_refl. cbn [negb].
    destruct (kind a =? STB_JSON_NUMBER) eqn:E1.
    { apply Z.eqb_eq in E1. rewrite E1 in Ha. vm_compute (_ =? _) in Ha. cbn [orb] in Ha.
      rewrite Z.eqb_refl, compare_double_self, Ha. eauto. }
    destruct ((kind a =? STB_JSON_STRING) || (kind a =? STB_JSON_RAW)) eqn:E2.
    { destruct ((kind a =? STB_JSON_FALSE) || (kind a =? STB_JSON_TRUE)
                || (kind a =? STB_JSON_NULL)) eqn:E0.
      - exfalso. apply orb_true_iff in E2.
        repeat (apply orb_true_iff in E0 as [E0 | E0]);
          apply Z.eqb_eq in E0; rewrite E0 in E2; destruct E2 as [E2 | E2]; discriminate E2.
      - destruct (valuestring a) as [s |]; [| discriminate Ha].
        rewrite strcmp_refl. eauto. }
    destruct (kind a =? STB_JSON_ARRAY) eqn:E3.
    { apply Z.eqb_eq in E3. specialize (Harr E3).
      destruct (compare_children_self (compare_json_nodes fuel cs) cs false (child a))
        as [l' Hl']; [| discriminate |].
      - rewrite Forall_forall in Harr |- *. intros c Hc. apply IH; [| apply Harr, Hc].
        apply list_elem_of_In, height_child in Hc. lia.
      - rewrite Hl'. eauto. }
    destruct (kind a =? STB_JSON_OBJECT) eqn:E4; [| eauto].
    apply Z.eqb_eq in E4. specialize (Hobj E4).
    assert (Hsorted : forall c, c ∈ child (sort_object a cs) -> c ∈ child a).
    { intros c Hc. replace (child (sort_object a cs)) with (sort_list (child a) cs) in Hc
        by (destruct a; reflexivity).
      rewrite <- (sort_list_perm (child a) cs) in Hc. exact Hc. }
    destruct (compare_children_self (compare_json_nodes fuel cs) cs true
                (child (sort_object a cs))) as [l' Hl'].
    + rewrite Forall_forall in Hobj |- *. intros c Hc. apply Hsorted in Hc.
      apply IH; [| apply Hobj, Hc]. apply list_elem_of_In, height_child in Hc. lia.
    + intros _. rewrite Forall_forall in Hobj |- *. intros c Hc.
      apply Hsorted in Hc. apply Hobj, Hc.
    + rewrite Hl'. eauto.
Qed.

Lemma generate_members_self
    (generate : stb_json -> stb_json -> option (option stb_json * stb_json * stb_json))
    (cs : bool) (patch : option stb_json) (l : list stb_json) :
  Forall (fun c => string c <> None /\ comparable c = true) l ->
  forall fuel, (length l < fuel)%nat ->
  exists l', generate_members generate cs fuel l l patch = Some (patch, l', l').
Proof.
  induction 1 as [| c l [Hk Hc] _ IH]; intros fuel Hfuel.
  - destruct fuel; [lia |]. exists []. reflexivity.
  - destruct fuel as [| fuel]; [lia |]. cbn [length] in Hfuel.
    cbn [generate_members].
    destruct (string c) as [k |] eqn:Ek; [| contradiction].
    rewrite compare_strings_self. cbn [Z.ltb Z.compare].
    unfold compare_json.
    destruct (compare_json_nodes_self cs (height c) c (Nat.le_refl _) Hc) as [c' Hc'].
    rewrite Hc'.
    destruct (IH fuel ltac:(lia)) as [l' Hl']. rewrite Hl'.
    exists (c' :: l'). reflexivity.
Qed.

(** X23: the merge patch that [generate_merge_patch] makes between an object
    and an equal object is NULL, not an object without members; and
    [merge_patch] applied to a NULL patch returns NULL, the target being
    deleted.  So generating the patch from a comparable object to itself
    and applying it does not give the object back. *)
Theorem merge_patch_of_equal_objects (cs : bool) (v : stb_json)
    (Ho : stb_json_isobject (Some v) = true) (Hv : comparable v = true) :
  (exists v', generate_merge_patch (Some v) (Some v) cs = Some (None, Some v', Some v')) /\
  merge_patch (Some v) None cs = None /\
  (forall r, generate_merge_patch (Some v) (Some v) cs = Some r ->
     merge_patch (Some v) (fst (fst r)) cs = None).
Proof.
  assert (H : exists v', generate_merge_patch (Some v) (Some v) cs
                         = Some (None, Some v', Some v')).
  { unfold generate_merge_patch.
    assert (Hh : exists n, height v = S n).
    { rewrite height_children_eq. eauto. }
    destruct Hh as [n ->]. cbn [generate_merge_patch_nodes]. rewrite Ho. cbn [negb orb].
    cbv zeta.
    assert (Hk : kind v = STB_JSON_OBJECT) by (apply Z.eqb_eq; exact Ho).
    destruct (comparable_children v Hv) as [_ Hobj]. specialize (Hobj Hk).
    assert (Hall : Forall (fun c => string c <> None /\ comparable c = true)
                     (child (sort_object v cs))).
    { rewrite Forall_forall in Hobj |- *. intros c Hc. apply Hobj.
      replace (child (sort_object v cs)) with (sort_list (child v) cs) in Hc
        by (destruct v; reflexivity).
      rewrite <- (sort_list_perm (child v) cs) in Hc. exact Hc. }
    destruct (generate_members_self
                (fun a b => generate_merge_patch_nodes n a b false) cs
                (Some stb_json_createobject) _ Hall
                (S (length (child (sort_object v cs)) + length (child (sort_object v cs))))
                ltac:(lia)) as [l' Hl'].
    rewrite Hl'. cbn [child stb_json_createobject set_type stb_json_new_item]. eauto. }
  split; [exact H |]. split; [reflexivity |].
  intros r Hr. destruct H as [v' Hv']. rewrite Hv' in Hr. injection Hr as <-. reflexivity.
Qed.

Lemma merge_patch_of_equal_objects_witness :
  exists v', generate_merge_patch (Some merge_base) (Some merge_base) true
             = Some (None, Some v', Some v').
Proof.
  apply (merge_patch_of_equal_objects true merge_base); reflexivity.
Defined.

(** X24: when the new document is not an object, the merge patch generated
    for it is a copy of the document, whatever the old document is, and
    applying the patch gives the new document: the round trip holds for
    scalars and arrays that fit under the copy limit and have no
    constant keys.  Allocation is taken to succeed. *)
Theorem merge_patch_round_trip_value (cs : bool) (from : option stb_json) (to : stb_json)
    (Hto : stb_json_isobject (Some to) = false)
    (Hh : (height to <= STB_JSON_CIRCULAR_LIMIT)%nat)
    (Hc : no_constant_keys to = true) :
  generate_merge_patch from (Some to) cs = Some (Some to, from, Some to) /\
  forall patch, generate_merge_patch from (Some to) cs = Some (patch, from, Some to) ->
    merge_patch from patch cs = Some to.
Proof.
  assert (Hdup : stb_json_duplicate (Some to) true = Some to).
  { cbn [stb_json_duplicate].
    destruct (stb_json_duplicate_rec_total to O Hh) as [r Hr].
    rewrite Hr. f_equal. exact (stb_json_duplicate_rec_same to O r Hc Hr). }
  assert (Hgen : generate_merge_patch from (Some to) cs = Some (Some to, from, Some to)).
  { unfold generate_merge_patch. destruct from as [f |]; [| rewrite Hdup; reflexivity].
    assert (Hf : exists n, height f = S n) by (rewrite height_children_eq; eauto).
    destruct Hf as [n ->]. cbn [generate_merge_patch_nodes].
    rewrite Hto. cbn [negb orb]. rewrite Hdup. reflexivity. }
  split; [exact Hgen |].
  intros patch Hp. rewrite Hgen in Hp. injection Hp as <-.
  unfold merge_patch. rewrite merge_patch_node_eq, Hto. cbn [negb]. exact Hdup.
Qed.

Lemma merge_patch_round_trip_value_witness :
  merge_patch (Some merge_base) (Some (array_of [stb_json_createtrue; stb_json_createnull]))
    true
  = Some (array_of [stb_json_createtrue; stb_json_createnull]).
Proof.
  destruct (merge_patch_round_trip_value true (Some merge_base)
              (array_of [stb_json_createtrue; stb_json_createnull])) as [H1 H2].
  - reflexivity.
  - apply Nat.leb_le. vm_compute. reflexivity.
  - reflexivity.
  - apply H2. exact H1.
Defined.

(** ** Lookup in a sorted object *)

Lemma item_of_member (cs : bool) (l : list stb_json) (k : list ascii) (m : stb_json) :
  well_keyed cs l -> c_string k = true ->
  m ∈ l -> member_key cs m = Some (key_text cs k) ->
  item_of cs l k = Some m.
Proof.
  intros [Hl Hnd] Hk Hm Hkey.
  pose proof (get_object_item_index_first cs l k Hl Hk) as H. unfold item_of.
  destruct (get_object_item_index l k cs) as [i |].
  - destruct H as [(m' & Hm' & Hkey') _]. rewrite Hm'. f_equal.
    apply list_elem_of_lookup in Hm as [j Hj].
    rewrite nth_error_lookup in Hm'.
    assert (Hij : i = j).
    { apply (NoDup_lookup (map (member_key cs) l) i j (Some (key_text cs k)) Hnd).
      - change (map (member_key cs) l) with (member_key cs <$> l).
        rewrite list_lookup_fmap, Hm'. cbn. f_equal. exact Hkey'.
      - change (map (member_key cs) l) with (member_key cs <$> l).
        rewrite list_lookup_fmap, Hj. cbn. f_equal. exact Hkey. }
    subst j. congruence.
  - exfalso. apply H. rewrite <- Hkey. apply list_elem_of_In, in_map, list_elem_of_In, Hm.
Qed.

Lemma well_keyed_perm (cs : bool) (l l' : list stb_json) :
  Permutation l l' -> well_keyed cs l -> well_keyed cs l'.
Proof.
  intros Hp [Hl Hnd]. split.
  - unfold keyed_members in *. rewrite forallb_forall in *. intros m Hm. apply Hl.
    eapply Permutation_in; [symmetry; exact Hp | exact Hm].
  - change (map (member_key cs) l') with (member_key cs <$> l').
    rewrite <- Hp. exact Hnd.
Qed.

Lemma item_of_perm (cs : bool) (l l' : list stb_json) (k : list ascii) :
  Permutation l l' -> well_keyed cs l -> c_string k = true ->
  item_of cs l' k = item_of cs l k.
Proof.
  intros Hp Hw Hk. pose proof (well_keyed_perm cs l l' Hp Hw) as Hw'.
  pose proof (get_object_item_index_first cs l' k (proj1 Hw') Hk) as H.
  unfold item_of at 1.
  destruct (get_object_item_index l' k cs) as [i |].
  - destruct H as [(m & Hm & Hkey) _]. rewrite Hm. symmetry.
    apply item_of_member; [exact Hw | exact Hk | | exact Hkey].
    rewrite Hp. apply list_elem_of_In. eapply nth_error_In. exact Hm.
  - symmetry. apply item_of_none; [apply Hw | exact Hk |].
    intros Hin. apply H.
    change (map (member_key cs) l') with (member_key cs <$> l').
    change (map (member_key cs) l) with (member_key cs <$> l) in Hin.
    rewrite <- Hp. exact Hin.
Qed.

(** X25: sorting the members of an object does not change what a lookup
    finds: in an object whose members have distinct keys,
    [stb_json_getobjectitem] and its case-sensitive variant return the
    same member for every key before and after [sort_object], whichever
    of the two orders [sort_object] sorts by; the members still have
    distinct keys. *)
Theorem sort_object_keeps_lookup (cs sort_cs : bool) (o : stb_json) (k : list ascii)
    (Hw : well_keyed cs (child o)) (Hk : c_string k = true) :
  object_item cs (Some (sort_object o sort_cs)) (Some k) = object_item cs (Some o) (Some k) /\
  well_keyed cs (child (sort_object o sort_cs)).
Proof.
  assert (Hc : child (sort_object o sort_cs) = sort_list (child o) sort_cs)
    by (destruct o; reflexivity).
  pose proof (sort_list_perm (child o) sort_cs) as Hp.
  rewrite !object_item_eq, Hc. split.
  - apply item_of_perm; assumption.
  - apply (well_keyed_perm cs _ _ Hp Hw).
Qed.

Lemma sort_object_keeps_lookup_witness :
  object_item false (Some (sort_object sample_test true)) (Some (lit "OP"))
  = object_item false (Some sample_test) (Some (lit "OP")).
Proof.
  apply (sort_object_keeps_lookup false true sample_test (lit "OP")); [| reflexivity].
  split; [reflexivity |]. apply (bool_decide_unpack _). vm_compute. exact I.
Defined.

(** ** What may follow the value *)

Lemma whitespace_run_all (r rest : list ascii) :
  forallb (fun c => code c <=? 32) r = true ->
  whitespace_run (r ++ rest) = (length r + whitespace_run rest)%nat.
Proof.
  induction r as [| c r IH]; cbn [forallb app whitespace_run length]; [reflexivity |].
  intros H. apply andb_true_iff in H as [Hc Hr]. rewrite Hc, (IH Hr). reflexivity.
Qed.

Lemma whitespace_run_stops (r rest : list ascii) :
  forallb (fun c => code c <=? 32) r = false ->
  exists c, nth_error (r ++ rest) (whitespace_run (r ++ rest)) = Some c /\
            (code c <=? 32) = false /\ (whitespace_run (r ++ rest) < length r)%nat.
Proof.
  induction r as [| c r IH]; cbn [forallb app whitespace_run length]; [discriminate |].
  destruct (code c <=? 32) eqn:Hc; cbn [andb].
  - intros H. destruct (IH H) as (x & Hx & Hgt & Hlt). exists x.
    cbn [nth_error]. split; [exact Hx | split; [exact Hgt | lia]].
  - intros _. exists c. cbn [nth_error]. split; [reflexivity | split; [exact Hc | lia]].
Qed.

Section NullTerminated.
Variable pow10 : Z -> double.
Variable STB_JSON_NESTING_LIMIT : nat.
Variable parse_string : stb_json -> parse_buffer -> outcome (stb_json * parse_buffer).
Hypothesis parse_string_cursor :
  forall item b r b', parse_string item b = Done (r, b') -> cursor_advanced b b'.

Lemma parse_start_content (bytes : list ascii) : content (parse_start bytes) = bytes.
Proof.
  unfold parse_start. rewrite (proj1 (skip_whitespace_fields _)).
  unfold skip_utf8_bom. cbn [offset Nat.eqb negb].
  destruct (_ && _); reflexivity.
Qed.

(** X26: with [require_null_terminated] the parser accepts a text exactly when
    every byte behind the value is whitespace for
    [buffer_skip_whitespace], that is has a code of at most 32; without
    it the bytes behind the value are not looked at.  The value is what
    [parse_value] reads at the start of the text. *)
Theorem null_terminated_parse (text : list ascii) (item : stb_json) (b' : parse_buffer)
    (Htext : c_string text = true)
    (Hvalue : parse_value pow10 STB_JSON_NESTING_LIMIT parse_string
                (S (2 * length (text ++ [ascii_of_nat 0]))) stb_json_new_item
                (parse_start (text ++ [ascii_of_nat 0])) = Done (item, b')) :
  stb_json_parse_withopts pow10 STB_JSON_NESTING_LIMIT parse_string (Some text) false
  = Done item /\
  stb_json_parse_withopts pow10 STB_JSON_NESTING_LIMIT parse_string (Some text) true
  = (if forallb (fun c => code c <=? 32) (skipn (offset b') text) then Done item else Failed).
Proof.
  set (bytes := text ++ [ascii_of_nat 0]) in *.
  assert (Hlen : length bytes = S (length text))
    by (unfold bytes; rewrite length_app; cbn [length]; lia).
  assert (Hrun : forall rnt,
            stb_json_parse_withopts pow10 STB_JSON_NESTING_LIMIT parse_string (Some text) rnt
            = if rnt then
                let buffer := buffer_skip_whitespace b' in
                if Nat.leb (length (content buffer)) (offset buffer)
                   || negb (at_is buffer 0 (ascii_of_nat 0))
                then Failed else Done item
              else Done item).
  { intros rnt. unfold stb_json_parse_withopts, stb_json_parse_withlengthopts.
    fold bytes. rewrite Hlen. cbn [Nat.eqb].
    unfold parse_start in Hvalue. rewrite Hlen in Hvalue.
    destruct (skip_utf8_bom (mk_parse_buffer bytes 0 0)) as [b0 |] eqn:Ebom.
    - rewrite Hvalue. cbn [bind]. reflexivity.
    - exfalso. unfold skip_utf8_bom in Ebom. cbn [offset Nat.eqb negb] in Ebom.
      destruct (_ && _); discriminate Ebom. }
  split; [apply (Hrun false) |]. rewrite (Hrun true). cbv zeta.
  destruct (proj1 (parser_cursor pow10 STB_JSON_NESTING_LIMIT parse_string
                     parse_string_cursor _) _ _ _ _ Hvalue) as (Ho & Hc & _).
  rewrite parse_start_content in Hc. rewrite Hc in Ho.
  destruct (skip_whitespace_fields b') as [Hc' _].
  unfold at_is, can_access_at_index, buffer_at_offset.
  rewrite Hc', Hc, Nat.add_0_r.
  unfold buffer_skip_whitespace. rewrite Hc.
  destruct (Nat.eq_dec (offset b') (length bytes)) as [Eend | Eend].
  - (* the value ends at the end of the buffer *)
    rewrite Eend, skipn_all. cbn [whitespace_run]. rewrite Nat.add_0_r, Nat.eqb_refl.
    cbn [offset set_offset].
    rewrite Hlen, skipn_all2 by lia. cbn [forallb].
    replace (Nat.leb (S (length text)) (S (length text) - 1)) with false
      by (symmetry; apply Nat.leb_gt; lia).
    replace (Nat.ltb (S (length text) - 1) (S (length text))) with true
      by (symmetry; apply Nat.ltb_lt; lia).
    replace (S (length text) - 1)%nat with (length text) by lia.
    unfold bytes. rewrite nth_error_app2 by lia. rewrite Nat.sub_diag. reflexivity.
  - assert (Hrest : skipn (offset b') bytes = skipn (offset b') text ++ [ascii_of_nat 0]).
    { unfold bytes. rewrite skipn_app.
      replace (offset b' - length text)%nat with O by lia. reflexivity. }
    rewrite Hrest.
    destruct (forallb (fun c => code c <=? 32) (skipn (offset b') text)) eqn:Hws.
    + rewrite (whitespace_run_all _ _ Hws). cbn [whitespace_run].
      change (code (ascii_of_nat 0) <=? 32) with true. cbv iota. cbn [whitespace_run].
      rewrite length_skipn.
      replace (offset b' + (length text - offset b' + 1))%nat with (length bytes) by lia.
      rewrite Nat.eqb_refl. cbn [offset set_offset]. rewrite Hlen.
      replace (Nat.leb (S (length text)) (S (length text) - 1)) with false
        by (symmetry; apply Nat.leb_gt; lia).
      replace (Nat.ltb (S (length text) - 1) (S (length text))) with true
        by (symmetry; apply Nat.ltb_lt; lia).
      replace (S (length text) - 1)%nat with (length text) by lia.
      unfold bytes. rewrite nth_error_app2 by lia. rewrite Nat.sub_diag. reflexivity.
    + destruct (whitespace_run_stops _ [ascii_of_nat 0] Hws) as (c & Hc0 & Hgt & Hlt).
      rewrite length_skipn in Hlt.
      set (run := whitespace_run (skipn (offset b') text ++ [ascii_of_nat 0])) in *.
      replace (Nat.eqb (offset b' + run) (length bytes)) with false
        by (symmetry; apply Nat.eqb_neq; lia).
      cbn [offset set_offset].
      rewrite <- Hrest in Hc0. rewrite nth_error_lookup, lookup_drop in Hc0.
      rewrite nth_error_lookup, Hc0.
      replace (Nat.leb (length bytes) (offset b' + run)) with false
        by (symmetry; apply Nat.leb_gt; lia).
      replace (Nat.ltb (offset b' + run) (length bytes)) with true
        by (symmetry; apply Nat.ltb_lt; lia).
      assert (Hne : Ascii.eqb c (ascii_of_nat 0) = false).
      { destruct (Ascii.eqb c (ascii_of_nat 0)) eqn:E; [| reflexivity].
        apply Ascii.eqb_eq in E. subst c. discriminate Hgt. }
      rewrite Hne. reflexivity.
Qed.

End NullTerminated.

Lemma null_terminated_parse_witness :
  stb_json_parse_withopts pow10_ref 1000 parse_string (Some (lit "[1] x")) false
  = Done (array_of [stb_json_createnumber (double_of_int 1)]) /\
  stb_json_parse_withopts pow10_ref 1000 parse_string (Some (lit "[1] x")) true = Failed.
Proof.
  apply (null_terminated_parse pow10_ref 1000 parse_string parse_string_advances
           (lit "[1] x") (array_of [stb_json_createnumber (double_of_int 1)])
           (mk_parse_buffer (lit "[1] x" ++ [ascii_of_nat 0]) 3 0)).
  - reflexivity.
  - vm_compute. reflexivity.
Defined.

(** ** Printed strings and UTF-8 *)

Lemma is_valid_utf8_eq (s : list ascii) :
  is_valid_utf8 s =
  match s with
  | [] => true
  | c :: s1 =>
      if code c =? 0 then true
      else if code c <? 128 then is_valid_utf8 s1
      else if Z.land (code c) 224 =? 192 then
        match s1 with
        | c1 :: s2 => if negb (continuation_byte c1) then false else is_valid_utf8 s2
        | [] => false
        end
      else if Z.land (code c) 240 =? 224 then
        match s1 with
        | c1 :: s2 =>
            if negb (continuation_byte c1) then false
            else
              match s2 with
              | c2 :: s3 => if negb (continuation_byte c2) then false else is_valid_utf8 s3
              | [] => false
              end
        | [] => false
        end
      else if Z.land (code c) 248 =? 240 then
        match s1 with
        | c1 :: s2 =>
            if negb (continuation_byte c1) then false
            else
              match s2 with
              | c2 :: s3 =>
                  if negb (continuation_byte c2) then false
                  else
                    match s3 with
                    | c3 :: s4 =>
                        if negb (continuation_byte c3) then false else is_valid_utf8 s4
                    | [] => false
                    end
              | [] => false
              end
        | [] => false
        end
      else false
  end.
Proof. destruct s; reflexivity. Qed.

(** The bytes [escape_char] writes for a byte below 128 are skipped by
    [is_valid_utf8] one by one. *)
Lemma is_valid_utf8_escape_ascii (c : ascii) (rest : list ascii) :
  (code c <? 128) = true ->
  is_valid_utf8 (escape_char c ++ rest) = is_valid_utf8 rest.
Proof.
  destruct c as [b0 b1 b2 b3 b4 b5 b6 b7].
  destruct b0, b1, b2, b3, b4, b5, b6, b7; intros H; try discriminate H; reflexivity.
Qed.

Lemma escape_char_high (c : ascii) : (code c <? 128) = false -> escape_char c = [c].
Proof.
  destruct c as [b0 b1 b2 b3 b4 b5 b6 b7].
  destruct b0, b1, b2, b3, b4, b5, b6, b7; intros H; try discriminate H; reflexivity.
Qed.

Lemma escape_char_head (c : ascii) :
  exists h t, escape_char c = h :: t /\ continuation_byte h = continuation_byte c.
Proof.
  destruct c as [b0 b1 b2 b3 b4 b5 b6 b7].
  destruct b0, b1, b2, b3, b4, b5, b6, b7; eexists _, _; split; reflexivity.
Qed.

(** The text behind a byte of a string, as printed: it begins with a
    continuation byte exactly when the string goes on with one, and then
    goes on with the printed rest. *)
Lemma printed_continuation (s : list ascii) :
  exists h t, flat_map escape_char s ++ [dquote] = h :: t /\
    match s with
    | [] => continuation_byte h = false
    | c1 :: s2 =>
        continuation_byte h = continuation_byte c1 /\
        (continuation_byte c1 = true -> t = flat_map escape_char s2 ++ [dquote])
    end.
Proof.
  destruct s as [| c1 s2]; [eexists _, _; split; reflexivity |].
  destruct (escape_char_head c1) as (h & t & He & Hc).
  cbn [flat_map]. rewrite He. cbn [app]. eexists _, _. split; [reflexivity |].
  split; [exact Hc |]. intros H. rewrite (escape_char_continuation c1 H) in He.
  injection He as _ <-. reflexivity.
Qed.

Ltac continuation_step str x rest :=
  let h := fresh "h" in
  let t := fresh "t" in
  let Ht := fresh "Ht" in
  let Hs := fresh "Hs" in
  destruct (printed_continuation str) as (h & t & Ht & Hs); rewrite Ht;
  destruct str as [| x rest];
  [ rewrite Hs; reflexivity
  | let H1 := fresh "H" in
    let H2 := fresh "H" in
    destruct Hs as [H1 H2]; rewrite H1;
    destruct (continuation_byte x) eqn:?; [| reflexivity];
    rewrite (H2 eq_refl); cbn [negb] ].

Lemma is_valid_utf8_printed (n : nat) :
  forall s : list ascii, (length s <= n)%nat -> c_string s = true ->
  is_valid_utf8 (flat_map escape_char s ++ [dquote]) = is_valid_utf8 s.
Proof.
  induction n as [| n IH]; intros s Hn Hs.
  - destruct s; [reflexivity | simpl in Hn; lia].
  - destruct s as [| c s1]; [reflexivity |].
    cbn [c_string forallb] in Hs. apply andb_true_iff in Hs as [Hc Hs1].
    apply negb_true_iff in Hc. cbn [length] in Hn.
    rewrite (is_valid_utf8_eq (c :: s1)), Hc. cbn [flat_map]. rewrite <- app_assoc.
    destruct (code c <? 128) eqn:E.
    + rewrite is_valid_utf8_escape_ascii by exact E. apply IH; [lia | exact Hs1].
    + rewrite (escape_char_high c E). cbn [app].
      rewrite is_valid_utf8_eq, Hc, E.
      assert (Hsub : forall x l, c_string (x :: l) = true -> c_string l = true).
      { intros x l H. cbn [c_string forallb] in H.
        apply andb_true_iff in H as [_ H]. exact H. }
      destruct (Z.land (code c) 224 =? 192).
      { continuation_step s1 c1 s2. apply IH; [cbn [length] in Hn; lia | eauto]. }
      destruct (Z.land (code c) 240 =? 224).
      { continuation_step s1 c1 s2. continuation_step s2 c2 s3.
        apply IH; [cbn [length] in Hn; lia | eauto]. }
      destruct (Z.land (code c) 248 =? 240); [| reflexivity].
      continuation_step s1 c1 s2. continuation_step s2 c2 s3. continuation_step s3 c3 s4.
      apply IH; [cbn [length] in Hn; lia | eauto].
Qed.

(** X27: printing a string preserves what [is_valid_utf8] says about it: the
    text [print_string_ptr] writes for a C string is valid UTF-8 exactly
    when the string is. *)
Theorem print_string_ptr_utf8 (s : list ascii) (Hs : c_string s = true) :
  is_valid_utf8 (print_string_ptr (Some s)) = is_valid_utf8 s.
Proof.
  unfold print_string_ptr. rewrite is_valid_utf8_eq.
  change (code dquote =? 0) with false. change (code dquote <? 128) with true. cbv iota.
  apply (is_valid_utf8_printed (length s)); [lia | exact Hs].
Qed.

Lemma print_string_ptr_utf8_witness :
  is_valid_utf8 (print_string_ptr (Some [ascii_of_nat 195; ascii_of_nat 10]))
  = is_valid_utf8 [ascii_of_nat 195; ascii_of_nat 10].
Proof.
  apply (print_string_ptr_utf8 [ascii_of_nat 195; ascii_of_nat 10]). reflexivity.
Defined.
